(* ===== verification/_CoqProject ===== *)
-Q . S2P
Prelude.v
Checksum.v
Base64.v
Md5.v
Alloc.v
Pool.v
Secure.v
Heap.v
Tables.v
Chains.v
DLinks.v
DList.v
EventLoop.v
Ini.v
ThreadPool.v
Log.v
LogRing.v
LogFile.v
PubSub.v
PubSubIpc.v
Cli.v
Telnet.v
LoadLib.v
Config.v
Socket.v
Endpoint.v
NetBuf.v
Poller.v
TimerTask.v
Ipc.v
IpcMem.v
Worker.v
Runtime.v
Lifecycle.v
Signals.v
Console.v
Health.v
Business.v
Json.v
Mxml.v
Xml.v
Helpers.v
SysTime.v
Threads.v
RbTree.v
RbInsert.v
