(* ===== verification/Prelude.v ===== *)
(** * libnv: a verification development

    libnv is a C library for Linux services: algorithms and containers
    ([src/base/algo], [src/base/data]), a memory pool and INI files ([src/base]), a
    thread pool and small security helpers ([src/base/sys]), an event loop
    ([src/event]), an asynchronous logger ([src/log]) and a process runtime
    ([src/core]).  This development models its own logic as executable functions,
    or as step relations where threads interleave, and proves what each part promises.

    ** Conventions

    Fallible code returns an [outcome]: [Ret] for a return, [UB] where the C standard
    leaves the behaviour undefined (null dereference, out-of-bounds access, use after
    free, signed overflow), [Exit] for a call of [exit].  A theorem that a call is [Ret]
    therefore includes memory safety.  Integers are [Z] with the wrap-around of their
    width written out ([u8] ... [u64], [i8] ... [i64]); strings are lists of bytes before
    the NUL ([cstr]).  Structures reached by pointers live in a finite map from addresses
    ([gmap]), arrays are lists whose bounds are checked by [deref].  Library calls that
    are not part of the repository (malloc, the clock, epoll, handlers) are arguments:
    [Alloc.v] states what is asked of [malloc] as a type class with a concrete instance.
    Loops that are not structural take fuel; each theorem about them proves that the
    stated fuel (the length of the list, the size of the array, the number of
    doublings) is enough.

    ** Files

    - [Prelude] (this file): outcomes, machine integers, C strings and library string
      functions, lists and sums.
    - [Checksum] ([base/algo/nv_crc16.c], [nv_hash.c]): the CRC-16 of a message with its
      own CRC appended is zero and every single-byte error is detected; the DJB2 hash.
    - [Base64] ([base/algo/nv_base64.c]): the encoder computes RFC 4648 text except for the
      padding of lengths that leave one byte; decoding gives the input back exactly when
      its length is a multiple of three, and a closed form of what it gives otherwise.
    - [Md5] ([base/algo/nv_md5.c]): the streaming digest does not depend on the chunks
      the file is read in; the digest is not the one of RFC 1321.
    - [Alloc] ([base/sys/nv_mem.c]): memory, the interface of [malloc], the wrappers.
    - [Pool] ([base/nv_pool.c]): every operation of the memory pool; allocations are
      aligned, inside their block, disjoint and keep the pool well formed; realloc copies.
    - [Secure] ([base/sys/nv_secure.c]): constant-time comparison is equality; the
      password rule.
    - [Heap] ([base/data/nv_heap.c]): insertion and extraction keep the heap order;
      inserting and extracting sorts.
    - [Tables] ([nv_hash_table.c], [nv_dict.c], [nv_set.c], [nv_graph.c] in [base/data]):
      refinement to maps, maps of stacks, sets and edge sets.
    - [Chains] ([nv_stack.c], [nv_queue.c]): refinement to lists over a heap of nodes.
    - [DLinks]: doubly linked lists in a heap, as an interface (class [Linked]) with the
      lemmas on insertion and removal that [DList] and [EventLoop] share.
    - [DList] ([base/data/nv_list.c]): refinement to lists.
    - [EventLoop] ([event/nv_event.c], [nv_loop.c]): events, timers, idle events,
      signals, the main loop; expired timers fire once each and in order if handlers leave
      the lists alone, the wait is never longer than to the next timer (less than 2^31 ms
      ahead), stop ends the loop; re-arming inside a handler loses timers.
    - [Ini] ([base/nv_ini.c]): loading printed entries gives them back.
    - [ThreadPool] ([base/sys/nv_thread_pool.c]): workers, submitters, idle waiters and a
      shutdown as a step relation; order, no loss, no lost wakeup, termination and
      completeness of a shutdown.
    - [Log] ([log/nv_log.c]): settings, the ring used sequentially (a bounded queue for
      each overflow policy), line assembly and file rotation.
    - [LogRing] ([log/nv_log.c]): the ring, the log thread and the shutdown under
      concurrency, one atomic access per step: order, accounting, no lost wakeup and drain
      for the policies DROP and BLOCK; runs in which lines are lost, OVERWRITE breaks the
      ring, and the ring is freed under a producer.
    - [LogFile] ([log/nv_log.c]): headers, the log file, console and syslog, start, close and the
      hex dump; without concurrency a line reaches the file, the kept files are the end of the log, a dump reads
      back; the queue size cannot be set, and a stream is closed under its writer.
    - [PubSub] ([core/bus/nv_core_pubsub.c]): the broker of the local socket refines a set
      of subscriptions and forwarded messages arrive; in the in-process bus each
      publication calls each handler of its snapshot once, and no handler runs after its
      unsubscribe returned, unless it unsubscribes itself and waits for ever.
    - [Cli] ([core/cli/nv_core_cli.c]): the command registry refines a map for names
      below 32 bytes, lines are
      dispatched to the command they name, completion extends the typed word.
    - [Telnet] ([core/cli/nv_core_telnet.c]): a session over [Cli] and [Secure]: it stays
      well formed whatever is received, runs no command before a login, and logs in
      exactly the configured user; leaving it uses freed memory.
    - [LoadLib] ([core/loadlib/nv_core_loadlib.c]): plugin directives are parsed back,
      resolved paths are confined, joining is bounded, a load is all or nothing; a thread
      that outlives its timeout writes to its freed record.
    - [Config] ([core/runtime/nv_core_args.c], [nv_core_config.c]): the command line, each
      option the configuration file gives (over [Ini], [LoadLib] and the settings of
      [Log]), validation, and what a rejected reload restores.
    - [RbTree], [RbInsert] ([base/data/nv_rb_tree.c]): nodes with parent pointers in a heap
      against trees and their contexts; an insertion of a new key keeps order and balance,
      a search needs logarithmically many steps, and a second insertion of a key
      dereferences NULL.
    - [Socket] ([base/net/nv_socket.c]): open descriptors as a map, the kernel's answers as
      an argument; the echo server echoes, and writes past its buffer when it is filled.
    - [Endpoint], [NetBuf] ([event/nv_tcp.c], [event/nv_udp.c]): endpoints, servers and
      clients over [Socket] and [EventLoop] give back what they take; their error paths
      keep pointers and numbers that are no longer theirs; buffers are queues of bytes and
      pools keep what is returned to them.
    - [TimerTask] ([base/sys/nv_timer_task.c]): slots, kernel timers and registrations agree
      in every reachable state; a round fires each ready timer once.
    - [Worker] ([core/runtime/nv_core_worker.c]): the master's table lists its children, dead
      workers are respawned; supervision ends only when respawning is off and every worker
      has ended, with no child left, and no signal ends it.
    - [Runtime] ([core/runtime/nv_core_run.c], [nv_core_startup.c], [nv_core_lock.c]): one
      instance at a time, locks and strings given back by every return of the main function,
      what a fatal signal or a worker leaves, and the deadline of a shutdown; a
      refused instance removes the running one's pid file.
    - [Helpers] ([base/sys/nv_string.c], [nv_time.c], [base/misc/nv_convert.c],
      [base/core/nv_base.c]): comparison without case against the C library's, month names,
      BCD, and the table of modules with its order of initialisation.
    - [Signals] ([base/ipc/nv_signal.c], [nv_core_startup.c]): the table of handlers refines a
      map; a pending signal to quit stops the event loop.
    - [Console] ([core/cli/nv_core_ctl.c], [nv_core_telnet.c]): listeners and sessions over
      [EventLoop]; the cleanup gives every descriptor back, a refused connection is closed
      twice, and the control socket's handler never returns to the loop.
    - [Health] ([core/runtime/nv_core_health.c], [nv_core_modules.c],
      [base/sys/nv_watchdog.c]): heartbeat and tick on the loop, watchdog, published counters.
    - [PubSubIpc] ([core/bus/nv_core_pubsub.c]): the broker and its clients over the datagram
      sockets of one machine; a publication reaches exactly the registered clients, the
      handlers only of those with a topic below 64 bytes, and a
      socket file with a long path is left behind.
    - [Ipc] ([base/ipc/nv_message_queue.c], [nv_semaphore.c]): a message queue is a bounded queue,
      a semaphore admits as many threads as its value; destroying a queue cuts its users off.
    - [IpcMem] ([nv_mmap.c], [nv_shm.c], [nv_pipe.c], [nv_fifo.c] in [base/ipc]): writes to
      mapped files for every offset and length, pipes as streams; what shared memory and
      named pipes leave behind or hide.
    - [Lifecycle] ([core/runtime/nv_core_run.c], [nv_core_startup.c]): the saved command line,
      the start of the logger, fatal signals; a signal from outside is recorded, a fault of the
      program itself runs its handler for ever.
    - [Business] ([core/runtime/nv_core.c]): the initialisation of the business modules over the
      components it calls, and the cleanup, which gives back what they took wherever it stopped,
      blocked signals apart.
    - [Json] ([base/data/nv_json.c]): JSON documents over what cJSON promises; a member is added
      whole or not at all, and read back unless an earlier one has its name.
    - [Mxml] ([third_party/mxml]): the node tree of Mini-XML as far as the wrappers use it, with
      its deletion loop and its walk in document order.
    - [Xml] ([base/data/nv_xml.c]): XML documents over it; removal frees exactly a subtree, a
      search finds the first match, text, attributes and numbers are read back or not.
    - [Poller] ([base/net/nv_socket_select.c], [nv_socket_poll.c], [nv_socket_epoll.c]): sets of
      descriptors to wait for; a bounded list, a map, and a set that forgets.
    - [SysTime] ([base/sys/nv_time.c]): dates are read back as they were printed; the current
      time never is.
    - [Threads] ([base/sys/nv_thread.c], [nv_fork.c], [nv_file.c]): thread attributes, deadlines,
      daemons and stream sizes.

    In the concurrent models a critical section, or an atomic access, is one step, and
    steps of different threads interleave arbitrarily (sequential consistency);
    condition variables may wake spuriously.  Invariants are proved by induction over
    the reachable configurations.

    ** Not modelled

    Wrappers of single system calls, hardware, SQLite and its
    wrappers, cJSON, the parser and printer of Mini-XML, formatted output, floating point, and
    the process runtime under [src/core] as far as no file above names it. *)

From stdpp Require Export base tactics option list numbers strings gmap.
From Stdlib Require Export ZArith Lia.
From Stdlib Require Ascii.
Export Ascii.AsciiSyntax.

Declare Scope nv_scope.
Delimit Scope nv_scope with nv.
Open Scope Z_scope.

(** ** Outcomes of C code

    [Ret a] is a normal return, [UB] an access the C standard leaves undefined
    (NULL dereference, out-of-bounds access, use after free, signed overflow,
    division by zero) and [Exit c] a call of [exit]. *)
Inductive outcome (A : Type) : Type :=
  | Ret (a : A)
  | UB
  | Exit (code : Z).
Arguments Ret {A} _.
Arguments UB {A}.
Arguments Exit {A} _.

#[export] Instance outcome_ret : MRet outcome := @Ret.
#[export] Instance outcome_bind : MBind outcome := fun A B f m =>
  match m with
  | Ret a => f a
  | UB => UB
  | Exit c => Exit c
  end.

(** Reading through a pointer or an index that may be invalid. *)
Definition deref {A} (o : option A) : outcome A :=
  match o with Some a => Ret a | None => UB end.

Definition is_ret {A} (m : outcome A) : Prop := exists a, m = Ret a.

#[export] Instance outcome_eq_dec {A} `{EqDecision A} : EqDecision (outcome A).
Proof. solve_decision. Defined.

Lemma bind_Ret {A B} (a : A) (f : A -> outcome B) : (Ret a ≫= f) = f a.
Proof. reflexivity. Qed.

Lemma bind_assoc {A B C} (m : outcome A) (f : A -> outcome B) (g : B -> outcome C) :
  ((m ≫= f) ≫= g) = (m ≫= fun a => f a ≫= g).
Proof. by destruct m. Qed.

Lemma bind_inv {A B} (m : outcome A) (f : A -> outcome B) b :
  (m ≫= f) = Ret b -> exists a, m = Ret a /\ f a = Ret b.
Proof. destruct m; simpl; try done. eauto. Qed.

Lemma deref_Ret {A} (o : option A) a : deref o = Ret a <-> o = Some a.
Proof. destruct o; simpl; naive_solver. Qed.

(** ** Machine integers *)
Definition wrap (w x : Z) : Z := x mod 2 ^ w.
Definition swrap (w x : Z) : Z :=
  let y := x mod 2 ^ w in if y <? 2 ^ (w - 1) then y else y - 2 ^ w.
Abbreviation u8 := (wrap 8).
Abbreviation u16 := (wrap 16).
Abbreviation u32 := (wrap 32).
Abbreviation u64 := (wrap 64).
Abbreviation i8 := (swrap 8).
Abbreviation i32 := (swrap 32).
Abbreviation i64 := (swrap 64).
Definition INT_MAX : Z := 2147483647.
Definition INT_MIN : Z := -2147483648.

Definition in_range (w x : Z) : Prop := 0 <= x < 2 ^ w.
Abbreviation is_byte := (in_range 8).

(** Signed 32-bit arithmetic: overflow is undefined. *)
Definition int_chk (x : Z) : outcome Z :=
  if (INT_MIN <=? x) && (x <=? INT_MAX) then Ret x else UB.

Lemma wrap_small w x : in_range w x -> wrap w x = x.
Proof. unfold in_range, wrap. intros. by apply Z.mod_small. Qed.

Lemma wrap_range w x : 0 <= w -> in_range w (wrap w x).
Proof. intros. apply Z.mod_pos_bound. lia. Qed.

Lemma swrap_small w x : 1 <= w -> - 2 ^ (w - 1) <= x < 2 ^ (w - 1) -> swrap w x = x.
Proof.
  intros Hw Hx. unfold swrap.
  assert (2 ^ w = 2 * 2 ^ (w - 1)) as E.
  { rewrite <- Z.pow_succ_r by lia. f_equal. lia. }
  destruct (Z.leb_spec 0 x).
  - rewrite Z.mod_small by lia. destruct (Z.ltb_spec x (2 ^ (w - 1))); lia.
  - rewrite <- (Z.mod_add x 1) by lia. rewrite Z.mod_small by lia.
    destruct (Z.ltb_spec (x + 1 * 2 ^ w) (2 ^ (w - 1))); lia.
Qed.

(** Keep [2 ^ w] folded until a goal needs its value. *)
Lemma pow2_8 : 2 ^ 8 = 256. Proof. reflexivity. Qed.
Lemma pow2_16 : 2 ^ 16 = 65536. Proof. reflexivity. Qed.
Lemma pow2_32 : 2 ^ 32 = 4294967296. Proof. reflexivity. Qed.
Lemma pow2_64 : 2 ^ 64 = 18446744073709551616. Proof. reflexivity. Qed.
Lemma pow2_64_63 : 2 ^ 64 = 2 ^ 63 + 2 ^ 63. Proof. reflexivity. Qed.

(** [width_unfold] turns ranges and wraps of known widths into linear facts. *)
Ltac width_unfold :=
  unfold in_range, wrap in *; rewrite ?pow2_8, ?pow2_16, ?pow2_32, ?pow2_64 in *.
Ltac width_lia := width_unfold; Z.div_mod_to_equations; lia.

(** ** C strings

    A string is the list of its bytes before the terminating NUL, each byte
    as an [unsigned char] value.  A [char *] that may be NULL is an
    [option cstr]. *)
Abbreviation cstr := (list Z).

Definition ch (a : Ascii.ascii) : Z := Z.of_N (Ascii.N_of_ascii a).
Definition str (s : string) : cstr := map ch (String.list_ascii_of_string s).
Arguments ch a%_char_scope.
Arguments str s%_string_scope.

(** The bytes of a C string are non-zero. *)
Definition char_ok (c : Z) : Prop := 1 <= c < 256.
Definition cstr_ok (s : cstr) : Prop := Forall char_ok s.

Definition strlen (s : cstr) : Z := Z.of_nat (length s).
(** [s[i]] for [0 <= i <= strlen s]; index [strlen s] reads the NUL. *)
Definition char_at (s : cstr) (i : Z) : outcome Z :=
  if i <? 0 then UB else deref ((s ++ [0]) !! Z.to_nat i).

(** The value of a plain [char] (signed on the Linux targets of the build). *)
Definition schar (c : Z) : Z := i8 c.

Definition isspace (c : Z) : bool := (c =? 32) || ((9 <=? c) && (c <=? 13)).
Definition tolower (c : Z) : Z := if (65 <=? c) && (c <=? 90) then c + 32 else c.
Definition toupper (c : Z) : Z := if (97 <=? c) && (c <=? 122) then c - 32 else c.

(** Equality tests of the string comparison functions. *)
Definition strcmp_eq (a b : cstr) : bool := bool_decide (a = b).
Definition strcasecmp_eq (a b : cstr) : bool :=
  bool_decide (map tolower a = map tolower b).
Definition strncmp_eq (a b : cstr) (n : nat) : bool :=
  bool_decide (take n (a ++ [0]) = take n (b ++ [0])).
Definition strncasecmp_eq (a b : cstr) (n : nat) : bool :=
  bool_decide (take n (map tolower a ++ [0]) = take n (map tolower b ++ [0])).

(** [strchr s c] for [c <> 0]: the index of the first occurrence. *)
Fixpoint strchr (s : cstr) (c : Z) : option nat :=
  match s with
  | [] => None
  | x :: s' => if x =? c then Some 0%nat else S <$> strchr s' c
  end.

(** [strstr s p != NULL]. *)
Fixpoint strstr (s p : cstr) : bool :=
  bool_decide (take (length p) s = p) ||
  match s with [] => false | _ :: s' => strstr s' p end.

(** [snprintf(dst, size, "%s", s)] with [size > 0], and
    [strncpy(dst, s, size - 1)] followed by a NUL at [size - 1]. *)
Definition str_trunc (size : nat) (s : cstr) : cstr := take (size - 1) s.

(** Skip a prefix of bytes satisfying [f]. *)
Fixpoint drop_while (f : Z -> bool) (s : cstr) : cstr :=
  match s with
  | [] => []
  | c :: s' => if f c then drop_while f s' else s
  end.
Fixpoint take_while (f : Z -> bool) (s : cstr) : cstr :=
  match s with
  | [] => []
  | c :: s' => if f c then c :: take_while f s' else []
  end.

(** [strtol] of the C library with base 0, on a [w]-bit result *)
Definition digit (c : Z) : option Z :=
  if (48 <=? c) && (c <=? 57) then Some (c - 48)
  else if (97 <=? tolower c) && (tolower c <=? 122) then Some (tolower c - 87) else None.
(** The value of the longest run of digits of the base. *)
Fixpoint digits (base : Z) (s : cstr) (acc : Z) : Z :=
  match s with
  | [] => acc
  | c :: s' =>
      match digit c with
      | Some d => if d <? base then digits base s' (acc * base + d) else acc
      | None => acc
      end
  end.
Definition is_digit_of (base c : Z) : bool :=
  match digit c with Some d => d <? base | None => false end.
Definition strtol_unsigned (s : cstr) : Z :=
  match s with
  | c0 :: c1 :: c2 :: s' =>
      if (c0 =? ch "0") && (tolower c1 =? ch "x") && is_digit_of 16 c2 then digits 16 (c2 :: s') 0
      else if c0 =? ch "0" then digits 8 s 0 else digits 10 s 0
  | c0 :: _ => if c0 =? ch "0" then digits 8 s 0 else digits 10 s 0
  | [] => 0
  end.
Definition clamp (w x : Z) : Z := Z.max (- 2 ^ (w - 1)) (Z.min (2 ^ (w - 1) - 1) x).
Definition strtol (w : Z) (s : cstr) : Z :=
  match drop_while isspace s with
  | c :: s' =>
      if c =? ch "-" then clamp w (- strtol_unsigned s')
      else if c =? ch "+" then clamp w (strtol_unsigned s')
      else clamp w (strtol_unsigned (c :: s'))
  | [] => 0
  end.
(** Whether [strtol] converts anything ([end != name]). *)
Definition strtol_converts (s : cstr) : bool :=
  let first s := match s with c :: _ => (48 <=? c) && (c <=? 57) | [] => false end in
  match drop_while isspace s with
  | c :: s' => if (c =? ch "-") || (c =? ch "+") then first s' else first (c :: s')
  | [] => false
  end.

Lemma take_drop_while f s : take_while f s ++ drop_while f s = s.
Proof. induction s as [|c s IH]; simpl; [done|]. destruct (f c); simpl; congruence. Qed.

Lemma drop_while_hd f s c s' : drop_while f s = c :: s' -> f c = false.
Proof. induction s as [|x s IH]; simpl; [done|]. destruct (f x) eqn:E; naive_solver. Qed.

Lemma drop_while_id f s : (forall c s', s = c :: s' -> f c = false) -> drop_while f s = s.
Proof. destruct s as [|c s]; [done|]. intros H. simpl. by rewrite (H c s). Qed.

Lemma drop_while_suffix f s : exists p, s = p ++ drop_while f s /\ Forall (fun c => f c = true) p.
Proof.
  induction s as [|c s (p & Hp & HF)]; simpl.
  - by exists [].
  - destruct (f c) eqn:E.
    + exists (c :: p). split; [simpl; congruence|by constructor].
    + by exists [].
Qed.

Lemma tolower_idemp c : tolower (tolower c) = tolower c.
Proof. unfold tolower. repeat case_match; lia. Qed.

Lemma strcmp_eq_true a b : strcmp_eq a b = true <-> a = b.
Proof. apply bool_decide_eq_true. Qed.
Lemma strcmp_eq_refl a : strcmp_eq a a = true.
Proof. by apply strcmp_eq_true. Qed.
Lemma strcmp_eq_false a b : strcmp_eq a b = false <-> a <> b.
Proof. apply bool_decide_eq_false. Qed.

Lemma strchr_Some s c i :
  strchr s c = Some i <-> s !! i = Some c /\ forall j, (j < i)%nat -> s !! j <> Some c.
Proof.
  revert i; induction s as [|x s IH]; intros i; simpl.
  - naive_solver.
  - destruct (Z.eqb_spec x c) as [->|Hx].
    + split.
      * intros [= <-]. split; [done|]. lia.
      * intros [Hi Hj]. destruct i; [done|]. exfalso. by apply (Hj 0%nat); [lia|].
    + rewrite fmap_Some. split.
      * intros (j & Hj & ->). apply IH in Hj as [? Hlt]. split; [done|].
        intros [|k] Hk; simpl; [naive_solver|]. apply Hlt. lia.
      * intros [Hi Hj]. destruct i as [|i]; [naive_solver|]. exists i. split; [|done].
        apply IH. split; [done|]. intros k Hk. apply (Hj (S k)). lia.
Qed.

Lemma strchr_None s c : strchr s c = None <-> c ∉ s.
Proof.
  induction s as [|x s IH]; simpl; [set_solver|].
  destruct (Z.eqb_spec x c) as [->|Hx]; [set_solver|].
  rewrite fmap_None, IH. set_solver.
Qed.

(** *** Arrays of bytes used as strings *)

(** An array of [n] bytes, zeroed and then filled from its start. *)
Definition zeroed (n : nat) (l : list Z) : list Z := l ++ repeat 0 (n - length l).

(** The array used as a C string: it must hold a NUL. *)
Definition field_string (l : list Z) : outcome cstr :=
  match strchr l 0 with
  | Some i => Ret (take i l)
  | None => UB
  end.

Lemma field_string_zeroed n t : cstr_ok t -> (length t < n)%nat -> field_string (zeroed n t) = Ret t.
Proof.
  intros Ht Hl. unfold field_string, zeroed.
  assert (strchr (t ++ repeat 0 (n - length t)) 0 = Some (length t)) as ->.
  { apply strchr_Some. split.
    - rewrite lookup_app_r by lia. rewrite Nat.sub_diag. destruct (n - length t)%nat eqn:E; [lia|done].
    - intros j Hj. rewrite lookup_app_l by done. intros E.
      apply (Forall_lookup_1 _ _ _ _ Ht) in E. unfold char_ok in E. lia. }
  by rewrite take_app_length.
Qed.

(** Concrete data: a range over a list is checked by evaluation. *)
Lemma Forall_range lo hi l : forallb (fun c => (lo <=? c) && (c <? hi)) l = true -> Forall (fun c => lo <= c < hi) l.
Proof. rewrite forallb_forall. intros H. apply Forall_forall. intros c Hc%list_elem_of_In%H. lia. Qed.
Lemma cstr_ok_check s : forallb (fun c => (1 <=? c) && (c <? 256)) s = true -> cstr_ok s.
Proof. apply Forall_range. Qed.

Lemma trunc_ok n t : cstr_ok t -> cstr_ok (str_trunc n t).
Proof. intros Ht. by apply Forall_take. Qed.
Lemma trunc_length n t : (0 < n)%nat -> (length (str_trunc n t) < n)%nat.
Proof. unfold str_trunc. rewrite length_take. lia. Qed.

Lemma char_at_lookup s i c : (s ++ [0]) !! i = Some c -> char_at s (Z.of_nat i) = Ret c.
Proof.
  intros H. unfold char_at. destruct (Z.ltb_spec (Z.of_nat i) 0); [lia|].
  by rewrite Nat2Z.id, H.
Qed.

Lemma char_at_last2 p x y :
  char_at (p ++ [x; y]) (strlen (p ++ [x; y]) - 1) = Ret y /\
  char_at (p ++ [x; y]) (strlen (p ++ [x; y]) - 2) = Ret x.
Proof.
  unfold strlen. rewrite length_app. simpl length.
  replace (Z.of_nat (length p + 2) - 1) with (Z.of_nat (length p + 1)) by lia.
  replace (Z.of_nat (length p + 2) - 2) with (Z.of_nat (length p)) by lia.
  split; apply char_at_lookup; rewrite <- app_assoc, lookup_app_r by lia.
  - by replace (length p + 1 - length p)%nat with 1%nat by lia.
  - by rewrite Nat.sub_diag.
Qed.

(** [%d] and [%u] of a non-negative integer below [10 ^ 20]. *)
Fixpoint dec_loop (fuel : nat) (n : Z) : cstr :=
  match fuel with
  | O => []
  | S f => (if n <? 10 then [] else dec_loop f (n / 10)) ++ [48 + n mod 10]
  end.
Definition print_dec (n : Z) : cstr := dec_loop 20 n.

Lemma digits_snoc s c acc :
  Forall (fun d => 48 <= d <= 57) s -> 48 <= c <= 57 ->
  digits 10 (s ++ [c]) acc = digits 10 s acc * 10 + (c - 48).
Proof.
  intros Hs Hc. assert (forall d, 48 <= d <= 57 -> digit d = Some (d - 48)) as Hd.
  { intros d Hd. unfold digit. destruct (Z.leb_spec 48 d), (Z.leb_spec d 57); simpl; done || lia. }
  revert acc. induction Hs as [|x s Hx _ IH]; intros acc; cbn [digits app].
  - rewrite Hd by done. by destruct (Z.ltb_spec (c - 48) 10); [|lia].
  - rewrite Hd by done. destruct (Z.ltb_spec (x - 48) 10); [apply IH|lia].
Qed.

Lemma dec_loop_digits fuel n : 0 <= n -> Forall (fun d => 48 <= d <= 57) (dec_loop fuel n).
Proof.
  revert n. induction fuel as [|f IH]; intros n Hn; simpl; [done|].
  apply Forall_app. split; [destruct (n <? 10); [done|apply IH; Z.div_mod_to_equations; lia]|].
  apply Forall_singleton. Z.div_mod_to_equations. lia.
Qed.
Lemma dec_loop_value fuel n : 0 <= n < 10 ^ Z.of_nat fuel -> digits 10 (dec_loop fuel n) 0 = n.
Proof.
  revert n. induction fuel as [|f IH]; intros n Hn; [simpl in *; lia|].
  rewrite Nat2Z.inj_succ, Z.pow_succ_r in Hn by lia. cbn [dec_loop].
  assert (48 <= 48 + n mod 10 <= 57) as Hd by (Z.div_mod_to_equations; lia).
  destruct (Z.ltb_spec n 10).
  - rewrite digits_snoc by done. cbn [digits]. rewrite Z.mod_small by lia. lia.
  - assert (0 <= n / 10 < 10 ^ Z.of_nat f) as Hq.
    { split; [apply Z.div_pos; lia|apply Z.div_lt_upper_bound; lia]. }
    rewrite digits_snoc by (done || (apply dec_loop_digits; lia)). rewrite IH by done.
    rewrite (Z.div_mod n 10) at 3 by lia. lia.
Qed.
Lemma dec_loop_length fuel n : (length (dec_loop fuel n) <= fuel)%nat.
Proof.
  revert n. induction fuel as [|f IH]; intros n; cbn [dec_loop]; [simpl; lia|].
  rewrite length_app. simpl. specialize (IH (n / 10)). destruct (n <? 10); simpl; lia.
Qed.
(** Digits up to a character that is none. *)
Lemma digits_app_inj d1 d2 c1 c2 s1 s2 : Forall (fun d => 48 <= d <= 57) d1 -> Forall (fun d => 48 <= d <= 57) d2 ->
  ~ (48 <= c1 <= 57) -> ~ (48 <= c2 <= 57) -> d1 ++ c1 :: s1 = d2 ++ c2 :: s2 -> d1 = d2 /\ c1 :: s1 = c2 :: s2.
Proof.
  intros H1. revert d2. induction H1 as [|x d1 Hx _ IH]; intros d2 H2 Hc1 Hc2 E.
  - destruct H2; [done|]. injection E as -> _. done.
  - destruct H2 as [|y d2 Hy H2]; simpl in E; [injection E as -> _; done|]. injection E as -> E. by destruct (IH d2 H2 Hc1 Hc2 E) as [-> ?].
Qed.
Lemma print_dec_inj n m : 0 <= n < 10 ^ 20 -> 0 <= m < 10 ^ 20 -> print_dec n = print_dec m -> n = m.
Proof.
  intros Hn Hm E. rewrite <- (dec_loop_value 20 n), <- (dec_loop_value 20 m) by done. by f_equal.
Qed.

(** ** Lists *)

(** Induction by groups of three, for code that consumes three at a time. *)
Lemma list_ind3 {A} (P : list A -> Prop) :
  P [] -> (forall a, P [a]) -> (forall a b, P [a; b]) ->
  (forall a b c l, P l -> P (a :: b :: c :: l)) -> forall l, P l.
Proof.
  intros H0 H1 H2 H3 l.
  assert (P l /\ (forall a, P (a :: l)) /\ (forall a b, P (a :: b :: l))) as [? _]; [|done].
  induction l as [|x l (IH1 & IH2 & IH3)]; split_and!; auto.
Qed.

Lemma mod3_S3 n : (S (S (S n)) mod 3 = n mod 3)%nat.
Proof. replace (S (S (S n))) with (n + 1 * 3)%nat by lia. apply Nat.Div0.mod_add. Qed.
Lemma div3_S3 n : (S (S (S n)) / 3 = S (n / 3))%nat.
Proof. replace (S (S (S n))) with (n + 1 * 3)%nat by lia. rewrite Nat.div_add by lia. lia. Qed.

Lemma land_ones_mod x k : 0 <= k -> Z.land x (Z.ones k) = x mod 2 ^ k.
Proof. apply Z.land_ones. Qed.

Lemma lookup_repeat {A} (x : A) n i : (i < n)%nat -> repeat x n !! i = Some x.
Proof. revert i. induction n as [|n IH]; intros [|i] Hi; simpl; [lia..|done|apply IH; lia]. Qed.

Lemma omap_cons {A B} (f : A -> option B) x (l : list A) :
  omap f (x :: l) = match f x with Some y => y :: omap f l | None => omap f l end.
Proof. reflexivity. Qed.

(** Sums, up to permutation. *)
Definition zsum (l : list Z) : Z := foldr Z.add 0 l.
#[export] Instance zsum_perm : Proper ((≡ₚ) ==> eq) zsum.
Proof. intros l l' E. unfold zsum. induction E; simpl; lia. Qed.
Lemma zsum_app l l' : zsum (l ++ l') = zsum l + zsum l'.
Proof. unfold zsum. induction l; simpl; lia. Qed.

Lemma perm_mid {A} (l1 l2 l3 : list A) b : (l1 ++ b :: l2) ++ l3 ≡ₚ b :: l1 ++ l2 ++ l3.
Proof. rewrite <- app_assoc. symmetry. apply Permutation_middle. Qed.

(** Clearing the low [k] bits of a 64-bit word. *)
Lemma land_align_down x k :
  in_range 64 x -> 0 <= k <= 64 -> Z.land x (u64 (Z.lnot (2 ^ k - 1))) = x / 2 ^ k * 2 ^ k.
Proof.
  intros Hx Hk. rewrite <- Z.shiftr_div_pow2, <- Z.shiftl_mul_pow2 by lia.
  apply Z.bits_inj'. intros n Hn. unfold wrap. rewrite Z.land_spec, <- (Z.land_ones _ 64), Z.land_spec by lia.
  rewrite Z.lnot_spec by lia. replace (2 ^ k - 1) with (Z.ones k) by (rewrite Z.ones_equiv; lia).
  rewrite !Z.testbit_ones_nonneg by lia.
  destruct (Z.ltb_spec n k); simpl.
  - by rewrite andb_false_r, Z.shiftl_spec_low.
  - rewrite Z.shiftl_spec, Z.shiftr_spec by lia. replace (n - k + k) with n by lia.
    destruct (Z.ltb_spec n 64); [apply andb_true_r|]. rewrite andb_false_r. symmetry.
    destruct Hx as [Hx0 Hx1]. destruct (decide (x = 0)) as [->|]; [apply Z.bits_0|].
    apply Z.bits_above_log2; [lia|]. apply Z.log2_lt_pow2; [lia|].
    eapply Z.lt_le_trans; [exact Hx1|]. apply Z.pow_le_mono_r; lia.
Qed.

(** Replacing and swapping elements, up to permutation. *)
Lemma insert_perm {A} (l : list A) i x y :
  l !! i = Some x -> y :: l ≡ₚ x :: <[i:=y]> l.
Proof.
  intros E. assert (i < length l)%nat as Hi by (by eapply lookup_lt_Some).
  rewrite insert_take_drop by done. rewrite <- (take_drop_middle l i x E) at 1.
  rewrite <- !Permutation_middle. apply Permutation_swap.
Qed.

Lemma zsum_map_insert {A} (f : A -> Z) l i x y :
  l !! i = Some x -> zsum (map f (<[i := y]> l)) = zsum (map f l) - f x + f y.
Proof.
  intros E. pose proof (insert_perm l i x y E) as Hp.
  assert (zsum (map f (y :: l)) = zsum (map f (x :: <[i := y]> l))) as Hz by (by rewrite Hp).
  cbn in Hz. unfold zsum in *. lia.
Qed.
Lemma zsum_map_nonneg {A} (f : A -> Z) l : (forall x, 0 <= f x) -> 0 <= zsum (map f l).
Proof. intros Hf. unfold zsum. induction l as [|x l IH]; simpl; [lia|]. specialize (Hf x). lia. Qed.

Lemma swap_perm {A} (l : list A) i j x y :
  l !! i = Some x -> l !! j = Some y -> <[j:=x]> (<[i:=y]> l) ≡ₚ l.
Proof.
  intros Ei Ej. apply (inj (y ::.)). symmetry.
  rewrite (insert_perm l i x y Ei) at 1. apply insert_perm.
  destruct (decide (i = j)) as [<-|].
  - rewrite list_lookup_insert_eq; [done|by eapply lookup_lt_Some].
  - by rewrite list_lookup_insert_ne.
Qed.

(** ** Numbers that are not in use

    The number after the largest key of a map, and at least [b]: what a kernel that hands
    out descriptors or process numbers may answer. *)
Definition next_key {A} (b : Z) (k : gmap Z A) : Z := map_fold (fun i _ m => Z.max (i + 1) m) b k.
Lemma next_key_above {A} b (k : gmap Z A) i : is_Some (k !! i) -> i < next_key b k.
Proof.
  revert i. unfold next_key. apply (map_fold_weak_ind (fun r (k : gmap Z A) => forall i, is_Some (k !! i) -> i < r)).
  - intros i [? Hi]. by rewrite lookup_empty in Hi.
  - intros j s k' r Hj IH i. rewrite lookup_insert_is_Some. intros [->|[_ Hi]]; [lia|]. apply IH in Hi. lia.
Qed.
Lemma next_key_low {A} b (k : gmap Z A) : b <= next_key b k.
Proof. unfold next_key. apply (map_fold_weak_ind (fun r (_ : gmap Z A) => b <= r)); [lia|]. intros. lia. Qed.
Lemma next_key_fresh {A} b (k : gmap Z A) : k !! next_key b k = None.
Proof.
  destruct (k !! next_key b k) eqn:E; [|done]. assert (is_Some (k !! next_key b k)) as H by (by eexists).
  apply (next_key_above b) in H. lia.
Qed.
