(* ===== verification/Checksum.v ===== *)
(** * Checksums and string hashes ([src/src/base/algo/nv_crc16.c], [nv_hash.c])

    [Crc16] models the bitwise CRC-16 of [nv_crc16_compute]; [Djb2] models the
    64-bit string hash behind [nv_hash_string]. *)

From S2P Require Import Prelude.

Module Crc16.

(** One of the eight iterations of the inner [for]. *)
Definition crc_bit (crc : Z) : Z :=
  if Z.land crc 1 =? 0 then Z.shiftr crc 1
  else Z.lxor (Z.shiftr crc 1) 0x8408.

(** The body of the [while]: xor the byte in, then eight bit steps. *)
Definition crc_byte (crc b : Z) : Z := Nat.iter 8 crc_bit (Z.lxor crc b).

(** [while (length--)], reading through [data++]. *)
Fixpoint crc_loop (n : nat) (data : list Z) (crc : Z) : outcome Z :=
  match n with
  | O => Ret crc
  | S n' =>
      match data with
      | [] => UB
      | b :: data' => crc_loop n' data' (crc_byte crc b)
      end
  end.

Definition nv_crc16_compute (data : list Z) (length : Z) : outcome Z :=
  crc_loop (Z.to_nat length) data 0xFFFF.

(** ** The bit step on 16-bit registers *)

Lemma crc_bit_odd x : crc_bit x = if Z.odd x then Z.lxor (Z.shiftr x 1) 0x8408 else Z.shiftr x 1.
Proof.
  unfold crc_bit. change 1 with (Z.ones 1) at 1. rewrite Z.land_ones by lia.
  rewrite Zmod_odd. by destruct (Z.odd x).
Qed.

Lemma crc_bit_even x : crc_bit (2 * x) = x.
Proof.
  rewrite crc_bit_odd, Z.odd_mul. simpl Z.odd. simpl.
  rewrite Z.shiftr_div_pow2 by lia. rewrite Z.mul_comm. by apply Z.div_mul.
Qed.

Lemma testbit_high x n : in_range 16 x -> 16 <= n -> Z.testbit x n = false.
Proof.
  intros Hx Hn. rewrite <- (wrap_small 16 x) by done.
  apply Z.mod_pow2_bits_high. lia.
Qed.

Lemma lxor_range x y : in_range 16 x -> in_range 16 y -> in_range 16 (Z.lxor x y).
Proof.
  intros Hx Hy. rewrite <- (wrap_small 16 x), <- (wrap_small 16 y) by done.
  unfold wrap. rewrite <- !Z.land_ones by lia.
  replace (Z.lxor (Z.land x (Z.ones 16)) (Z.land y (Z.ones 16)))
    with (Z.land (Z.lxor x y) (Z.ones 16)).
  - rewrite Z.land_ones by lia. apply Z.mod_pos_bound. lia.
  - apply Z.bits_inj'. intros n Hn. rewrite ?Z.land_spec, ?Z.lxor_spec, ?Z.land_spec.
    destruct (Z.testbit (Z.ones 16) n), (Z.testbit x n), (Z.testbit y n); done.
Qed.

Lemma shiftr1_range x : in_range 16 x -> in_range 16 (Z.shiftr x 1).
Proof. intros Hx. rewrite Z.shiftr_div_pow2 by lia. change (2 ^ 1) with 2. width_lia. Qed.

Lemma crc_bit_range x : in_range 16 x -> in_range 16 (crc_bit x).
Proof.
  intros Hx. rewrite crc_bit_odd. destruct (Z.odd x); [|by apply shiftr1_range].
  apply lxor_range; [by apply shiftr1_range|]. width_lia.
Qed.

(** Bit 15 of the result tells which branch was taken. *)
Lemma crc_bit_15 x : in_range 16 x -> Z.testbit (crc_bit x) 15 = Z.odd x.
Proof.
  intros Hx. rewrite crc_bit_odd.
  assert (Z.testbit (Z.shiftr x 1) 15 = false) as E.
  { rewrite Z.shiftr_spec by lia. by apply testbit_high; [|lia]. }
  destruct (Z.odd x); [|done]. rewrite Z.lxor_spec, E. done.
Qed.

Lemma crc_bit_inj x y : in_range 16 x -> in_range 16 y -> crc_bit x = crc_bit y -> x = y.
Proof.
  intros Hx Hy E. assert (Z.odd x = Z.odd y) as Ho.
  { rewrite <- (crc_bit_15 x), <- (crc_bit_15 y) by done. by rewrite E. }
  assert (Z.shiftr x 1 = Z.shiftr y 1) as Es.
  { rewrite !crc_bit_odd, Ho in E. destruct (Z.odd y); [|done].
    apply (f_equal (fun z => Z.lxor z 0x8408)) in E.
    by rewrite !Z.lxor_assoc, Z.lxor_nilpotent, !Z.lxor_0_r in E. }
  rewrite (Z.div2_odd x), (Z.div2_odd y), !Z.div2_spec, Es, Ho. done.
Qed.

Lemma iter_crc_bit_range n x : in_range 16 x -> in_range 16 (Nat.iter n crc_bit x).
Proof. intros Hx. induction n; simpl; [done|]. by apply crc_bit_range. Qed.

Lemma iter_crc_bit_inj n x y :
  in_range 16 x -> in_range 16 y -> Nat.iter n crc_bit x = Nat.iter n crc_bit y -> x = y.
Proof.
  intros Hx Hy. induction n as [|n IH]; simpl; [done|]. intros E. apply IH.
  apply crc_bit_inj; auto using iter_crc_bit_range.
Qed.

Lemma byte_16 b : is_byte b -> in_range 16 b.
Proof. width_lia. Qed.

Lemma crc_byte_range s b : in_range 16 s -> is_byte b -> in_range 16 (crc_byte s b).
Proof. intros. apply iter_crc_bit_range, lxor_range; auto using byte_16. Qed.

Lemma crc_byte_inj s s' b b' :
  in_range 16 s -> in_range 16 s' -> is_byte b -> is_byte b' ->
  crc_byte s b = crc_byte s' b' -> Z.lxor s b = Z.lxor s' b'.
Proof.
  intros. apply (iter_crc_bit_inj 8); auto using lxor_range, byte_16.
Qed.

Lemma lxor_inj_l a b c : Z.lxor a b = Z.lxor a c -> b = c.
Proof.
  intros E. apply (f_equal (Z.lxor a)) in E.
  by rewrite <- !Z.lxor_assoc, Z.lxor_nilpotent, !Z.lxor_0_l in E.
Qed.

(** ** The byte loop as a fold *)

Lemma crc_loop_fold data crc :
  crc_loop (length data) data crc = Ret (fold_left crc_byte data crc).
Proof. revert crc. induction data as [|b data IH]; intros crc; simpl; auto. Qed.

Lemma crc_compute_fold data :
  nv_crc16_compute data (Z.of_nat (length data)) = Ret (fold_left crc_byte data 0xFFFF).
Proof. unfold nv_crc16_compute. rewrite Nat2Z.id. apply crc_loop_fold. Qed.

Lemma fold_range data s :
  Forall is_byte data -> in_range 16 s -> in_range 16 (fold_left crc_byte data s).
Proof.
  intros Hd. revert s. induction Hd as [|b data Hb _ IH]; intros s Hs; simpl; [done|].
  auto using crc_byte_range.
Qed.

Lemma fold_inj data s s' :
  Forall is_byte data -> in_range 16 s -> in_range 16 s' ->
  fold_left crc_byte data s = fold_left crc_byte data s' -> s = s'.
Proof.
  intros Hd. revert s s'. induction Hd as [|b data Hb _ IH]; intros s s' Hs Hs' E; simpl in *; [done|].
  apply IH in E; auto using crc_byte_range.
  apply crc_byte_inj in E; auto. rewrite !(Z.lxor_comm _ b) in E. by apply lxor_inj_l in E.
Qed.

Lemma init_range : in_range 16 0xFFFF. Proof. width_lia. Qed.

(** Xoring the low byte of the register with itself leaves the high byte,
    and eight even steps shift it down. *)
Lemma crc_byte_low s : in_range 16 s -> crc_byte s (Z.land s 255) = Z.shiftr s 8.
Proof.
  intros Hs. unfold crc_byte.
  assert (Z.lxor s (Z.land s 255) = 256 * Z.shiftr s 8) as ->.
  { change 255 with (Z.ones 8).
    replace (256 * Z.shiftr s 8) with (Z.shiftl (Z.shiftr s 8) 8).
    2:{ rewrite Z.shiftl_mul_pow2 by lia. change (2 ^ 8) with 256. lia. }
    rewrite <- Z.ldiff_ones_r by lia.
    apply Z.bits_inj'. intros n Hn. rewrite Z.lxor_spec, Z.land_spec, Z.ldiff_spec.
    by destruct (Z.testbit s n), (Z.testbit (Z.ones 8) n). }
  generalize (Z.shiftr s 8) as h. intros h. simpl Nat.iter.
  replace (256 * h) with (2 * (2 * (2 * (2 * (2 * (2 * (2 * (2 * h)))))))) by lia.
  by rewrite !crc_bit_even.
Qed.

Lemma crc_byte_self s : in_range 16 s -> crc_byte s s = 0.
Proof. intros Hs. unfold crc_byte. by rewrite Z.lxor_nilpotent. Qed.

(** The receiver's check.  For every buffer of bytes the routine returns a
    16-bit value, and running it again over the buffer followed by that value
    (low byte first) returns zero. *)
Theorem nv_crc16_residue (data : list Z) :
  Forall is_byte data ->
  exists c, nv_crc16_compute data (Z.of_nat (length data)) = Ret c /\
    in_range 16 c /\
    nv_crc16_compute (data ++ [Z.land c 255; Z.shiftr c 8])
                     (Z.of_nat (length data) + 2) = Ret 0.
Proof.
  intros Hd. exists (fold_left crc_byte data 0xFFFF).
  assert (in_range 16 (fold_left crc_byte data 0xFFFF)) as Hr
    by auto using fold_range, init_range.
  split; [apply crc_compute_fold|]. split; [done|].
  set (c := fold_left crc_byte data 0xFFFF) in *.
  replace (Z.of_nat (length data) + 2)
    with (Z.of_nat (length (data ++ [Z.land c 255; Z.shiftr c 8]))).
  2:{ rewrite length_app. simpl. lia. }
  rewrite crc_compute_fold, fold_left_app. fold c. simpl.
  rewrite crc_byte_low, crc_byte_self; [done| |done].
  rewrite Z.shiftr_div_pow2 by lia. change (2 ^ 8) with 256. width_lia.
Qed.

(** Error detection.  Two buffers of the same length that differ in exactly
    one byte never have the same CRC, wherever the byte is. *)
Theorem nv_crc16_detects_byte_error (pre post : list Z) (b b' : Z) :
  Forall is_byte pre -> Forall is_byte post -> is_byte b -> is_byte b' -> b <> b' ->
  nv_crc16_compute (pre ++ b :: post) (Z.of_nat (length (pre ++ b :: post))) <>
  nv_crc16_compute (pre ++ b' :: post) (Z.of_nat (length (pre ++ b' :: post))).
Proof.
  intros Hpre Hpost Hb Hb' Hne. rewrite !crc_compute_fold, !fold_left_app. simpl.
  intros [= E].
  assert (in_range 16 (fold_left crc_byte pre 0xFFFF)) by auto using fold_range, init_range.
  apply fold_inj in E; auto using crc_byte_range.
  apply crc_byte_inj in E; auto. by apply lxor_inj_l in E.
Qed.

Definition check_input : list Z := str "123456789".

(** The check value of the parameter set (reflected 0x1021, no final xor). *)
Example nv_crc16_check : nv_crc16_compute check_input 9 = Ret 0x6F91.
Proof. reflexivity. Qed.

Lemma nv_crc16_residue_witness :
  exists c, nv_crc16_compute [0x31; 0x32; 0xFF] 3 = Ret c /\ in_range 16 c /\
    nv_crc16_compute ([0x31; 0x32; 0xFF] ++ [Z.land c 255; Z.shiftr c 8]) (3 + 2) = Ret 0.
Proof. apply (nv_crc16_residue [0x31; 0x32; 0xFF]). repeat constructor; vm_compute; congruence. Defined.

Lemma nv_crc16_detects_byte_error_witness :
  nv_crc16_compute ([1; 2] ++ 3 :: [4]) 4 <> nv_crc16_compute ([1; 2] ++ 7 :: [4]) 4.
Proof.
  apply (nv_crc16_detects_byte_error [1; 2] [4] 3 7);
    repeat constructor; vm_compute; congruence.
Defined.

End Crc16.

Module Djb2.

(** [hash = ((hash << 5) + hash) + c] on [unsigned long]; [c] is the [int]
    value of a [char]. *)
Definition djb2_step (hash c : Z) : Z :=
  u64 (u64 (u64 (Z.shiftl hash 5) + hash) + schar c).

Definition nv_hash_djb2 (s : cstr) : Z := fold_left djb2_step s 5381.
Definition nv_hash_string (s : cstr) : Z := nv_hash_djb2 s.

(** The polynomial the loop evaluates. *)
Fixpoint horner (s : cstr) (h : Z) : Z :=
  match s with [] => h | c :: s' => horner s' (33 * h + schar c) end.

Lemma djb2_step_mod h c : djb2_step h c = u64 (33 * h + schar c).
Proof.
  unfold djb2_step, wrap. rewrite Z.shiftl_mul_pow2 by lia. change (2 ^ 5) with 32.
  rewrite Z.add_mod_idemp_l by lia.
  rewrite <- Z.add_assoc, Z.add_mod_idemp_l by lia. f_equal. lia.
Qed.

Lemma horner_mod s h h' : u64 h = u64 h' -> u64 (horner s h) = u64 (horner s h').
Proof.
  revert h h'. induction s as [|c s IH]; intros h h' E; simpl; [done|].
  apply IH. unfold wrap in *. rewrite <- !(Z.add_mod_idemp_l (33 * _)) by lia.
  rewrite <- !(Z.mul_mod_idemp_r _ h), <- !(Z.mul_mod_idemp_r _ h') by lia. by rewrite E.
Qed.

Lemma djb2_fold_horner s h :
  in_range 64 h -> fold_left djb2_step s h = u64 (horner s h).
Proof.
  revert h. induction s as [|c s IH]; intros h Hh; simpl.
  - by rewrite wrap_small.
  - rewrite djb2_step_mod, IH by (apply wrap_range; lia).
    apply horner_mod. unfold wrap. by rewrite Z.mod_mod by lia.
Qed.

Lemma horner_app s t h : horner (s ++ t) h = horner t (horner s h).
Proof. revert h. induction s; intros h; simpl; auto. Qed.

Lemma horner_shift s h d :
  horner s (h + d) = horner s h + 33 ^ Z.of_nat (length s) * d.
Proof.
  revert h d. induction s as [|c s IH]; intros h d; [simpl; lia|].
  cbn [horner length]. replace (33 * (h + d) + schar c) with (33 * h + schar c + 33 * d) by lia.
  rewrite IH, Nat2Z.inj_succ, Z.pow_succ_r by lia. lia.
Qed.

Lemma schar_inj c c' : is_byte c -> is_byte c' -> schar c = schar c' -> c = c'.
Proof.
  unfold schar, swrap. change (2 ^ (8 - 1)) with 128. width_unfold. intros Hc Hc'.
  rewrite !Z.mod_small by lia.
  destruct (Z.ltb_spec c 128), (Z.ltb_spec c' 128); lia.
Qed.

Lemma schar_bound c : -128 <= schar c < 128.
Proof.
  unfold schar, swrap. change (2 ^ (8 - 1)) with 128. change (2 ^ 8) with 256.
  pose proof (Z.mod_pos_bound c 256). destruct (Z.ltb_spec (c mod 256) 128); lia.
Qed.

Lemma pow33_coprime n : Z.gcd (2 ^ 64) (33 ^ Z.of_nat n) = 1.
Proof. apply Z.coprime_pow_l; [lia|]. apply Z.coprime_pow_r; [lia|]. reflexivity. Qed.

(** [nv_hash_string] is the polynomial with the bytes as (signed)
    coefficients evaluated at 33 modulo [2^64], and since 33 is odd, two
    strings that differ in exactly one byte never collide. *)
Theorem nv_hash_string_spec (pre post : cstr) (c c' : Z) :
  is_byte c -> is_byte c' -> c <> c' ->
  nv_hash_string (pre ++ c :: post) = u64 (horner (pre ++ c :: post) 5381) /\
  nv_hash_string (pre ++ c :: post) <> nv_hash_string (pre ++ c' :: post).
Proof.
  intros Hc Hc' Hne. unfold nv_hash_string, nv_hash_djb2.
  assert (in_range 64 5381) by width_lia. rewrite !djb2_fold_horner by done.
  split; [done|]. rewrite !horner_app. cbn [horner]. set (k := 33 * horner pre 5381).
  replace (k + schar c) with (k + schar c' + (schar c - schar c')) by lia.
  rewrite horner_shift. intros E.
  assert (2 ^ 64 | 33 ^ Z.of_nat (length post) * (schar c - schar c')) as Hd.
  { apply Z.mod_divide; [lia|].
    set (a := horner post _) in E. set (m := 33 ^ _ * _) in E |- *.
    replace m with ((a + m) - a) by lia. unfold wrap in E.
    rewrite Zminus_mod, E, Z.sub_diag. done. }
  apply Z.gauss in Hd; [|apply pow33_coprime].
  pose proof (schar_bound c). pose proof (schar_bound c').
  assert (schar c - schar c' = 0) as E0.
  { destruct Hd as [q Hq]. rewrite pow2_64 in Hq. lia. }
  apply Hne, schar_inj; auto. lia.
Qed.

Lemma nv_hash_string_spec_witness :
  nv_hash_string (str "ab" ++ ch "x" :: str "c") = u64 (horner (str "ab" ++ ch "x" :: str "c") 5381) /\
  nv_hash_string (str "ab" ++ ch "x" :: str "c") <> nv_hash_string (str "ab" ++ ch "y" :: str "c").
Proof.
  apply (nv_hash_string_spec (str "ab") (str "c") (ch "x") (ch "y"));
    vm_compute; try split; congruence.
Defined.

End Djb2.
