(* ===== verification/Base64.v ===== *)
(** * Base64 ([src/src/base/algo/nv_base64.c])

    The encoder and decoder as written, a reference encoder following RFC 4648,
    and what the two make of each other's output.  [malloc_ok n] says whether
    [malloc(n)] succeeds. *)

From S2P Require Import Prelude.

Module Base64.

Definition base64_chars : cstr :=
  str "ABCDEFGHIJKLMNOPQRSTUVWXYZabcdefghijklmnopqrstuvwxyz0123456789+/".

Definition base64_index : list Z :=
  [-1; -1; -1; -1; -1; -1; -1; -1; -1; -1; -1; -1; -1; -1; -1; -1;
   -1; -1; -1; -1; -1; -1; -1; -1; -1; -1; -1; -1; -1; -1; -1; -1;
   -1; -1; -1; -1; -1; -1; -1; -1; -1; -1; -1; 62; -1; -1; -1; 63;
   52; 53; 54; 55; 56; 57; 58; 59; 60; 61; -1; -1; -1; -1; -1; -1;
   -1; 0; 1; 2; 3; 4; 5; 6; 7; 8; 9; 10; 11; 12; 13; 14;
   15; 16; 17; 18; 19; 20; 21; 22; 23; 24; 25; -1; -1; -1; -1; -1;
   -1; 26; 27; 28; 29; 30; 31; 32; 33; 34; 35; 36; 37; 38; 39; 40;
   41; 42; 43; 44; 45; 46; 47; 48; 49; 50; 51; -1; -1; -1; -1; -1;
   -1; -1; -1; -1; -1; -1; -1; -1; -1; -1; -1; -1; -1; -1; -1; -1;
   -1; -1; -1; -1; -1; -1; -1; -1; -1; -1; -1; -1; -1; -1; -1; -1;
   -1; -1; -1; -1; -1; -1; -1; -1; -1; -1; -1; -1; -1; -1; -1; -1;
   -1; -1; -1; -1; -1; -1; -1; -1; -1; -1; -1; -1; -1; -1; -1; -1;
   -1; -1; -1; -1; -1; -1; -1; -1; -1; -1; -1; -1; -1; -1; -1; -1;
   -1; -1; -1; -1; -1; -1; -1; -1; -1; -1; -1; -1; -1; -1; -1; -1;
   -1; -1; -1; -1; -1; -1; -1; -1; -1; -1; -1; -1; -1; -1; -1; -1;
   -1; -1; -1; -1; -1; -1; -1; -1; -1; -1; -1; -1; -1; -1; -1; -1].

Definition chr64 (x : Z) : Z := nth (Z.to_nat x) base64_chars 0.
Definition idx64 (c : Z) : Z := nth (Z.to_nat c) base64_index 0.

Section Alloc.
Variable malloc_ok : Z -> bool.

(** One iteration of the encoding [for]: three octets, four characters. *)
Definition encode_group (octet_a octet_b octet_c : Z) : cstr :=
  let triple := u32 (u32 (u32 (Z.shiftl octet_a 0x10) + u32 (Z.shiftl octet_b 0x08)) + octet_c) in
  [chr64 (Z.land (Z.shiftr triple (3 * 6)) 0x3F);
   chr64 (Z.land (Z.shiftr triple (2 * 6)) 0x3F);
   chr64 (Z.land (Z.shiftr triple (1 * 6)) 0x3F);
   chr64 (Z.land (Z.shiftr triple (0 * 6)) 0x3F)].

(** The loop over the input; an octet past the end reads as 0. *)
Fixpoint encode_loop (input : list Z) : cstr :=
  match input with
  | [] => []
  | [a] => encode_group a 0 0
  | [a; b] => encode_group a b 0
  | a :: b :: c :: rest => encode_group a b c ++ encode_loop rest
  end.

(** [for (i = length; i % 3; i++) encoded[j - 1] = '=';] -- at most two rounds. *)
Fixpoint pad_loop (fuel : nat) (i : Z) (j : nat) (encoded : cstr) : cstr :=
  match fuel with
  | O => encoded
  | S fuel' =>
      if i mod 3 =? 0 then encoded
      else pad_loop fuel' (i + 1) j (<[(j - 1)%nat := ch "="]> encoded)
  end.

(** [input] is the buffer of [length] bytes, or NULL. *)
Definition nv_base64_encode (input : option (list Z)) : option cstr :=
  match input with
  | None => None
  | Some l =>
      let len := Z.of_nat (length l) in
      if len =? 0 then None
      else
        let encoded_length := 4 * ((len + 2) / 3) in
        if malloc_ok (encoded_length + 1) then
          let encoded := encode_loop l in
          Some (pad_loop 3 len (length encoded) encoded)
        else None
  end.

(** The four table lookups of one decoding round make a 32-bit [triple]; the
    sum is taken in [int], where ['='] contributes the table value -1.  A left shift of a
    negative [int] is undefined in ISO C; the model follows gcc, which documents it as the
    shift of the two's complement representation. *)
Definition decode_triple (sa sb sc sd : Z) : Z :=
  u32 (Z.shiftl sa (3 * 6) + Z.shiftl sb (2 * 6) + Z.shiftl sc (1 * 6) + Z.shiftl sd (0 * 6)).

(** [if (j < decoded_length) ( *output)[j++] = v;] *)
Definition put (decoded_length v : Z) (out : list Z) : list Z :=
  if Z.of_nat (length out) <? decoded_length then out ++ [v] else out.

Definition put_triple (decoded_length triple : Z) (out : list Z) : list Z :=
  put decoded_length (Z.land (Z.shiftr triple (0 * 8)) 0xFF)
   (put decoded_length (Z.land (Z.shiftr triple (1 * 8)) 0xFF)
     (put decoded_length (Z.land (Z.shiftr triple (2 * 8)) 0xFF) out)).

(** The decoding [for].  The second character of a group is read without a
    bound check (the terminating NUL when only one is left), the third and
    fourth only when present. *)
Fixpoint decode_loop (input : cstr) (decoded_length : Z) (out : list Z) : list Z :=
  match input with
  | [] => out
  | [a] => put_triple decoded_length (decode_triple (idx64 a) (idx64 0) 0 0) out
  | [a; b] => put_triple decoded_length (decode_triple (idx64 a) (idx64 b) 0 0) out
  | [a; b; c] => put_triple decoded_length (decode_triple (idx64 a) (idx64 b) (idx64 c) 0) out
  | a :: b :: c :: d :: rest =>
      decode_loop rest decoded_length
        (put_triple decoded_length (decode_triple (idx64 a) (idx64 b) (idx64 c) (idx64 d)) out)
  end.

(** Result: the [int] returned and the buffer stored through [output]. *)
Definition nv_base64_decode (input : option cstr) (output : bool) : outcome (Z * option (list Z)) :=
  match input, output with
  | None, _ | _, false => Ret (-1, None)
  | Some s, true =>
      let n := strlen s in
      c1 ← char_at s (n - 1);
      c2 ← char_at s (n - 2);
      let padding := (if c1 =? ch "=" then 1 else 0) + (if c2 =? ch "=" then 1 else 0) in
      let decoded_length := u64 ((n / 4) * 3 - padding) in
      if malloc_ok decoded_length then
        Ret (i32 decoded_length, Some (decode_loop s decoded_length []))
      else Ret (-1, None)
  end.

End Alloc.

(** ** Reference: RFC 4648 section 4 *)

Definition rfc_group (a b c : Z) : cstr :=
  [chr64 (a / 4); chr64 (a mod 4 * 16 + b / 16); chr64 (b mod 16 * 4 + c / 64); chr64 (c mod 64)].

Fixpoint rfc4648 (input : list Z) : cstr :=
  match input with
  | [] => []
  | [a] => take 2 (rfc_group a 0 0) ++ [ch "="; ch "="]
  | [a; b] => take 3 (rfc_group a b 0) ++ [ch "="]
  | a :: b :: c :: rest => rfc_group a b c ++ rfc4648 rest
  end.

(** What decoding the encoder's own output yields: whole groups survive; a
    partial group comes back as the big-endian 16-bit number one too small. *)
Definition be16 (x : Z) : list Z := [x / 256 mod 256; x mod 256].

Fixpoint roundtrip_image (input : list Z) : list Z :=
  match input with
  | [] => []
  | [a] => be16 (256 * a - 1)
  | [a; b] => be16 (256 * a + b - 1)
  | a :: b :: c :: rest => a :: b :: c :: roundtrip_image rest
  end.

(** ** Characters and sextets *)

Definition sextet (x : Z) : Prop := 0 <= x < 64.

Lemma chr64_facts :
  forallb (fun n => let x := Z.of_nat n in
             (idx64 (chr64 x) =? x) && negb (chr64 x =? ch "=") && (0 <? chr64 x)) (seq 0 64) = true.
Proof. vm_compute. reflexivity. Qed.

Lemma chr64_fact x :
  sextet x -> idx64 (chr64 x) = x /\ chr64 x <> ch "=" /\ 0 < chr64 x.
Proof.
  intros Hx. pose proof chr64_facts as H. rewrite forallb_forall in H.
  specialize (H (Z.to_nat x)). rewrite Z2Nat.id in H by (unfold sextet in Hx; lia).
  rewrite !andb_true_iff, negb_true_iff, Z.eqb_eq, Z.eqb_neq, Z.ltb_lt in H.
  apply and_assoc, H, in_seq. unfold sextet in Hx. lia.
Qed.

Lemma idx64_chr64 x : sextet x -> idx64 (chr64 x) = x.
Proof. apply chr64_fact. Qed.
Lemma chr64_not_pad x : sextet x -> chr64 x <> ch "=".
Proof. apply chr64_fact. Qed.

Lemma land_63 x : Z.land x 0x3F = x mod 64.
Proof. apply (land_ones_mod x 6). lia. Qed.
Lemma land_255 x : Z.land x 0xFF = x mod 256.
Proof. apply (land_ones_mod x 8). lia. Qed.

Ltac shifts_to_div :=
  rewrite ?Z.shiftr_div_pow2, ?Z.shiftl_mul_pow2, ?land_63, ?land_255 by lia;
  change (2 ^ (3 * 6)) with 262144; change (2 ^ (2 * 6)) with 4096;
  change (2 ^ (1 * 6)) with 64; change (2 ^ (0 * 6)) with 1;
  change (2 ^ (2 * 8)) with 65536; change (2 ^ (1 * 8)) with 256;
  change (2 ^ (0 * 8)) with 1; change (2 ^ 0x10) with 65536; change (2 ^ 0x08) with 256.

Lemma encode_triple a b c :
  is_byte a -> is_byte b -> is_byte c ->
  u32 (u32 (u32 (Z.shiftl a 0x10) + u32 (Z.shiftl b 0x08)) + c) = a * 65536 + b * 256 + c.
Proof.
  intros Ha Hb Hc. shifts_to_div. width_unfold.
  rewrite (Z.mod_small (a * 65536)), (Z.mod_small (b * 256)) by lia.
  rewrite (Z.mod_small (a * 65536 + b * 256)), Z.mod_small by lia. done.
Qed.

Lemma encode_group_rfc a b c :
  is_byte a -> is_byte b -> is_byte c -> encode_group a b c = rfc_group a b c.
Proof.
  intros Ha Hb Hc. unfold encode_group, rfc_group. rewrite encode_triple by done.
  cbv zeta. shifts_to_div. set (t := a * 65536 + b * 256 + c).
  assert (t / 262144 mod 64 = a / 4) as -> by width_lia.
  assert (t / 4096 mod 64 = a mod 4 * 16 + b / 16) as -> by width_lia.
  assert (t / 64 mod 64 = b mod 16 * 4 + c / 64) as -> by width_lia.
  assert (t / 1 mod 64 = c mod 64) as -> by width_lia. done.
Qed.

Lemma rfc_group_sextets a b c :
  is_byte a -> is_byte b -> is_byte c ->
  sextet (a / 4) /\ sextet (a mod 4 * 16 + b / 16) /\
  sextet (b mod 16 * 4 + c / 64) /\ sextet (c mod 64).
Proof. intros. unfold sextet. split_and!; width_lia. Qed.

(** ** The encoder against the RFC *)

Lemma length_encode_loop l : length (encode_loop l) = (4 * ((length l + 2) / 3))%nat.
Proof.
  induction l as [| | |a b c l IH] using list_ind3; try reflexivity.
  cbn [encode_loop length Nat.add]. rewrite length_app, IH, div3_S3. simpl length. lia.
Qed.

Lemma encode_loop_app l m :
  (length l mod 3 = 0)%nat -> encode_loop (l ++ m) = encode_loop l ++ encode_loop m.
Proof.
  induction l as [| | |a b c l IH] using list_ind3; try done.
  cbn [encode_loop rfc4648 length app]. rewrite <- ?app_assoc. intros Hl. rewrite IH; [done|]. by rewrite mod3_S3 in Hl.
Qed.

Lemma rfc4648_app l m :
  (length l mod 3 = 0)%nat -> rfc4648 (l ++ m) = rfc4648 l ++ rfc4648 m.
Proof.
  induction l as [| | |a b c l IH] using list_ind3; try done.
  cbn [encode_loop rfc4648 length app]. rewrite <- ?app_assoc. intros Hl. rewrite IH; [done|]. by rewrite mod3_S3 in Hl.
Qed.

Lemma encode_loop_rfc l :
  (length l mod 3 = 0)%nat -> Forall is_byte l -> encode_loop l = rfc4648 l.
Proof.
  induction l as [| | |a b c l IH] using list_ind3; try done.
  intros Hl Hb. rewrite !Forall_cons in Hb. destruct Hb as (? & ? & ? & ?).
  cbn [encode_loop rfc4648]. rewrite encode_group_rfc, IH; auto.
  cbn [length] in Hl. by rewrite mod3_S3 in Hl.
Qed.

(** Any input is whole groups followed by at most two bytes. *)
Lemma split_groups (l : list Z) :
  exists full rest, l = full ++ rest /\ (length full mod 3 = 0)%nat /\
    (rest = [] \/ (exists a, rest = [a]) \/ (exists a b, rest = [a; b])).
Proof.
  induction l as [|a|a b|a b c l (full & rest & -> & Hf & Hr)] using list_ind3.
  - exists [], []. auto.
  - exists [], [a]. naive_solver.
  - exists [], [a; b]. naive_solver.
  - exists (a :: b :: c :: full), rest. split_and!; [done| |done].
    cbn [length]. by rewrite mod3_S3.
Qed.

Lemma groups_mod (full rest : list Z) :
  (length full mod 3 = 0)%nat -> (length (full ++ rest) mod 3 = length rest mod 3)%nat.
Proof. intros Hf. by rewrite length_app, <- Nat.Div0.add_mod_idemp_l, Hf. Qed.

Lemma pad_loop_none n j e : n mod 3 = 0 -> pad_loop 3 n j e = e.
Proof. intros H. simpl. by rewrite H. Qed.

Lemma pad_loop_once n e x :
  n mod 3 <> 0 -> pad_loop 3 n (length (e ++ [x])) (e ++ [x]) = e ++ [ch "="].
Proof.
  intros H.
  assert (forall y, <[(length (e ++ [x]) - 1)%nat := ch "="]> (e ++ [y]) = e ++ [ch "="]) as E.
  { intros y. rewrite length_app. simpl. rewrite Nat.add_sub.
    rewrite insert_app_r_alt by lia. by rewrite Nat.sub_diag. }
  cbn [pad_loop]. destruct (Z.eqb_spec (n mod 3) 0); [done|]. rewrite E.
  destruct (Z.eqb_spec ((n + 1) mod 3) 0); [done|]. rewrite E.
  destruct (Z.eqb_spec ((n + 1 + 1) mod 3) 0); [done|]. exfalso. width_lia.
Qed.

Section Encoder.
Context (malloc_ok : Z -> bool).

(** The encoder's output by the number of bytes left over. *)
Lemma encode_shape full rest :
  (length full mod 3 = 0)%nat -> Forall is_byte (full ++ rest) ->
  full ++ rest <> [] ->
  malloc_ok (4 * ((Z.of_nat (length (full ++ rest)) + 2) / 3) + 1) = true ->
  nv_base64_encode malloc_ok (Some (full ++ rest)) =
    match rest with
    | [] => Some (encode_loop full)
    | [a] => Some (encode_loop full ++ take 3 (rfc_group a 0 0) ++ [ch "="])
    | [a; b] => Some (encode_loop full ++ take 3 (rfc_group a b 0) ++ [ch "="])
    | _ => nv_base64_encode malloc_ok (Some (full ++ rest))
    end.
Proof.
  intros Hf Hb Hne Hm. apply Forall_app in Hb as [Hbf Hbr].
  assert (Z.of_nat (length full) mod 3 = 0) as Hz
    by (rewrite <- (Nat2Z.inj_mod _ 3), Hf; done).
  unfold nv_base64_encode. rewrite Hm.
  destruct (Z.eqb_spec (Z.of_nat (length (full ++ rest))) 0) as [E|_].
  { destruct (full ++ rest); [done|]. simpl in E. lia. }
  rewrite encode_loop_app by done.
  destruct rest as [|a [|b [|? ?]]]; [| | |done].
  - rewrite !app_nil_r, pad_loop_none; done.
  - apply Forall_cons in Hbr as [Ha _].
    cbn [encode_loop]. rewrite encode_group_rfc by (done || width_lia).
    change (rfc_group a 0 0) with (take 3 (rfc_group a 0 0) ++ [chr64 (0 mod 64)]) at 1 2.
    rewrite app_assoc, pad_loop_once; [by rewrite <- app_assoc|].
    rewrite length_app. simpl length. width_lia.
  - rewrite !Forall_cons in Hbr. destruct Hbr as (Ha & Hb & _).
    cbn [encode_loop]. rewrite encode_group_rfc by (done || width_lia).
    change (rfc_group a b 0) with (take 3 (rfc_group a b 0) ++ [chr64 (0 mod 64)]) at 1 2.
    rewrite app_assoc, pad_loop_once; [by rewrite <- app_assoc|].
    rewrite length_app. simpl length. width_lia.
Qed.

(** The encoder agrees with RFC 4648 unless one byte is left over after the
    last whole group; then it writes ['A='] where the RFC has ['=='], because
    the padding loop stores twice at the same index. *)
Theorem nv_base64_encode_spec (l : list Z) :
  Forall is_byte l -> l <> [] ->
  malloc_ok (4 * ((Z.of_nat (length l) + 2) / 3) + 1) = true ->
  ((length l mod 3 <> 1)%nat -> nv_base64_encode malloc_ok (Some l) = Some (rfc4648 l)) /\
  ((length l mod 3 = 1)%nat -> exists pre,
     rfc4648 l = pre ++ [ch "="; ch "="] /\
     nv_base64_encode malloc_ok (Some l) = Some (pre ++ [ch "A"; ch "="])).
Proof.
  intros Hb Hne Hm. destruct (split_groups l) as (full & rest & -> & Hf & Hr).
  rewrite encode_shape by done. rewrite groups_mod, rfc4648_app by done.
  apply Forall_app in Hb as [Hbf _]. rewrite encode_loop_rfc by done.
  destruct Hr as [->|[[a ->]|(a & b & ->)]].
  - split; [by rewrite app_nil_r|done].
  - split; [done|]. intros _. exists (rfc4648 full ++ take 2 (rfc_group a 0 0)).
    by rewrite <- !app_assoc.
  - split; [|done]. done.
Qed.

End Encoder.

Lemma nv_base64_encode_spec_witness :
  (length (str "light work") mod 3 = 1)%nat /\
  exists pre, rfc4648 (str "light work") = pre ++ [ch "="; ch "="] /\
    nv_base64_encode (fun n => n <? 1000) (Some (str "light work")) = Some (pre ++ [ch "A"; ch "="]).
Proof.
  split; [reflexivity|].
  apply (nv_base64_encode_spec (fun n => n <? 1000) (str "light work"));
    [repeat constructor; vm_compute; congruence|discriminate|reflexivity|reflexivity].
Defined.

(** ** Decoding the encoder's output *)

Lemma decode_triple_bytes a b c :
  is_byte a -> is_byte b -> is_byte c ->
  decode_triple (a / 4) (a mod 4 * 16 + b / 16) (b mod 16 * 4 + c / 64) (c mod 64) =
  a * 65536 + b * 256 + c.
Proof.
  intros. unfold decode_triple. shifts_to_div. rewrite wrap_small; width_lia.
Qed.

(** A group closed by ['='] in the fourth place is one too small. *)
Lemma decode_triple_pad a b :
  is_byte a -> is_byte b ->
  decode_triple (a / 4) (a mod 4 * 16 + b / 16) (b mod 16 * 4) (idx64 (ch "=")) =
  u32 (a * 65536 + b * 256 - 1).
Proof.
  intros. unfold decode_triple. shifts_to_div. f_equal.
  change (idx64 (ch "=")) with (-1). width_lia.
Qed.

Lemma put_lt dl v out : Z.of_nat (length out) < dl -> put dl v out = out ++ [v].
Proof. intros H. unfold put. by rewrite (proj2 (Z.ltb_lt _ _)). Qed.
Lemma put_ge dl v out : dl <= Z.of_nat (length out) -> put dl v out = out.
Proof. intros H. unfold put. by rewrite (proj2 (Z.ltb_ge _ _)). Qed.

Lemma put_triple_full dl t out :
  Z.of_nat (length out) + 3 <= dl ->
  put_triple dl t out = out ++ [t / 65536 mod 256; t / 256 mod 256; t mod 256].
Proof.
  intros H. unfold put_triple. shifts_to_div. rewrite Z.div_1_r.
  rewrite (put_lt _ _ out) by lia.
  rewrite (put_lt _ _ (out ++ _)) by (rewrite length_app; simpl; lia).
  rewrite put_lt by (rewrite !length_app; simpl; lia).
  by rewrite <- !app_assoc.
Qed.

Lemma put_triple_two dl t out :
  Z.of_nat (length out) + 2 = dl ->
  put_triple dl t out = out ++ [t / 65536 mod 256; t / 256 mod 256].
Proof.
  intros H. unfold put_triple. shifts_to_div.
  rewrite (put_lt _ _ out) by lia.
  rewrite (put_lt _ _ (out ++ _)) by (rewrite length_app; simpl; lia).
  rewrite put_ge by (rewrite !length_app; simpl; lia).
  by rewrite <- !app_assoc.
Qed.

Lemma decode_full_groups full tail dl out :
  (length full mod 3 = 0)%nat -> Forall is_byte full ->
  Z.of_nat (length out + length full) <= dl ->
  decode_loop (encode_loop full ++ tail) dl out = decode_loop tail dl (out ++ full).
Proof.
  revert out. induction full as [| | |a b c l IH] using list_ind3; intros out Hf Hb Hl; try done.
  { by rewrite app_nil_r. }
  rewrite !Forall_cons in Hb. destruct Hb as (Ha & Hb & Hc & Hl').
  cbn [length] in Hf, Hl. rewrite mod3_S3 in Hf.
  cbn [encode_loop]. rewrite encode_group_rfc by done.
  destruct (rfc_group_sextets a b c) as (? & ? & ? & ?); [done..|].
  rewrite <- app_assoc. unfold rfc_group at 1. cbn [app decode_loop].
  rewrite !idx64_chr64, decode_triple_bytes, put_triple_full by (done || lia).
  rewrite IH; [|done|done|rewrite length_app; simpl; lia].
  rewrite <- app_assoc. simpl. repeat f_equal; width_lia.
Qed.

Lemma decode_tail a b dl out :
  is_byte a -> is_byte b -> Z.of_nat (length out) + 2 = dl ->
  decode_loop (take 3 (rfc_group a b 0) ++ [ch "="]) dl out = out ++ be16 (256 * a + b - 1).
Proof.
  intros Ha Hb Hl. destruct (rfc_group_sextets a b 0) as (? & ? & Hc & _); [done|done|width_lia|].
  unfold rfc_group. change (0 / 64) with 0 in *. rewrite Z.add_0_r in *.
  cbn [take app decode_loop]. rewrite !idx64_chr64 by done.
  rewrite decode_triple_pad, put_triple_two by done. unfold be16. do 2 f_equal; [|f_equal]; width_lia.
Qed.

Lemma encode_loop_last full :
  (length full mod 3 = 0)%nat -> Forall is_byte full -> full <> [] ->
  exists p x y, encode_loop full = p ++ [chr64 x; chr64 y] /\ sextet x /\ sextet y.
Proof.
  induction full as [| | |a b c l IH] using list_ind3; try done.
  intros Hf Hb _. rewrite !Forall_cons in Hb. destruct Hb as (Ha & Hb & Hc & Hl).
  cbn [length] in Hf. rewrite mod3_S3 in Hf.
  cbn [encode_loop]. rewrite encode_group_rfc by done.
  destruct (rfc_group_sextets a b c) as (? & ? & ? & ?); [done..|].
  destruct l as [|d l]; [by eexists [_; _], _, _|].
  destruct IH as (p & x & y & -> & Hx & Hy); [done..|].
  exists (rfc_group a b c ++ p), x, y. by rewrite app_assoc.
Qed.

Lemma roundtrip_image_app l m :
  (length l mod 3 = 0)%nat -> roundtrip_image (l ++ m) = l ++ roundtrip_image m.
Proof.
  induction l as [| | |a b c l IH] using list_ind3; try done.
  cbn [length]. rewrite mod3_S3. intros Hl. simpl. by rewrite IH.
Qed.

Lemma encode_len_full full :
  (length full mod 3 = 0)%nat ->
  Z.of_nat (length (encode_loop full)) / 4 * 3 = Z.of_nat (length full).
Proof.
  intros Hf. rewrite length_encode_loop.
  assert ((length full + 2) / 3 = length full / 3)%nat as ->.
  { rewrite (Nat.div_mod_eq (length full) 3) at 1. rewrite Hf.
    replace (3 * (length full / 3) + 0 + 2)%nat with (2 + (length full / 3) * 3)%nat by lia.
    rewrite Nat.div_add by lia. done. }
  pose proof (Nat.div_mod_eq (length full) 3) as E. rewrite Hf in E.
  set (k := (length full / 3)%nat) in *.
  replace (Z.of_nat (4 * k)) with (Z.of_nat k * 4) by lia. rewrite Z.div_mul by lia. lia.
Qed.

Section RoundTrip.
Context (malloc_ok : Z -> bool).
Hypothesis malloc_small : forall n, 0 <= n <= INT_MAX -> malloc_ok n = true.

(** Decoding a string that ends in two characters other than ['='] in the
    last-but-one place. *)
Lemma decode_eval p x y (pad : Z) :
  let s := p ++ [x; y] in
  x <> ch "=" -> pad = (if y =? ch "=" then 1 else 0) ->
  pad <= strlen s / 4 * 3 <= INT_MAX ->
  nv_base64_decode malloc_ok (Some s) true =
  Ret (strlen s / 4 * 3 - pad, Some (decode_loop s (strlen s / 4 * 3 - pad) [])).
Proof.
  intros s Hx -> Hl. unfold nv_base64_decode. destruct (char_at_last2 p x y) as [E1 E2].
  fold s in E1, E2. rewrite E1. simpl. rewrite E2. simpl.
  rewrite (proj2 (Z.eqb_neq x (ch "="))), Z.add_0_r by done.
  set (m := strlen s / 4 * 3 - _) in *.
  assert (0 <= m <= INT_MAX) as Hm by (subst m; destruct (y =? ch "="); lia).
  rewrite wrap_small by (unfold INT_MAX in Hm; width_lia). rewrite malloc_small by done.
  rewrite swrap_small; [done|lia|]. change (2 ^ (32 - 1)) with 2147483648.
  unfold INT_MAX in Hm. lia.
Qed.

Lemma roundtrip_full full :
  (length full mod 3 = 0)%nat -> Forall is_byte full -> full <> [] ->
  Z.of_nat (length full) < INT_MAX ->
  nv_base64_decode malloc_ok (Some (encode_loop full)) true =
  Ret (Z.of_nat (length full), Some full).
Proof.
  intros Hf Hb Hne Hl.
  destruct (encode_loop_last full) as (p & x & y & E & Hx & Hy); [done..|].
  pose proof (chr64_not_pad x Hx). pose proof (chr64_not_pad y Hy).
  pose proof (encode_len_full full Hf) as El. rewrite E in El. fold (strlen (p ++ [chr64 x; chr64 y])) in El.
  rewrite E, (decode_eval p (chr64 x) (chr64 y) 0); [|done| |lia].
  2:{ by rewrite (proj2 (Z.eqb_neq _ _)). }
  rewrite El, Z.sub_0_r, <- E, <- (app_nil_r (encode_loop full)).
  rewrite decode_full_groups by (done || simpl; lia). done.
Qed.

Lemma roundtrip_tail full a b :
  (length full mod 3 = 0)%nat -> Forall is_byte full -> is_byte a -> is_byte b ->
  Z.of_nat (length full) + 3 < INT_MAX ->
  nv_base64_decode malloc_ok (Some (encode_loop full ++ take 3 (rfc_group a b 0) ++ [ch "="])) true =
  Ret (Z.of_nat (length full) + 2, Some (full ++ be16 (256 * a + b - 1))).
Proof.
  intros Hf Hb Ha Hb' Hl.
  destruct (rfc_group_sextets a b 0) as (_ & _ & Hc & _); [done|done|width_lia|].
  set (s := encode_loop full ++ _).
  assert (strlen s / 4 * 3 = Z.of_nat (length full) + 3) as El.
  { unfold strlen, s. rewrite !length_app. simpl length.
    rewrite Nat2Z.inj_add. change (Z.of_nat (3 + 1)) with (1 * 4). rewrite Z.div_add by lia.
    rewrite Z.mul_add_distr_r, encode_len_full by done. done. }
  assert (s = (encode_loop full ++ take 2 (rfc_group a b 0)) ++ [chr64 (b mod 16 * 4 + 0 / 64); ch "="]) as Es
    by (unfold s; by rewrite <- app_assoc).
  rewrite Es at 1. rewrite (decode_eval _ _ _ 1); rewrite <- ?Es, ?El; [|by apply chr64_not_pad|done|lia].
  replace (Z.of_nat (length full) + 3 - 1) with (Z.of_nat (length full) + 2) by lia.
  unfold s. rewrite decode_full_groups by (done || simpl; lia).
  rewrite decode_tail by done. done.
Qed.

(** C39: Round trip.  Decoding what the encoder produced never fails and has a
    closed form: the input itself exactly when its length is a multiple of
    three; otherwise the bytes of the last partial group come back as a
    16-bit number one too small (the ['='] is added as -1). *)
Theorem nv_base64_roundtrip (l : list Z) :
  Forall is_byte l -> l <> [] -> Z.of_nat (length l) < 2 ^ 30 ->
  exists s, nv_base64_encode malloc_ok (Some l) = Some s /\
    nv_base64_decode malloc_ok (Some s) true =
      Ret (Z.of_nat (length (roundtrip_image l)), Some (roundtrip_image l)) /\
    (roundtrip_image l = l <-> (length l mod 3 = 0)%nat).
Proof.
  intros Hb Hne Hl. destruct (split_groups l) as (full & rest & -> & Hf & Hr).
  rewrite length_app in Hl. change (2 ^ 30) with 1073741824 in Hl.
  assert (is_byte 0) by width_lia.
  assert (0 <= 4 * ((Z.of_nat (length (full ++ rest)) + 2) / 3) + 1 <= INT_MAX) as Hsz
    by (rewrite length_app; unfold INT_MAX; Z.div_mod_to_equations; lia).
  rewrite encode_shape by auto. rewrite roundtrip_image_app by done.
  rewrite groups_mod by done.
  apply Forall_app in Hb as [Hbf Hbr]. unfold INT_MAX in *.
  destruct Hr as [->|[[a ->]|(a & b & ->)]]; (eexists; split; [done|]).
  - rewrite app_nil_r in *. cbn [roundtrip_image].
    rewrite app_nil_r, roundtrip_full by (done || unfold INT_MAX; simpl in Hl; lia). done.
  - apply Forall_cons in Hbr as [Ha _].
    rewrite roundtrip_tail by (done || unfold INT_MAX; simpl in Hl; lia).
    rewrite Z.add_0_r, length_app, Nat2Z.inj_add. split; [done|]. split; [|done].
    intros E%app_inv_head. done.
  - rewrite !Forall_cons in Hbr. destruct Hbr as (Ha & Hb & _).
    rewrite roundtrip_tail by (done || unfold INT_MAX; simpl in Hl; lia).
    rewrite length_app, Nat2Z.inj_add. split; [done|]. split; [|done].
    intros E%app_inv_head. simpl in E. unfold be16 in E. injection E as E1 E2. width_lia.
Qed.

End RoundTrip.

Lemma nv_base64_roundtrip_witness :
  roundtrip_image (str "libnv!") = str "libnv!" /\
  exists s, nv_base64_encode (fun n => n <=? INT_MAX) (Some (str "AB")) = Some s /\
    nv_base64_decode (fun n => n <=? INT_MAX) (Some s) true = Ret (2, Some [65; 65]) /\
    ([65; 65] = str "AB" <-> (2 mod 3 = 0)%nat).
Proof.
  split; [reflexivity|].
  apply (nv_base64_roundtrip (fun n => n <=? INT_MAX)
           (fun n H => proj2 (Z.leb_le _ _) (proj2 H)) (str "AB"));
    [repeat constructor; vm_compute; congruence|discriminate|reflexivity].
Defined.

End Base64.
