(* ===== verification/Md5.v ===== *)
(** * The message digest of [src/src/base/algo/nv_md5.c]

    The context, the block transform, the streaming update, the finalisation
    and the two entry points.  The main result is a refinement: whatever the
    pieces in which a message is fed, the context stands for the whole message
    ([represents]), so the file digest and the string digest agree. *)

From S2P Require Import Prelude.

Module Md5.

Definition md5_F (x y z : Z) : Z := Z.lor (Z.land x y) (Z.land (u32 (Z.lnot x)) z).
Definition md5_G (x y z : Z) : Z := Z.lor (Z.land x z) (Z.land y (u32 (Z.lnot z))).
Definition md5_H (x y z : Z) : Z := Z.lxor (Z.lxor x y) z.
Definition md5_I (x y z : Z) : Z := Z.lxor y (Z.lor x (u32 (Z.lnot z))).
Definition ROTATE_LEFT (x n : Z) : Z := Z.lor (u32 (Z.shiftl x n)) (Z.shiftr x (32 - n)).

Definition K : list Z :=
  [0xd76aa478; 0xe8c7b756; 0x242070db; 0xc1bdceee;
   0xf57c0faf; 0x4787c62a; 0xa8304613; 0xfd469501;
   0x698098d8; 0x8b44f7af; 0xffff5bb1; 0x895cd7be;
   0x6b901122; 0xfd987193; 0xa679438e; 0x49b40821;
   0xf61e2562; 0xc040b340; 0x265e5a51; 0xe9b6c7aa;
   0xd62f105d; 0x02441453; 0xd8a1e681; 0xe7d3fbc8;
   0x21e1cde6; 0xc33707d6; 0xf4d50d87; 0x455a14ed;
   0xa9e3e905; 0xfcefa3f8; 0x676f02d9; 0x8d2a4c8a;
   0xfffa3942; 0x8771f681; 0x6d9d6122; 0xfde5380c;
   0xa4beea44; 0x4bdecfa9; 0xf6bb4b60; 0xbebfbc70;
   0x289b7ec6; 0xeaa127fa; 0xd4ef3085; 0x04881d05;
   0xd9d4d039; 0xe6db99e5; 0x1fa27cf8; 0xc4ac5665;
   0xf4292244; 0x432aff97; 0xab9423a7; 0xfc93a039;
   0x655b59c3; 0x8f0ccc92; 0xffeff47d; 0x85845dd1;
   0x6fa87e4f; 0xfe2ce6e0; 0xa3014314; 0x4e0811a1;
   0xf7537e82; 0xbd3af235; 0x2ad7d2bb; 0xeb86d391].

(** [uint32_t state[4]], A B C D. *)
Record md5_state := mkState { sA : Z; sB : Z; sC : Z; sD : Z }.

Record MD5_CTX := mkCtx {
  state : md5_state;
  count0 : Z;            (** count[0], low word of the bit count *)
  count1 : Z;            (** count[1], high word *)
  buffer : list Z        (** uint8_t buffer[64] *)
}.

Definition init_state : md5_state := mkState 0x67452301 0xefcdab89 0x98badcfe 0x10325476.

(** [MD5Init] leaves the buffer as it was. *)
Definition MD5Init (context : MD5_CTX) : MD5_CTX :=
  mkCtx init_state 0 0 (buffer context).

(** [x[i]]: a little-endian word of the block. *)
Definition le_word (block : list Z) (j : nat) : Z :=
  Z.lor (Z.lor (Z.lor (nth j block 0) (Z.shiftl (nth (j + 1) block 0) 8))
               (Z.shiftl (nth (j + 2) block 0) 16))
        (Z.shiftl (nth (j + 3) block 0) 24).

(** One of the 64 iterations of the main loop of [MD5Transform]. *)
Definition md5_round (block : list Z) (s : md5_state) (i : nat) : md5_state :=
  let '(mkState a b c d) := s in
  let '(f, g) :=
    if (i <? 16)%nat then (md5_F b c d, i)
    else if (i <? 32)%nat then (md5_G b c d, (5 * i + 1) mod 16)%nat
    else if (i <? 48)%nat then (md5_H b c d, (3 * i + 5) mod 16)%nat
    else (md5_I b c d, (7 * i) mod 16)%nat in
  let sum := u32 (u32 (u32 (a + f) + nth i K 0) + le_word block (4 * g)) in
  mkState d (u32 (b + ROTATE_LEFT sum 7)) b c.

Definition MD5Transform (s : md5_state) (block : list Z) : md5_state :=
  let r := fold_left (md5_round block) (seq 0 64) s in
  mkState (u32 (sA s + sA r)) (u32 (sB s + sB r)) (u32 (sC s + sC r)) (u32 (sD s + sD r)).

(** [for (i = partLen; i + 63 < inputLen; i += 64) MD5Transform(state, &input[i]);]
    on the bytes not yet consumed; returns the state and the bytes left. *)
Fixpoint transform_blocks (fuel : nat) (s : md5_state) (rest : list Z) : md5_state * list Z :=
  match fuel with
  | O => (s, rest)
  | S fuel' =>
      if (64 <=? length rest)%nat
      then transform_blocks fuel' (MD5Transform s (take 64 rest)) (drop 64 rest)
      else (s, rest)
  end.

(** [memcpy(&buffer[index], src, n)] *)
Definition buf_write (buf : list Z) (index : nat) (src : list Z) : list Z :=
  take index buf ++ src ++ drop (index + length src) buf.

Definition MD5Update (context : MD5_CTX) (input : list Z) : MD5_CTX :=
  let inputLen := Z.of_nat (length input) in
  let index := Z.to_nat (Z.land (Z.shiftr (count0 context) 3) 0x3F) in
  let bits := u32 (Z.shiftl (u32 inputLen) 3) in
  let c0 := u32 (count0 context + bits) in
  let c1 := if c0 <? bits then u32 (count1 context + 1) else count1 context in
  let c1 := u32 (c1 + Z.shiftr (u32 inputLen) 29) in
  let partLen := (64 - index)%nat in
  if (partLen <=? length input)%nat then
    let buf := buf_write (buffer context) index (take partLen input) in
    let s := MD5Transform (state context) buf in
    let '(s, rest) := transform_blocks (length input) s (drop partLen input) in
    mkCtx s c0 c1 (buf_write buf 0 rest)
  else
    mkCtx (state context) c0 c1 (buf_write (buffer context) index input).

(** [bits[i] = (count[(i >= 4 ? 0 : 1)] >> ((i % 4) * 8)) & 0xFF] *)
Definition len_bits (context : MD5_CTX) : list Z :=
  map (fun i : nat =>
         Z.land (Z.shiftr (if (4 <=? i)%nat then count0 context else count1 context)
                          (Z.of_nat (i mod 4) * 8)) 0xFF) (seq 0 8).

Definition padding : list Z := 0x80 :: repeat 0 63.

Definition state_word (s : md5_state) (k : nat) : Z :=
  match k with 0%nat => sA s | 1%nat => sB s | 2%nat => sC s | _ => sD s end.

(** [digest[i] = (state[i >> 2] >> ((i & 3) * 8)) & 0xFF] *)
Definition digest_of (s : md5_state) : list Z :=
  map (fun i : nat => Z.land (Z.shiftr (state_word s (i / 4)) (Z.of_nat (i mod 4) * 8)) 0xFF) (seq 0 16).

Definition MD5Final (context : MD5_CTX) : list Z :=
  let bits := len_bits context in
  let index := Z.to_nat (Z.land (Z.shiftr (count0 context) 3) 0x3f) in
  let padLen := (if index <? 56 then 56 - index else 120 - index)%nat in
  let context := MD5Update context (take padLen padding) in
  let context := MD5Update context bits in
  digest_of (state context).

Definition hexdigit (x : Z) : Z := if x <? 10 then 48 + x else 87 + x.
(** [sprintf(&output[i*2], "%02x", digest[i])] for every [i] *)
Definition hex_of (digest : list Z) : cstr :=
  flat_map (fun d => [hexdigit (d / 16); hexdigit (d mod 16)]) digest.

(** [ctx0] is the uninitialised stack context. *)
Definition nv_MD5 (ctx0 : MD5_CTX) (input : cstr) : cstr :=
  hex_of (MD5Final (MD5Update (MD5Init ctx0) input)).

(** The file as [fread] delivers it: [None] when [fopen] fails, else the
    successive non-empty chunks (of at most 4096 bytes) and the final [ferror].
    Result: the [int] returned and the string written. *)
Definition nv_calculate_file_md5 (ctx0 : MD5_CTX) (file : option (list (list Z) * bool)) :
    Z * option cstr :=
  match file with
  | None => (1, None)
  | Some (chunks, ferror) =>
      let context := fold_left MD5Update chunks (MD5Init ctx0) in
      if (ferror : bool) then (1, None)
      else (0, Some (hex_of (MD5Final context)))
  end.

(** ** The abstract digest: whole blocks absorbed, the rest pending *)

Definition absorb (s : md5_state) (msg : list Z) : md5_state * list Z :=
  transform_blocks (length msg) s msg.

Lemma transform_blocks_fuel fuel fuel' s m :
  (length m <= fuel)%nat -> (length m <= fuel')%nat ->
  transform_blocks fuel s m = transform_blocks fuel' s m.
Proof.
  revert fuel' s m. induction fuel as [|fuel IH]; intros fuel' s m Hf Hf'.
  - destruct m; [|simpl in Hf; lia]. by destruct fuel'.
  - destruct fuel' as [|fuel']; [destruct m; [done|simpl in Hf'; lia]|].
    cbn [transform_blocks]. destruct (Nat.leb_spec 64 (length m)); [|done].
    apply IH; rewrite length_drop; lia.
Qed.

Lemma transform_blocks_absorb fuel s m :
  (length m <= fuel)%nat -> transform_blocks fuel s m = absorb s m.
Proof. intros. by apply transform_blocks_fuel. Qed.

Lemma absorb_short s m : (length m < 64)%nat -> absorb s m = (s, m).
Proof.
  intros Hm. unfold absorb. destruct m as [|x m]; [done|]. cbn [length transform_blocks].
  destruct (Nat.leb_spec 64 (S (length m))); [simpl in Hm; lia|done].
Qed.

Lemma absorb_block s m :
  (64 <= length m)%nat -> absorb s m = absorb (MD5Transform s (take 64 m)) (drop 64 m).
Proof.
  intros Hm. unfold absorb at 1. destruct m as [|x m]; [simpl in Hm; lia|].
  cbn [length transform_blocks]. destruct (Nat.leb_spec 64 (S (length m))); [|simpl in *; lia].
  apply transform_blocks_absorb. rewrite length_drop. simpl. lia.
Qed.

Lemma absorb_ind (P : md5_state -> list Z -> Prop) :
  (forall s m, (length m < 64)%nat -> P s m) ->
  (forall s m, (64 <= length m)%nat -> P (MD5Transform s (take 64 m)) (drop 64 m) -> P s m) ->
  forall s m, P s m.
Proof.
  intros Hs Hb s m. remember (length m) as n eqn:En. revert s m En.
  induction n as [n IH] using lt_wf_ind. intros s m ->.
  destruct (decide (length m < 64)%nat) as [|Hge]; [auto|].
  apply Hb; [lia|]. eapply IH; [|done]. rewrite length_drop. lia.
Qed.

Lemma absorb_app s m m' :
  absorb s (m ++ m') = absorb (fst (absorb s m)) (snd (absorb s m) ++ m').
Proof.
  revert s m. apply (absorb_ind (fun s m => absorb s (m ++ m') = _)); intros s m Hm.
  - by rewrite (absorb_short s m).
  - intros IH. rewrite (absorb_block s m Hm), <- IH.
    rewrite (absorb_block s (m ++ m')) by (rewrite length_app; lia).
    by rewrite take_app_le, drop_app_le by lia.
Qed.

Lemma absorb_rest_len s m : length (snd (absorb s m)) = (length m mod 64)%nat.
Proof.
  revert s m. apply (absorb_ind (fun s m => length (snd (absorb s m)) = _)); intros s m Hm.
  - by rewrite absorb_short, Nat.mod_small.
  - intros IH. rewrite absorb_block, IH, length_drop by done.
    rewrite <- (Nat.Div0.mod_add (length m - 64) 1). f_equal. lia.
Qed.

(** A context stands for the message fed so far. *)
Record represents (context : MD5_CTX) (msg : list Z) : Prop := {
  rep_state : state context = fst (absorb init_state msg);
  rep_count0 : count0 context = u32 (8 * Z.of_nat (length msg));
  rep_count1 : count1 context = u32 (8 * Z.of_nat (length msg) / 2 ^ 32);
  rep_buflen : length (buffer context) = 64%nat;
  rep_pending : take (length msg mod 64) (buffer context) = snd (absorb init_state msg)
}.

Lemma MD5Init_represents ctx0 :
  length (buffer ctx0) = 64%nat -> represents (MD5Init ctx0) [].
Proof. intros Hb. by split. Qed.

Lemma index_of_count n :
  0 <= n -> Z.to_nat (Z.land (Z.shiftr (u32 (8 * n)) 3) 0x3F) = (Z.to_nat n mod 64)%nat.
Proof.
  intros Hn. change 0x3F with (Z.ones 6). rewrite Z.land_ones, Z.shiftr_div_pow2 by lia.
  change (2 ^ 3) with 8. change (2 ^ 6) with 64. width_unfold.
  apply Nat2Z.inj. rewrite Nat2Z.inj_mod, !Z2Nat.id by (Z.div_mod_to_equations; lia).
  change (Z.of_nat 64) with 64. Z.div_mod_to_equations. lia.
Qed.

Lemma count_carry a n c0 :
  0 <= a -> 0 <= n < 2 ^ 32 ->
  let bits := u32 (Z.shiftl (u32 n) 3) in
  c0 = u32 (u32 (8 * a) + bits) ->
  c0 = u32 (8 * (a + n)) /\
  u32 ((if c0 <? bits then u32 (u32 (8 * a / 2 ^ 32) + 1) else u32 (8 * a / 2 ^ 32))
       + Z.shiftr (u32 n) 29) = u32 (8 * (a + n) / 2 ^ 32).
Proof.
  intros Ha Hn bits Hc0. subst bits. rewrite Z.shiftl_mul_pow2, Z.shiftr_div_pow2 in * by lia.
  change (2 ^ 3) with 8 in *. change (2 ^ 29) with 536870912. width_unfold.
  rewrite (Z.mod_small n) in * by lia. split; [rewrite Hc0; Z.div_mod_to_equations; lia|].
  destruct (Z.ltb_spec c0 (n * 8 mod 4294967296)); subst c0; Z.div_mod_to_equations; lia.
Qed.

Lemma length_buf_write buf i src :
  (i + length src <= length buf)%nat -> length (buf_write buf i src) = length buf.
Proof.
  intros Hl. unfold buf_write. rewrite !length_app, length_take, length_drop. lia.
Qed.

Lemma take_buf_write buf i src :
  (i <= length buf)%nat -> take (i + length src) (buf_write buf i src) = take i buf ++ src.
Proof.
  intros Hi. unfold buf_write. rewrite app_assoc. apply take_app_length'.
  rewrite length_app, length_take. lia.
Qed.

Lemma MD5Update_represents context msg input :
  represents context msg -> Z.of_nat (length input) < 2 ^ 32 ->
  represents (MD5Update context input) (msg ++ input).
Proof.
  intros [Hs H0 H1 Hbl Hp] Hn. pose proof (absorb_rest_len init_state msg) as Hrl.
  pose proof (Nat.mod_upper_bound (length msg) 64 ltac:(lia)) as Hk.
  unfold MD5Update. rewrite H0, H1, index_of_count, Nat2Z.id by lia.
  destruct (count_carry (Z.of_nat (length msg)) (Z.of_nat (length input)) _
              (Nat2Z.is_nonneg _) ltac:(lia) eq_refl) as [C0 C1].
  rewrite <- Nat2Z.inj_add, <- length_app in C0, C1.
  assert ((length (msg ++ input) mod 64 =
           (length msg mod 64 + length input) mod 64)%nat) as Hmod
    by by rewrite length_app, Nat.Div0.add_mod_idemp_l.
  set (k := (length msg mod 64)%nat) in *. cbv zeta.
  destruct (Nat.leb_spec (64 - k) (length input)) as [Hfull|Hpart].
  - set (buf := buf_write _ _ _).
    assert (buf = take 64 (snd (absorb init_state msg) ++ input)) as Hbuf.
    { unfold buf, buf_write. rewrite Hp, length_take, drop_ge, app_nil_r by lia.
      rewrite take_app_ge by lia. by rewrite Hrl. }
    rewrite transform_blocks_absorb by (rewrite length_drop; lia).
    assert (absorb (MD5Transform (state context) buf) (drop (64 - k) input) =
            absorb init_state (msg ++ input)) as Ha.
    { rewrite absorb_app, (absorb_block _ (snd _ ++ input)) by (rewrite length_app; lia).
      rewrite Hs, Hbuf, drop_app_ge by lia. by rewrite Hrl. }
    rewrite Ha. destruct (absorb init_state (msg ++ input)) as [s' rest] eqn:Er.
    pose proof (absorb_rest_len init_state (msg ++ input)) as Hrl'. rewrite Er in Hrl'. cbn [snd] in Hrl'.
    assert (length buf = 64%nat) as Hb64
      by (rewrite Hbuf, length_take, length_app; lia).
    pose proof (Nat.mod_upper_bound (length (msg ++ input)) 64 ltac:(lia)).
    split; cbn [state count0 count1 buffer]; rewrite ?Er; auto.
    + rewrite length_buf_write; lia.
    + rewrite <- Hrl'. apply (take_buf_write buf 0). lia.
  - assert (absorb init_state (msg ++ input) =
            (state context, snd (absorb init_state msg) ++ input)) as Ha.
    { rewrite absorb_app, absorb_short by (rewrite length_app; lia). by rewrite Hs. }
    split; cbn [state count0 count1 buffer]; rewrite ?Ha; auto.
    + rewrite length_buf_write; lia.
    + rewrite Hmod, Nat.mod_small, take_buf_write by lia. by rewrite Hp.
Qed.

Lemma fold_update_represents chunks context msg :
  represents context msg -> Forall (fun c => Z.of_nat (length c) < 2 ^ 32) chunks ->
  represents (fold_left MD5Update chunks context) (msg ++ concat chunks).
Proof.
  intros Hr Hc. revert context msg Hr. induction Hc as [|c chunks Hc _ IH]; intros context msg Hr; simpl.
  - by rewrite app_nil_r.
  - rewrite app_assoc. apply IH. by apply MD5Update_represents.
Qed.

(** The digest depends on the context only through the message it stands for. *)
Lemma MD5Final_represents c c' msg :
  represents c msg -> represents c' msg -> MD5Final c = MD5Final c'.
Proof.
  intros R R'. unfold MD5Final.
  assert (len_bits c = len_bits c') as ->.
  { unfold len_bits. by rewrite (rep_count0 _ _ R), (rep_count1 _ _ R),
      (rep_count0 _ _ R'), (rep_count1 _ _ R'). }
  rewrite (rep_count0 _ _ R), (rep_count0 _ _ R').
  set (pad := take _ padding).
  assert (Z.of_nat (length pad) < 2 ^ 32) as Hpad.
  { unfold pad. rewrite length_take. change (length padding) with 64%nat. rewrite pow2_32. lia. }
  assert (Z.of_nat (length (len_bits c')) < 2 ^ 32) as Hbits by done.
  pose proof (MD5Update_represents _ _ _ (MD5Update_represents _ _ _ R Hpad) Hbits) as U.
  pose proof (MD5Update_represents _ _ _ (MD5Update_represents _ _ _ R' Hpad) Hbits) as U'.
  by rewrite (rep_state _ _ U), (rep_state _ _ U').
Qed.

Definition ctx_ok (context : MD5_CTX) : Prop := length (buffer context) = 64%nat.

(** Streaming.  The digest of a file does not depend on the chunks in which
    it is read nor on the stale context memory: any split of the same bytes
    gives the same string, the one [nv_MD5] gives for them in one piece. *)
Theorem nv_md5_file_matches_string (c c' : MD5_CTX) (chunks : list (list Z)) :
  ctx_ok c -> ctx_ok c' -> Forall (fun x => (length x <= 4096)%nat) chunks ->
  Z.of_nat (length (concat chunks)) < 2 ^ 32 ->
  nv_calculate_file_md5 c (Some (chunks, false)) = (0, Some (nv_MD5 c' (concat chunks))).
Proof.
  intros Hc Hc' Hch Hl. unfold nv_calculate_file_md5, nv_MD5.
  rewrite (MD5Final_represents (fold_left MD5Update chunks (MD5Init c))
             (MD5Update (MD5Init c') (concat chunks)) ([] ++ concat chunks)); [done| |].
  - apply fold_update_represents; [by apply MD5Init_represents|].
    eapply Forall_impl; [exact Hch|]. intros x Hx. simpl in Hx. rewrite pow2_32. lia.
  - apply MD5Update_represents; [by apply MD5Init_represents|done].
Qed.

Definition zero_ctx : MD5_CTX := mkCtx init_state 0 0 (repeat 0 64).
Definition stale_ctx : MD5_CTX := mkCtx (mkState 1 2 3 4) 5 6 (repeat 0xAA 64).

Lemma nv_md5_file_matches_string_witness :
  nv_calculate_file_md5 zero_ctx (Some ([str "lib"; str "nv"], false)) =
    (0, Some (nv_MD5 stale_ctx (concat [str "lib"; str "nv"]))).
Proof.
  apply (nv_md5_file_matches_string zero_ctx stale_ctx [str "lib"; str "nv"]);
    [reflexivity|reflexivity| |reflexivity].
  repeat constructor; vm_compute; lia.
Defined.

(** The digest is not MD5: for the empty message RFC 1321 gives
    d41d8cd98f00b204e9800998ecf8427e (every round here rotates by 7 and the
    length words are stored high word first). *)
Theorem nv_MD5_not_rfc1321 :
  nv_MD5 zero_ctx [] = str "ade220ba6104050808f471ff3a219b10" /\
  nv_MD5 zero_ctx [] <> str "d41d8cd98f00b204e9800998ecf8427e".
Proof. split; vm_compute; [reflexivity|discriminate]. Qed.

End Md5.
