(* ===== verification/Alloc.v ===== *)
(** * Memory: the C allocator and the wrappers of base/sys/nv_mem.c

    The C library's allocator is not part of the program: it is the class
    [Malloc], a state type with [malloc] and [free] and the behaviour the C
    standard documents for them (a non-NULL result is a fresh, aligned region
    of the address space, of at most PTRDIFF_MAX bytes and disjoint from every live one; a failed call changes
    nothing; [free] forgets a region).  [Bump] is an instance, used by the
    witnesses.  Addresses are 64-bit numbers and memory is a partial map from
    addresses to bytes. *)
From S2P Require Import Prelude.

Abbreviation regions := (gmap Z Z).

Definition disjoint_regions (a n b m : Z) : Prop := a + n <= b \/ b + m <= a.

Class Malloc (H : Type) := {
  malloc : H -> Z -> option Z * H;
  free : H -> Z -> H;
  live : H -> regions;
  malloc_fresh h n a h' : malloc h n = (Some a, h') ->
    0 < a /\ a mod 16 = 0 /\ n < 2 ^ 63 /\ a + n < 2 ^ 64 /\
    live h !! a = None /\ live h' = <[a := n]> (live h) /\
    (forall b m, live h !! b = Some m -> disjoint_regions a n b m);
  malloc_fail h n h' : malloc h n = (None, h') -> live h' = live h;
  free_live h a : live (free h a) = delete a (live h);
}.

Section wrappers.
Context {H : Type} `{Malloc H}.

Definition EXIT_FAILURE : Z := 1.

Definition nv_malloc (h : H) (size : Z) : outcome (Z * H) :=
  match malloc h size with
  | (Some ptr, h') => Ret (ptr, h')
  | (None, _) => Exit EXIT_FAILURE
  end.

Definition nv_free (h : H) (ptr : Z) : H := free h ptr.

Lemma nv_malloc_ret h n a h' :
  nv_malloc h n = Ret (a, h') ->
  0 < a /\ a mod 16 = 0 /\ n < 2 ^ 63 /\ a + n < 2 ^ 64 /\
  live h !! a = None /\ live h' = <[a := n]> (live h) /\
  (forall b m, live h !! b = Some m -> disjoint_regions a n b m).
Proof.
  unfold nv_malloc. destruct (malloc h n) as [[p|] h1] eqn:E; [|done].
  intros [= <- <-]. eauto using malloc_fresh.
Qed.
End wrappers.

(** ** Byte memory *)
Abbreviation memory := (gmap Z Z).

Fixpoint memset_loop (mem : memory) (dest c : Z) (n : nat) : memory :=
  match n with
  | O => mem
  | S n' => <[dest := u8 c]> (memset_loop mem (dest + 1) c n')
  end.
Definition nv_memset (mem : memory) (dest c n : Z) : memory :=
  memset_loop mem dest c (Z.to_nat n).

(** The bytes of the source are read before any is written, which [memcpy]
    allows because its regions must not overlap. *)
Fixpoint read_bytes (mem : memory) (src : Z) (n : nat) : list (option Z) :=
  match n with
  | O => []
  | S n' => mem !! src :: read_bytes mem (src + 1) n'
  end.
Fixpoint write_bytes (mem : memory) (dest : Z) (bs : list (option Z)) : memory :=
  match bs with
  | [] => mem
  | b :: bs' => partial_alter (fun _ => b) dest (write_bytes mem (dest + 1) bs')
  end.
Definition nv_memcpy (mem : memory) (dest src n : Z) : memory :=
  write_bytes mem dest (read_bytes mem src (Z.to_nat n)).

Lemma memset_loop_lookup mem dest c n x :
  memset_loop mem dest c n !! x =
    if (dest <=? x) && (x <? dest + Z.of_nat n) then Some (u8 c) else mem !! x.
Proof.
  revert dest. induction n as [|n IH]; intros dest; cbn [memset_loop].
  - destruct (Z.leb_spec dest x), (Z.ltb_spec x (dest + Z.of_nat 0)); simpl; try done; lia.
  - destruct (decide (dest = x)) as [->|Hx].
    + rewrite lookup_insert_eq.
      destruct (Z.leb_spec x x), (Z.ltb_spec x (x + Z.of_nat (S n))); simpl; try done; lia.
    + rewrite lookup_insert_ne, IH by done.
      destruct (Z.leb_spec (dest + 1) x), (Z.leb_spec dest x),
        (Z.ltb_spec x (dest + 1 + Z.of_nat n)), (Z.ltb_spec x (dest + Z.of_nat (S n)));
        simpl; try done; lia.
Qed.

Lemma nv_memset_lookup mem dest c n x :
  0 <= n ->
  nv_memset mem dest c n !! x =
    if (dest <=? x) && (x <? dest + n) then Some (u8 c) else mem !! x.
Proof. intros. unfold nv_memset. by rewrite memset_loop_lookup, Z2Nat.id. Qed.

Lemma write_read_lookup mem0 mem dest src n x :
  write_bytes mem dest (read_bytes mem0 src n) !! x =
    if (dest <=? x) && (x <? dest + Z.of_nat n) then mem0 !! (src + (x - dest)) else mem !! x.
Proof.
  revert dest src. induction n as [|n IH]; intros dest src; cbn [read_bytes write_bytes].
  - destruct (Z.leb_spec dest x), (Z.ltb_spec x (dest + Z.of_nat 0)); simpl; try done; lia.
  - destruct (decide (dest = x)) as [->|Hx].
    + rewrite lookup_partial_alter_eq, Z.sub_diag, Z.add_0_r.
      destruct (Z.leb_spec x x), (Z.ltb_spec x (x + Z.of_nat (S n))); simpl; try done; lia.
    + rewrite lookup_partial_alter_ne, IH by done.
      replace (src + 1 + (x - (dest + 1))) with (src + (x - dest)) by lia.
      destruct (Z.leb_spec (dest + 1) x), (Z.leb_spec dest x),
        (Z.ltb_spec x (dest + 1 + Z.of_nat n)), (Z.ltb_spec x (dest + Z.of_nat (S n)));
        simpl; try done; lia.
Qed.

Lemma nv_memcpy_lookup mem dest src n x :
  0 <= n ->
  nv_memcpy mem dest src n !! x =
    if (dest <=? x) && (x <? dest + n) then mem !! (src + (x - dest)) else mem !! x.
Proof. intros. unfold nv_memcpy. by rewrite write_read_lookup, Z2Nat.id. Qed.

(** ** A concrete allocator *)
Module Bump.

Record heap := mkHeap { brk : Z; regs : regions }.

Definition bump_limit : Z := 2 ^ 40.

(** Every live region lies below the break. *)
Definition heap_ok (h : heap) : bool :=
  (0 <? brk h) && (brk h mod 16 =? 0) &&
  forallb (fun '(b, m) => (b + m <=? brk h) && (b <? brk h) ) (map_to_list (regs h)).

Definition round16 (n : Z) : Z := 16 * ((n + 16) / 16).

Definition bump_malloc (h : heap) (n : Z) : option Z * heap :=
  if heap_ok h && (0 <=? n) && (brk h + round16 n <? bump_limit)
  then (Some (brk h), mkHeap (brk h + round16 n) (<[brk h := n]> (regs h)))
  else (None, h).

Definition bump_free (h : heap) (a : Z) : heap := mkHeap (brk h) (delete a (regs h)).

Definition empty_heap : heap := mkHeap 4096 ∅.

Lemma heap_ok_lookup h b m :
  heap_ok h = true -> regs h !! b = Some m -> b + m <= brk h /\ b < brk h.
Proof.
  unfold heap_ok. rewrite !andb_true_iff, forallb_forall. intros [_ Hall] Hb.
  apply elem_of_map_to_list, list_elem_of_In, Hall in Hb.
  rewrite andb_true_iff, Z.leb_le, Z.ltb_lt in Hb. done.
Qed.

#[export, refine] Instance bump_Malloc : Malloc heap :=
  {| malloc := bump_malloc; free := bump_free; live := regs |}.
Proof.
  - intros h n a h'. unfold bump_malloc.
    destruct (heap_ok h) eqn:Hok; simpl; [|done].
    destruct (Z.leb_spec 0 n); simpl; [|done].
    destruct (Z.ltb_spec (brk h + round16 n) bump_limit) as [Hlt|]; [|done].
    intros [= <- <-]. simpl. pose proof Hok as Hk. unfold heap_ok in Hk.
    rewrite !andb_true_iff in Hk. destruct Hk as [[Hp Hm] _].
    apply Z.ltb_lt in Hp. apply Z.eqb_eq in Hm.
    unfold round16, bump_limit in Hlt. change (2 ^ 40) with 1099511627776 in Hlt.
    split_and!; try done.
    + change (2 ^ 63) with 9223372036854775808. Z.div_mod_to_equations. lia.
    + rewrite pow2_64. Z.div_mod_to_equations. lia.
    + destruct (regs h !! brk h) eqn:E; [|done]. apply heap_ok_lookup in E; [lia|done].
    + intros b m Hb. apply heap_ok_lookup in Hb; [|done]. right. lia.
  - intros h n h'. unfold bump_malloc. case_match; [done|]. by intros [= <-].
  - done.
Defined.

End Bump.
