(* ===== verification/Pool.v ===== *)
(** * The memory pool (base/nv_pool.c)

    A pool owns two lists of blocks (ordinary and large); each block is a bump
    allocator.  The linked lists are Rocq lists in [next] order, a block
    carries the address of its own structure, and [pool->current] is such an
    address.  Sizes and addresses are 64-bit: sums wrap. *)
From S2P Require Import Prelude Alloc.

Module Pool.

Definition NV_OK : Z := 0.
Definition NV_ERROR : Z := -1.

Record nv_pool_block_t := mkBlock {
  b_addr : Z;      (* the address of the structure itself *)
  b_size : Z;
  b_used : Z;
  b_start : Z;
  b_end : Z;
  b_current : Z;
}.

Record nv_pool_stats_t := mkStats {
  total_blocks : Z;
  total_size : Z;
  used_size : Z;
  free_size : Z;
  allocation_count : Z;
  deallocation_count : Z;
  fragmentation_count : Z;
}.

Record nv_pool_t := mkPool {
  blocks : list nv_pool_block_t;
  current : option Z;
  large : list nv_pool_block_t;
  max_size : Z;
  min_size : Z;
  stats : nv_pool_stats_t;
  auto_extend : bool;
  zero_clear : bool;
}.

Record nv_pool_config_t := mkConfig {
  c_initial_size : Z;
  c_max_size : Z;
  c_min_size : Z;
  c_auto_extend : bool;
  c_zero_clear : bool;
}.

Definition NV_POOL_CONFIG_DEFAULT : nv_pool_config_t :=
  mkConfig (16 * 1024) (1024 * 1024) (4 * 1024) true false.

Definition SIZEOF_BLOCK : Z := 48.
Definition SIZEOF_POOL : Z := 112.

(** [(size + 7) & ~7] in [size_t]. *)
Definition nv_pool_align_size (size : Z) : Z := Z.land (u64 (size + 7)) (u64 (Z.lnot 7)).

Definition zero_stats : nv_pool_stats_t := mkStats 0 0 0 0 0 0 0.

Definition with_lists (p : nv_pool_t) (bs : list nv_pool_block_t) (cur : option Z)
    (lg : list nv_pool_block_t) : nv_pool_t :=
  mkPool bs cur lg (max_size p) (min_size p) (stats p) (auto_extend p) (zero_clear p).
Definition with_stats (p : nv_pool_t) (s : nv_pool_stats_t) : nv_pool_t :=
  mkPool (blocks p) (current p) (large p) (max_size p) (min_size p) s
    (auto_extend p) (zero_clear p).

Definition nv_pool_update_stats (p : nv_pool_t) (allocated : Z) (is_alloc : bool) : nv_pool_t :=
  let s := stats p in
  with_stats p
    (if is_alloc
     then mkStats (total_blocks s) (total_size s) (u64 (used_size s + allocated))
            (u64 (free_size s - allocated)) (u64 (allocation_count s + 1))
            (deallocation_count s) (fragmentation_count s)
     else mkStats (total_blocks s) (total_size s) (used_size s) (free_size s)
            (allocation_count s) (u64 (deallocation_count s + 1)) (fragmentation_count s)).

(** The statistics of a new block. *)
Definition add_block_stats (p : nv_pool_t) (size : Z) : nv_pool_t :=
  let s := stats p in
  with_stats p (mkStats (u64 (total_blocks s + 1)) (u64 (total_size s + size)) (used_size s)
                  (u64 (free_size s + size)) (allocation_count s) (deallocation_count s)
                  (fragmentation_count s)).

Definition nv_pool_block_alloc (b : nv_pool_block_t) (size : Z) : option (Z * nv_pool_block_t) :=
  if b_end b <? u64 (b_current b + size) then None
  else Some (b_current b,
             mkBlock (b_addr b) (b_size b) (u64 (b_used b + size)) (b_start b) (b_end b)
               (u64 (b_current b + size))).

Definition nv_pool_block_free (_b : nv_pool_block_t) (_ptr : Z) : Z := NV_OK.

Definition find_block (bs : list nv_pool_block_t) (a : Z) : option nv_pool_block_t :=
  head (filter (fun b => b_addr b = a) bs).
Definition set_block (bs : list nv_pool_block_t) (b : nv_pool_block_t) : list nv_pool_block_t :=
  map (fun c => if b_addr c =? b_addr b then b else c) bs.

(** [used + size <= size of the block], in [size_t]. *)
Definition has_room (b : nv_pool_block_t) (size : Z) : bool := u64 (b_used b + size) <=? b_size b.

(** Allocation in the current block. *)
Definition try_current (p : nv_pool_t) (size : Z) : outcome (option (Z * nv_pool_t)) :=
  match current p with
  | None => Ret None
  | Some a =>
      b ← deref (find_block (blocks p) a);
      if has_room b size then
        match nv_pool_block_alloc b size with
        | Some (ptr, b') =>
            Ret (Some (ptr, nv_pool_update_stats
                              (with_lists p (set_block (blocks p) b') (current p) (large p)) size true))
        | None => Ret None
        end
      else Ret None
  end.

(** The first block of the list with room: pointer, block address, new list. *)
Fixpoint scan_blocks (bs : list nv_pool_block_t) (size : Z) :
    option (Z * Z * list nv_pool_block_t) :=
  match bs with
  | [] => None
  | b :: bs' =>
      let next :=
        match scan_blocks bs' size with
        | Some (ptr, a, bs'') => Some (ptr, a, b :: bs'')
        | None => None
        end in
      if has_room b size then
        match nv_pool_block_alloc b size with
        | Some (ptr, b') => Some (ptr, b_addr b, b' :: bs')
        | None => next
        end
      else next
  end.

Definition try_blocks (p : nv_pool_t) (size : Z) : option (Z * nv_pool_t) :=
  match scan_blocks (blocks p) size with
  | Some (ptr, a, bs) =>
      Some (ptr, nv_pool_update_stats (with_lists p bs (Some a) (large p)) size true)
  | None => None
  end.

Section ops.
Context {H : Type} `{Malloc H}.

(** [nv_malloc] exits instead of returning NULL, so the NULL checks of the
    source after it are never taken. *)
Definition nv_pool_block_create (h : H) (size : Z) : outcome (nv_pool_block_t * H) :=
  let size := nv_pool_align_size size in
  '(block, h) ← nv_malloc h SIZEOF_BLOCK;
  '(memory, h) ← nv_malloc h size;
  Ret (mkBlock block size 0 memory (u64 (memory + size)) memory, h).

Definition nv_pool_block_destroy (h : H) (b : nv_pool_block_t) : H :=
  nv_free (if b_start b =? 0 then h else nv_free h (b_start b)) (b_addr b).

Definition nv_pool_create (h : H) (config : option nv_pool_config_t) : outcome (Z * nv_pool_t * H) :=
  let config := default NV_POOL_CONFIG_DEFAULT config in
  '(pool, h) ← nv_malloc h SIZEOF_POOL;
  let p := mkPool [] None [] (c_max_size config) (c_min_size config) zero_stats
             (c_auto_extend config) (c_zero_clear config) in
  if 0 <? c_initial_size config then
    '(b, h) ← nv_pool_block_create h (c_initial_size config);
    Ret (pool, with_stats (with_lists p [b] (Some (b_addr b)) [])
                 (mkStats 1 (c_initial_size config) 0 (c_initial_size config) 0 0 0), h)
  else Ret (pool, p, h).

Definition nv_pool_create_default (h : H) : outcome (Z * nv_pool_t * H) := nv_pool_create h None.

(** [pool_ptr] is the address of the pool structure. *)
Definition nv_pool_destroy (h : H) (pool : option (Z * nv_pool_t)) : H :=
  match pool with
  | None => h
  | Some (pool_ptr, p) =>
      let h := fold_left nv_pool_block_destroy (blocks p) h in
      let h := fold_left nv_pool_block_destroy (large p) h in
      nv_free h pool_ptr
  end.

(** A new ordinary block of at least [min_size] bytes. *)
Definition try_extend (h : H) (p : nv_pool_t) (size : Z) : outcome (option Z * (H * nv_pool_t)) :=
  if auto_extend p then
    let new_size := if min_size p <? size then size else min_size p in
    if new_size <=? max_size p then
      '(b, h) ← nv_pool_block_create h new_size;
      let p := add_block_stats (with_lists p (b :: blocks p) (Some (b_addr b)) (large p)) new_size in
      match nv_pool_block_alloc b size with
      | Some (ptr, b') =>
          Ret (Some ptr, (h, nv_pool_update_stats
                               (with_lists p (set_block (blocks p) b') (current p) (large p)) size true))
      | None => Ret (None, (h, p))
      end
    else Ret (None, (h, p))
  else Ret (None, (h, p)).

(** A block of its own for a request above [max_size]. *)
Definition try_large (h : H) (p : nv_pool_t) (size : Z) : outcome (option Z * (H * nv_pool_t)) :=
  if max_size p <? size then
    '(b, h) ← nv_pool_block_create h size;
    let p := add_block_stats (with_lists p (blocks p) (current p) (b :: large p)) size in
    match nv_pool_block_alloc b size with
    | Some (ptr, b') =>
        Ret (Some ptr, (h, nv_pool_update_stats
                             (with_lists p (blocks p) (current p) (set_block (large p) b')) size true))
    | None => Ret (None, (h, p))
    end
  else Ret (None, (h, p)).

Definition pool_alloc (h : H) (p : nv_pool_t) (size : Z) : outcome (option Z * (H * nv_pool_t)) :=
  if size =? 0 then Ret (None, (h, p)) else
  let size := nv_pool_align_size size in
  r ← try_current p size;
  match r with
  | Some (ptr, p') => Ret (Some ptr, (h, p'))
  | None =>
      match try_blocks p size with
      | Some (ptr, p') => Ret (Some ptr, (h, p'))
      | None =>
          '(r, (h, p)) ← try_extend h p size;
          match r with
          | Some ptr => Ret (Some ptr, (h, p))
          | None => try_large h p size
          end
      end
  end.

(** Lift an operation on a pool to a pointer that may be NULL. *)
Definition nv_pool_alloc (h : H) (pool : option nv_pool_t) (size : Z) :
    outcome (option Z * (H * option nv_pool_t)) :=
  match pool with
  | None => Ret (None, (h, None))
  | Some p => '(r, (h, p)) ← pool_alloc h p size; Ret (r, (h, Some p))
  end.

Definition nv_pool_calloc (h : H) (mem : memory) (pool : option nv_pool_t) (nmemb size : Z) :
    outcome (option Z * (H * memory * option nv_pool_t)) :=
  let total_size := u64 (nmemb * size) in
  '(r, (h, pool)) ← nv_pool_alloc h pool total_size;
  match r, pool with
  | Some ptr, Some p =>
      Ret (r, (h, if zero_clear p then nv_memset mem ptr 0 total_size else mem, pool))
  | _, _ => Ret (r, (h, mem, pool))
  end.

(** The first block whose memory contains [ptr]. *)
Definition owns (b : nv_pool_block_t) (ptr : Z) : bool := (b_start b <=? ptr) && (ptr <? b_end b).
Definition find_owner (bs : list nv_pool_block_t) (ptr : Z) : option nv_pool_block_t :=
  head (filter (fun b => owns b ptr) bs).

(** Every block accepts the free, so the error path is taken only when no block
    contains the pointer. *)
Definition nv_pool_free (pool : option nv_pool_t) (ptr : option Z) : Z * option nv_pool_t :=
  match pool, ptr with
  | Some p, Some ptr =>
      match find_owner (blocks p) ptr with
      | Some b =>
          if nv_pool_block_free b ptr =? NV_OK
          then (NV_OK, Some (nv_pool_update_stats p 0 false)) else (NV_ERROR, pool)
      | None =>
          match find_owner (large p) ptr with
          | Some b =>
              if nv_pool_block_free b ptr =? NV_OK
              then (NV_OK, Some (nv_pool_update_stats p 0 false)) else (NV_ERROR, pool)
          | None => (NV_ERROR, pool)
          end
      end
  | _, _ => (NV_ERROR, pool)
  end.

(** Bytes of the block from [ptr] to its end. *)
Definition rest_of (b : nv_pool_block_t) (ptr : Z) : Z := u64 (b_size b - (ptr - b_start b)).

Definition nv_pool_realloc (h : H) (mem : memory) (pool : option nv_pool_t) (ptr : option Z) (size : Z) :
    outcome (option Z * (H * memory * option nv_pool_t)) :=
  match ptr with
  | None =>
      '(r, (h, pool)) ← nv_pool_alloc h pool size;
      Ret (r, (h, mem, pool))
  | Some old =>
      if size =? 0 then Ret (None, (h, mem, snd (nv_pool_free pool ptr)))
      else
        p ← deref pool;
        let block :=
          match find_owner (blocks p) old with
          | Some b => Some b
          | None => find_owner (large p) old
          end in
        if match block with Some b => size <=? rest_of b old | None => false end
        then Ret (ptr, (h, mem, pool))
        else
          '(r, (h, pool)) ← nv_pool_alloc h pool size;
          match r, block with
          | Some new_ptr, Some b =>
              let old_size := rest_of b old in
              let copy_size := if size <? old_size then size else old_size in
              Ret (r, (h, nv_memcpy mem new_ptr old copy_size, snd (nv_pool_free pool ptr)))
          | _, _ => Ret (r, (h, mem, pool))
          end
  end.

Definition nv_pool_align (h : H) (pool : option nv_pool_t) (size alignment : Z) :
    outcome (option Z * (H * option nv_pool_t)) :=
  let aligned_size := u64 (size + alignment - 1) in
  '(r, hp) ← nv_pool_alloc h pool aligned_size;
  match r with
  | Some addr =>
      Ret (Some (Z.land (u64 (addr + alignment - 1)) (u64 (Z.lnot (u64 (alignment - 1))))), hp)
  | None => Ret (None, hp)
  end.

Definition reset_block (b : nv_pool_block_t) : nv_pool_block_t :=
  mkBlock (b_addr b) (b_size b) 0 (b_start b) (b_end b) (b_start b).

Definition pool_reset (p : nv_pool_t) : nv_pool_t :=
  let s := stats p in
  let bs := map reset_block (blocks p) in
  with_stats (with_lists p bs (b_addr <$> head bs) (map reset_block (large p)))
    (mkStats (total_blocks s) (total_size s) 0 (total_size s) 0 0 (fragmentation_count s)).
Definition nv_pool_reset (pool : option nv_pool_t) : option nv_pool_t := pool_reset <$> pool.

Definition nv_pool_extend (h : H) (pool : option nv_pool_t) (size : Z) :
    outcome (Z * (H * option nv_pool_t)) :=
  match pool with
  | None => Ret (NV_ERROR, (h, None))
  | Some p =>
      if size =? 0 then Ret (NV_ERROR, (h, pool)) else
      let size := nv_pool_align_size size in
      '(b, h) ← nv_pool_block_create h size;
      Ret (NV_OK, (h, Some (add_block_stats
                              (with_lists p (b :: blocks p) (Some (b_addr b)) (large p)) size)))
  end.

End ops.

Definition nv_pool_shrink (pool : option nv_pool_t) (_size : Z) : Z * option nv_pool_t := (NV_OK, pool).
Definition nv_pool_compact (pool : option nv_pool_t) : Z * option nv_pool_t := (NV_OK, pool).

Definition nv_pool_get_size (pool : option nv_pool_t) : Z :=
  match pool with Some p => total_size (stats p) | None => 0 end.
Definition nv_pool_get_used (pool : option nv_pool_t) : Z :=
  match pool with Some p => used_size (stats p) | None => 0 end.
Definition nv_pool_get_free (pool : option nv_pool_t) : Z :=
  match pool with Some p => free_size (stats p) | None => 0 end.
Definition nv_pool_is_empty (pool : option nv_pool_t) : bool :=
  match pool with Some p => used_size (stats p) =? 0 | None => true end.
Definition nv_pool_is_full (pool : option nv_pool_t) : bool :=
  match pool with Some p => free_size (stats p) =? 0 | None => false end.
Definition nv_pool_get_stats (pool : option nv_pool_t) : option nv_pool_stats_t := stats <$> pool.

(** The size is read back after the statistics were cleared. *)
Definition nv_pool_reset_stats (pool : option nv_pool_t) : option nv_pool_t :=
  p ← pool;
  let p := with_stats p zero_stats in
  let sz := nv_pool_get_size (Some p) in
  Some (with_stats p (mkStats 0 sz 0 sz 0 0 0)).

(** The callback sees each block and the caller's data, and may change the data. *)
Fixpoint iterate_list {D} (callback : nv_pool_block_t -> D -> Z * D)
    (bs : list nv_pool_block_t) (result : Z) (data : D) : Z * D :=
  match bs with
  | [] => (result, data)
  | b :: bs' =>
      if result =? NV_OK
      then let '(result, data) := callback b data in iterate_list callback bs' result data
      else (result, data)
  end.
Definition nv_pool_iterate {D} (pool : option nv_pool_t)
    (callback : option (nv_pool_block_t -> D -> Z * D)) (data : D) : Z * D :=
  match pool, callback with
  | Some p, Some cb =>
      let '(result, data) := iterate_list cb (blocks p) NV_OK data in
      if result =? NV_OK then iterate_list cb (large p) result data else (result, data)
  | _, _ => (NV_ERROR, data)
  end.

(** The number of errors the validation reports. *)
Definition validate_block (b : nv_pool_block_t) : Z :=
  (if (b_current b <? b_start b) || (b_end b <? b_current b) then 1 else 0) +
  (if b_size b <? b_used b then 1 else 0).
Definition nv_pool_validate (pool : option nv_pool_t) : option Z :=
  p ← pool;
  Some (fold_left (fun errors b => errors + validate_block b) (large p)
          (fold_left (fun errors b => errors + validate_block b) (blocks p) 0)).

(** ** Alignment *)

Lemma align_size_eq size :
  0 <= size < 2 ^ 64 -> nv_pool_align_size size = u64 (size + 7) / 8 * 8.
Proof.
  intros Hs. unfold nv_pool_align_size. change 7 with (2 ^ 3 - 1) at 2.
  apply land_align_down; [by apply wrap_range|lia].
Qed.

(** Below the top eight bytes of the address range the size is rounded up to a
    multiple of 8; in the top eight the sum wraps and the result is 0. *)
Lemma align_size_spec size :
  0 <= size < 2 ^ 64 ->
  (size <= 2 ^ 64 - 8 -> size <= nv_pool_align_size size < size + 8 /\
                         nv_pool_align_size size mod 8 = 0) /\
  (2 ^ 64 - 8 < size -> nv_pool_align_size size = 0).
Proof.
  intros Hs. rewrite align_size_eq by done. rewrite Z.mod_mul by lia.
  revert Hs. width_unfold. intros Hs. split; intros; Z.div_mod_to_equations; lia.
Qed.

Lemma align_size_id size :
  0 <= size < 2 ^ 64 -> size mod 8 = 0 -> nv_pool_align_size size = size.
Proof.
  intros Hs H8. rewrite align_size_eq by done. revert Hs. width_unfold. intros.
  Z.div_mod_to_equations. lia.
Qed.

(** ** Well-formed blocks and pools *)

Record block_ok (b : nv_pool_block_t) : Prop := {
  bo_size : 0 <= b_size b < 2 ^ 63 /\ b_size b mod 8 = 0;
  bo_used : 0 <= b_used b <= b_size b /\ b_used b mod 8 = 0;
  bo_start : 0 < b_start b /\ b_start b mod 8 = 0;
  bo_end : b_end b = b_start b + b_size b /\ b_end b < 2 ^ 64;
  bo_current : b_current b = b_start b + b_used b;
}.

(** The part of a block no operation changes. *)
Definition layout (b : nv_pool_block_t) : Z * Z * Z := (b_addr b, b_start b, b_size b).
Abbreviation l_addr := (fun l : Z * Z * Z => fst (fst l)).
Abbreviation l_start := (fun l : Z * Z * Z => snd (fst l)).

Definition all_blocks (p : nv_pool_t) : list nv_pool_block_t := blocks p ++ large p.

Section invariant.
Context {H : Type} `{Malloc H}.

Record layout_ok (h : H) (ls : list (Z * Z * Z)) : Prop := {
  lo_nodup : NoDup (map l_addr ls);
  lo_addr : forall l, l ∈ ls -> is_Some (live h !! l_addr l);
  lo_live : forall l, l ∈ ls -> live h !! l_start l = Some (snd l);
  lo_disj : forall l l', l ∈ ls -> l' ∈ ls -> l_addr l <> l_addr l' ->
    disjoint_regions (l_start l) (snd l) (l_start l') (snd l');
}.

Record pool_ok (h : H) (p : nv_pool_t) : Prop := {
  po_blocks : Forall block_ok (all_blocks p);
  po_layout : layout_ok h (map layout (all_blocks p));
  po_current : forall a, current p = Some a -> a ∈ map b_addr (blocks p);
  po_sizes : 0 <= min_size p < 2 ^ 63 /\ 0 <= max_size p < 2 ^ 63;
}.

#[global] Instance layout_ok_perm h : Proper ((≡ₚ) ==> iff) (layout_ok h).
Proof.
  assert (forall l l', l ≡ₚ l' -> layout_ok h l -> layout_ok h l') as Hp.
  { intros l l' E [A B C D]. split.
    - by rewrite <- E.
    - intros x. rewrite <- E. apply B.
    - intros x. rewrite <- E. apply C.
    - intros x y. rewrite <- E. apply D. }
  intros l l' E. split; apply Hp; [done|by symmetry].
Qed.

(** A successful [nv_pool_block_create] adds a fresh block. *)
Lemma block_create_ok h size b h' ls :
  0 <= size < 2 ^ 64 -> layout_ok h ls -> nv_pool_block_create h size = Ret (b, h') ->
  block_ok b /\ b_used b = 0 /\ b_size b = nv_pool_align_size size /\ layout_ok h' (layout b :: ls).
Proof.
  intros Hsz L. unfold nv_pool_block_create. set (n := nv_pool_align_size size).
  assert (0 <= n /\ n mod 8 = 0) as [Hn0 Hn8].
  { unfold n. rewrite align_size_eq by done. rewrite Z.mod_mul by lia. split; [|done].
    pose proof (wrap_range 64 (size + 7) ltac:(lia)) as [? ?]. Z.div_mod_to_equations. lia. }
  destruct (nv_malloc h SIZEOF_BLOCK) as [[a1 h1]| |] eqn:E1; simpl; try done.
  destruct (nv_malloc h1 n) as [[a2 h2]| |] eqn:E2; simpl; try done.
  intros [= <- <-].
  apply nv_malloc_ret in E1 as (P1 & M1 & _ & B1 & N1 & L1 & D1).
  apply nv_malloc_ret in E2 as (P2 & M2 & S2 & B2 & N2 & L2 & D2).
  assert (a1 <> a2) by (intros ->; rewrite L1, lookup_insert_eq in N2; done).
  assert (forall x v, live h !! x = Some v -> live h2 !! x = Some v) as Hkeep.
  { intros x v Hx. rewrite L2, L1.
    rewrite lookup_insert_ne by (intros <-; rewrite L1 in N2; apply lookup_insert_None in N2; naive_solver).
    by rewrite lookup_insert_ne by congruence. }
  split_and!; [|done|done|].
  - split; simpl; [lia|split; [lia|done]| | |lia].
    + split; [done|]. Z.div_mod_to_equations. lia.
    + assert (u64 (a2 + n) = a2 + n) as -> by (apply wrap_small; split; lia). lia.
  - destruct L as [A B C D]. split; cbn [map].
    + apply NoDup_cons. split; [|done]. intros Hin. apply list_elem_of_fmap in Hin as (l & Hl & Hl').
      simpl in Hl. destruct (B _ Hl') as [v Hv]. rewrite <- Hl in Hv. congruence.
    + intros l [->|Hl]%elem_of_cons; simpl.
      * rewrite L2, lookup_insert_ne, L1, lookup_insert_eq by done. eauto.
      * destruct (B _ Hl) as [v Hv]. eauto.
    + intros l [->|Hl]%elem_of_cons; simpl; [|eauto].
      by rewrite L2, lookup_insert_eq.
    + assert (forall l, l ∈ ls -> disjoint_regions a2 n (l_start l) (snd l)) as Hnew.
      { intros l Hl. apply D2. rewrite L1, lookup_insert_ne; [eauto|].
        intros E. pose proof (C _ Hl) as Hc. simpl in Hc. rewrite <- E in Hc. congruence. }
      intros l l' [->|Hl]%elem_of_cons [->|Hl']%elem_of_cons Hne; simpl in *; [done|eauto| |eauto].
      destruct (Hnew _ Hl); [right|left]; lia.
Qed.

(** ** One allocation step *)

Definition in_use (p : nv_pool_t) (x : Z) : Prop :=
  exists b, b ∈ all_blocks p /\ b_start b <= x < b_current b.

Record granted (p p' : nv_pool_t) (ptr n : Z) : Prop := {
  gr_ptr : 0 < ptr /\ ptr mod 8 = 0 /\ ptr + n < 2 ^ 64;
  gr_fresh : forall x, ptr <= x < ptr + n -> ~ in_use p x;
  gr_used : forall x, in_use p' x <-> in_use p x \/ ptr <= x < ptr + n;
  gr_block : exists b, b ∈ all_blocks p' /\ b_start b <= ptr /\ ptr + n <= b_end b;
  gr_keep : forall l, l ∈ map layout (all_blocks p) -> l ∈ map layout (all_blocks p');
}.

Record stats_exact (p : nv_pool_t) : Prop := {
  se_blocks : total_blocks (stats p) = u64 (Z.of_nat (length (all_blocks p)));
  se_total : total_size (stats p) = u64 (zsum (map b_size (all_blocks p)));
  se_used : used_size (stats p) = u64 (zsum (map b_used (all_blocks p)));
  se_free : free_size (stats p) =
    u64 (zsum (map b_size (all_blocks p)) - zsum (map b_used (all_blocks p)));
}.

Definition config_of (p : nv_pool_t) := (max_size p, min_size p, auto_extend p, zero_clear p).

Lemma block_alloc_ok b n :
  block_ok b -> 0 <= n <= 2 ^ 63 -> n mod 8 = 0 ->
  if has_room b n then
    exists b', nv_pool_block_alloc b n = Some (b_current b, b') /\ block_ok b' /\
      layout b' = layout b /\ b_used b' = b_used b + n /\ b_current b' = b_current b + n
  else b_size b < b_used b + n.
Proof.
  intros [[S0 S8] [U0 U8] [A0 A8] [E1 E2] C] Hn H8.
  pose proof pow2_64_63.
  unfold has_room. rewrite (wrap_small 64 (b_used b + n)) by (split; lia).
  destruct (Z.leb_spec (b_used b + n) (b_size b)); [|lia].
  unfold nv_pool_block_alloc.
  assert (u64 (b_current b + n) = b_current b + n) as -> by (apply wrap_small; split; lia).
  rewrite (wrap_small 64 (b_used b + n)) by (split; lia).
  destruct (Z.ltb_spec (b_end b) (b_current b + n)); [lia|].
  eexists. split_and!; [done| |done|done|done].
  split; simpl; try lia. split; [lia|]. rewrite Z.add_mod, U8, H8 by lia. done.
Qed.

Lemma in_use_perm p l x :
  all_blocks p ≡ₚ l -> in_use p x <-> exists b, b ∈ l /\ b_start b <= x < b_current b.
Proof. intros E. unfold in_use. by setoid_rewrite E. Qed.

(** Two blocks of a well-formed pool do not share an address. *)
Lemma block_disjoint h p b rest c x :
  pool_ok h p -> all_blocks p ≡ₚ b :: rest -> c ∈ rest ->
  b_start b <= x < b_end b -> b_start c <= x < b_end c -> False.
Proof.
  intros [Hb Hl _ _] E Hc Hx Hx'. rewrite E in Hl, Hb.
  apply Forall_cons in Hb as [Hb Hrest]. rewrite Forall_forall in Hrest.
  destruct Hl as [A _ _ D]. cbn [map] in A. apply NoDup_cons in A as [A _].
  assert (layout c ∈ map layout (b :: rest)) as Hc' by (apply list_elem_of_fmap_2; set_solver).
  destruct (D (layout b) (layout c)) as [D'|D']; simpl in *.
  - set_solver.
  - set_solver.
  - intros Ea. apply A. rewrite Ea. apply list_elem_of_fmap. exists (layout c).
    split; [done|]. by apply list_elem_of_fmap_2.
  - pose proof (bo_end _ Hb). lia.
  - pose proof (bo_end _ (Hrest _ Hc)). lia.
Qed.

Lemma grant_core h p p' b b' rest n :
  pool_ok h p -> all_blocks p ≡ₚ b :: rest -> all_blocks p' ≡ₚ b' :: rest ->
  block_ok b' -> layout b' = layout b -> b_current b' = b_current b + n -> 0 <= n ->
  (forall a, current p' = Some a -> a ∈ map b_addr (blocks p')) -> config_of p' = config_of p ->
  pool_ok h p' /\ granted p p' (b_current b) n.
Proof.
  intros Hp E E' Hb' L C Hn Hcur Hcfg. pose proof Hp as [Hb Hl _ Hsz].
  rewrite E in Hb. apply Forall_cons in Hb as [Hb Hrest]. injection L as La Ls Lz.
  injection Hcfg as M1 M2 _ _.
  assert (forall x, b_current b <= x < b_current b + n -> b_start b <= x < b_end b) as Hin.
  { intros x Hx. destruct Hb as [? ? ? [? ?] ?], Hb' as [? ? ? [? ?] ?]. lia. }
  split.
  - split; [rewrite E'; by constructor| |done|by rewrite M1, M2].
    rewrite E' . rewrite E in Hl. cbn [map] in *. unfold layout at 1. by rewrite La, Ls, Lz.
  - split.
    + destruct Hb as [? [? ?] [? ?] [? ?] Hcu], Hb' as [? [? ?] ? [? ?] ?].
      split_and!; [lia| |lia]. rewrite Hcu, Z.add_mod by lia.
      replace (b_start b mod 8) with 0 by lia. replace (b_used b mod 8) with 0 by lia. done.
    + intros x Hx. rewrite (in_use_perm _ _ _ E). intros (c & [->|Hc]%elem_of_cons & Hcx); [lia|].
      eapply (block_disjoint h p b rest c x); eauto.
      rewrite Forall_forall in Hrest. destruct (Hrest _ Hc) as [? ? ? [? ?] ?]. lia.
    + intros x. rewrite (in_use_perm _ _ _ E), (in_use_perm _ _ _ E').
      setoid_rewrite elem_of_cons. split.
      * intros (c & [->|Hc] & Hx); [|eauto].
        destruct (Z.ltb_spec x (b_current b)); [left; exists b; rewrite <- Ls; split; [by left|lia]|right; lia].
      * pose proof (bo_current _ Hb). pose proof (bo_used _ Hb).
        intros [(c & [->|Hc] & Hx)|Hx]; [|by eauto|]; exists b'; (split; [by left|lia]).
    + exists b'. rewrite E', elem_of_cons. destruct Hb as [? ? ? ? ?], Hb' as [? ? ? ? ?].
      split; [by left|lia].
    + intros l. rewrite E, E'. cbn [map]. unfold layout at 1 3. by rewrite La, Ls, Lz.
Qed.

(** ** The lists of blocks *)

Lemma find_block_Some bs a b : find_block bs a = Some b -> b ∈ bs /\ b_addr b = a.
Proof.
  unfold find_block. intros E. apply head_Some_elem_of in E.
  apply list_elem_of_filter in E. tauto.
Qed.

Lemma find_block_is_Some bs a : a ∈ map b_addr bs -> is_Some (find_block bs a).
Proof.
  intros (b & -> & Hb)%list_elem_of_fmap. unfold find_block.
  destruct (filter _ bs) as [|c l] eqn:E; [|by eexists].
  assert (b ∈ filter (fun c => b_addr c = b_addr b) bs) as Hf by (by apply list_elem_of_filter).
  rewrite E in Hf. set_solver.
Qed.

Lemma set_block_split bs b b' :
  NoDup (map b_addr bs) -> b ∈ bs -> b_addr b' = b_addr b ->
  exists l1 l2, bs = l1 ++ b :: l2 /\ set_block bs b' = l1 ++ b' :: l2.
Proof.
  intros Hnd (l1 & l2 & ->)%list_elem_of_split Ea. exists l1, l2. split; [done|].
  unfold set_block. rewrite map_app. cbn [map]. rewrite Ea, Z.eqb_refl.
  rewrite map_app in Hnd. cbn [map] in Hnd.
  assert (forall l, b_addr b ∉ map b_addr l ->
    map (fun c => if b_addr c =? b_addr b then b' else c) l = l) as Hid.
  { induction l as [|c l IH]; intros Hn; simpl; [done|]. simpl in Hn.
    rewrite IH by set_solver. destruct (Z.eqb_spec (b_addr c) (b_addr b)); [set_solver|done]. }
  apply NoDup_app in Hnd as (_ & Hd & Hn). apply NoDup_cons in Hn as [Hn _].
  rewrite !Hid; [done|done|]. intros Hin. apply (Hd _ Hin). set_solver.
Qed.

Lemma scan_blocks_Some bs n ptr a bs' :
  scan_blocks bs n = Some (ptr, a, bs') ->
  exists l1 b b' l2, bs = l1 ++ b :: l2 /\ bs' = l1 ++ b' :: l2 /\ has_room b n = true /\
    nv_pool_block_alloc b n = Some (ptr, b') /\ a = b_addr b.
Proof.
  revert ptr a bs'. induction bs as [|b bs IH]; intros ptr a bs'; simpl; [done|].
  assert (forall r, match scan_blocks bs n with
                    | Some (q, c, cs) => Some (q, c, b :: cs) | None => None end = Some r ->
    r = (ptr, a, bs') ->
    exists l1 c c' l2, b :: bs = l1 ++ c :: l2 /\ bs' = l1 ++ c' :: l2 /\ has_room c n = true /\
      nv_pool_block_alloc c n = Some (ptr, c') /\ a = b_addr c) as Hnext.
  { intros r. destruct (scan_blocks bs n) as [[[q c] cs]|]; [|done]. intros [= <-] [= -> -> <-].
    destruct (IH _ _ _ eq_refl) as (l1 & x & x' & l2 & -> & -> & ?). by exists (b :: l1), x, x', l2. }
  destruct (has_room b n) eqn:Hr; [|eauto].
  destruct (nv_pool_block_alloc b n) as [[q b']|] eqn:Ha; [|eauto].
  intros [= <- <- <-]. by exists [], b, b', bs.
Qed.

Lemma scan_blocks_None bs n :
  Forall block_ok bs -> 0 <= n <= 2 ^ 63 -> n mod 8 = 0 -> scan_blocks bs n = None ->
  Forall (fun b => b_size b < b_used b + n) bs.
Proof.
  intros Hb Hn H8. induction Hb as [|b bs Hb _ IH]; simpl; [constructor|].
  pose proof (block_alloc_ok b n Hb Hn H8) as Ha. destruct (has_room b n).
  - destruct Ha as (b' & -> & _). done.
  - destruct (scan_blocks bs n) as [[[? ?] ?]|]; [done|]. intros _. constructor; auto.
Qed.

(** ** Statistics *)

Lemma stats_grant p p' b b' rest n :
  stats_exact p -> all_blocks p ≡ₚ b :: rest -> all_blocks p' ≡ₚ b' :: rest ->
  b_used b' = b_used b + n -> b_size b' = b_size b ->
  stats p' = stats (nv_pool_update_stats p n true) -> stats_exact p'.
Proof.
  intros [S1 S2 S3 S4] E E' Hu Hs Hst. rewrite E in *.
  split; rewrite Hst, E'; cbn [stats nv_pool_update_stats with_stats total_blocks total_size used_size
    free_size map length zsum foldr] in *; rewrite ?Hu, ?Hs, ?S1, ?S2, ?S3, ?S4; try done;
    unfold zsum, wrap; rewrite ?Zplus_mod_idemp_l, ?Zminus_mod_idemp_l; f_equal; lia.
Qed.

Lemma stats_push p p' b n :
  stats_exact p -> all_blocks p' ≡ₚ b :: all_blocks p -> b_used b = 0 -> b_size b = n ->
  stats p' = stats (add_block_stats p n) -> stats_exact p'.
Proof.
  intros [S1 S2 S3 S4] E' Hu Hs Hst.
  split; rewrite Hst, E'; cbn [stats add_block_stats with_stats total_blocks total_size used_size
    free_size map length zsum foldr] in *; rewrite ?Hu, ?Hs, ?S1, ?S2, ?S3, ?S4; try done;
    unfold zsum, wrap; rewrite ?Zplus_mod_idemp_l, ?Zminus_mod_idemp_l; f_equal; lia.
Qed.

(** What a successful allocation of [n] bytes does. *)
Record alloc_result (p : nv_pool_t) (n ptr : Z) (h' : H) (p' : nv_pool_t) : Prop := {
  ar_ok : pool_ok h' p';
  ar_grant : granted p p' ptr n;
  ar_stats : min_size p mod 8 = 0 -> stats_exact p -> stats_exact p';
  ar_config : config_of p' = config_of p;
}.

(** Allocation in one block of the pool. *)
Lemma alloc_step h p p' b b' rest n ptr :
  pool_ok h p -> 0 <= n <= 2 ^ 63 -> n mod 8 = 0 -> has_room b n = true ->
  nv_pool_block_alloc b n = Some (ptr, b') ->
  all_blocks p ≡ₚ b :: rest -> all_blocks p' ≡ₚ b' :: rest ->
  (forall a, current p' = Some a -> a ∈ map b_addr (blocks p')) -> config_of p' = config_of p ->
  stats p' = stats (nv_pool_update_stats p n true) ->
  alloc_result p n ptr h p'.
Proof.
  intros Hp Hn H8 Hr Ha E E' Hcur Hcfg Hst.
  assert (block_ok b) as Hb by (pose proof (po_blocks _ _ Hp) as Hb; rewrite E in Hb; by inv Hb).
  pose proof (block_alloc_ok b n Hb Hn H8) as Hspec. rewrite Hr in Hspec.
  destruct Hspec as (b'' & Ha' & Hb' & L & U & C). rewrite Ha in Ha'. injection Ha' as -> <-.
  destruct (grant_core h p p' b b' rest n) as [Hok Hg]; auto; [lia|].
  split; auto. intros _ Hs. injection L as _ _ Lz. eauto using stats_grant.
Qed.

Lemma blocks_addr_nodup h p : pool_ok h p -> NoDup (map b_addr (blocks p)) /\ NoDup (map b_addr (large p)).
Proof.
  intros [_ [Hn _ _ _] _ _]. rewrite map_map in Hn. simpl in Hn. unfold all_blocks in Hn.
  rewrite map_app in Hn. apply NoDup_app in Hn as (? & _ & ?). done.
Qed.

Lemma try_current_ok h p n :
  pool_ok h p -> 0 <= n <= 2 ^ 63 -> n mod 8 = 0 ->
  match try_current p n with
  | Ret (Some (ptr, p')) => alloc_result p n ptr h p'
  | Ret None => True
  | _ => False
  end.
Proof.
  intros Hp Hn H8. unfold try_current. destruct (current p) as [a|] eqn:Ec; [|done].
  destruct (find_block_is_Some (blocks p) a) as [b Eb]; [eapply po_current; eauto|].
  rewrite Eb. simpl. apply find_block_Some in Eb as [Hb <-].
  destruct (has_room b n) eqn:Hr; [|done].
  destruct (nv_pool_block_alloc b n) as [[ptr b']|] eqn:Ha; [|done].
  assert (b_addr b' = b_addr b) as Ea.
  { unfold nv_pool_block_alloc in Ha. case_match; by simplify_eq/=. }
  destruct (set_block_split (blocks p) b b') as (l1 & l2 & E & E');
    [by destruct (blocks_addr_nodup h p Hp)|done|done|].
  apply (alloc_step h p _ b b' (l1 ++ l2 ++ large p)); auto.
  - unfold all_blocks. rewrite E. apply perm_mid.
  - unfold all_blocks. simpl. rewrite E'. apply perm_mid.
  - intros c. simpl. rewrite E', map_app. intros [= <-]. simpl. rewrite Ea. set_solver.
Qed.

Lemma try_blocks_ok h p n ptr p' :
  pool_ok h p -> 0 <= n <= 2 ^ 63 -> n mod 8 = 0 ->
  try_blocks p n = Some (ptr, p') -> alloc_result p n ptr h p'.
Proof.
  intros Hp Hn H8. unfold try_blocks. destruct (scan_blocks (blocks p) n) as [[[q a] bs]|] eqn:Es; [|done].
  intros [= <- <-]. apply scan_blocks_Some in Es as (l1 & b & b' & l2 & E & -> & Hr & Ha & ->).
  assert (b_addr b' = b_addr b) as Ea.
  { unfold nv_pool_block_alloc in Ha. case_match; by simplify_eq/=. }
  apply (alloc_step h p _ b b' (l1 ++ l2 ++ large p)); auto.
  - unfold all_blocks. rewrite E. apply perm_mid.
  - unfold all_blocks. simpl. apply perm_mid.
  - intros c. simpl. rewrite map_app. intros [= <-]. simpl. rewrite Ea. set_solver.
Qed.

(** A pool with a fresh block in front of one of its lists. *)
Lemma push_ok h p b h' p1 size :
  0 <= size < 2 ^ 64 -> pool_ok h p -> nv_pool_block_create h size = Ret (b, h') ->
  all_blocks p1 ≡ₚ b :: all_blocks p -> config_of p1 = config_of p ->
  (forall a, current p1 = Some a -> a ∈ map b_addr (blocks p1)) ->
  pool_ok h' p1 /\ block_ok b /\ b_used b = 0 /\ b_size b = nv_pool_align_size size /\
  (forall x, in_use p1 x <-> in_use p x).
Proof.
  intros Hs [Hb Hl Hc Hz] Ec E Hcfg Hcur. injection Hcfg as M1 M2 _ _.
  destruct (block_create_ok h size b h' _ Hs Hl Ec) as (B & U & S & L).
  split_and!; auto.
  - split; [rewrite E; by constructor| |done|by rewrite M1, M2]. rewrite E. done.
  - intros x. rewrite (in_use_perm _ _ _ E). setoid_rewrite elem_of_cons. split.
    + intros (c & [->|Hin] & Hx); [|by exists c]. pose proof (bo_current _ B). lia.
    + intros (c & Hin & Hx). exists c. auto.
Qed.

Lemma block_create_exit h size c : nv_pool_block_create h size = Exit c -> c = EXIT_FAILURE.
Proof.
  unfold nv_pool_block_create, nv_malloc.
  destruct (malloc h _) as [[a|] h1]; simpl; [|congruence].
  destruct (malloc h1 _) as [[a'|] h2]; simpl; congruence.
Qed.
Lemma block_create_no_ub h size : nv_pool_block_create h size <> UB.
Proof.
  unfold nv_pool_block_create, nv_malloc.
  destruct (malloc h _) as [[a|] h1]; simpl; [|congruence].
  destruct (malloc h1 _) as [[a'|] h2]; simpl; congruence.
Qed.

(** A new block created for a request of [n] bytes serves it. *)
Lemma alloc_fresh h p b h' p1 size n :
  size < 2 ^ 63 -> 0 <= n <= size -> n mod 8 = 0 -> pool_ok h p ->
  nv_pool_block_create h size = Ret (b, h') ->
  all_blocks p1 ≡ₚ b :: all_blocks p -> config_of p1 = config_of p ->
  (forall a, current p1 = Some a -> a ∈ map b_addr (blocks p1)) ->
  stats p1 = stats (add_block_stats p size) ->
  (size mod 8 = 0 \/ size = min_size p) ->
  exists ptr b', nv_pool_block_alloc b n = Some (ptr, b') /\ b_addr b' = b_addr b /\
    forall p', all_blocks p' ≡ₚ b' :: all_blocks p ->
      (forall a, current p' = Some a -> a ∈ map b_addr (blocks p')) ->
      config_of p' = config_of p -> stats p' = stats (nv_pool_update_stats p1 n true) ->
      alloc_result p n ptr h' p'.
Proof.
  intros Hlt Hn H8 Hp Ec E Hcfg Hcur Hst Hsz.
  pose proof pow2_64_63.
  assert (0 <= size < 2 ^ 64) as Hs by lia.
  destruct (push_ok h p b h' p1 size) as (Hp1 & Hb & Hu & Hbs & Huse); auto.
  destruct (align_size_spec size Hs) as [Hal _].
  pose proof (block_alloc_ok b n Hb ltac:(lia) H8) as Ha.
  destruct (has_room b n) eqn:Hr; [|rewrite Hu, Hbs in Ha; pose proof (pow2_64); lia].
  destruct Ha as (b' & Ha & Hb' & L & _). exists (b_current b), b'. split_and!; [done|by injection L|].
  intros p' E' Hcur' Hcfg' Hst'.
  assert (alloc_result p1 n (b_current b) h' p') as [R1 R2 R3 R4].
  { eapply alloc_step; eauto; [lia|by rewrite Hcfg', Hcfg]. }
  destruct R2 as [G1 G2 G3 G4 G5]. split; auto.
  - split; auto; [intros x; rewrite <- Huse; auto..|].
    intros l Hl. apply G5. rewrite E. cbn [map]. set_solver.
  - intros Hmin Hse. apply R3; [injection Hcfg as _ -> _ _; done|].
    apply (stats_push p p1 b size); auto. rewrite Hbs. apply align_size_id; [done|].
    destruct Hsz as [?| ->]; done.
Qed.

(** The result of a step that may create a block: a grant, no change when
    the step does not apply, or the exit of a failed [nv_malloc]. *)
Definition step_ok (h : H) (p : nv_pool_t) (n : Z) (applies : bool)
    (r : outcome (option Z * (H * nv_pool_t))) : Prop :=
  match r with
  | Ret (Some ptr, (h', p')) => applies = true /\ alloc_result p n ptr h' p'
  | Ret (None, hp) => applies = false /\ hp = (h, p)
  | Exit c => applies = true /\ c = EXIT_FAILURE
  | UB => False
  end.

Definition extends (p : nv_pool_t) (n : Z) : bool :=
  auto_extend p && (Z.max n (min_size p) <=? max_size p).

Lemma set_block_head b b' bs :
  b_addr b' = b_addr b -> b_addr b ∉ map b_addr bs -> set_block (b :: bs) b' = b' :: bs.
Proof.
  intros Ea Hn. unfold set_block. cbn [map]. rewrite Ea, Z.eqb_refl. f_equal.
  induction bs as [|c bs IH]; cbn [map]; [done|]. cbn [map] in Hn.
  rewrite IH by set_solver. destruct (Z.eqb_spec (b_addr c) (b_addr b)); [set_solver|done].
Qed.

Lemma create_fresh_addr h p size b h' :
  0 <= size < 2 ^ 64 -> pool_ok h p -> nv_pool_block_create h size = Ret (b, h') ->
  ~ (b_addr b ∈ map b_addr (blocks p)) /\ ~ (b_addr b ∈ map b_addr (large p)).
Proof.
  intros Hs [_ Hl _ _] E. destruct (block_create_ok h size b h' _ Hs Hl E) as (_ & _ & _ & [Hn _ _ _]).
  cbn [map] in Hn. apply NoDup_cons in Hn as [Hn _]. rewrite map_map in Hn.
  unfold all_blocks in Hn. rewrite map_app in Hn. set_solver.
Qed.

Lemma try_extend_ok h p n :
  pool_ok h p -> 0 <= n <= 2 ^ 63 -> n mod 8 = 0 ->
  step_ok h p n (extends p n) (try_extend h p n).
Proof.
  intros Hp Hn H8. pose proof (po_sizes _ _ Hp) as [Hmin Hmax].
  unfold try_extend, extends. destruct (auto_extend p) eqn:Eauto; [|done].
  set (new_size := if min_size p <? n then n else min_size p).
  assert (new_size = Z.max n (min_size p)) as Enew
    by (unfold new_size; destruct (Z.ltb_spec (min_size p) n); lia).
  rewrite <- Enew. cbn [andb]. destruct (Z.leb_spec new_size (max_size p)) as [Hle|]; [|done].
  destruct (nv_pool_block_create h new_size) as [[b h1]| |c] eqn:Ec;
    cbn [mbind outcome_bind]; [|by eapply block_create_no_ub|by apply block_create_exit in Ec].
  set (p1 := add_block_stats _ new_size).
  destruct (create_fresh_addr h p new_size b h1) as [Hf _]; auto;
    [change (2 ^ 64) with (2 * 2 ^ 63); lia|].
  destruct (alloc_fresh h p b h1 p1 new_size n) as (ptr & b' & Ha & Hadr & Hres); auto; try lia.
  - intros a [= <-]. set_solver.
  - destruct (Z.max_spec n (min_size p)) as [[_ E]|[_ E]]; rewrite Enew, E; auto.
  - rewrite Ha. cbv beta iota zeta. change (blocks p1) with (b :: blocks p).
    rewrite set_block_head by done. split; [done|]. apply Hres; try done.
    intros a [= <-]. simpl. rewrite Hadr. set_solver.
Qed.

Lemma try_large_ok h p n :
  pool_ok h p -> 0 <= n < 2 ^ 63 -> n mod 8 = 0 ->
  step_ok h p n (max_size p <? n) (try_large h p n).
Proof.
  intros Hp Hn H8. unfold try_large. destruct (Z.ltb_spec (max_size p) n) as [Hlt|]; [|done].
  destruct (nv_pool_block_create h n) as [[b h1]| |c] eqn:Ec;
    cbn [mbind outcome_bind]; [|by eapply block_create_no_ub|by apply block_create_exit in Ec].
  set (p1 := add_block_stats _ n).
  destruct (create_fresh_addr h p n b h1) as [_ Hf]; auto;
    [change (2 ^ 64) with (2 * 2 ^ 63); lia|].
  destruct (alloc_fresh h p b h1 p1 n n) as (ptr & b' & Ha & Hadr & Hres); auto; try lia.
  - unfold all_blocks. simpl. symmetry. apply Permutation_middle.
  - intros a Hc. exact (po_current h p Hp a Hc).
  - rewrite Ha. cbv beta iota zeta. change (large p1) with (b :: large p).
    rewrite set_block_head by done. split; [done|]. apply Hres; try done.
    + unfold all_blocks. simpl. symmetry. apply Permutation_middle.
    + intros a Hc. exact (po_current h p Hp a Hc).
Qed.

(** The request that no block can serve and for which none is created. *)
Definition refused (p : nv_pool_t) (n : Z) : Prop :=
  Forall (fun b => b_size b < b_used b + n) (blocks p) /\ extends p n = false /\ n <= max_size p.

Lemma pool_alloc_spec h p size :
  pool_ok h p -> 0 < size <= 2 ^ 63 - 8 ->
  match pool_alloc h p size with
  | Ret (Some ptr, (h', p')) => alloc_result p (nv_pool_align_size size) ptr h' p'
  | Ret (None, hp) => refused p (nv_pool_align_size size) /\ hp = (h, p)
  | Exit c => c = EXIT_FAILURE
  | UB => False
  end.
Proof.
  intros Hp Hs. unfold pool_alloc. destruct (Z.eqb_spec size 0) as [|_]; [lia|]. cbv zeta.
  pose proof pow2_64_63.
  destruct (align_size_spec size ltac:(lia)) as [[Hn H8] _]; [lia|].
  set (n := nv_pool_align_size size) in *.
  assert (n < 2 ^ 63) as Hlt.
  { destruct (Z.le_gt_cases (2 ^ 63) n) as [Hge|]; [|done].
    assert (n = 2 ^ 63) as En; [|rewrite En in Hn; lia].
    change (2 ^ 63) with (8 * 1152921504606846976) in *. Z.div_mod_to_equations. lia. }
  pose proof (try_current_ok h p n Hp ltac:(lia) H8) as Hc.
  destruct (try_current p n) as [[[ptr p']|]| |]; cbn [mbind outcome_bind]; try done.
  destruct (try_blocks p n) as [[ptr p']|] eqn:Eb.
  { eapply try_blocks_ok; eauto. lia. }
  assert (Forall (fun b => b_size b < b_used b + n) (blocks p)) as Hfull.
  { apply scan_blocks_None; auto; [|lia|].
    - pose proof (po_blocks _ _ Hp) as Hb. unfold all_blocks in Hb. apply Forall_app in Hb. tauto.
    - unfold try_blocks in Eb. by destruct (scan_blocks _ _) as [[[? ?] ?]|]. }
  pose proof (try_extend_ok h p n Hp ltac:(lia) H8) as He. unfold step_ok in He.
  destruct (try_extend h p n) as [[[ptr|] [h1 p1]]| |c]; cbn [mbind outcome_bind]; try tauto.
  destruct He as [He [= -> ->]].
  pose proof (try_large_ok h p n Hp ltac:(lia) H8) as Hl. unfold step_ok in Hl.
  destruct (try_large h p n) as [[[ptr|] [h1 p1]]| |c]; try tauto.
  destruct Hl as [Hl ->]. apply Z.ltb_ge in Hl. by repeat split.
Qed.

(** A refused request changes nothing. *)
Lemma refused_null h p size :
  pool_ok h p -> 0 < size <= 2 ^ 63 - 8 -> refused p (nv_pool_align_size size) -> pool_alloc h p size = Ret (None, (h, p)).
Proof.
  intros Hp Hs (Hfull & He & Hm). unfold pool_alloc. destruct (Z.eqb_spec size 0) as [|_]; [lia|]. cbv zeta.
  pose proof pow2_64_63. destruct (align_size_spec size ltac:(lia)) as [[Hn H8] _]; [lia|].
  set (n := nv_pool_align_size size) in *. pose proof (po_sizes _ _ Hp) as [_ Hmax].
  assert (forall b, b ∈ blocks p -> has_room b n = false) as Hroom.
  { intros b Hb. rewrite Forall_forall in Hfull. specialize (Hfull b Hb). pose proof (po_blocks _ _ Hp) as HB. rewrite Forall_forall in HB.
    destruct (HB b) as [[? _] [? _] _ _ _]; [unfold all_blocks; set_solver|]. unfold has_room. rewrite wrap_small by (split; lia). by apply Z.leb_gt. }
  assert (try_current p n = Ret None) as ->.
  { unfold try_current. destruct (current p) as [a|] eqn:Ec; [|done].
    destruct (find_block_is_Some (blocks p) a) as [b Eb]; [eapply po_current; eauto|].
    rewrite Eb. cbn [deref mbind outcome_bind]. apply find_block_Some in Eb as [Hb _]. by rewrite Hroom. }
  assert (scan_blocks (blocks p) n = None) as Escan.
  { clear -Hroom. induction (blocks p) as [|b bs IH]; [done|]. cbn [scan_blocks]. rewrite IH, Hroom by set_solver. done. }
  cbn [mbind outcome_bind]. unfold try_blocks. rewrite Escan.
  pose proof (try_extend_ok h p n Hp ltac:(lia) H8) as Hx. rewrite He in Hx. unfold step_ok in Hx.
  destruct (try_extend h p n) as [[[ptr|] [h1 p1]]| |c]; [by destruct Hx| |done|by destruct Hx].
  destruct Hx as [_ [= -> ->]]. cbn [mbind outcome_bind].
  unfold try_large. by rewrite (proj2 (Z.ltb_ge (max_size p) n)) by lia.
Qed.

Lemma nv_pool_alloc_inv h p size r h' pool' :
  nv_pool_alloc h (Some p) size = Ret (r, (h', pool')) ->
  exists p', pool' = Some p' /\ pool_alloc h p size = Ret (r, (h', p')).
Proof.
  simpl. destruct (pool_alloc h p size) as [[r1 [h1 p1]]| |]; simpl; [|done..].
  intros [= <- <- <-]. eauto.
Qed.

(** Every outcome of an allocation of at most PTRDIFF_MAX bytes keeps the
    invariants of the pool. *)
Lemma alloc_preserves h p size r h' p' :
  pool_ok h p -> 0 <= size <= 2 ^ 63 - 8 -> pool_alloc h p size = Ret (r, (h', p')) ->
  pool_ok h' p' /\ config_of p' = config_of p /\
  (min_size p mod 8 = 0 -> stats_exact p -> stats_exact p').
Proof.
  intros Hp Hs E. destruct (decide (size = 0)) as [->|].
  { unfold pool_alloc in E. simpl in E. by simplify_eq. }
  pose proof (pool_alloc_spec h p size Hp ltac:(lia)) as Hspec. rewrite E in Hspec.
  destruct r as [ptr|].
  - destruct Hspec as [? ? ? ?]. done.
  - destruct Hspec as [_ [= -> ->]]. done.
Qed.

(** C1: Allocation.  For a well-formed pool and a size of 1 to 2^63 - 8 bytes
    [nv_pool_alloc] never reaches undefined behaviour: it returns an 8-byte
    aligned address of a region (the size rounded up to 8) that no earlier
    allocation uses, and from then on exactly that region is in use in
    addition; or NULL, with the pool unchanged; or the process exits in
    [nv_malloc].  It returns NULL exactly when no block of the list has room
    and no block may be created.  (Above SIZE_MAX - 7 the size is rounded to
    0: [nv_pool_alloc_overflow].) *)
Theorem nv_pool_alloc_sound (h : H) (p : nv_pool_t) (size : Z) :
  pool_ok h p -> 0 < size <= 2 ^ 63 - 8 ->
  match nv_pool_alloc h (Some p) size with
  | Ret (Some ptr, (h', Some p')) =>
      pool_ok h' p' /\ size <= nv_pool_align_size size < size + 8 /\
      granted p p' ptr (nv_pool_align_size size)
  | Ret (None, hp) => refused p (nv_pool_align_size size) /\ hp = (h, Some p)
  | Exit c => c = EXIT_FAILURE
  | _ => False
  end /\
  (refused p (nv_pool_align_size size) -> nv_pool_alloc h (Some p) size = Ret (None, (h, Some p))).
Proof.
  intros Hp Hs. split; [|intros Hr; cbn [nv_pool_alloc]; by rewrite refused_null].
  pose proof (pool_alloc_spec h p size Hp Hs) as Hspec. simpl. pose proof pow2_64_63.
  destruct (align_size_spec size ltac:(lia)) as [[Hn _] _]; [lia|].
  destruct (pool_alloc h p size) as [[[ptr|] [h1 p1]]| |]; simpl; try done.
  - destruct Hspec as [? ? ? ?]. done.
  - by destruct Hspec as [? [= -> ->]].
Qed.

(** A client's sequence of allocations: the regions it was given. *)
Fixpoint nv_pool_allocs (h : H) (p : nv_pool_t) (sizes : list Z) :
    outcome (list (Z * Z) * (H * nv_pool_t)) :=
  match sizes with
  | [] => Ret ([], (h, p))
  | size :: sizes' =>
      '(r, (h, p)) ← pool_alloc h p size;
      '(gs, hp) ← nv_pool_allocs h p sizes';
      Ret (match r with Some ptr => (ptr, size) :: gs | None => gs end, hp)
  end.

Lemma allocs_fresh h p sizes gs h' p' :
  pool_ok h p -> Forall (fun size => 0 < size <= 2 ^ 63 - 8) sizes ->
  nv_pool_allocs h p sizes = Ret (gs, (h', p')) ->
  Forall (fun g => (fst g mod 8 = 0 /\ 0 < snd g) /\ forall x, fst g <= x < fst g + snd g -> ~ in_use p x) gs /\
  ForallOrdPairs (fun g g' => disjoint_regions (fst g) (snd g) (fst g') (snd g')) gs.
Proof.
  intros Hp Hs. revert h p gs Hp. induction Hs as [|size sizes Hsize _ IH]; intros h p gs Hp; simpl.
  { intros [= <- <- <-]. repeat constructor. }
  pose proof (pool_alloc_spec h p size Hp Hsize) as Hspec.
  destruct (pool_alloc h p size) as [[r [h1 p1]]| |]; simpl; [|done..].
  destruct (nv_pool_allocs h1 p1 sizes) as [[gs1 [h2 p2]]| |] eqn:E1; simpl; [|done..].
  intros [= <- <- <-]. destruct r as [ptr|].
  - destruct Hspec as [Hp1 Hg _ _]. destruct (IH h1 p1 gs1 Hp1 E1) as [HF HD].
    pose proof pow2_64_63.
    destruct (align_size_spec size ltac:(lia)) as [[Hn _] _]; [lia|].
    destruct Hg as [(Hp0 & Hp8 & _) Hfresh Huse _ _]. split; constructor; auto.
    + split; [split; simpl; lia|]. simpl. intros x Hx. apply Hfresh. lia.
    + eapply Forall_impl; [exact HF|]. intros g [Hg8 Hg]. split; [done|].
      intros x Hx Hin. apply (Hg x Hx). apply Huse. by left.
    + apply List.Forall_forall. intros g Hin. rewrite List.Forall_forall in HF.
      destruct (HF g Hin) as [[_ Hpos] Hg]. unfold disjoint_regions; simpl.
      destruct (Z.le_gt_cases (ptr + size) (fst g)); [by left|].
      destruct (Z.le_gt_cases (fst g + snd g) ptr); [by right|]. exfalso.
      apply (Hg (Z.max ptr (fst g))); [lia|]. apply Huse. right. lia.
  - destruct Hspec as [_ [= -> ->]]. eauto.
Qed.

(** C3: No overlap.  The regions that any sequence of allocations of 1 to
    2^63 - 8 bytes each returns are pairwise disjoint, 8-byte aligned and
    disjoint from everything allocated before. *)
Theorem nv_pool_allocs_disjoint (h h' : H) (p p' : nv_pool_t) (sizes : list Z) (gs : list (Z * Z)) :
  pool_ok h p -> Forall (fun size => 0 < size <= 2 ^ 63 - 8) sizes ->
  nv_pool_allocs h p sizes = Ret (gs, (h', p')) ->
  ForallOrdPairs (fun g g' => disjoint_regions (fst g) (snd g) (fst g') (snd g')) gs /\
  Forall (fun g => fst g mod 8 = 0 /\ forall x, fst g <= x < fst g + snd g -> ~ in_use p x) gs.
Proof.
  intros Hp Hs E. destruct (allocs_fresh h p sizes gs h' p' Hp Hs E) as [HF HD]. split; [done|].
  eapply Forall_impl; [exact HF|]. naive_solver.
Qed.

(** ** Reallocation *)

Lemma find_owner_Some bs ptr b : find_owner bs ptr = Some b -> b ∈ bs /\ b_start b <= ptr < b_end b.
Proof.
  unfold find_owner. intros E. apply head_Some_elem_of, list_elem_of_filter in E as [Ho Hb].
  unfold owns in Ho. split; [done|]. destruct (Z.leb_spec (b_start b) ptr), (Z.ltb_spec ptr (b_end b)); try done.
Qed.

Definition owner (p : nv_pool_t) (ptr : Z) : option nv_pool_block_t :=
  match find_owner (blocks p) ptr with
  | Some b => Some b
  | None => find_owner (large p) ptr
  end.

Lemma owner_Some p ptr b : owner p ptr = Some b -> b ∈ all_blocks p /\ b_start b <= ptr < b_end b.
Proof.
  unfold owner, all_blocks. rewrite elem_of_app. case_match eqn:E.
  - intros [= <-]. apply find_owner_Some in E. naive_solver.
  - intros Hl%find_owner_Some. naive_solver.
Qed.

Lemma rest_of_eq b ptr : block_ok b -> b_start b <= ptr < b_end b -> rest_of b ptr = b_end b - ptr.
Proof.
  intros [[? ?] ? [? ?] [E ?] ?] Hp. unfold rest_of. rewrite wrap_small; [lia|].
  pose proof pow2_64_63. split; lia.
Qed.

(** A region granted for more bytes than are left in the block of a live
    pointer lies outside that block. *)
Lemma grant_outside h p h' p' b old size n new :
  pool_ok h p -> pool_ok h' p' -> granted p p' new n -> size <= n ->
  b ∈ all_blocks p -> b_start b <= old < b_current b -> b_end b - old < size ->
  disjoint_regions new n (b_start b) (b_size b).
Proof.
  intros Hp Hp' [_ Hfresh _ (c & Hc & Hc1 & Hc2) Hkeep] Hn Hb Hold Hsz.
  pose proof (po_blocks _ _ Hp) as HB. rewrite Forall_forall in HB. pose proof (HB _ Hb) as Bb.
  pose proof (po_blocks _ _ Hp') as HC. rewrite Forall_forall in HC. pose proof (HC _ Hc) as Bc.
  assert (layout b ∈ map layout (all_blocks p')) as Lb by (apply Hkeep, list_elem_of_fmap_2; done).
  assert (layout c ∈ map layout (all_blocks p')) as Lc by (apply list_elem_of_fmap_2; done).
  pose proof (po_layout _ _ Hp') as [Hnd _ _ Hd].
  destruct (decide (b_addr b = b_addr c)) as [Ea|Ea].
  - assert (layout b = layout c) as [= _ Es Ez].
    { apply list_elem_of_lookup in Lb as [k Lb]. apply list_elem_of_lookup in Lc as [j Lc].
      enough (k = j) by congruence.
      apply (NoDup_lookup _ k j (b_addr b) Hnd); rewrite list_lookup_fmap;
        [by rewrite Lb|by rewrite Lc, Ea]. }
    exfalso. destruct (Z.le_gt_cases (b_current b) new).
    + destruct Bb as [? ? ? [? ?] ?], Bc as [? ? ? [? ?] ?]. lia.
    + apply (Hfresh new).
      * destruct Bb as [? ? ? [? ?] ?]. lia.
      * exists b. split; [done|lia].
  - pose proof (Hd _ _ Lb Lc Ea) as D. simpl in D. destruct Bb, Bc.
    unfold disjoint_regions in *. lia.
Qed.

(** Reallocation.  Growing a live block of memory (one that contains an
    allocated byte at [old]) either keeps the pointer, when the rest of its
    block has room for the new size, or returns a region that does not overlap
    the old block and whose first bytes are the old ones, up to the smaller of
    the new size and the rest of the old block; the pool stays well formed. *)
Theorem nv_pool_realloc_copies (h h' : H) (mem mem' : memory) (p : nv_pool_t) (pool' : option nv_pool_t)
    (b : nv_pool_block_t) (old new size : Z) :
  pool_ok h p -> 0 < size <= 2 ^ 63 - 8 -> owner p old = Some b -> old < b_current b ->
  nv_pool_realloc h mem (Some p) (Some old) size = Ret (Some new, (h', mem', pool')) ->
  (new = old /\ mem' = mem /\ size <= b_end b - old) \/
  (b_end b - old < size /\ disjoint_regions new size (b_start b) (b_size b) /\
   (forall i, 0 <= i < b_end b - old -> mem' !! (new + i) = mem !! (old + i)) /\
   (forall x, ~ new <= x < new + (b_end b - old) -> mem' !! x = mem !! x) /\
   exists p', pool' = Some p' /\ pool_ok h' p').
Proof.
  intros Hp Hs Ho Hcur. destruct (owner_Some _ _ _ Ho) as [Hb Hr].
  pose proof (po_blocks _ _ Hp) as HB. rewrite Forall_forall in HB. pose proof (HB _ Hb) as Bb.
  unfold nv_pool_realloc. destruct (Z.eqb_spec size 0) as [|_]; [lia|]. cbn [deref mbind outcome_bind].
  fold (owner p old). rewrite Ho, rest_of_eq by done.
  destruct (Z.leb_spec size (b_end b - old)) as [Hle|Hgt].
  { intros [= <- <- <- <-]. by left. }
  destruct (nv_pool_alloc h (Some p) size) as [[r [h1 pool1]]| |] eqn:Ea; cbn [mbind outcome_bind]; [|done..].
  destruct r as [q|]; [|done]. apply nv_pool_alloc_inv in Ea as (p1 & -> & Ea).
  destruct (Z.ltb_spec size (b_end b - old)); [lia|].
  intros [= <- <- <- <-]. right.
  pose proof (pool_alloc_spec h p size Hp Hs) as Hspec. rewrite Ea in Hspec. destruct Hspec as [Hp1 Hg _ _].
  pose proof pow2_64_63.
  destruct (align_size_spec size ltac:(lia)) as [[Hn _] _]; [lia|].
  assert (disjoint_regions q (nv_pool_align_size size) (b_start b) (b_size b)) as D
    by (apply (grant_outside h p h1 p1 b old size); auto; lia).
  split_and!; [lia|unfold disjoint_regions in *; lia| | |].
  - intros i Hi. rewrite nv_memcpy_lookup by lia.
    destruct (Z.leb_spec q (q + i)), (Z.ltb_spec (q + i) (q + (b_end b - old))); simpl; try lia.
    f_equal. lia.
  - intros x Hx. rewrite nv_memcpy_lookup by lia.
    destruct (Z.leb_spec q x), (Z.ltb_spec x (q + (b_end b - old))); simpl; try done; lia.
  - cbn [nv_pool_free]. destruct Hp1 as [A1 A2 A3 A4].
    repeat case_match; eexists; (split; [done|]); by split.
Qed.

(** ** Reachable pools *)

(** Configurations within the address space. *)
Definition config_ok (c : nv_pool_config_t) : Prop :=
  0 <= c_initial_size c < 2 ^ 63 /\ 0 <= c_min_size c < 2 ^ 63 /\ 0 <= c_max_size c < 2 ^ 63.
(** The configured sizes are multiples of 8, as the default ones are; the code asks for none,
    and for other sizes it counts the configured size and creates a block of the next multiple. *)
Definition config_aligned (c : nv_pool_config_t) : bool := (c_initial_size c mod 8 =? 0) && (c_min_size c mod 8 =? 0).

Definition request_ok (size : Z) : Prop := 0 <= size <= 2 ^ 63 - 8.

(** The operations on a pool, with any requests in range; [nv_pool_reset_stats], which changes
    the statistics alone, comes below. *)
Inductive pool_step : H * nv_pool_t -> H * nv_pool_t -> Prop :=
  | step_alloc h p size r h' p' : request_ok size ->
      nv_pool_alloc h (Some p) size = Ret (r, (h', Some p')) -> pool_step (h, p) (h', p')
  | step_calloc h p mem nmemb size r h' mem' p' : request_ok (u64 (nmemb * size)) ->
      nv_pool_calloc h mem (Some p) nmemb size = Ret (r, (h', mem', Some p')) ->
      pool_step (h, p) (h', p')
  | step_realloc h p mem ptr size r h' mem' p' : request_ok size ->
      nv_pool_realloc h mem (Some p) ptr size = Ret (r, (h', mem', Some p')) ->
      pool_step (h, p) (h', p')
  | step_align h p size alignment r h' p' : request_ok (u64 (size + alignment - 1)) ->
      nv_pool_align h (Some p) size alignment = Ret (r, (h', Some p')) -> pool_step (h, p) (h', p')
  | step_free h p ptr r p' : nv_pool_free (Some p) ptr = (r, Some p') -> pool_step (h, p) (h, p')
  | step_reset h p p' : nv_pool_reset (Some p) = Some p' -> pool_step (h, p) (h, p')
  | step_extend h p size r h' p' : request_ok size ->
      nv_pool_extend h (Some p) size = Ret (r, (h', Some p')) -> pool_step (h, p) (h', p').

(** The pools a client can have.  The flag says that the statistics were kept from the start:
    the configured sizes are multiples of 8 and the statistics were not reset. *)
Inductive pool_reachable : bool -> H * nv_pool_t -> Prop :=
  | reach_create h0 c ptr p h : config_ok (default NV_POOL_CONFIG_DEFAULT c) ->
      nv_pool_create h0 c = Ret (ptr, p, h) -> pool_reachable (config_aligned (default NV_POOL_CONFIG_DEFAULT c)) (h, p)
  | reach_step kept s s' : pool_reachable kept s -> pool_step s s' -> pool_reachable kept s'
  | reach_reset_stats kept h p p' : pool_reachable kept (h, p) -> nv_pool_reset_stats (Some p) = Some p' -> pool_reachable false (h, p').

Definition pool_inv (kept : bool) (s : H * nv_pool_t) : Prop :=
  pool_ok (fst s) (snd s) /\ (kept = true -> stats_exact (snd s) /\ min_size (snd s) mod 8 = 0).

Lemma pool_inv_alloc kept h p size r h' p' :
  pool_inv kept (h, p) -> request_ok size -> pool_alloc h p size = Ret (r, (h', p')) -> pool_inv kept (h', p').
Proof.
  intros (Hp & Hs) Hz E. destruct (alloc_preserves _ _ _ _ _ _ Hp Hz E) as (A & C & B).
  split; [done|]. intros Hk. destruct (Hs Hk) as [Hst Hm]. split; [by apply B|]. injection C as _ C _ _. cbn [fst snd] in *. by rewrite C.
Qed.

Lemma pool_inv_free kept h p ptr r p' :
  pool_inv kept (h, p) -> nv_pool_free (Some p) ptr = (r, Some p') -> pool_inv kept (h, p').
Proof.
  intros ([A1 A2 A3 A4] & Hs) E.
  assert (p' = p \/ p' = nv_pool_update_stats p 0 false) as [->| ->].
  { unfold nv_pool_free in E. repeat case_match; simplify_eq; auto. }
  all: split; [by split|]; intros Hk; destruct (Hs Hk) as [[B1 B2 B3 B4] Hm]; split; [by split|done].
Qed.

Lemma pool_inv_free_snd kept h p ptr p' :
  pool_inv kept (h, p) -> snd (nv_pool_free (Some p) ptr) = Some p' -> pool_inv kept (h, p').
Proof.
  intros Hi E. destruct (nv_pool_free (Some p) ptr) as [r o] eqn:Ef. simpl in E. subst o.
  by eapply pool_inv_free.
Qed.

Lemma pool_inv_reset kept h p : pool_inv kept (h, p) -> pool_inv kept (h, pool_reset p).
Proof.
  intros ([A1 A2 A3 A4] & Hs). cbn [fst snd] in *.
  assert (all_blocks (pool_reset p) = map reset_block (all_blocks p)) as Ea
    by (unfold all_blocks; simpl; by rewrite map_app).
  assert (zsum (map b_used (map reset_block (all_blocks p))) = 0) as Eu.
  { rewrite map_map. simpl. clear. induction (all_blocks p) as [|b l IH]; [done|exact IH]. }
  split; [split|intros Hk; destruct (Hs Hk) as [[B1 B2 B3 B4] Hm]; split; [split|done]]; cbn [fst snd].
  - rewrite Ea. apply Forall_fmap. eapply Forall_impl; [exact A1|].
    intros b [? [? ?] [? ?] ? ?]. split; simpl; auto; [split; [lia|done]|lia].
  - rewrite Ea, map_map. done.
  - intros a. simpl. rewrite map_map. destruct (blocks p) as [|b l]; simpl; [done|].
    intros [= <-]. set_solver.
  - done.
  - rewrite Ea, length_map. done.
  - rewrite Ea, map_map. done.
  - rewrite Ea, Eu. done.
  - rewrite Ea, Eu, map_map, Z.sub_0_r. done.
Qed.

Lemma pool_inv_extend kept h p size r h' p' :
  pool_inv kept (h, p) -> request_ok size ->
  nv_pool_extend h (Some p) size = Ret (r, (h', Some p')) -> pool_inv kept (h', p').
Proof.
  intros (Hp & Hs) [Hz0 Hz1]. unfold nv_pool_extend. pose proof pow2_64_63.
  destruct (Z.eqb_spec size 0) as [->|_]; [by intros [= <- <- <-]|].
  destruct (align_size_spec size ltac:(lia)) as [[Hn H8] _]; [lia|].
  set (n := nv_pool_align_size size) in *.
  destruct (nv_pool_block_create h n) as [[b h1]| |] eqn:E; cbn [mbind outcome_bind]; [|done..].
  intros [= <- <- <-].
  destruct (push_ok h p b h1 (add_block_stats
    (with_lists p (b :: blocks p) (Some (b_addr b)) (large p)) n) n) as (A & B & C & D & _);
    try done; [lia| |].
  - intros a [= <-]. simpl. set_solver.
  - split; [done|]. intros Hk. destruct (Hs Hk) as [Hst Hm]. split; [|done]. apply (stats_push p _ b n); auto.
    rewrite D. apply align_size_id; [lia|done].
Qed.

Lemma pool_inv_create h0 c ptr p h :
  config_ok (default NV_POOL_CONFIG_DEFAULT c) -> nv_pool_create h0 c = Ret (ptr, p, h) ->
  pool_inv (config_aligned (default NV_POOL_CONFIG_DEFAULT c)) (h, p).
Proof.
  intros (I0 & M0 & X0). unfold nv_pool_create.
  set (cfg := default NV_POOL_CONFIG_DEFAULT c) in *.
  destruct (nv_malloc h0 SIZEOF_POOL) as [[q h1]| |]; cbn [mbind outcome_bind]; [|done..].
  set (p0 := mkPool [] None [] _ _ _ _ _).
  assert (pool_ok h1 p0) as Hp0.
  { split; [by constructor| |done|done]. split; [constructor|set_solver..]. }
  assert (stats_exact p0) as Hs0 by done.
  destruct (Z.ltb_spec 0 (c_initial_size cfg)).
  - destruct (nv_pool_block_create h1 (c_initial_size cfg)) as [[b h2]| |] eqn:E;
      cbn [mbind outcome_bind]; [|done..].
    intros [= <- <- <-]. pose proof pow2_64_63.
    set (p1 := with_stats _ _).
    destruct (push_ok h1 p0 b h2 p1 (c_initial_size cfg)) as (A & B & C & D & _);
      try done; [lia| |].
    + intros a [= <-]. simpl. set_solver.
    + split; [done|]. intros [I8 M8]%andb_true_iff. apply Z.eqb_eq in I8, M8. split; [|done]. apply (stats_push p0 p1 b (c_initial_size cfg)); auto.
      * rewrite D. apply align_size_id; [lia|done].
      * simpl. rewrite !wrap_small by (split; lia). done.
  - intros [= <- <- <-]. split; [done|]. intros [_ M8]%andb_true_iff. by apply Z.eqb_eq in M8.
Qed.

Lemma pool_inv_calloc kept h p mem nmemb size r h' mem' p' :
  pool_inv kept (h, p) -> request_ok (u64 (nmemb * size)) ->
  nv_pool_calloc h mem (Some p) nmemb size = Ret (r, (h', mem', Some p')) -> pool_inv kept (h', p').
Proof.
  intros Hi Hz. unfold nv_pool_calloc.
  destruct (nv_pool_alloc h (Some p) _) as [[r1 [h1 pool1]]| |] eqn:Ea; cbn [mbind outcome_bind]; [|done..].
  apply nv_pool_alloc_inv in Ea as (p1 & -> & Ea). intros E.
  eapply pool_inv_alloc; [done|exact Hz|]. destruct r1; by simplify_eq.
Qed.

Lemma pool_inv_realloc kept h p mem ptr size r h' mem' p' :
  pool_inv kept (h, p) -> request_ok size ->
  nv_pool_realloc h mem (Some p) ptr size = Ret (r, (h', mem', Some p')) -> pool_inv kept (h', p').
Proof.
  intros Hi Hz. unfold nv_pool_realloc. cbn [deref mbind outcome_bind].
  destruct ptr as [old|].
  - destruct (Z.eqb_spec size 0) as [_|_].
    { intros [= <- <- <- E]. eapply (pool_inv_free_snd _ _ _ (Some old)); [exact Hi|exact E]. }
    fold (owner p old). destruct (match owner p old with Some b => _ | None => false end);
      [by intros [= <- <- <- <-]|].
    destruct (nv_pool_alloc h (Some p) size) as [[r1 [h1 pool1]]| |] eqn:Ea;
      cbn [mbind outcome_bind]; [|done..].
    apply nv_pool_alloc_inv in Ea as (p1 & -> & Ea).
    pose proof (pool_inv_alloc _ _ _ _ _ _ _ Hi Hz Ea) as Hi1.
    destruct r1 as [q|]; [|by intros [= <- <- <- <-]].
    destruct (owner p old); intros [= <- <- <- E]; [|by simplify_eq].
    eapply (pool_inv_free_snd _ _ _ (Some old)); [exact Hi1|exact E].
  - destruct (nv_pool_alloc h (Some p) size) as [[r1 [h1 pool1]]| |] eqn:Ea;
      cbn [mbind outcome_bind]; [|done..].
    apply nv_pool_alloc_inv in Ea as (p1 & -> & Ea). intros [= <- <- <- <-].
    exact (pool_inv_alloc _ _ _ _ _ _ _ Hi Hz Ea).
Qed.

(** C2: Invariant.  In every pool that creation with any configuration in range and any
    sequence of operations, resets of the statistics included, with requests of at most
    2^63 - 8 bytes reach, every block is well formed, blocks do not overlap and are live in
    the allocator, [current] is a block of the list and [nv_pool_validate] finds no error.
    The statistics are the exact sums over the blocks as long as they were not reset, if the
    configured sizes are multiples of 8. *)
Theorem nv_pool_reachable_ok (kept : bool) (s : H * nv_pool_t) :
  pool_reachable kept s ->
  pool_ok (fst s) (snd s) /\ nv_pool_validate (Some (snd s)) = Some 0 /\ (kept = true -> stats_exact (snd s)).
Proof.
  intros Hr. assert (pool_inv kept s) as (A & B).
  { induction Hr as [h0 c ptr p h Hc E|kept s s' _ IH Hs|kept h p p' _ [[A1 A2 A3 A4] _] E]; [by eapply pool_inv_create| |].
    2: { injection E as <-. split; [by split|done]. }
    destruct Hs as [h p size r h' p' Hz E|h p mem nmemb size r h' mem' p' Hz E|
      h p mem ptr size r h' mem' p' Hz E|h p size al r h' p' Hz E|h p ptr r p' E|h p p' E|
      h p size r h' p' Hz E].
    - apply nv_pool_alloc_inv in E as (p1 & [= <-] & E). by eapply pool_inv_alloc.
    - by eapply pool_inv_calloc.
    - by eapply pool_inv_realloc.
    - unfold nv_pool_align in E.
      destruct (nv_pool_alloc h (Some p) _) as [[r1 [h1 pool1]]| |] eqn:Ea; simpl in E; [|done..].
      apply nv_pool_alloc_inv in Ea as (p1 & -> & Ea).
      eapply pool_inv_alloc; [done|exact Hz|]. destruct r1; by simplify_eq/=.
    - by eapply pool_inv_free.
    - injection E as <-. by apply pool_inv_reset.
    - by eapply pool_inv_extend. }
  split_and!; [done| |by intros Hk; apply B]. simpl. f_equal.
  rewrite <- fold_left_app. fold (all_blocks (snd s)).
  pose proof (po_blocks _ _ A) as HB. generalize 0. induction HB as [|b l Hb _ IH]; intros e; [done|].
  simpl. rewrite IH. unfold validate_block. destruct Hb.
  destruct (Z.ltb_spec (b_current b) (b_start b)), (Z.ltb_spec (b_end b) (b_current b)),
    (Z.ltb_spec (b_size b) (b_used b)); simpl; lia.
Qed.

(** ** Aligned allocation *)

Lemma align_up_spec addr k :
  0 <= k <= 63 -> 0 <= addr -> addr + 2 ^ k - 1 < 2 ^ 64 ->
  let r := Z.land (u64 (addr + 2 ^ k - 1)) (u64 (Z.lnot (u64 (2 ^ k - 1)))) in
  r mod 2 ^ k = 0 /\ addr <= r < addr + 2 ^ k.
Proof.
  intros Hk Ha Hlt. assert (0 < 2 ^ k) as Hp by lia.
  rewrite (wrap_small 64 (addr + 2 ^ k - 1)), (wrap_small 64 (2 ^ k - 1)) by (split; lia).
  rewrite land_align_down by (split; lia). cbv zeta. rewrite Z.mod_mul by lia. split; [done|].
  set (m := 2 ^ k) in *. pose proof (Z.div_mod (addr + m - 1) m ltac:(lia)) as E.
  pose proof (Z.mod_pos_bound (addr + m - 1) m ltac:(lia)). lia.
Qed.

(** Aligned allocation.  For a power-of-two alignment the address that
    [nv_pool_align] returns is a multiple of it, and the [size] bytes at it were
    unused before and are in use afterwards. *)
Theorem nv_pool_align_spec (h h' : H) (p p' : nv_pool_t) (size k ptr : Z) :
  pool_ok h p -> 0 <= k <= 32 -> 0 < size -> size + 2 ^ k - 1 <= 2 ^ 63 - 8 ->
  nv_pool_align h (Some p) size (2 ^ k) = Ret (Some ptr, (h', Some p')) ->
  ptr mod 2 ^ k = 0 /\ pool_ok h' p' /\
  forall x, ptr <= x < ptr + size -> ~ in_use p x /\ in_use p' x.
Proof.
  intros Hp Hk Hs Hb. pose proof pow2_64_63. unfold nv_pool_align.
  assert (0 < 2 ^ k) as Hpos by lia.
  rewrite (wrap_small 64 (size + 2 ^ k - 1)) by (split; lia).
  destruct (nv_pool_alloc h (Some p) (size + 2 ^ k - 1)) as [[r [h1 pool1]]| |] eqn:Ea;
    cbn [mbind outcome_bind]; [|done..].
  apply nv_pool_alloc_inv in Ea as (p1 & -> & Ea). destruct r as [addr|]; [|done].
  intros [= <- <- <-].
  pose proof (pool_alloc_spec h p (size + 2 ^ k - 1) Hp ltac:(lia)) as Hspec. rewrite Ea in Hspec.
  destruct Hspec as [Hp1 [(G0 & _ & G1) Hf Hu _ _] _ _].
  destruct (align_size_spec (size + 2 ^ k - 1) ltac:(lia)) as [[Hn _] _]; [lia|].
  destruct (align_up_spec addr k) as [A1 A2]; [lia..|].
  split_and!; [done|done|]. intros x Hx. split; [apply Hf; lia|]. apply Hu. right. lia.
Qed.

(** Size overflow.  A request of the top seven sizes of [size_t] (a negative
    [int] converted by a caller, say) is rounded to 0: the call succeeds with a
    pointer and reserves no byte at all. *)
Theorem nv_pool_alloc_overflow (h : H) (p : nv_pool_t) (size a : Z) :
  pool_ok h p -> 2 ^ 64 - 8 < size < 2 ^ 64 -> current p = Some a ->
  exists ptr p', nv_pool_alloc h (Some p) size = Ret (Some ptr, (h, Some p')) /\
    pool_ok h p' /\ forall x, in_use p' x <-> in_use p x.
Proof.
  intros Hp Hs Hc. pose proof pow2_64_63.
  unfold nv_pool_alloc, pool_alloc. destruct (Z.eqb_spec size 0) as [|_]; [lia|].
  destruct (align_size_spec size ltac:(lia)) as [_ ->]; [|lia]. cbv zeta.
  pose proof (try_current_ok h p 0 Hp ltac:(lia) eq_refl) as Ht.
  destruct (try_current p 0) as [[[ptr p']|]| |] eqn:E; cbn [mbind outcome_bind]; try done.
  - destruct Ht as [Hp' [_ _ Hu _ _] _ _]. exists ptr, p'. split_and!; auto.
    intros x. rewrite Hu. split; [intros [?|?]; [done|lia]|tauto].
  - exfalso. unfold try_current in E. rewrite Hc in E.
    pose proof (po_current _ _ Hp a Hc) as Ha. apply find_block_is_Some in Ha as [b Eb].
    rewrite Eb in E. simpl in E. apply find_block_Some in Eb as [Hb _].
    pose proof (po_blocks _ _ Hp) as HB. rewrite Forall_forall in HB.
    assert (block_ok b) as Bb by (apply HB; unfold all_blocks; set_solver).
    pose proof (block_alloc_ok b 0 Bb ltac:(lia) eq_refl) as Hr.
    destruct (has_room b 0); [by destruct Hr as (b' & Hr & _); rewrite Hr in E|].
    destruct Bb. lia.
Qed.

End invariant.

(** ** A concrete pool over the bump allocator *)
Import Bump.

Definition demo : outcome (Z * nv_pool_t * heap) := nv_pool_create_default empty_heap.
Definition demo_pool : nv_pool_t :=
  match demo with Ret (_, p, _) => p | _ => mkPool [] None [] 0 0 zero_stats false false end.
Definition demo_heap : heap := match demo with Ret (_, _, h) => h | _ => empty_heap end.

Lemma demo_inv : pool_inv true (demo_heap, demo_pool).
Proof.
  apply (pool_inv_create empty_heap None 4096 demo_pool demo_heap);
    [vm_compute; intuition congruence|by vm_compute].
Qed.
Lemma demo_ok : pool_ok demo_heap demo_pool.
Proof. apply demo_inv. Qed.

Lemma nv_pool_alloc_sound_witness :
  exists p', nv_pool_alloc demo_heap (Some demo_pool) 100 = Ret (Some 4288, (demo_heap, Some p')) /\
    pool_ok demo_heap p' /\ granted demo_pool p' 4288 104.
Proof.
  pose proof (nv_pool_alloc_sound demo_heap demo_pool 100 demo_ok ltac:(vm_compute; intuition congruence)) as [T _].
  remember (nv_pool_alloc demo_heap (Some demo_pool) 100) as r eqn:E. vm_compute in E. subst r.
  destruct T as (T1 & _ & T2). eexists. split; [reflexivity|]. split; [exact T1|exact T2].
Defined.

Lemma nv_pool_allocs_disjoint_witness :
  exists hp gs, nv_pool_allocs demo_heap demo_pool [100; 20000; 8; 2000000] = Ret (gs, hp) /\
    length gs = 4%nat /\
    ForallOrdPairs (fun g g' => disjoint_regions (fst g) (snd g) (fst g') (snd g')) gs.
Proof.
  destruct (nv_pool_allocs demo_heap demo_pool [100; 20000; 8; 2000000])
    as [[gs [h' p']]| |] eqn:E; [|vm_compute in E; discriminate E..].
  exists (h', p'), gs. split; [reflexivity|]. split.
  - vm_compute in E. injection E as <- _ _. reflexivity.
  - apply (nv_pool_allocs_disjoint demo_heap h' demo_pool p' [100; 20000; 8; 2000000] gs demo_ok);
      [repeat constructor; vm_compute; intuition congruence|exact E].
Defined.

Definition demo_mem : memory := <[4288 := 7]> (<[4289 := 9]> ∅).

(** A pool with one 100-byte allocation. *)
Definition demo_pool1 : nv_pool_t :=
  match nv_pool_alloc demo_heap (Some demo_pool) 100 with
  | Ret (_, (_, Some p)) => p
  | _ => demo_pool
  end.
Lemma demo1_ok : pool_ok demo_heap demo_pool1.
Proof.
  apply (pool_inv_alloc true demo_heap demo_pool 100 (Some 4288) demo_heap demo_pool1 demo_inv);
    [vm_compute; intuition congruence|by vm_compute].
Qed.

Lemma nv_pool_realloc_copies_witness :
  exists new h' mem' pool',
    nv_pool_realloc demo_heap demo_mem (Some demo_pool1) (Some 4288) 20000 =
      Ret (Some new, (h', mem', pool')) /\
    new <> 4288 /\ mem' !! (new + 0) = Some 7 /\ mem' !! (new + 1) = Some 9.
Proof.
  destruct (nv_pool_realloc demo_heap demo_mem (Some demo_pool1) (Some 4288) 20000)
    as [[[new|] [[h' mem'] pool']]| |] eqn:E; [|vm_compute in E; discriminate E..].
  exists new, h', mem', pool'. split; [reflexivity|].
  destruct (nv_pool_realloc_copies demo_heap h' demo_mem mem' demo_pool1 pool'
    (mkBlock 4224 16384 104 4288 20672 4392) 4288 new 20000 demo1_ok) as [(_ & _ & C)|(_ & D & C & _)];
    [vm_compute; intuition congruence|by vm_compute|by vm_compute|exact E| |].
  - vm_compute in C. exfalso. by apply C.
  - split; [intros ->; vm_compute in D; destruct D as [D|D]; by apply D|].
    split; [rewrite (C 0)|rewrite (C 1)]; vm_compute; intuition congruence.
Defined.

Lemma nv_pool_align_spec_witness :
  exists ptr h' p', nv_pool_align demo_heap (Some demo_pool1) 50 (2 ^ 6) = Ret (Some ptr, (h', Some p')) /\
    ptr mod 2 ^ 6 = 0.
Proof.
  destruct (nv_pool_align demo_heap (Some demo_pool1) 50 (2 ^ 6)) as [[[ptr|] [h' [p'|]]]| |] eqn:E;
    [|vm_compute in E; discriminate E..].
  exists ptr, h', p'. split; [reflexivity|].
  apply (nv_pool_align_spec demo_heap h' demo_pool1 p' 50 6 ptr demo1_ok);
    [lia|lia|vm_compute; congruence|exact E].
Defined.

Lemma nv_pool_alloc_overflow_witness :
  exists ptr p', nv_pool_alloc demo_heap (Some demo_pool1) (2 ^ 64 - 1) = Ret (Some ptr, (demo_heap, Some p')).
Proof.
  destruct (nv_pool_alloc_overflow demo_heap demo_pool1 (2 ^ 64 - 1) 4224 demo1_ok) as (ptr & p' & E & _);
    [vm_compute; intuition congruence|reflexivity|]. eauto.
Defined.

Lemma nv_pool_reachable_ok_witness :
  nv_pool_validate (Some (pool_reset demo_pool1)) = Some 0 /\ stats_exact (pool_reset demo_pool1).
Proof.
  destruct (nv_pool_reachable_ok true (demo_heap, pool_reset demo_pool1)) as (_ & Hv & Hst); [|split; [exact Hv|by apply Hst]].
  eapply reach_step; [eapply reach_step|].
  - apply (reach_create empty_heap None 4096 demo_pool demo_heap);
      [vm_compute; intuition congruence|by vm_compute].
  - apply (step_alloc demo_heap demo_pool 100 (Some 4288) demo_heap demo_pool1);
      [vm_compute; intuition congruence|by vm_compute].
  - by apply (step_reset demo_heap demo_pool1).
Defined.

End Pool.
