(* ===== verification/Secure.v ===== *)
(** * Constant-time comparison and password policy (base/sys/nv_secure.c) *)
From S2P Require Import Prelude.

Module Secure.

(** A buffer is the list of its bytes; reading past it is undefined. *)
Fixpoint mem_loop (pa pb : list Z) (i n : nat) (diff : Z) : outcome Z :=
  match n with
  | O => Ret diff
  | S n' =>
      ca ← deref (pa !! i);
      cb ← deref (pb !! i);
      mem_loop pa pb (S i) n' (Z.lor diff (Z.lxor ca cb))
  end.

Definition nv_secure_mem_equal (a b : option (list Z)) (len : nat) : outcome bool :=
  match a, b with
  | Some pa, Some pb => diff ← mem_loop pa pb 0 len 0; Ret (diff =? 0)
  | None, None => Ret true
  | _, _ => Ret false
  end.

(** [(i < la) ? (unsigned char)a[i] : 0] *)
Definition byte_or_0 (s : cstr) (i : nat) : Z := nth i s 0.

Fixpoint str_loop (a b : cstr) (i n : nat) (diff : Z) : Z :=
  match n with
  | O => diff
  | S n' => str_loop a b (S i) n' (Z.lor diff (Z.lxor (byte_or_0 a i) (byte_or_0 b i)))
  end.

Definition nv_secure_str_equal (a b : option cstr) : bool :=
  match a, b with
  | Some a, Some b =>
      let la := length a in
      let lb := length b in
      let len := if (lb <? la)%nat then la else lb in
      let diff := u8 (Z.lxor (Z.of_nat la) (Z.of_nat lb)) in
      str_loop a b 0 len diff =? 0
  | None, None => true
  | _, _ => false
  end.

Definition weak : list cstr :=
  [ []; str "123456"; str "nvadmin"; str "admin"; str "password"; str "12345678"; str "root" ].

Definition nv_secure_is_weak_password (password : option cstr) : bool :=
  match password with
  | None => true
  | Some p =>
      existsb (fun w => nv_secure_str_equal (Some p) (Some w)) weak || (strlen p <? 8)
  end.

(** ** Correctness *)

Lemma str_loop_zero a b i n diff :
  str_loop a b i n diff = 0 <->
  diff = 0 /\ forall k, (i <= k < i + n)%nat -> byte_or_0 a k = byte_or_0 b k.
Proof.
  revert i diff. induction n as [|n IH]; intros i diff; simpl.
  - split; [intros ->; split; [done|lia]|tauto].
  - rewrite IH, Z.lor_eq_0_iff, Z.lxor_eq_0_iff. split.
    + intros [[-> Hi] Hk]. split; [done|]. intros k Hk'.
      destruct (decide (k = i)) as [->|]; [done|apply Hk; lia].
    + intros [-> Hk]. split; [split; [done|apply Hk; lia]|]. intros k Hk'. apply Hk. lia.
Qed.

Lemma mem_loop_zero pa pb i n diff :
  (i + n <= length pa)%nat -> (i + n <= length pb)%nat ->
  exists d, mem_loop pa pb i n diff = Ret d /\
    (d = 0 <-> diff = 0 /\ take n (drop i pa) = take n (drop i pb)).
Proof.
  revert i diff. induction n as [|n IH]; intros i diff Ha Hb; simpl.
  - exists diff. split; [done|]. tauto.
  - destruct (lookup_lt_is_Some_2 pa i ltac:(lia)) as [ca Eca].
    destruct (lookup_lt_is_Some_2 pb i ltac:(lia)) as [cb Ecb].
    rewrite Eca, Ecb. simpl.
    destruct (IH (S i) (Z.lor diff (Z.lxor ca cb))) as (d & Hd & Hz); [lia..|].
    exists d. split; [done|]. rewrite Hz, Z.lor_eq_0_iff, Z.lxor_eq_0_iff.
    rewrite (drop_S pa ca i Eca), (drop_S pb cb i Ecb). simpl.
    split; [intros [[-> ->] ->]; done|intros [-> [= -> ->]]; done].
Qed.

(** Strings have no NUL inside, so equal padded bytes mean equal strings. *)
Lemma padded_equal a b :
  cstr_ok a -> cstr_ok b ->
  (forall k, (k < max (length a) (length b))%nat -> byte_or_0 a k = byte_or_0 b k) -> a = b.
Proof.
  unfold byte_or_0. revert b. induction a as [|x a IH]; intros [|y b] Ha Hb Hk; [done| | |].
  - apply Forall_cons in Hb as [Hy _]. specialize (Hk 0%nat ltac:(simpl; lia)). simpl in Hk.
    unfold char_ok in Hy. lia.
  - apply Forall_cons in Ha as [Hx _]. specialize (Hk 0%nat ltac:(simpl; lia)). simpl in Hk.
    unfold char_ok in Hx. lia.
  - apply Forall_cons in Ha as [Hx Ha]. apply Forall_cons in Hb as [Hy Hb].
    f_equal; [apply (Hk 0%nat); simpl; lia|]. apply IH; auto.
    intros k Hlt. apply (Hk (S k)). simpl. lia.
Qed.

Lemma str_equal_iff a b :
  cstr_ok a -> cstr_ok b -> nv_secure_str_equal (Some a) (Some b) = true <-> a = b.
Proof.
  intros Ha Hb. unfold nv_secure_str_equal. rewrite Z.eqb_eq, str_loop_zero. split.
  - intros [_ Hk]. apply padded_equal; auto. intros k Hlt. apply Hk.
    destruct (Nat.ltb_spec (length b) (length a)); lia.
  - intros ->. split; [by rewrite Z.lxor_nilpotent|done].
Qed.

(** Comparison.  [nv_secure_str_equal] answers 1 exactly when both strings
    are NULL or both are the same string, although the length difference is
    truncated to eight bits; [nv_secure_mem_equal] answers 1 exactly when the
    first [len] bytes agree, and neither reads outside its buffers. *)
Theorem nv_secure_equal_spec (a b : cstr) (m n : list Z) (len : nat) :
  cstr_ok a -> cstr_ok b -> (len <= length m)%nat -> (len <= length n)%nat ->
  (nv_secure_str_equal (Some a) (Some b) = true <-> a = b) /\
  nv_secure_mem_equal (Some m) (Some n) len = Ret (bool_decide (take len m = take len n)).
Proof.
  intros Ha Hb Hm Hn. split; [by apply str_equal_iff|].
  unfold nv_secure_mem_equal. destruct (mem_loop_zero m n 0 len 0) as (d & -> & Hd); [lia..|].
  rewrite !drop_0 in Hd. simpl. f_equal. apply eq_bool_prop_intro.
  rewrite bool_decide_spec, Is_true_true, Z.eqb_eq. tauto.
Qed.

Lemma nv_secure_equal_spec_witness :
  (nv_secure_str_equal (Some (str "nvadmin")) (Some (str "nvadmiN")) = true <->
     str "nvadmin" = str "nvadmiN") /\
  nv_secure_mem_equal (Some [1; 2; 3]) (Some [1; 2; 4]) 2 = Ret (bool_decide ([1; 2] = [1; 2])).
Proof.
  apply (nv_secure_equal_spec (str "nvadmin") (str "nvadmiN") [1; 2; 3] [1; 2; 4] 2);
    [repeat constructor; vm_compute; congruence..|simpl; lia|simpl; lia].
Defined.

(** Password policy.  A password is weak exactly when it is NULL, shorter
    than 8 characters or one of the two listed ones of 8 characters. *)
Theorem nv_secure_is_weak_password_spec (p : cstr) :
  cstr_ok p ->
  nv_secure_is_weak_password None = true /\
  (nv_secure_is_weak_password (Some p) = true <->
   (length p < 8)%nat \/ p = str "password" \/ p = str "12345678").
Proof.
  intros Hp. split; [done|]. unfold nv_secure_is_weak_password.
  rewrite orb_true_iff, existsb_exists, Z.ltb_lt. unfold strlen. split.
  - intros [(w & Hw & E)|Hl]; [|left; lia].
    assert (cstr_ok w) as Hok.
    { repeat (destruct Hw as [<-|Hw]; [repeat constructor; vm_compute; congruence|]). done. }
    apply str_equal_iff in E; [|done|done]. subst w.
    repeat (destruct Hw as [<-|Hw]; [simpl; auto; left; lia|]). done.
  - intros [Hl|Hw]; [right; lia|left]. exists p. split; [|by apply str_equal_iff].
    destruct Hw as [-> | ->]; simpl; tauto.
Qed.

Lemma nv_secure_is_weak_password_spec_witness :
  nv_secure_is_weak_password None = true /\
  (nv_secure_is_weak_password (Some (str "correct horse")) = true <->
   (length (str "correct horse") < 8)%nat \/ str "correct horse" = str "password" \/
   str "correct horse" = str "12345678").
Proof.
  apply (nv_secure_is_weak_password_spec (str "correct horse")).
  repeat constructor; vm_compute; congruence.
Defined.

End Secure.
