(* ===== verification/Heap.v ===== *)
(** * The binary max-heap (base/data/nv_heap.c)

    [data] is the whole allocated array: its first [size] cells are the heap,
    the others hold indeterminate values, given as arguments where the C code
    allocates them.  Indices and counts are natural numbers; the doubling of the
    [int] capacity is checked for signed overflow. *)
From S2P Require Import Prelude.
From Stdlib Require Sorted.

Module Heap.

Definition INITIAL_CAPACITY : nat := 10.
Definition EXIT_FAILURE : Z := 1.

Record nv_heap_t := mkHeap { data : list Z; size : nat; capacity : nat }.

(** [junk] is the uninitialised memory of the first allocation. *)
Definition nv_heap_init (junk : list Z) : nv_heap_t :=
  mkHeap (take INITIAL_CAPACITY (junk ++ repeat 0 INITIAL_CAPACITY)) 0 INITIAL_CAPACITY.

Definition nv_heap_is_empty (heap : nv_heap_t) : bool := (size heap =? 0)%nat.

Definition nv_heap_peek (heap : nv_heap_t) : outcome Z :=
  if nv_heap_is_empty heap then Exit EXIT_FAILURE else deref (data heap !! 0%nat).

(** Exchange of two cells; both are read first. *)
Definition swap (d : list Z) (i j : nat) : outcome (list Z) :=
  x ← deref (d !! i);
  y ← deref (d !! j);
  Ret (<[j:=x]> (<[i:=y]> d)).

(** The index decreases, so [index] steps are enough. *)
Fixpoint sift_up_loop (fuel : nat) (d : list Z) (index : nat) : outcome (list Z) :=
  match fuel with
  | O => Ret d
  | S fuel' =>
      if (index =? 0)%nat then Ret d else
      let parent := ((index - 1) / 2)%nat in
      x ← deref (d !! index);
      y ← deref (d !! parent);
      if x <=? y then Ret d
      else d ← swap d index parent; sift_up_loop fuel' d parent
  end.
Definition nv_heap_sift_up (d : list Z) (index : nat) : outcome (list Z) :=
  sift_up_loop index d index.

(** The larger child; [l] is the value at [left]. *)
Definition pick_largest (d : list Z) (n left right : nat) (l : Z) : outcome nat :=
  if (right <? n)%nat
  then r ← deref (d !! right); Ret (if l <? r then right else left)
  else Ret left.

(** The index grows, so [n] steps are enough; [n] is the heap's size. *)
Fixpoint sift_down_loop (fuel : nat) (d : list Z) (n index : nat) : outcome (list Z) :=
  match fuel with
  | O => Ret d
  | S fuel' =>
      if (2 * index + 1 <? n)%nat then
        let left := (2 * index + 1)%nat in
        let right := (2 * index + 2)%nat in
        l ← deref (d !! left);
        largest ← pick_largest d n left right l;
        x ← deref (d !! index);
        y ← deref (d !! largest);
        if y <=? x then Ret d
        else d ← swap d index largest; sift_down_loop fuel' d n largest
      else Ret d
  end.
Definition nv_heap_sift_down (d : list Z) (n index : nat) : outcome (list Z) :=
  sift_down_loop n d n index.

(** [junk] fills the memory that [realloc] adds. *)
Definition nv_heap_insert (heap : nv_heap_t) (value : Z) (junk : list Z) : outcome nv_heap_t :=
  heap ← (if (size heap =? capacity heap)%nat then
            cap ← int_chk (Z.of_nat (capacity heap) * 2);
            Ret (mkHeap (take (Z.to_nat cap) (data heap ++ junk ++ repeat 0 (Z.to_nat cap)))
                   (size heap) (Z.to_nat cap))
          else Ret heap);
  if (size heap <? length (data heap))%nat then
    d ← nv_heap_sift_up (<[size heap := value]> (data heap)) (size heap);
    Ret (mkHeap d (S (size heap)) (capacity heap))
  else UB.

Definition nv_heap_remove (heap : nv_heap_t) : outcome (Z * nv_heap_t) :=
  if nv_heap_is_empty heap then Exit EXIT_FAILURE else
  root ← deref (data heap !! 0%nat);
  last ← deref (data heap !! (size heap - 1)%nat);
  let n := (size heap - 1)%nat in
  d ← nv_heap_sift_down (<[0%nat := last]> (data heap)) n 0;
  Ret (root, mkHeap d n (capacity heap)).

(** ** The heap order *)

Definition parent (i : nat) : nat := ((i - 1) / 2)%nat.

(** Cell [i] is not above its parent. *)
Definition edge_ok (d : list Z) (i : nat) : Prop := d !!! i <= d !!! parent i.
Definition heap_order (d : list Z) (n : nat) : Prop := forall i, (0 < i < n)%nat -> edge_ok d i.

Record heap_ok (h : nv_heap_t) : Prop := {
  ho_len : length (data h) = capacity h;
  ho_size : (size h <= capacity h)%nat;
  ho_cap : (0 < capacity h)%nat;
  ho_order : heap_order (data h) (size h);
}.

Definition elems (h : nv_heap_t) : list Z := take (size h) (data h).

Lemma parent_lt i : (0 < i)%nat -> (parent i < i)%nat.
Proof. intros. unfold parent. apply Nat.Div0.div_lt_upper_bound. lia. Qed.

Lemma parent_child i p : (0 < i)%nat -> parent i = p -> i = (2 * p + 1)%nat \/ i = (2 * p + 2)%nat.
Proof.
  unfold parent. intros Hi <-. pose proof (Nat.div_mod_eq (i - 1) 2).
  pose proof (Nat.mod_upper_bound (i - 1) 2 ltac:(lia)). lia.
Qed.
Lemma parent_left p : parent (2 * p + 1) = p.
Proof. unfold parent. replace (2 * p + 1 - 1)%nat with (p * 2)%nat by lia. by apply Nat.div_mul. Qed.
Lemma parent_right p : parent (2 * p + 2) = p.
Proof.
  unfold parent. replace (2 * p + 2 - 1)%nat with (1 + p * 2)%nat by lia.
  rewrite Nat.div_add by lia. done.
Qed.

Lemma deref_at (d : list Z) i : (i < length d)%nat -> deref (d !! i) = Ret (d !!! i).
Proof. intros Hi. by rewrite (list_lookup_lookup_total_lt d i Hi). Qed.

Lemma swap_eq (d : list Z) (i j : nat) :
  (i < length d)%nat -> (j < length d)%nat -> swap d i j = Ret (<[j:=d !!! i]> (<[i:=d !!! j]> d)).
Proof. intros Hi Hj. unfold swap. by rewrite !deref_at. Qed.

Lemma swap_at (d : list Z) (i j k : nat) :
  (i < length d)%nat -> (j < length d)%nat ->
  <[j:=d !!! i]> (<[i:=d !!! j]> d) !!! k =
    if decide (k = j) then d !!! i else if decide (k = i) then d !!! j else d !!! k.
Proof.
  intros Hi Hj. repeat case_decide; subst.
  - rewrite list_lookup_total_insert_eq; [done|by rewrite length_insert].
  - rewrite list_lookup_total_insert_ne, list_lookup_total_insert_eq by done. done.
  - by rewrite !list_lookup_total_insert_ne.
Qed.

Lemma swap_take_perm (d : list Z) (i j n : nat) :
  (i < n)%nat -> (j < n)%nat -> (n <= length d)%nat ->
  take n (<[j:=d !!! i]> (<[i:=d !!! j]> d)) ≡ₚ take n d.
Proof.
  intros Hi Hj Hn. rewrite !take_insert_lt by done.
  apply swap_perm; rewrite lookup_take_lt by done; apply list_lookup_lookup_total_lt; lia.
Qed.

(** ** Sifting up: only the edge above [index] may be broken *)

Definition up_inv (d : list Z) (n index : nat) : Prop :=
  (forall i, (0 < i < n)%nat -> i <> index -> edge_ok d i) /\
  (forall i, (0 < i < n)%nat -> parent i = index -> (0 < index)%nat -> d !!! i <= d !!! parent index).

Lemma sift_up_loop_ok fuel d n index :
  (index <= fuel)%nat -> (index < n)%nat -> (n <= length d)%nat -> up_inv d n index ->
  exists d', sift_up_loop fuel d index = Ret d' /\ length d' = length d /\
    heap_order d' n /\ take n d' ≡ₚ take n d.
Proof.
  revert d index. induction fuel as [|fuel IH]; intros d index Hf Hi Hn [H1 H2]; cbn [sift_up_loop].
  { exists d. split_and!; try done. intros i Hin. apply H1; lia. }
  destruct (Nat.eqb_spec index 0) as [->|Hz].
  { exists d. split_and!; try done. intros i Hin. apply H1; lia. }
  cbv zeta. fold (parent index). pose proof (parent_lt index ltac:(lia)) as Hp.
  rewrite !deref_at by lia. cbn [mbind outcome_bind].
  destruct (Z.leb_spec (d !!! index) (d !!! parent index)) as [Hle|Hgt].
  { exists d. split_and!; try done. intros i Hin. destruct (decide (i = index)) as [->|]; [done|by apply H1]. }
  rewrite swap_eq by lia. cbn [mbind outcome_bind].
  set (d1 := <[parent index:=d !!! index]> (<[index:=d !!! parent index]> d)).
  assert (length d1 = length d) as Hlen by (unfold d1; by rewrite !length_insert).
  destruct (IH d1 (parent index)) as (d' & -> & L & O & P); [lia|lia|lia| |].
  - unfold up_inv, edge_ok, d1. split.
    + intros i Hin Hne. rewrite !swap_at by lia.
      destruct (decide (i = parent index)); [done|].
      destruct (decide (i = index)) as [->|].
      * rewrite decide_True by done. lia.
      * destruct (decide (parent i = parent index)) as [Ep|].
        { pose proof (H1 i Hin ltac:(done)) as Hx. unfold edge_ok in Hx. rewrite Ep in Hx. lia. }
        destruct (decide (parent i = index)) as [Ep|]; [by apply H2; [|done|lia]|by apply H1].
    + intros i Hin Ep Hpos. rewrite !swap_at by lia.
      pose proof (parent_lt (parent index) Hpos) as Hpp.
      assert (d !!! parent index <= d !!! parent (parent index)) as Hup by (apply H1; lia).
      rewrite (decide_False (P := parent (parent index) = parent index)) by lia.
      rewrite (decide_False (P := parent (parent index) = index)) by lia.
      destruct (decide (i = parent index)) as [->|]; [lia|].
      destruct (decide (i = index)) as [->|]; [done|].
      pose proof (H1 i Hin ltac:(done)) as Hx. unfold edge_ok in Hx. rewrite Ep in Hx. lia.
  - exists d'. split_and!; [done|lia|done|]. rewrite P. apply swap_take_perm; lia.
Qed.

(** ** Sifting down: only the edges below [index] may be broken *)

Definition down_inv (d : list Z) (n index : nat) : Prop :=
  (forall i, (0 < i < n)%nat -> parent i <> index -> edge_ok d i) /\
  (forall i, (0 < i < n)%nat -> parent i = index -> (0 < index)%nat -> d !!! i <= d !!! parent index).

(** The larger child of [index]. *)
Definition larger_child (d : list Z) (n index : nat) : nat :=
  if ((2 * index + 2 <? n)%nat && (d !!! (2 * index + 1)%nat <? d !!! (2 * index + 2)%nat))
  then (2 * index + 2)%nat else (2 * index + 1)%nat.

Lemma larger_child_spec d n index :
  (2 * index + 1 < n)%nat ->
  let c := larger_child d n index in
  (index < c < n)%nat /\ parent c = index /\
  forall i, (0 < i < n)%nat -> parent i = index -> d !!! i <= d !!! c.
Proof.
  intros Hl. unfold larger_child.
  destruct (Nat.ltb_spec (2 * index + 2) n) as [Hr|Hr]; cbn [andb].
  - destruct (Z.ltb_spec (d !!! (2 * index + 1)%nat) (d !!! (2 * index + 2)%nat)) as [Hlt|Hge].
    + split_and!; [lia|lia|apply parent_right|]. intros i Hi Hp.
      apply parent_child in Hp as [-> | ->]; lia.
    + split_and!; [lia|lia|apply parent_left|]. intros i Hi Hp.
      apply parent_child in Hp as [-> | ->]; lia.
  - split_and!; [lia|lia|apply parent_left|]. intros i Hi Hp.
    apply parent_child in Hp as [-> | ->]; lia.
Qed.

Lemma sift_down_step fuel (d : list Z) (n index : nat) :
  (n <= length d)%nat -> (2 * index + 1 < n)%nat ->
  sift_down_loop (S fuel) d n index =
    let c := larger_child d n index in
    if d !!! c <=? d !!! index then Ret d
    else sift_down_loop fuel (<[c:=d !!! index]> (<[index:=d !!! c]> d)) n c.
Proof.
  intros Hn Hl. cbn [sift_down_loop]. destruct (Nat.ltb_spec (2 * index + 1) n); [|lia].
  pose proof (larger_child_spec d n index Hl) as (Hc & _ & _). cbv zeta.
  rewrite (deref_at d (2 * index + 1)) by lia. cbn [mbind outcome_bind].
  assert (pick_largest d n (2 * index + 1) (2 * index + 2) (d !!! (2 * index + 1)%nat) =
          Ret (larger_child d n index)) as ->.
  { unfold larger_child, pick_largest. destruct (Nat.ltb_spec (2 * index + 2) n); cbn [andb]; [|done].
    rewrite deref_at by lia. done. }
  cbn [mbind outcome_bind]. rewrite !deref_at by lia. cbn [mbind outcome_bind].
  case_match; [done|]. rewrite swap_eq by lia. done.
Qed.

Lemma sift_down_loop_ok fuel d n index :
  (n <= fuel + index)%nat -> (index < n)%nat -> (n <= length d)%nat -> down_inv d n index ->
  exists d', sift_down_loop fuel d n index = Ret d' /\ length d' = length d /\
    heap_order d' n /\ take n d' ≡ₚ take n d.
Proof.
  revert d index. induction fuel as [|fuel IH]; intros d index Hf Hi Hn [H1 H2]; [lia|].
  destruct (Nat.ltb_spec (2 * index + 1) n) as [Hl|Hl].
  2: { cbn [sift_down_loop]. destruct (Nat.ltb_spec (2 * index + 1) n); [lia|].
       exists d. split_and!; try done. intros i Hin. apply H1; [done|].
       intros E. apply parent_child in E; lia. }
  rewrite sift_down_step by done. pose proof (larger_child_spec d n index Hl) as (Hc & Hpc & Hmax).
  cbv zeta. set (c := larger_child d n index) in *.
  destruct (Z.leb_spec (d !!! c) (d !!! index)) as [Hle|Hgt].
  { exists d. split_and!; try done. intros i Hin. destruct (decide (parent i = index)) as [E|]; [|by apply H1].
    unfold edge_ok. rewrite E. pose proof (Hmax i Hin E). lia. }
  set (d1 := <[c:=d !!! index]> (<[index:=d !!! c]> d)).
  assert (length d1 = length d) as Hlen by (unfold d1; by rewrite !length_insert).
  destruct (IH d1 c) as (d' & -> & L & O & P); [lia|lia|lia| |].
  - unfold down_inv, edge_ok, d1. split.
    + intros i Hin Hne. rewrite !swap_at by lia. rewrite (decide_False (P := parent i = c)) by done.
      destruct (decide (i = c)) as [->|].
      * rewrite decide_True by done. lia.
      * destruct (decide (i = index)) as [->|].
        { rewrite decide_False by (pose proof (parent_lt index); lia).
          pose proof (H2 c ltac:(lia) Hpc ltac:(lia)). done. }
        destruct (decide (parent i = index)) as [E|]; [by apply Hmax|by apply H1].
    + intros i Hin Ep Hpos. pose proof (parent_lt i ltac:(lia)). rewrite !swap_at by lia.
      rewrite Hpc, (decide_False (P := index = c)), (decide_True (P := index = index)) by lia.
      rewrite (decide_False (P := i = c)), (decide_False (P := i = index)) by lia.
      pose proof (H1 i Hin ltac:(lia)) as Hx. unfold edge_ok in Hx. by rewrite Ep in Hx.
  - exists d'. split_and!; [done|lia|done|]. rewrite P. apply swap_take_perm; lia.
Qed.

(** ** The operations *)

Lemma heap_order_take d d' n m :
  (m <= n)%nat -> heap_order d n -> take m d = take m d' -> (n <= length d)%nat -> (m <= length d')%nat ->
  heap_order d' m.
Proof.
  intros Hm Ho E Hn Hn' i Hi.
  assert (forall j, (j < m)%nat -> d' !!! j = d !!! j) as Hj.
  { intros j Hj. apply Some_inj. rewrite <- !list_lookup_lookup_total_lt by lia.
    rewrite <- (lookup_take_lt d m), <- (lookup_take_lt d' m) by done. by rewrite E. }
  unfold edge_ok. rewrite !Hj by (pose proof (parent_lt i); lia). apply Ho. lia.
Qed.

Lemma insert_grown heap value :
  heap_ok heap -> (size heap < length (data heap))%nat ->
  exists d, nv_heap_sift_up (<[size heap := value]> (data heap)) (size heap) = Ret d /\
    length d = length (data heap) /\ heap_order d (S (size heap)) /\
    take (S (size heap)) d ≡ₚ value :: elems heap.
Proof.
  intros [Hl Hs Hc Ho] Hlt. unfold nv_heap_sift_up.
  destruct (sift_up_loop_ok (size heap) (<[size heap := value]> (data heap)) (S (size heap)) (size heap))
    as (d & E & L & O & P); rewrite ?length_insert; [lia|lia|lia| |].
  - split.
    + intros i Hin Hne. pose proof (parent_lt i). unfold edge_ok.
      rewrite !list_lookup_total_insert_ne by lia. apply Ho. lia.
    + intros i Hin Ep. pose proof (parent_lt i). lia.
  - exists d. rewrite length_insert in L. split_and!; auto. rewrite P. unfold elems.
    rewrite take_insert_lt by lia.
    rewrite (take_S_r _ _ (data heap !!! size heap)) by (by apply list_lookup_lookup_total_lt).
    rewrite insert_app_r_alt by (rewrite length_take; lia).
    rewrite length_take, Nat.min_l, Nat.sub_diag by lia. simpl. by rewrite Permutation_app_comm.
Qed.

Lemma insert_ok heap value junk :
  heap_ok heap -> Z.of_nat (capacity heap) * 2 <= INT_MAX ->
  exists heap', nv_heap_insert heap value junk = Ret heap' /\ heap_ok heap' /\
    elems heap' ≡ₚ value :: elems heap.
Proof.
  intros Hok Hcap. pose proof Hok as [Hl Hs Hc Ho]. unfold nv_heap_insert.
  destruct (Nat.eqb_spec (size heap) (capacity heap)) as [Hfull|Hroom].
  - unfold int_chk. destruct (Z.leb_spec INT_MIN (Z.of_nat (capacity heap) * 2)) as [_|Hbad];
      [|unfold INT_MIN in Hbad; lia].
    destruct (Z.leb_spec (Z.of_nat (capacity heap) * 2) INT_MAX) as [_|]; [|lia].
    cbn [andb mbind outcome_bind]. replace (Z.to_nat (Z.of_nat (capacity heap) * 2)) with (2 * capacity heap)%nat by lia.
    set (big := mkHeap _ _ _).
    assert (take (size heap) (data big) = take (size heap) (data heap)) as Et.
    { unfold big. simpl data. rewrite take_take, Nat.min_l, take_app_le by lia. done. }
    assert (length (data big) = capacity big) as Hlb.
    { unfold big. simpl. rewrite length_take, !length_app, repeat_length. lia. }
    assert (heap_ok big) as Hb.
    { split; [done|simpl; lia|simpl; lia|].
      apply (heap_order_take (data heap) (data big) (size heap) (size heap)); auto; [lia|].
      rewrite Hlb. simpl. lia. }
    destruct (insert_grown big value Hb) as (d & E & L & O & P); [rewrite Hlb; simpl; lia|].
    destruct (Nat.ltb_spec (size big) (length (data big))) as [_|Hbad]; [|rewrite Hlb in Hbad; simpl in Hbad; lia].
    rewrite E. eexists. split; [done|]. split.
    + split; simpl; [rewrite L, Hlb; done|lia|lia|done].
    + change (take (S (size big)) d ≡ₚ value :: elems heap). rewrite P. unfold elems.
      change (size big) with (size heap). by rewrite Et.
  - cbn [mbind outcome_bind].
    destruct (insert_grown heap value Hok) as (d & E & L & O & P); [lia|].
    destruct (Nat.ltb_spec (size heap) (length (data heap))) as [_|Hbad]; [|lia].
    rewrite E. eexists. split; [done|]. split; [|done].
    split; simpl; [lia|lia|lia|done].
Qed.

Lemma heap_root_max d n i : heap_order d n -> (i < n)%nat -> d !!! i <= d !!! 0%nat.
Proof.
  intros Ho. induction (lt_wf i) as [i _ IH]. intros Hi.
  destruct (decide (i = 0%nat)) as [->|]; [lia|].
  pose proof (parent_lt i ltac:(lia)) as Hp. pose proof (Ho i ltac:(lia)) as He. unfold edge_ok in He.
  specialize (IH (parent i) Hp ltac:(lia)). lia.
Qed.

Lemma remove_ok heap :
  heap_ok heap -> (0 < size heap)%nat ->
  exists root heap', nv_heap_remove heap = Ret (root, heap') /\ heap_ok heap' /\
    capacity heap' = capacity heap /\ size heap' = (size heap - 1)%nat /\
    elems heap ≡ₚ root :: elems heap' /\ Forall (fun x => x <= root) (elems heap).
Proof.
  intros [Hl Hs Hc Ho] Hn. unfold nv_heap_remove, nv_heap_is_empty.
  destruct (Nat.eqb_spec (size heap) 0) as [|_]; [lia|]. rewrite !deref_at by lia. cbn [mbind outcome_bind].
  set (root := data heap !!! 0%nat). set (n := (size heap - 1)%nat).
  set (lastv := data heap !!! n). set (d0 := <[0%nat:=lastv]> (data heap)). cbv zeta.
  assert (length d0 = length (data heap)) as Hd0 by (unfold d0; apply length_insert).
  assert (elems heap ≡ₚ root :: take n d0) as Hperm.
  { unfold elems. replace (size heap) with (S n) by lia.
    rewrite (take_S_r _ n lastv) by (apply list_lookup_lookup_total_lt; lia).
    unfold d0. destruct n as [|n'] eqn:En.
    - rewrite !take_0. done.
    - rewrite take_insert_lt by lia. rewrite Permutation_app_comm. simpl app.
      apply insert_perm. rewrite lookup_take_lt by lia. apply list_lookup_lookup_total_lt. lia. }
  assert (Forall (fun x => x <= root) (elems heap)) as Hmax.
  { apply Forall_lookup. intros i x Hx. unfold elems in Hx.
    apply lookup_take_Some in Hx as [Hx Hi]. apply list_lookup_total_correct in Hx as <-.
    by apply (heap_root_max _ (size heap)). }
  assert (exists d, nv_heap_sift_down d0 n 0 = Ret d /\ length d = length d0 /\ heap_order d n /\
    take n d ≡ₚ take n d0) as (d & -> & L & O & P).
  { unfold nv_heap_sift_down. destruct (decide (n = 0%nat)) as [->|].
    - exists d0. split_and!; try done. intros i Hi. lia.
    - apply sift_down_loop_ok; [lia|lia|lia|]. split; [|lia].
      intros i Hi Hne. pose proof (parent_lt i). unfold edge_ok, d0.
      rewrite !list_lookup_total_insert_ne by lia. apply Ho. lia. }
  exists root, (mkHeap d n (capacity heap)). split_and!; auto.
  - split; simpl; [lia|lia|done|done].
  - rewrite Hperm. unfold elems. simpl. by rewrite P.
Qed.

(** Insertion.  Inserting into a well-formed heap (whose capacity can still
    be doubled) succeeds, keeps the heap order and the capacity bound, and adds
    exactly the value; the uninitialised cells never matter. *)
Theorem nv_heap_insert_correct (heap : nv_heap_t) (value : Z) (junk : list Z) :
  heap_ok heap -> Z.of_nat (capacity heap) * 2 <= INT_MAX ->
  exists heap', nv_heap_insert heap value junk = Ret heap' /\ heap_ok heap' /\
    elems heap' ≡ₚ value :: elems heap.
Proof. apply insert_ok. Qed.

(** A client that fills a heap and drains it. *)
Fixpoint insert_all (heap : nv_heap_t) (l : list Z) : outcome nv_heap_t :=
  match l with
  | [] => Ret heap
  | x :: l' => heap ← nv_heap_insert heap x []; insert_all heap l'
  end.
Fixpoint drain (n : nat) (heap : nv_heap_t) : outcome (list Z) :=
  match n with
  | O => Ret []
  | S n' =>
      '(x, heap) ← nv_heap_remove heap;
      rest ← drain n' heap;
      Ret (x :: rest)
  end.

Lemma insert_cap heap value junk heap' :
  heap_ok heap -> nv_heap_insert heap value junk = Ret heap' ->
  size heap' = S (size heap) /\
  (capacity heap' <= max (capacity heap) (2 * size heap))%nat.
Proof.
  intros [Hl Hs Hc Ho]. unfold nv_heap_insert.
  destruct (Nat.eqb_spec (size heap) (capacity heap)).
  - unfold int_chk. case_match; cbn [mbind outcome_bind]; [|done]. case_match; [|done].
    destruct (nv_heap_sift_up _ _); cbn [mbind outcome_bind]; [|done..]. intros [= <-]. simpl. lia.
  - cbn [mbind outcome_bind]. case_match; [|done].
    destruct (nv_heap_sift_up _ _); cbn [mbind outcome_bind]; [|done..]. intros [= <-]. simpl. lia.
Qed.

Lemma insert_all_ok l heap :
  heap_ok heap -> (capacity heap <= 10 + 2 * size heap)%nat ->
  Z.of_nat (size heap + length l) <= 2 ^ 28 ->
  exists heap', insert_all heap l = Ret heap' /\ heap_ok heap' /\ elems heap' ≡ₚ l ++ elems heap.
Proof.
  change (2 ^ 28) with 268435456.
  revert heap. induction l as [|x l IH]; intros heap Hok Hc Hb; simpl.
  { by exists heap. }
  simpl in Hb. destruct (insert_ok heap x [] Hok) as (h1 & E & Hok1 & P1); [unfold INT_MAX; lia|].
  rewrite E. cbn [mbind outcome_bind]. destruct (insert_cap _ _ _ _ Hok E) as [Es Ec].
  destruct (IH h1 Hok1) as (h2 & E2 & Hok2 & P2); [lia|lia|].
  exists h2. split_and!; auto. rewrite P2, P1. symmetry. apply Permutation_middle.
Qed.

Lemma drain_ok n heap :
  heap_ok heap -> size heap = n ->
  exists out, drain n heap = Ret out /\ out ≡ₚ elems heap /\ Sorted.StronglySorted (fun a b => b <= a) out.
Proof.
  revert heap. induction n as [|n IH]; intros heap Hok Hn; simpl.
  - exists []. split_and!; [done| |constructor]. unfold elems. by rewrite Hn, take_0.
  - destruct (remove_ok heap Hok) as (root & h1 & -> & Hok1 & _ & Hs1 & P & Hmax); [lia|].
    cbn [mbind outcome_bind]. destruct (IH h1 Hok1) as (out & -> & Po & So); [lia|].
    cbn [mbind outcome_bind]. exists (root :: out). split_and!; [done|by rewrite P, Po|].
    constructor; [done|]. rewrite Po. rewrite P in Hmax. by inv Hmax.
Qed.

Lemma init_ok junk : heap_ok (nv_heap_init junk).
Proof.
  split; cbn [data size capacity nv_heap_init]; try (unfold INITIAL_CAPACITY; lia).
  - rewrite length_take, length_app, repeat_length. lia.
  - intros i Hi. lia.
Qed.

(** C14: Heap sort.  Filling a fresh heap with any values (at most 2^28 of
    them) and removing as many gives back the same values in descending order:
    every removal returns the maximum, and neither undefined behaviour nor
    the exit of an empty heap is reached. *)
Theorem nv_heap_sorts (junk l : list Z) :
  Z.of_nat (length l) <= 2 ^ 28 ->
  exists heap out, insert_all (nv_heap_init junk) l = Ret heap /\
    drain (length l) heap = Ret out /\ out ≡ₚ l /\ Sorted.StronglySorted (fun a b => b <= a) out.
Proof.
  intros Hl. destruct (insert_all_ok l (nv_heap_init junk) (init_ok junk)) as (h & E & Hok & P);
    [cbn [capacity size nv_heap_init]; unfold INITIAL_CAPACITY; lia|done|].
  assert (elems h ≡ₚ l) as Pl by (rewrite P; unfold elems; simpl; by rewrite app_nil_r).
  assert (size h = length l) as Hs.
  { rewrite <- (Permutation_length Pl). unfold elems. rewrite length_take.
    destruct Hok. lia. }
  destruct (drain_ok (length l) h Hok Hs) as (out & E2 & P2 & S2).
  exists h, out. split_and!; auto. by rewrite P2.
Qed.

Lemma nv_heap_insert_correct_witness :
  exists heap', nv_heap_insert (nv_heap_init [7; 7; 7]) 5 [] = Ret heap' /\ heap_ok heap' /\
    elems heap' ≡ₚ 5 :: elems (nv_heap_init [7; 7; 7]).
Proof.
  apply (nv_heap_insert_correct (nv_heap_init [7; 7; 7]) 5 []); [apply init_ok|vm_compute; congruence].
Defined.

Lemma nv_heap_sorts_witness :
  exists heap out, insert_all (nv_heap_init []) [3; 1; 4; 1; 5; 9; 2; 6; 5; 3; 5] = Ret heap /\
    drain 11 heap = Ret out /\ out = [9; 6; 5; 5; 5; 4; 3; 3; 2; 1; 1].
Proof.
  destruct (nv_heap_sorts [] [3; 1; 4; 1; 5; 9; 2; 6; 5; 3; 5]) as (heap & out & E & D & _ & _);
    [vm_compute; congruence|].
  exists heap, out. split; [exact E|]. split; [exact D|].
  vm_compute in E. injection E as <-. vm_compute in D. injection D as <-. reflexivity.
Defined.

End Heap.
