(* ===== verification/Tables.v ===== *)
(** * Tables built from chains: hash table, dictionary, set and graph
      (base/data/nv_hash_table.c, nv_dict.c, nv_set.c, nv_graph.c)

    A chain of nodes linked by [next] is the list of its nodes; a key is the
    string [strdup] copied, so that later changes of the caller's buffer do not
    reach it.  The code does not check [malloc] here: the operations are those
    of a run in which it succeeds. *)
From S2P Require Import Prelude.

(** ** Chains of key/value nodes, shared by the hash table and the dictionary *)
Section chains.
Context {V : Type}.
Implicit Types l : list (cstr * V).

Fixpoint chain_find l (key : cstr) : option V :=
  match l with
  | [] => None
  | (k, v) :: l' => if strcmp_eq k key then Some v else chain_find l' key
  end.

(** Unlink the first node with the key. *)
Fixpoint chain_remove l (key : cstr) : list (cstr * V) :=
  match l with
  | [] => []
  | (k, v) :: l' => if strcmp_eq k key then l' else (k, v) :: chain_remove l' key
  end.

(** Replace the value of the first node with the key, if there is one. *)
Fixpoint chain_update l (key : cstr) (value : V) : option (list (cstr * V)) :=
  match l with
  | [] => None
  | (k, v) :: l' =>
      if strcmp_eq k key then Some ((k, value) :: l')
      else match chain_update l' key value with
           | Some l'' => Some ((k, v) :: l'')
           | None => None
           end
  end.

(** The values stored under a key, newest first. *)
Definition chain_values l (key : cstr) : list V := map snd (filter (fun kv => fst kv = key) l).

Lemma chain_values_cons k v l key :
  chain_values ((k, v) :: l) key = if decide (k = key) then v :: chain_values l key else chain_values l key.
Proof. unfold chain_values. rewrite filter_cons. simpl. by case_decide. Qed.

Lemma chain_find_values l key : chain_find l key = head (chain_values l key).
Proof.
  induction l as [|[k v] l IH]; [done|]. cbn [chain_find]. rewrite chain_values_cons.
  unfold strcmp_eq. case_bool_decide; [by rewrite decide_True|by rewrite decide_False].
Qed.

Lemma chain_remove_values l key key' :
  chain_values (chain_remove l key) key' =
    if decide (key' = key) then tail (chain_values l key) else chain_values l key'.
Proof.
  induction l as [|[k v] l IH]; [by case_decide|]. cbn [chain_remove]. unfold strcmp_eq.
  rewrite !chain_values_cons. case_bool_decide as Hk.
  - subst. rewrite (decide_True (P := key = key)) by done.
    destruct (decide (key' = key)) as [->|]; [done|]. by rewrite decide_False by congruence.
  - rewrite chain_values_cons, IH. rewrite (decide_False (P := k = key)) by done.
    destruct (decide (key' = key)) as [->|]; [by rewrite decide_False|done].
Qed.

Lemma chain_update_None l key value : chain_update l key value = None <-> chain_find l key = None.
Proof.
  induction l as [|[k v] l IH]; [done|]. simpl. destruct (strcmp_eq k key); [done|].
  rewrite <- IH. by destruct (chain_update l key value).
Qed.

Lemma chain_update_find l key value l' key' :
  chain_update l key value = Some l' ->
  chain_find l' key' = (if decide (key' = key) then Some value else chain_find l key') /\
  map fst l' = map fst l.
Proof.
  revert l'. induction l as [|[k v] l IH]; intros l'; simpl; [done|].
  unfold strcmp_eq. case_bool_decide as Hk.
  - intros [= <-]. subst. simpl. split; [|done]. unfold strcmp_eq.
    case_bool_decide; [by rewrite decide_True|by rewrite decide_False by congruence].
  - destruct (chain_update l key value) as [l1|]; [|done]. intros [= <-].
    destruct (IH l1 eq_refl) as [E1 E2]. simpl. rewrite E2. split; [|done]. unfold strcmp_eq.
    case_bool_decide; [by rewrite decide_False by congruence|done].
Qed.

Lemma chain_find_None l key : chain_find l key = None <-> key ∉ map fst l.
Proof.
  induction l as [|[k v] l IH]; simpl; [set_solver|].
  unfold strcmp_eq. case_bool_decide; [set_solver|rewrite IH; set_solver].
Qed.

Lemma chain_remove_find l key key' :
  NoDup (map fst l) ->
  chain_find (chain_remove l key) key' = (if decide (key' = key) then None else chain_find l key').
Proof.
  induction l as [|[k v] l IH]; simpl; intros Hn; [by case_decide|].
  apply NoDup_cons in Hn as [Hk Hn]. unfold strcmp_eq. case_bool_decide as Ek.
  - subst. destruct (decide (key' = key)) as [->|]; [by apply chain_find_None|].
    by rewrite bool_decide_eq_false_2 by congruence.
  - simpl. rewrite IH by done. unfold strcmp_eq.
    case_bool_decide; [by rewrite decide_False by congruence|done].
Qed.

Lemma chain_remove_keys l key : map fst (chain_remove l key) ⊆ map fst l.
Proof. induction l as [|[k v] l IH]; simpl; [done|]. case_match; set_solver. Qed.
Lemma chain_remove_nodup l key : NoDup (map fst l) -> NoDup (map fst (chain_remove l key)).
Proof.
  induction l as [|[k v] l IH]; simpl; [done|]. intros [Hk Hn]%NoDup_cons.
  case_match; [done|]. simpl. constructor; [|auto]. pose proof (chain_remove_keys l key). set_solver.
Qed.
End chains.

(** [hash = (hash << 5) + *key++] on [unsigned int] and signed characters. *)
Definition hash_step (hash c : Z) : Z := u32 (Z.shiftl hash 5 + schar c).
Definition hash_key (key : cstr) : Z := fold_left hash_step key 0.

Lemma hash_key_range key : 0 <= hash_key key.
Proof.
  unfold hash_key. assert (forall h, 0 <= h -> 0 <= fold_left hash_step key h) as Hf; [|apply Hf; lia].
  induction key as [|c key IH]; intros h Hh; simpl; [done|]. apply IH.
  apply (wrap_range 32). lia.
Qed.

(** ** The hash table *)
Module HashTab.

Record HashTable := mkTable { nodes : list (list (cstr * cstr)); size : Z }.

(** [hash % size] with [size] converted to unsigned; zero divides. *)
Definition hash (key : cstr) (size : Z) : outcome nat :=
  if u32 size =? 0 then UB else Ret (Z.to_nat (hash_key key mod u32 size)).

Definition nv_hash_table_create (size : Z) : HashTable := mkTable (repeat [] (Z.to_nat size)) size.

Definition nv_hash_table_insert (table : HashTable) (key value : cstr) : outcome HashTable :=
  index ← hash key (size table);
  l ← deref (nodes table !! index);
  Ret (mkTable (<[index := default ((key, value) :: l) (chain_update l key value)]> (nodes table)) (size table)).

Definition nv_hash_table_find (table : HashTable) (key : cstr) : outcome (option cstr) :=
  index ← hash key (size table);
  l ← deref (nodes table !! index);
  Ret (chain_find l key).

Definition nv_hash_table_delete (table : HashTable) (key : cstr) : outcome HashTable :=
  index ← hash key (size table);
  l ← deref (nodes table !! index);
  Ret (mkTable (<[index := chain_remove l key]> (nodes table)) (size table)).

(** *** Refinement of a finite map *)

Definition slot (sz : Z) (key : cstr) : nat := Z.to_nat (hash_key key mod sz).

Record table_ok (t : HashTable) : Prop := {
  to_size : 0 < size t < 2 ^ 31;
  to_len : Z.of_nat (length (nodes t)) = size t;
  to_nodup : forall i l, nodes t !! i = Some l -> NoDup (map fst l);
}.

Definition bucket (t : HashTable) (key : cstr) : list (cstr * cstr) :=
  default [] (nodes t !! slot (size t) key).

Definition represents (t : HashTable) (m : gmap cstr cstr) : Prop :=
  table_ok t /\ forall key, chain_find (bucket t key) key = m !! key.

Lemma ht_bucket_access t key :
  table_ok t -> hash key (size t) = Ret (slot (size t) key) /\
  nodes t !! slot (size t) key = Some (bucket t key).
Proof.
  intros [[Hs0 Hs1] Hl _]. unfold hash, slot.
  assert (u32 (size t) = size t) as ->.
  { apply wrap_small. split; [lia|]. change (2 ^ 32) with (2 * 2 ^ 31). lia. }
  destruct (Z.eqb_spec (size t) 0); [lia|]. split; [done|]. unfold bucket, slot.
  destruct (lookup_lt_is_Some_2 (nodes t) (Z.to_nat (hash_key key mod size t))) as [l ->]; [|done].
  pose proof (Z.mod_pos_bound (hash_key key) (size t) Hs0). lia.
Qed.

Lemma bucket_insert t key l key' :
  table_ok t ->
  bucket (mkTable (<[slot (size t) key := l]> (nodes t)) (size t)) key' =
    if decide (slot (size t) key' = slot (size t) key) then l else bucket t key'.
Proof.
  intros Hok. pose proof (ht_bucket_access t key Hok) as [_ Hb]. apply lookup_lt_Some in Hb.
  unfold bucket. simpl. case_decide as E.
  - by rewrite E, list_lookup_insert_eq.
  - by rewrite list_lookup_insert_ne.
Qed.

Lemma insert_bucket_ok t key l :
  table_ok t -> NoDup (map fst l) -> table_ok (mkTable (<[slot (size t) key := l]> (nodes t)) (size t)).
Proof.
  intros [Hs Hl Hn] Hnd. split; simpl; [done|by rewrite length_insert|].
  intros i l' E. apply list_lookup_insert_Some in E as [(_ & -> & _)|[_ E]]; eauto.
Qed.

(** Writing one bucket changes the map at the keys it changes. *)
Lemma ht_represents_bucket t m key l m' :
  represents t m -> NoDup (map fst l) ->
  (forall k, chain_find l k = if decide (k = key) then m' !! key else chain_find (bucket t key) k) ->
  (forall k, k <> key -> m' !! k = m !! k) ->
  represents (mkTable (<[slot (size t) key := l]> (nodes t)) (size t)) m'.
Proof.
  intros [Hok Hm] Hnd Hl Hother. split; [by apply insert_bucket_ok|].
  intros k. rewrite bucket_insert by done. case_decide as E.
  - rewrite Hl. case_decide as Ek; [by subst|]. rewrite Hother by done. rewrite <- Hm.
    unfold bucket. by rewrite E.
  - rewrite Hm. symmetry. apply Hother. by intros ->.
Qed.

Lemma ht_insert_represents t m key value :
  represents t m ->
  exists t', nv_hash_table_insert t key value = Ret t' /\ represents t' (<[key:=value]> m).
Proof.
  intros Hr. pose proof Hr as [Hok Hm]. unfold nv_hash_table_insert.
  destruct (ht_bucket_access t key Hok) as [-> Hb]. cbn [mbind outcome_bind]. rewrite Hb.
  cbn [deref mbind outcome_bind]. eexists. split; [done|].
  assert (NoDup (map fst (bucket t key))) as Hnd by (by eapply to_nodup).
  apply (ht_represents_bucket t m); auto.
  - destruct (chain_update (bucket t key) key value) as [l|] eqn:Eu; simpl.
    + destruct (chain_update_find _ _ _ _ key Eu) as [_ ->]. done.
    + apply chain_update_None, chain_find_None in Eu. by constructor.
  - intros k. rewrite lookup_insert_eq.
    destruct (chain_update (bucket t key) key value) as [l|] eqn:Eu; simpl.
    + by destruct (chain_update_find _ _ _ _ k Eu) as [-> _].
    + unfold strcmp_eq. case_bool_decide; [by rewrite decide_True|by rewrite decide_False by congruence].
  - intros k Hk. by rewrite lookup_insert_ne.
Qed.

Lemma ht_delete_represents t m key :
  represents t m ->
  exists t', nv_hash_table_delete t key = Ret t' /\ represents t' (delete key m).
Proof.
  intros Hr. pose proof Hr as [Hok Hm]. unfold nv_hash_table_delete.
  destruct (ht_bucket_access t key Hok) as [-> Hb]. cbn [mbind outcome_bind]. rewrite Hb.
  cbn [deref mbind outcome_bind]. eexists. split; [done|].
  assert (NoDup (map fst (bucket t key))) as Hnd by (by eapply to_nodup).
  apply (ht_represents_bucket t m); auto using chain_remove_nodup.
  - intros k. rewrite chain_remove_find by done. by rewrite lookup_delete_eq.
  - intros k Hk. by rewrite lookup_delete_ne.
Qed.

Lemma find_represents t m key : represents t m -> nv_hash_table_find t key = Ret (m !! key).
Proof.
  intros [Hok Hm]. unfold nv_hash_table_find. destruct (ht_bucket_access t key Hok) as [-> Hb].
  cbn [mbind outcome_bind]. rewrite Hb. simpl. by rewrite Hm.
Qed.

Lemma create_represents sz : 0 < sz < 2 ^ 31 -> represents (nv_hash_table_create sz) ∅.
Proof.
  intros Hs. assert (forall i l, repeat [] (Z.to_nat sz) !! i = Some l -> l = [] :> list (cstr * cstr)) as Hr.
  { intros i l E. apply list_elem_of_lookup_2, list_elem_of_In, repeat_spec in E. done. }
  split; [split; simpl|].
  - done.
  - rewrite repeat_length. lia.
  - intros i l ->%Hr. constructor.
  - intros key. unfold bucket. simpl. destruct (repeat _ _ !! _) as [l|] eqn:E; [|done].
    by apply Hr in E as ->.
Qed.

(** The operations a client may issue, on the table and on the map. *)
Inductive op := Insert (key value : cstr) | Delete (key : cstr).
Definition run_op (t : HashTable) (o : op) : outcome HashTable :=
  match o with Insert k v => nv_hash_table_insert t k v | Delete k => nv_hash_table_delete t k end.
Definition spec_op (m : gmap cstr cstr) (o : op) : gmap cstr cstr :=
  match o with Insert k v => <[k := v]> m | Delete k => delete k m end.
Fixpoint run_ops (t : HashTable) (os : list op) : outcome HashTable :=
  match os with [] => Ret t | o :: os' => t ← run_op t o; run_ops t os' end.

Lemma ht_run_ops_represents os t m :
  represents t m -> exists t', run_ops t os = Ret t' /\ represents t' (fold_left spec_op os m).
Proof.
  revert t m. induction os as [|o os IH]; intros t m Hr; simpl; [by exists t|].
  assert (exists t', run_op t o = Ret t' /\ represents t' (spec_op m o)) as (t' & -> & Hr').
  { destruct o; [by apply ht_insert_represents|by apply ht_delete_represents]. }
  by apply IH.
Qed.

(** C19: Refinement.  A hash table of any positive size behaves as a finite map
    from strings to strings: after any sequence of insertions and deletions,
    a lookup gives what the map gives, collisions included. *)
Theorem nv_hash_table_refines_map (sz : Z) (os : list op) (key : cstr) :
  0 < sz < 2 ^ 31 ->
  exists t, run_ops (nv_hash_table_create sz) os = Ret t /\
    nv_hash_table_find t key = Ret (fold_left spec_op os ∅ !! key).
Proof.
  intros Hs. destruct (ht_run_ops_represents os _ _ (create_represents sz Hs)) as (t & E & Hr).
  exists t. split; [done|]. by apply find_represents.
Qed.

(** Two keys of one bucket (a table of size 1). *)
Lemma nv_hash_table_refines_map_witness :
  exists t, run_ops (nv_hash_table_create 1)
      [Insert (str "a") (str "1"); Insert (str "b") (str "2"); Insert (str "a") (str "3"); Delete (str "b")] = Ret t /\
    nv_hash_table_find t (str "a") = Ret (Some (str "3")).
Proof.
  apply (nv_hash_table_refines_map 1
    [Insert (str "a") (str "1"); Insert (str "b") (str "2"); Insert (str "a") (str "3"); Delete (str "b")]
    (str "a")).
  vm_compute. intuition congruence.
Defined.

End HashTab.

(** ** The dictionary *)
Module Dict.

Definition TABLE_SIZE : Z := 100.

(** Values are pointers, 0 for NULL. *)
Record nv_dict_t := mkDict { buckets : list (list (cstr * Z)) }.

Definition hash (key : cstr) : nat := Z.to_nat (hash_key key mod TABLE_SIZE).

Definition nv_dict_init : nv_dict_t := mkDict (repeat [] (Z.to_nat TABLE_SIZE)).

Definition nv_dict_insert (dict : nv_dict_t) (key : cstr) (value : Z) : outcome nv_dict_t :=
  let index := hash key in
  l ← deref (buckets dict !! index);
  Ret (mkDict (<[index := (key, value) :: l]> (buckets dict))).

Definition nv_dict_lookup (dict : nv_dict_t) (key : cstr) : outcome Z :=
  l ← deref (buckets dict !! hash key);
  Ret (default 0 (chain_find l key)).

Definition nv_dict_remove (dict : nv_dict_t) (key : cstr) : outcome nv_dict_t :=
  let index := hash key in
  l ← deref (buckets dict !! index);
  Ret (mkDict (<[index := chain_remove l key]> (buckets dict))).

Definition nv_dict_is_empty (dict : nv_dict_t) : bool :=
  forallb (fun l => match l with [] => true | _ => false end) (buckets dict).

(** *** Refinement: every key holds a stack of values *)

Definition spec := cstr -> list Z.
Definition push_spec (f : spec) (key : cstr) (v : Z) : spec :=
  fun k => if decide (k = key) then v :: f key else f k.
Definition pop_spec (f : spec) (key : cstr) : spec :=
  fun k => if decide (k = key) then tail (f key) else f k.

Record represents (d : nv_dict_t) (f : spec) : Prop := {
  dr_len : length (buckets d) = Z.to_nat TABLE_SIZE;
  dr_home : forall i l k v, buckets d !! i = Some l -> (k, v) ∈ l -> hash k = i;
  dr_values : forall k l, buckets d !! hash k = Some l -> chain_values l k = f k;
}.

Lemma hash_lt key : (hash key < Z.to_nat TABLE_SIZE)%nat.
Proof.
  unfold hash. pose proof (Z.mod_pos_bound (hash_key key) TABLE_SIZE ltac:(done)).
  apply Z2Nat.inj_lt; [lia|done|lia].
Qed.

Lemma dict_bucket_access d f key :
  represents d f -> exists l, buckets d !! hash key = Some l.
Proof. intros [Hl _ _]. apply lookup_lt_is_Some_2. rewrite Hl. apply hash_lt. Qed.

(** Writing the bucket of one key. *)
Lemma dict_represents_bucket d f key l f' :
  represents d f ->
  (forall k v, (k, v) ∈ l -> hash k = hash key) ->
  (forall k, hash k = hash key -> chain_values l k = f' k) ->
  (forall k, hash k <> hash key -> f' k = f k) ->
  represents (mkDict (<[hash key := l]> (buckets d))) f'.
Proof.
  intros Hr Hhome Hv Hother. pose proof Hr as [Hl H1 H2]. split; cbn [buckets].
  - by rewrite length_insert.
  - intros i l' k v E Hin. apply list_lookup_insert_Some in E as [(<- & -> & _)|[_ E]]; eauto.
  - intros k l' E. destruct (decide (hash k = hash key)) as [Eh|Eh].
    + rewrite Eh, list_lookup_insert_eq in E by (rewrite Hl; apply hash_lt). injection E as <-. auto.
    + rewrite list_lookup_insert_ne in E by done. rewrite Hother by done. auto.
Qed.

Lemma dict_insert_represents d f key value :
  represents d f ->
  exists d', nv_dict_insert d key value = Ret d' /\ represents d' (push_spec f key value).
Proof.
  intros Hr. destruct (dict_bucket_access d f key Hr) as [l El]. unfold nv_dict_insert. rewrite El. simpl.
  eexists. split; [done|]. pose proof Hr as [_ H1 H2]. apply (dict_represents_bucket d f); auto.
  - intros k v [[= -> ->]|Hin]%elem_of_cons; eauto.
  - intros k Hk. rewrite chain_values_cons. unfold push_spec. rewrite <- Hk in El.
    rewrite (H2 k l El). destruct (decide (key = k)) as [->|]; [by rewrite decide_True|].
    by rewrite decide_False by congruence.
  - intros k Hk. unfold push_spec. rewrite decide_False; [done|by intros ->].
Qed.

Lemma chain_remove_incl {V} (l : list (cstr * V)) key kv : kv ∈ chain_remove l key -> kv ∈ l.
Proof. induction l as [|[k v] l IH]; simpl; [done|]. case_match; set_solver. Qed.

Lemma dict_remove_represents d f key :
  represents d f ->
  exists d', nv_dict_remove d key = Ret d' /\ represents d' (pop_spec f key).
Proof.
  intros Hr. destruct (dict_bucket_access d f key Hr) as [l El]. unfold nv_dict_remove. rewrite El. simpl.
  eexists. split; [done|]. pose proof Hr as [_ H1 H2]. apply (dict_represents_bucket d f); auto.
  - intros k v Hin%chain_remove_incl. eauto.
  - intros k Hk. rewrite chain_remove_values. unfold pop_spec.
    rewrite (H2 key l El). rewrite <- Hk in El. by rewrite (H2 k l El).
  - intros k Hk. unfold pop_spec. rewrite decide_False; [done|by intros ->].
Qed.

Lemma is_empty_spec d f :
  represents d f -> nv_dict_is_empty d = true <-> forall k, f k = [].
Proof.
  intros Hr. pose proof Hr as [Hl H1 H2]. unfold nv_dict_is_empty. rewrite forallb_forall. split.
  - intros He k. destruct (dict_bucket_access d f k Hr) as [l El].
    pose proof (list_elem_of_lookup_2 _ _ _ El) as Hin. apply list_elem_of_In, He in Hin.
    destruct l; [|done]. by rewrite <- (H2 k [] El).
  - intros Hf l Hin. apply list_elem_of_In, list_elem_of_lookup in Hin as [i Ei].
    destruct l as [|[k v] l]; [done|].
    pose proof (H1 i _ k v Ei ltac:(set_solver)) as <-. pose proof (H2 k _ Ei) as Hk.
    rewrite Hf, chain_values_cons, decide_True in Hk by done. done.
Qed.

Lemma dict_init_represents : represents nv_dict_init (fun _ => []).
Proof.
  assert (forall i l, buckets nv_dict_init !! i = Some l -> l = []) as Hr.
  { intros i l E. apply list_elem_of_lookup_2, list_elem_of_In in E.
    change (List.In l (repeat [] (Z.to_nat TABLE_SIZE))) in E. by apply repeat_spec in E. }
  split.
  - reflexivity.
  - intros i l k v ->%Hr. set_solver.
  - intros k l ->%Hr. done.
Qed.

Inductive op := Insert (key : cstr) (value : Z) | Remove (key : cstr).
Definition run_op (d : nv_dict_t) (o : op) : outcome nv_dict_t :=
  match o with Insert k v => nv_dict_insert d k v | Remove k => nv_dict_remove d k end.
Definition spec_op (f : spec) (o : op) : spec :=
  match o with Insert k v => push_spec f k v | Remove k => pop_spec f k end.
Fixpoint run_ops (d : nv_dict_t) (os : list op) : outcome nv_dict_t :=
  match os with [] => Ret d | o :: os' => d ← run_op d o; run_ops d os' end.

Lemma dict_run_ops_represents os d f :
  represents d f -> exists d', run_ops d os = Ret d' /\ represents d' (fold_left spec_op os f).
Proof.
  revert d f. induction os as [|o os IH]; intros d f Hr; simpl; [by exists d|].
  assert (exists d', run_op d o = Ret d' /\ represents d' (spec_op f o)) as (d' & -> & Hr').
  { destruct o; [by apply dict_insert_represents|by apply dict_remove_represents]. }
  by apply IH.
Qed.

(** Refinement.  After any sequence of insertions and removals the
    dictionary holds, for every key, the stack of the values inserted and not yet
    removed: a lookup gives the newest one or NULL, an insertion hides the older
    value instead of replacing it, a removal uncovers it, and the emptiness test
    is exact. *)
Theorem nv_dict_refines_stacks (os : list op) (key : cstr) :
  exists d, run_ops nv_dict_init os = Ret d /\
    nv_dict_lookup d key = Ret (default 0 (head (fold_left spec_op os (fun _ => []) key))) /\
    (nv_dict_is_empty d = true <-> forall k, fold_left spec_op os (fun _ => []) k = []).
Proof.
  destruct (dict_run_ops_represents os _ _ dict_init_represents) as (d & E & Hr).
  exists d. split; [done|]. split; [|by apply is_empty_spec].
  unfold nv_dict_lookup. destruct (dict_bucket_access d _ key Hr) as [l El]. rewrite El. simpl.
  by rewrite chain_find_values, (dr_values _ _ Hr key l El).
Qed.

End Dict.

(** ** The set of strings *)
Module StrSet.

Record nv_set_t := mkSet { head_list : list cstr; set_size : Z }.

Definition nv_set_init : nv_set_t := mkSet [] 0.

Definition nv_set_contains (s : nv_set_t) (data : cstr) : bool :=
  existsb (fun d => strcmp_eq d data) (head_list s).

Definition nv_set_add (s : nv_set_t) (data : cstr) : outcome nv_set_t :=
  if nv_set_contains s data then Ret s else
  n ← int_chk (set_size s + 1);
  Ret (mkSet (data :: head_list s) n).

Fixpoint unlink (l : list cstr) (data : cstr) : option (list cstr) :=
  match l with
  | [] => None
  | d :: l' =>
      if strcmp_eq d data then Some l'
      else match unlink l' data with Some l'' => Some (d :: l'') | None => None end
  end.
Definition nv_set_remove (s : nv_set_t) (data : cstr) : outcome nv_set_t :=
  match unlink (head_list s) data with
  | Some l => n ← int_chk (set_size s - 1); Ret (mkSet l n)
  | None => Ret s
  end.
Definition nv_set_size (s : nv_set_t) : Z := set_size s.

Definition represents (s : nv_set_t) (m : gset cstr) : Prop :=
  NoDup (head_list s) /\ m = list_to_set (head_list s) /\
  set_size s = Z.of_nat (length (head_list s)).

Lemma contains_spec s m data : represents s m -> nv_set_contains s data = bool_decide (data ∈ m).
Proof.
  intros (_ & -> & _). unfold nv_set_contains. apply eq_bool_prop_intro.
  rewrite bool_decide_spec, Is_true_true, existsb_exists, elem_of_list_to_set, list_elem_of_In.
  split; [intros (x & Hx & ->%strcmp_eq_true); done|intros Hx; exists data; by rewrite strcmp_eq_true].
Qed.

Lemma set_unlink_spec l data :
  NoDup l ->
  match unlink l data with
  | Some l' => data ∈ l /\ ~ (data ∈ l') /\ l ≡ₚ data :: l'
  | None => data ∉ l
  end.
Proof.
  induction l as [|d l IH]; simpl; intros Hn; [set_solver|].
  apply NoDup_cons in Hn as [Hd Hn]. unfold strcmp_eq. case_bool_decide as E.
  - subst. set_solver.
  - specialize (IH Hn). destruct (unlink l data) as [l'|].
    + destruct IH as (H1 & H2 & H3). split_and!; [set_solver|set_solver|].
      rewrite H3. apply Permutation_swap.
    + set_solver.
Qed.

Lemma add_represents s m data :
  represents s m -> set_size s < INT_MAX ->
  exists s', nv_set_add s data = Ret s' /\ represents s' ({[data]} ∪ m).
Proof.
  intros Hr Hs. pose proof Hr as (Hn & Hm & Hz). unfold nv_set_add.
  rewrite (contains_spec s m data Hr). case_bool_decide as Hin.
  - exists s. split; [done|]. split_and!; auto. set_solver.
  - unfold int_chk. destruct (Z.leb_spec INT_MIN (set_size s + 1)) as [_|Hb]; [|unfold INT_MIN in Hb; lia].
    destruct (Z.leb_spec (set_size s + 1) INT_MAX); [|lia]. simpl. eexists. split; [done|].
    split_and!; simpl; [|set_solver|lia]. constructor; [|done]. set_solver.
Qed.

Lemma set_remove_represents s m data :
  represents s m -> set_size s <= INT_MAX ->
  exists s', nv_set_remove s data = Ret s' /\ represents s' (m ∖ {[data]}).
Proof.
  intros (Hn & Hm & Hz) Hs. unfold nv_set_remove. pose proof (set_unlink_spec (head_list s) data Hn) as Hu.
  destruct (unlink (head_list s) data) as [l|].
  - destruct Hu as (H1 & H2 & H3). assert (length (head_list s) = S (length l)) as Hlen by (by rewrite H3).
    unfold int_chk. destruct (Z.leb_spec INT_MIN (set_size s - 1)) as [_|Hb]; [|unfold INT_MIN in Hb; lia].
    destruct (Z.leb_spec (set_size s - 1) INT_MAX); [|lia]. simpl. eexists. split; [done|].
    split_and!; simpl; [|apply leibniz_equiv; rewrite Hm, H3; set_solver|lia]. rewrite H3 in Hn. by apply NoDup_cons in Hn as [_ ?].
  - exists s. split; [done|]. split_and!; auto. set_solver.
Qed.

Inductive op := Add (data : cstr) | Remove (data : cstr).
Definition run_op (s : nv_set_t) (o : op) : outcome nv_set_t :=
  match o with Add d => nv_set_add s d | Remove d => nv_set_remove s d end.
Definition spec_op (m : gset cstr) (o : op) : gset cstr :=
  match o with Add d => {[d]} ∪ m | Remove d => m ∖ {[d]} end.
Fixpoint run_ops (s : nv_set_t) (os : list op) : outcome nv_set_t :=
  match os with [] => Ret s | o :: os' => s ← run_op s o; run_ops s os' end.

Lemma size_represents s m : represents s m -> set_size s = Z.of_nat (base.size m).
Proof. intros (Hn & -> & ->). by rewrite size_list_to_set. Qed.

Lemma spec_op_size m o : (base.size (spec_op m o) <= S (base.size m))%nat.
Proof.
  destruct o as [d|d]; simpl.
  - pose proof (size_union_alt {[d]} m) as ->. rewrite size_singleton.
    pose proof (subseteq_size (m ∖ {[d]}) m ltac:(set_solver)). lia.
  - pose proof (subseteq_size (m ∖ {[d]}) m ltac:(set_solver)). lia.
Qed.

Lemma set_run_ops_represents os s m :
  represents s m -> Z.of_nat (base.size m + length os) <= INT_MAX ->
  exists s', run_ops s os = Ret s' /\ represents s' (fold_left spec_op os m).
Proof.
  revert s m. induction os as [|o os IH]; intros s m Hr Hb; simpl; [by exists s|]. simpl in Hb.
  pose proof (size_represents s m Hr) as Hs.
  assert (exists s', run_op s o = Ret s' /\ represents s' (spec_op m o)) as (s' & -> & Hr').
  { destruct o; [apply add_represents|apply set_remove_represents]; auto; lia. }
  apply IH; [done|]. pose proof (spec_op_size m o). lia.
Qed.

(** Refinement.  After fewer than 2^31 insertions and removals the linked
    list is a set: it has no duplicates, membership is exact and [nv_set_size]
    is the number of elements. *)
Theorem nv_set_refines_set (os : list op) (data : cstr) :
  Z.of_nat (length os) <= INT_MAX ->
  exists s, run_ops nv_set_init os = Ret s /\
    nv_set_contains s data = bool_decide (data ∈ fold_left spec_op os ∅) /\
    nv_set_size s = Z.of_nat (base.size (fold_left spec_op os (∅ : gset cstr))).
Proof.
  intros Hb. destruct (set_run_ops_represents os nv_set_init ∅) as (s & E & Hr); [|done|].
  { split_and!; [constructor|done|done]. }
  exists s. split_and!; [done|by apply contains_spec|by apply size_represents].
Qed.

Lemma nv_set_refines_set_witness :
  exists s, run_ops nv_set_init [Add (str "a"); Add (str "b"); Add (str "a"); Remove (str "a")] = Ret s /\
    nv_set_contains s (str "b") = true /\ nv_set_size s = 1.
Proof.
  destruct (nv_set_refines_set [Add (str "a"); Add (str "b"); Add (str "a"); Remove (str "a")] (str "b"))
    as (s & E & C & N); [vm_compute; congruence|].
  exists s. split; [exact E|]. rewrite C, N. split; vm_compute; reflexivity.
Defined.

End StrSet.

(** ** The graph as adjacency lists *)
Module Graph.

Record nv_vertex_t := mkVertex { id : Z; edges : list Z }.
Abbreviation nv_graph_t := (list nv_vertex_t).

Definition nv_graph_init : nv_graph_t := [].

Definition nv_graph_add_vertex (graph : nv_graph_t) (i : Z) : nv_graph_t := mkVertex i [] :: graph.

(** Apply [f] to the edges of the first vertex with the identifier. *)
Fixpoint on_vertex (graph : nv_graph_t) (src : Z) (f : list Z -> list Z) : nv_graph_t :=
  match graph with
  | [] => []
  | v :: graph' =>
      if id v =? src then mkVertex (id v) (f (edges v)) :: graph'
      else v :: on_vertex graph' src f
  end.

Definition nv_graph_add_edge (graph : nv_graph_t) (src dest : Z) : nv_graph_t :=
  on_vertex graph src (fun es => dest :: es).

Fixpoint nv_graph_remove_vertex (graph : nv_graph_t) (i : Z) : nv_graph_t :=
  match graph with
  | [] => []
  | v :: graph' => if id v =? i then graph' else v :: nv_graph_remove_vertex graph' i
  end.

Fixpoint remove_first (es : list Z) (dest : Z) : list Z :=
  match es with
  | [] => []
  | e :: es' => if e =? dest then es' else e :: remove_first es' dest
  end.
Definition nv_graph_remove_edge (graph : nv_graph_t) (src dest : Z) : nv_graph_t :=
  on_vertex graph src (fun es => remove_first es dest).

(** The visits of the traversal, in order: a vertex, then its edges. *)
Inductive visit := Vertex (i : Z) | Edge (dest : Z).
Definition nv_graph_traverse (graph : nv_graph_t) : list visit :=
  concat (map (fun v => Vertex (id v) :: map Edge (edges v)) graph).

(** The edges of a vertex, as a client sees them. *)
Definition edges_of (graph : nv_graph_t) (i : Z) : option (list Z) :=
  edges <$> head (filter (fun v => id v = i) graph).

Lemma edges_of_cons v graph i :
  edges_of (v :: graph) i = if decide (id v = i) then Some (edges v) else edges_of graph i.
Proof. unfold edges_of. rewrite filter_cons. by case_decide. Qed.

Lemma on_vertex_edges graph src f i :
  edges_of (on_vertex graph src f) i =
    if decide (i = src) then f <$> edges_of graph src else edges_of graph i.
Proof.
  induction graph as [|v graph IH]; [by case_decide|]. cbn [on_vertex].
  rewrite !(edges_of_cons v). destruct (Z.eqb_spec (id v) src) as [E|E]; rewrite edges_of_cons; simpl id.
  - destruct (decide (i = src)) as [->|].
    + by rewrite !decide_True.
    + by rewrite !(decide_False (P := id v = i)) by congruence.
  - rewrite IH, (decide_False (P := id v = src)) by done.
    destruct (decide (i = src)) as [->|]; [by rewrite decide_False|done].
Qed.

Lemma on_vertex_comp graph src f g :
  on_vertex (on_vertex graph src f) src g = on_vertex graph src (fun es => g (f es)).
Proof.
  induction graph as [|v graph IH]; [done|]. cbn [on_vertex]. destruct (id v =? src) eqn:E; simpl.
  - by rewrite E.
  - by rewrite E, IH.
Qed.

Lemma on_vertex_id graph src : on_vertex graph src (fun es => es) = graph.
Proof.
  induction graph as [|[i es] graph IH]; [done|]. cbn [on_vertex id edges].
  destruct (i =? src); [done|by rewrite IH].
Qed.

(** Graph edits.  Adding an edge changes the edges of its source vertex
    only (and nothing when there is no such vertex), and removing what was just
    added, edge or vertex, restores the graph exactly. *)
Theorem nv_graph_edits (graph : nv_graph_t) (src dest i : Z) :
  edges_of (nv_graph_add_edge graph src dest) i =
    (if decide (i = src) then cons dest <$> edges_of graph src else edges_of graph i) /\
  edges_of (nv_graph_remove_edge graph src dest) i =
    (if decide (i = src) then (fun es => remove_first es dest) <$> edges_of graph src
     else edges_of graph i) /\
  nv_graph_remove_edge (nv_graph_add_edge graph src dest) src dest = graph /\
  nv_graph_remove_vertex (nv_graph_add_vertex graph i) i = graph.
Proof.
  split_and!; [apply on_vertex_edges..| |].
  - unfold nv_graph_remove_edge, nv_graph_add_edge. rewrite on_vertex_comp.
    rewrite <- (on_vertex_id graph src) at 2. f_equal. simpl. by rewrite Z.eqb_refl.
  - simpl. by rewrite Z.eqb_refl.
Qed.

End Graph.
