(* ===== verification/Chains.v ===== *)
(** * Linked lists in memory: stack, queue and doubly linked list
      (base/data/nv_stack.c, nv_queue.c, nv_list.c)

    Nodes live in a heap, a finite map from addresses to nodes, 0 is NULL, and
    reading through an address that is not allocated is undefined behaviour.
    The result of [malloc] is an argument: an address outside the heap, or
    NULL, which the stack and the queue do not check. *)
From S2P Require Import Prelude.

(** ** Singly linked nodes *)
Record node := mkNode { data : Z; next : Z }.
Definition NULL : Z := 0.

(** [chain hp p addrs l]: from [p], the nodes at [addrs] hold the values [l]. *)
Fixpoint chain (hp : gmap Z node) (p : Z) (addrs l : list Z) : Prop :=
  match addrs, l with
  | [], [] => p = NULL
  | a :: addrs', x :: l' =>
      p = a /\ a <> NULL /\ exists n, hp !! a = Some (mkNode x n) /\ chain hp n addrs' l'
  | _, _ => False
  end.

Lemma chain_length hp p addrs l : chain hp p addrs l -> length addrs = length l.
Proof.
  revert p l. induction addrs as [|a addrs IH]; intros p [|x l]; simpl; try done.
  intros (_ & _ & n & _ & Hc). f_equal. eauto.
Qed.

Lemma chain_frame hp p addrs l a nd :
  chain hp p addrs l -> ~ (a ∈ addrs) -> chain (<[a := nd]> hp) p addrs l.
Proof.
  revert p l. induction addrs as [|b addrs IH]; intros p [|x l]; simpl; try done.
  intros (-> & Hb & n & E & Hc) Ha. split_and!; auto. exists n. split; [|apply IH; set_solver].
  rewrite lookup_insert_ne; [done|set_solver].
Qed.

Lemma chain_free hp p addrs l a :
  chain hp p addrs l -> ~ (a ∈ addrs) -> chain (delete a hp) p addrs l.
Proof.
  revert p l. induction addrs as [|b addrs IH]; intros p [|x l]; simpl; try done.
  intros (-> & Hb & n & E & Hc) Ha. split_and!; auto. exists n. split; [|apply IH; set_solver].
  rewrite lookup_delete_ne; [done|set_solver].
Qed.

Lemma chain_live hp p addrs l a : chain hp p addrs l -> a ∈ addrs -> is_Some (hp !! a).
Proof.
  revert p l. induction addrs as [|b addrs IH]; intros p [|x l] Hc Ha; simpl in Hc; try done.
  - by apply not_elem_of_nil in Ha.
  - destruct Hc as (-> & Hb & n & E & Hc). apply elem_of_cons in Ha as [->|Ha]; [by eexists|eauto].
Qed.

(** Linking a new last node. *)
Lemma chain_snoc hp p addrs l a x new y :
  chain hp p (addrs ++ [a]) (l ++ [x]) -> NoDup (addrs ++ [a]) ->
  ~ (new ∈ addrs ++ [a]) -> new <> NULL ->
  chain (<[a := mkNode x new]> (<[new := mkNode y NULL]> hp)) p (addrs ++ [a; new]) (l ++ [x; y]).
Proof.
  revert p l. induction addrs as [|b addrs IH]; intros p [|z l] Hc Hnd Hnew H0;
    pose proof (chain_length _ _ _ _ Hc) as Hlen; rewrite !length_app in Hlen; simpl in *.
  - destruct Hc as (-> & Ha & n & E & _). split_and!; auto. exists new. split; [by rewrite lookup_insert_eq|].
    split_and!; auto. exists NULL. split; [|done].
    rewrite lookup_insert_ne by set_solver. by rewrite lookup_insert_eq.
  - lia.
  - lia.
  - destruct Hc as (-> & Hb & n & E & Hc). apply NoDup_cons in Hnd as [Hb' Hnd].
    split_and!; auto. exists n. split; [|apply IH; set_solver].
    rewrite !lookup_insert_ne; [done|set_solver..].
Qed.

(** ** The stack *)
Module Stack.

Definition nv_stack_t := Z.     (* the [top] pointer *)
Definition nv_stack_init : nv_stack_t := NULL.

Definition nv_stack_push (hp : gmap Z node) (top : nv_stack_t) (new : Z) (x : Z) :
    outcome (gmap Z node * nv_stack_t) :=
  if new =? NULL then UB else Ret (<[new := mkNode x top]> hp, new).

Definition nv_stack_pop (hp : gmap Z node) (top : nv_stack_t) :
    outcome (Z * (gmap Z node * nv_stack_t)) :=
  if top =? NULL then Ret (NULL, (hp, top)) else
  temp ← deref (hp !! top);
  Ret (data temp, (delete top hp, next temp)).

Definition nv_stack_is_empty (top : nv_stack_t) : bool := top =? NULL.

Definition represents (hp : gmap Z node) (top : Z) (l : list Z) : Prop :=
  exists addrs, chain hp top addrs l /\ NoDup addrs.

(** Stack.  Over any heap that holds the stack [l]: pushing succeeds and
    holds [x :: l], popping that returns [x], frees its node and leaves the heap
    and the stack of before; an empty stack pops NULL and only the empty one is
    reported empty. *)
Theorem nv_stack_lifo (hp : gmap Z node) (top new x : Z) (l : list Z) :
  represents hp top l -> new <> NULL -> hp !! new = None ->
  exists hp' top', nv_stack_push hp top new x = Ret (hp', top') /\ represents hp' top' (x :: l) /\
    nv_stack_pop hp' top' = Ret (x, (hp, top)) /\ nv_stack_is_empty top' = false /\
    (nv_stack_is_empty top = true <-> l = []) /\ nv_stack_pop hp nv_stack_init = Ret (NULL, (hp, NULL)).
Proof.
  intros (addrs & Hc & Hnd) Hnew Hfree. unfold nv_stack_push, nv_stack_pop, nv_stack_is_empty.
  assert (~ (new ∈ addrs)) as Hni by (intros Hin; eapply chain_live in Hin as [? ?]; [|done]; congruence).
  destruct (Z.eqb_spec new NULL) as [|_]; [done|]. eexists _, _. split_and!; [done| | |by apply Z.eqb_neq| |done].
  - exists (new :: addrs). split; [|by constructor]. simpl. split_and!; auto. exists top.
    split; [by rewrite lookup_insert_eq|by apply chain_frame].
  - destruct (Z.eqb_spec new NULL); [done|]. rewrite lookup_insert_eq. simpl. rewrite delete_insert_id by done. done.
  - rewrite Z.eqb_eq. destruct addrs as [|a addrs], l as [|y l]; simpl in Hc; try done.
    destruct Hc as (-> & Ha & _). done.
Qed.

Lemma nv_stack_lifo_witness :
  exists hp' top', nv_stack_push (<[8 := mkNode 5 0]> ∅) 8 16 7 = Ret (hp', top') /\
    nv_stack_pop hp' top' = Ret (7, (<[8 := mkNode 5 0]> ∅, 8)).
Proof.
  destruct (nv_stack_lifo (<[8 := mkNode 5 0]> ∅) 8 16 7 [5]) as (hp' & top' & E1 & _ & E2 & _).
  - exists [8]. split; [|apply NoDup_singleton]. split; [done|]. split; [done|]. by exists 0.
  - done.
  - done.
  - exists hp', top'. split; [exact E1|exact E2].
Defined.

End Stack.

(** ** The queue *)
Module Queue.

Record nv_queue_t := mkQueue { front : Z; rear : Z }.
Definition nv_queue_init : nv_queue_t := mkQueue NULL NULL.

Definition nv_queue_enqueue (hp : gmap Z node) (q : nv_queue_t) (new : Z) (x : Z) :
    outcome (gmap Z node * nv_queue_t) :=
  if new =? NULL then UB else
  let hp := <[new := mkNode x NULL]> hp in
  if rear q =? NULL then Ret (hp, mkQueue new new)
  else
    r ← deref (hp !! rear q);
    Ret (<[rear q := mkNode (data r) new]> hp, mkQueue (front q) new).

Definition nv_queue_dequeue (hp : gmap Z node) (q : nv_queue_t) :
    outcome (Z * (gmap Z node * nv_queue_t)) :=
  if front q =? NULL then Ret (NULL, (hp, q)) else
  temp ← deref (hp !! front q);
  let f := next temp in
  Ret (data temp, (delete (front q) hp, mkQueue f (if f =? NULL then NULL else rear q))).

Definition nv_queue_is_empty (q : nv_queue_t) : bool := front q =? NULL.

(** [rear] is the last node. *)
Definition represents (hp : gmap Z node) (q : nv_queue_t) (l : list Z) : Prop :=
  exists addrs, chain hp (front q) addrs l /\ NoDup addrs /\ rear q = default NULL (last addrs).

Lemma queue_init_represents hp : represents hp nv_queue_init [].
Proof. exists []. split_and!; [done|constructor|done]. Qed.

Lemma enqueue_represents hp q new x l :
  represents hp q l -> new <> NULL -> hp !! new = None ->
  exists hp' q', nv_queue_enqueue hp q new x = Ret (hp', q') /\ represents hp' q' (l ++ [x]).
Proof.
  intros (addrs & Hc & Hnd & Hr) Hnew Hfree. unfold nv_queue_enqueue.
  assert (~ (new ∈ addrs)) as Hni by (intros Hin; eapply chain_live in Hin as [? ?]; [|done]; congruence).
  destruct (Z.eqb_spec new NULL) as [|_]; [done|].
  destruct addrs as [|a addrs' _] using rev_ind.
  - destruct l; [|done]. rewrite Hr. simpl. eexists _, _. split; [done|]. exists [new].
    split_and!; [|apply NoDup_singleton|done]. simpl. split_and!; auto. exists NULL.
    split; [by rewrite lookup_insert_eq|done].
  - rewrite last_snoc in Hr. simpl in Hr. pose proof (chain_length _ _ _ _ Hc) as Hlen.
    destruct l as [|y l' _] using rev_ind; [rewrite length_app in Hlen; simpl in Hlen; lia|].
    assert (hp !! a = Some (mkNode y NULL) /\ a <> NULL) as [Ea Ha0].
    { clear -Hc Hlen. rewrite !length_app in Hlen. revert Hc. generalize (front q) as p. revert l' Hlen.
      induction addrs' as [|b addrs' IH]; intros [|z l'] Hlen p Hc; simpl in *; try lia.
      - destruct Hc as (-> & ? & n & ? & ->). done.
      - destruct Hc as (_ & _ & n & _ & Hc). eapply IH; [|exact Hc]. lia. }
    rewrite Hr. destruct (Z.eqb_spec a NULL) as [|_]; [done|].
    rewrite lookup_insert_ne by congruence. rewrite Ea. simpl. eexists _, _. split; [done|].
    exists (addrs' ++ [a; new]). simpl. rewrite <- !app_assoc. simpl.
    split_and!; [by apply chain_snoc| |by rewrite (last_app_cons _ [new] a)].
    change [a; new] with ([a] ++ [new]). rewrite app_assoc. apply NoDup_app. split_and!; [done|set_solver|apply NoDup_singleton].
Qed.

Lemma dequeue_represents hp q x l :
  represents hp q (x :: l) ->
  exists hp' q', nv_queue_dequeue hp q = Ret (x, (hp', q')) /\ represents hp' q' l /\
    hp' = delete (front q) hp.
Proof.
  intros ([|a addrs] & Hc & Hnd & Hr); [done|]. destruct Hc as (Hf & Ha & n & E & Hc).
  apply NoDup_cons in Hnd as [Hna Hnd]. unfold nv_queue_dequeue. rewrite Hf.
  destruct (Z.eqb_spec a NULL) as [|_]; [done|]. rewrite E. simpl. eexists _, _. split_and!; [done| |done].
  exists addrs. split_and!; [by apply chain_free|done|]. simpl.
  destruct addrs as [|b addrs], l as [|y l]; simpl in Hc; try done.
  - by rewrite Hc.
  - destruct Hc as (-> & Hb & _). destruct (Z.eqb_spec b NULL); [done|]. by rewrite Hr.
Qed.

(** A client's operations: each enqueue names the address [malloc] returns. *)
Inductive op := Enqueue (new x : Z) | Dequeue.
Fixpoint run_ops (hp : gmap Z node) (q : nv_queue_t) (os : list op) : outcome (list Z * (gmap Z node * nv_queue_t)) :=
  match os with
  | [] => Ret ([], (hp, q))
  | Enqueue new x :: os' => '(hp, q) ← nv_queue_enqueue hp q new x; run_ops hp q os'
  | Dequeue :: os' =>
      '(x, (hp, q)) ← nv_queue_dequeue hp q;
      '(out, s) ← run_ops hp q os';
      Ret (x :: out, s)
  end.
(** The same on an abstract list: an empty queue gives NULL. *)
Fixpoint spec_ops (l : list Z) (os : list op) : list Z * list Z :=
  match os with
  | [] => ([], l)
  | Enqueue _ x :: os' => spec_ops (l ++ [x]) os'
  | Dequeue :: os' =>
      let '(out, l') := spec_ops (tail l) os' in (default NULL (head l) :: out, l')
  end.
(** [malloc] returns non-NULL addresses that are not allocated. *)
Fixpoint fresh_ops (hp : gmap Z node) (q : nv_queue_t) (os : list op) : Prop :=
  match os with
  | [] => True
  | Enqueue new x :: os' =>
      new <> NULL /\ hp !! new = None /\
      match nv_queue_enqueue hp q new x with Ret (hp, q) => fresh_ops hp q os' | _ => True end
  | Dequeue :: os' =>
      match nv_queue_dequeue hp q with Ret (_, (hp, q)) => fresh_ops hp q os' | _ => True end
  end.

Lemma run_ops_refines os hp q l :
  represents hp q l -> fresh_ops hp q os ->
  exists hp' q', run_ops hp q os = Ret (fst (spec_ops l os), (hp', q')) /\
    represents hp' q' (snd (spec_ops l os)).
Proof.
  revert hp q l. induction os as [|[new x|] os IH]; intros hp q l Hr Hf; simpl.
  - by exists hp, q.
  - simpl in Hf. destruct Hf as (Hnew & Hfree & Hf).
    destruct (enqueue_represents hp q new x l Hr Hnew Hfree) as (hp1 & q1 & E & Hr1).
    rewrite E in *. simpl. by apply IH.
  - simpl in Hf. destruct l as [|y l].
    + assert (nv_queue_dequeue hp q = Ret (NULL, (hp, q))) as E.
      { destruct Hr as ([|] & Hc & _); [|done]. unfold nv_queue_dequeue. simpl in Hc. by rewrite Hc. }
      rewrite E in *. simpl. destruct (IH hp q [] Hr Hf) as (hp2 & q2 & -> & Hr2). simpl.
      destruct (spec_ops [] os) as [out l']. eauto.
    + destruct (dequeue_represents hp q y l Hr) as (hp1 & q1 & E & Hr1 & _).
      rewrite E in *. simpl. destruct (IH hp1 q1 l Hr1 Hf) as (hp2 & q2 & -> & Hr2). simpl.
      destruct (spec_ops l os) as [out l']. eauto.
Qed.

(** Queue.  Any sequence of operations from the empty queue, with
    [malloc] returning fresh addresses, runs without touching freed or foreign
    memory and returns exactly what a first-in first-out list returns (NULL
    when it is empty); the rear pointer always is the last node. *)
Theorem nv_queue_fifo (os : list op) :
  fresh_ops ∅ nv_queue_init os ->
  exists hp q, run_ops ∅ nv_queue_init os = Ret (fst (spec_ops [] os), (hp, q)) /\
    represents hp q (snd (spec_ops [] os)) /\
    (nv_queue_is_empty q = true <-> snd (spec_ops [] os) = []).
Proof.
  intros Hf. destruct (run_ops_refines os ∅ nv_queue_init [] (queue_init_represents ∅) Hf) as (hp & q & E & Hr).
  exists hp, q. split_and!; [done|done|]. destruct Hr as (addrs & Hc & _).
  unfold nv_queue_is_empty. rewrite Z.eqb_eq.
  destruct addrs as [|a addrs], (snd (spec_ops [] os)); simpl in Hc; try done.
  destruct Hc as (-> & ? & _). done.
Qed.

(** Node addresses are reused after they are freed. *)
Lemma nv_queue_fifo_witness :
  exists hp q, run_ops ∅ nv_queue_init
      [Enqueue 16 1; Enqueue 32 2; Dequeue; Enqueue 16 3; Dequeue; Dequeue; Dequeue] =
    Ret ([1; 2; 3; 0], (hp, q)).
Proof.
  destruct (nv_queue_fifo [Enqueue 16 1; Enqueue 32 2; Dequeue; Enqueue 16 3; Dequeue; Dequeue; Dequeue])
    as (hp & q & E & _); [vm_compute; intuition congruence|]. exists hp, q. exact E.
Defined.

End Queue.
