(* ===== verification/DLinks.v ===== *)
(** * Doubly linked lists in memory

    What base/data/nv_list.c and the timer and idle lists of event/nv_loop.c
    share: nodes with [prev] and [next] pointers in a heap (0 is NULL), the
    shape predicate of a well-formed list and the two edits, pushing a node at
    the head and unlinking one.  A node type is any type with the two links
    ([Linked]); the edits change nothing else of a node. *)
From S2P Require Import Prelude.

Class Linked (N : Type) := {
  prev : N -> Z;
  next : N -> Z;
  set_prev : Z -> N -> N;
  set_next : Z -> N -> N;
  prev_set_prev p n : prev (set_prev p n) = p;
  next_set_prev p n : next (set_prev p n) = next n;
  prev_set_next p n : prev (set_next p n) = prev n;
  next_set_next p n : next (set_next p n) = p;
}.
Create Rewrite HintDb links.
#[export] Hint Rewrite @prev_set_prev @next_set_prev @prev_set_next @next_set_next : links.

Definition NULL : Z := 0.

Section lists.
Context {N : Type} `{Linked N}.
Implicit Types (hp : gmap Z N) (addrs : list Z) (a p q : Z) (n : N).

(** A write through a pointer. *)
Definition store (f : N -> N) a hp : outcome (gmap Z N) :=
  n ← deref (hp !! a);
  Ret (<[a := f n]> hp).

(** A write that a NULL test guards. *)
Definition store_if (f : N -> N) a hp : outcome (gmap Z N) :=
  if a =? NULL then Ret hp else store f a hp.

(** [ev->next = *head; ev->prev = NULL; if ( *head) ( *head)->prev = ev; *head = ev] *)
Definition push hp (head : Z) a : outcome (gmap Z N * Z) :=
  hp ← store (fun n => set_prev NULL (set_next head n)) a hp;
  hp ← store_if (set_prev a) head hp;
  Ret (hp, a).

(** Unlink a node: its neighbours are joined, its own links become NULL. *)
Definition unlink hp (head : Z) a : outcome (gmap Z N * Z) :=
  n ← deref (hp !! a);
  hp ← store_if (set_next (next n)) (prev n) hp;
  let head := if prev n =? NULL then next n else head in
  hp ← store_if (set_prev (prev n)) (next n) hp;
  hp ← store (fun n => set_prev NULL (set_next NULL n)) a hp;
  Ret (hp, head).

(** From [p], whose predecessor is [pr], the nodes at [addrs] lead to [q]; the last
    one is [lst]. *)
Fixpoint dseg hp (pr p : Z) addrs (q lst : Z) : Prop :=
  match addrs with
  | [] => p = q /\ pr = lst
  | a :: addrs' =>
      p = a /\ a <> NULL /\ exists n, hp !! a = Some n /\ prev n = pr /\ dseg hp a (next n) addrs' q lst
  end.

Definition dlist hp (head : Z) addrs : Prop :=
  NoDup addrs /\ exists lst, dseg hp NULL head addrs NULL lst.

Lemma dseg_app hp pr p addrs1 addrs2 q lst :
  dseg hp pr p (addrs1 ++ addrs2) q lst <->
  exists m l, dseg hp pr p addrs1 m l /\ dseg hp l m addrs2 q lst.
Proof.
  revert pr p. induction addrs1 as [|a addrs1 IH]; intros pr p; simpl.
  - split; [eauto|]. intros (m & l & [-> ->] & Hd). done.
  - split.
    + intros (-> & Ha & n & E & Hp & (m & l & H1 & H2)%IH). eauto 10.
    + intros (m & l & (-> & Ha & n & E & Hp & H1) & H2). split_and!; auto.
      exists n. split_and!; auto. apply IH. eauto.
Qed.

(** A segment depends only on its own nodes. *)
Lemma dseg_frame hp hp' pr p addrs q lst :
  dseg hp pr p addrs q lst -> (forall a, a ∈ addrs -> hp' !! a = hp !! a) -> dseg hp' pr p addrs q lst.
Proof.
  revert pr p. induction addrs as [|a addrs IH]; intros pr p; simpl; [done|].
  intros (-> & Ha & n & E & Hp & Hd) Heq. split_and!; auto. exists n.
  rewrite Heq by set_solver. split_and!; auto. apply IH; set_solver.
Qed.

Lemma dseg_nonnull hp pr p addrs q lst a : dseg hp pr p addrs q lst -> a ∈ addrs -> a <> NULL /\ is_Some (hp !! a).
Proof.
  revert pr p. induction addrs as [|b addrs IH]; intros pr p Hd Ha; [by apply not_elem_of_nil in Ha|].
  simpl in Hd. destruct Hd as (-> & Hb & n & E & Hp & Hd). apply elem_of_cons in Ha as [->|Ha]; eauto.
Qed.

Lemma dseg_last hp pr p addrs q lst : dseg hp pr p addrs q lst -> lst = default pr (last addrs).
Proof.
  revert pr p. induction addrs as [|a addrs IH]; intros pr p; simpl; [by intros [_ ->]|].
  intros (-> & _ & n & _ & _ & Hd). apply IH in Hd. rewrite Hd, last_cons.
  by destruct (last addrs).
Qed.

Lemma dseg_last_in hp pr p addrs q lst : dseg hp pr p addrs q lst -> addrs <> [] -> lst ∈ addrs.
Proof.
  intros ->%dseg_last Hne. destruct (last addrs) as [c|] eqn:Ec; [|by apply last_None in Ec].
  by apply last_Some_elem_of.
Qed.

(** Redirect the end of a segment: the last node's [next]. *)
Lemma dseg_set_end hp pr p addrs q lst q' :
  dseg hp pr p addrs q lst -> NoDup addrs -> addrs <> [] ->
  exists n, hp !! lst = Some n /\ next n = q /\ dseg (<[lst := set_next q' n]> hp) pr p addrs q' lst.
Proof.
  revert pr p. induction addrs as [|a addrs IH]; intros pr p Hd Hnd Hne; [done|].
  destruct Hd as (-> & Ha & n & E & Hp & Hd). apply NoDup_cons in Hnd as [Hna Hnd].
  destruct addrs as [|b addrs].
  - destruct Hd as [Hq ->]. exists n. split_and!; auto. simpl. split_and!; auto.
    exists (set_next q' n). autorewrite with links. by rewrite lookup_insert_eq.
  - destruct (IH a (next n)) as (n' & E' & Hq & Hd'); auto.
    exists n'. split_and!; auto. split_and!; auto. exists n.
    rewrite lookup_insert_ne; [done|]. intros ->.
    apply Hna. by eapply dseg_last_in.
Qed.

(** Redirect the start of a segment: the first node's [prev]. *)
Lemma dseg_set_begin hp pr p addrs q lst pr' :
  dseg hp pr p addrs q lst -> NoDup addrs -> addrs <> [] ->
  exists n, hp !! p = Some n /\ p ∈ addrs /\ dseg (<[p := set_prev pr' n]> hp) pr' p addrs q lst.
Proof.
  destruct addrs as [|a addrs]; [done|]. intros (-> & Ha & n & E & Hp & Hd) [Hna Hnd]%NoDup_cons _.
  exists n. split_and!; [done|set_solver|]. split_and!; auto. exists (set_prev pr' n).
  autorewrite with links. rewrite lookup_insert_eq. split_and!; auto.
  eapply dseg_frame; [done|]. intros b Hb. rewrite lookup_insert_ne; [done|set_solver].
Qed.

Lemma store_eq f a hp n : hp !! a = Some n -> store f a hp = Ret (<[a := f n]> hp).
Proof. intros E. unfold store. by rewrite E. Qed.

Lemma store_if_eq f a hp n :
  a <> NULL -> hp !! a = Some n -> store_if f a hp = Ret (<[a := f n]> hp).
Proof.
  intros Ha E. unfold store_if, store. destruct (Z.eqb_spec a NULL); [done|]. by rewrite E.
Qed.

Lemma push_spec hp head addrs a n :
  dlist hp head addrs -> ~ (a ∈ addrs) -> a <> NULL -> hp !! a = Some n ->
  exists hp', push hp head a = Ret (hp', a) /\ dlist hp' a (a :: addrs) /\
    (forall x, ~ (x ∈ a :: addrs) -> hp' !! x = hp !! x).
Proof.
  intros [Hnd (lst & Hd)] Hna Ha E. unfold push, store at 1. rewrite E. cbn [deref mbind outcome_bind].
  set (n1 := set_prev NULL (set_next head n)). set (hp1 := <[a := n1]> hp).
  assert (prev n1 = NULL /\ next n1 = head) as [Hp1 Hn1] by (unfold n1; by autorewrite with links).
  assert (dseg hp1 NULL head addrs NULL lst) as Hd1.
  { eapply dseg_frame; [done|]. intros b Hb. unfold hp1. rewrite lookup_insert_ne; [done|set_solver]. }
  destruct (decide (addrs = [])) as [->|Hne].
  - destruct Hd1 as [-> _]. simpl. eexists. split_and!; [done| |].
    + split; [apply NoDup_singleton|]. exists a. split_and!; auto. exists n1.
      unfold hp1. by rewrite lookup_insert_eq.
    + intros x Hx. unfold hp1. rewrite lookup_insert_ne; [done|set_solver].
  - destruct (dseg_set_begin _ _ _ _ _ _ a Hd1 Hnd Hne) as (nh & Eh & Hin & Hd2).
    destruct (dseg_nonnull _ _ _ _ _ _ head Hd1 Hin) as [Hh0 _].
    rewrite (store_if_eq _ _ _ nh) by done. cbn [mbind outcome_bind].
    eexists. split_and!; [done| |].
    + split; [by constructor|]. exists lst. split_and!; auto. exists n1.
      rewrite lookup_insert_ne by set_solver. unfold hp1 at 1. rewrite lookup_insert_eq.
      split_and!; auto. by rewrite Hn1.
    + intros x Hx. unfold hp1. rewrite !lookup_insert_ne; [done|set_solver..].
Qed.

Lemma unlink_spec hp head addrs1 a addrs2 :
  dlist hp head (addrs1 ++ a :: addrs2) ->
  exists hp' head' n', unlink hp head a = Ret (hp', head') /\ dlist hp' head' (addrs1 ++ addrs2) /\
    (forall x, ~ (x ∈ addrs1 ++ a :: addrs2) -> hp' !! x = hp !! x) /\
    hp' !! a = Some n' /\ prev n' = NULL /\ next n' = NULL.
Proof.
  intros [Hnd (lst & Hd)]. apply dseg_app in Hd as (m & la & Hd1 & Hd2).
  destruct Hd2 as (-> & Ha & n & E & Hp & Hd2). subst la.
  apply NoDup_app in Hnd as (Hnd1 & Hdis & Hnd2). apply NoDup_cons in Hnd2 as [Hna2 Hnd2].
  assert (~ (a ∈ addrs1)) as Hna1 by set_solver.
  unfold unlink. rewrite E. cbn [deref mbind outcome_bind].
  (* the predecessor *)
  assert (exists hp1 head', store_if (set_next (next n)) (prev n) hp = Ret hp1 /\
    head' = (if prev n =? NULL then next n else head) /\
    dseg hp1 NULL head' addrs1 (next n) (prev n) /\
    (forall x, ~ (x ∈ addrs1) -> hp1 !! x = hp !! x)) as (hp1 & head' & -> & -> & Hs1 & Hf1).
  { destruct (decide (addrs1 = [])) as [->|Hne].
    - destruct Hd1 as [-> Hpr]. unfold store_if. rewrite <- Hpr. simpl. eexists _, _. by split_and!.
    - pose proof (dseg_last_in _ _ _ _ _ _ Hd1 Hne) as Hin.
      destruct (dseg_nonnull _ _ _ _ _ _ _ Hd1 Hin) as [Hp0 _].
      destruct (dseg_set_end _ _ _ _ _ _ (next n) Hd1 Hnd1 Hne) as (np & Ep & _ & Hs).
      rewrite (store_if_eq _ _ _ np) by done. eexists _, _. split_and!; [done|done| |].
      + destruct (Z.eqb_spec (prev n) NULL); done.
      + intros x Hx. rewrite lookup_insert_ne; [done|set_solver]. }
  cbn [mbind outcome_bind]. set (head' := if prev n =? NULL then next n else head) in *.
  assert (dseg hp1 a (next n) addrs2 NULL lst) as Hd2'.
  { eapply dseg_frame; [exact Hd2|]. intros b Hb. apply Hf1. set_solver. }
  (* the successor *)
  assert (exists hp2 lst', store_if (set_prev (prev n)) (next n) hp1 = Ret hp2 /\
    dseg hp2 (prev n) (next n) addrs2 NULL lst' /\
    (forall x, ~ (x ∈ addrs2) -> hp2 !! x = hp1 !! x)) as (hp2 & lst' & -> & Hs2 & Hf2).
  { destruct (decide (addrs2 = [])) as [->|Hne].
    - destruct Hd2' as [-> _]. simpl. eexists _, _. split_and!; [done|done|done|done].
    - destruct (dseg_set_begin _ _ _ _ _ _ (prev n) Hd2' Hnd2 Hne) as (nn & En & Hin & Hs).
      destruct (dseg_nonnull _ _ _ _ _ _ _ Hd2' Hin) as [Hn0 _].
      rewrite (store_if_eq _ _ _ nn) by done. eexists _, _. split_and!; [done|done|].
      intros x Hx. rewrite lookup_insert_ne; [done|set_solver]. }
  cbn [mbind outcome_bind].
  assert (hp2 !! a = Some n) as E2 by (rewrite Hf2, Hf1 by done; done).
  unfold store. rewrite E2. cbn [deref mbind outcome_bind].
  eexists _, _, _. split_and!; [done| | |by rewrite lookup_insert_eq|by autorewrite with links..].
  - split; [apply NoDup_app; set_solver|]. exists lst'. apply dseg_app.
    exists (next n), (prev n). split; (eapply dseg_frame; [eassumption|]); intros b Hb.
    + rewrite lookup_insert_ne by set_solver. apply Hf2. set_solver.
    + rewrite lookup_insert_ne by set_solver. done.
  - intros x Hx. rewrite lookup_insert_ne by set_solver. rewrite Hf2, Hf1 by set_solver. done.
Qed.

(** Unlinking a node that is in no list (its links are NULL) makes the head NULL:
    the whole list is lost. *)
Lemma unlink_unlinked hp head a n :
  hp !! a = Some n -> prev n = NULL -> next n = NULL ->
  exists hp', unlink hp head a = Ret (hp', NULL) /\ forall x, x <> a -> hp' !! x = hp !! x.
Proof.
  intros E Hp Hn. unfold unlink, store. rewrite E. cbn [deref mbind outcome_bind]. rewrite Hp, Hn. simpl.
  rewrite E. simpl. eexists. split; [done|]. intros x Hx. by rewrite lookup_insert_ne.
Qed.

(** A write that keeps the links keeps every list. *)
Lemma dseg_payload hp f a n pr p addrs q lst :
  prev (f n) = prev n -> next (f n) = next n -> hp !! a = Some n ->
  dseg hp pr p addrs q lst -> dseg (<[a := f n]> hp) pr p addrs q lst.
Proof.
  intros Hp Hn E. revert pr p. induction addrs as [|b addrs IH]; intros pr p; simpl; [done|].
  intros (-> & Hb & m & Em & Hpm & Hd). split_and!; auto.
  destruct (decide (a = b)) as [->|].
  - rewrite E in Em. injection Em as <-. exists (f n). rewrite lookup_insert_eq, Hp, Hn.
    split_and!; auto.
  - exists m. rewrite lookup_insert_ne by done. split_and!; auto.
Qed.

Lemma dlist_payload hp f a n head addrs :
  prev (f n) = prev n -> next (f n) = next n -> hp !! a = Some n ->
  dlist hp head addrs -> dlist (<[a := f n]> hp) head addrs.
Proof. intros Hp Hn E [Hnd (lst & Hd)]. split; [done|]. exists lst. by apply dseg_payload. Qed.

(** The node at the head of the rest of a list, and what follows it. *)
Lemma dlist_at hp head addrs1 a addrs2 :
  dlist hp head (addrs1 ++ a :: addrs2) ->
  exists n, hp !! a = Some n /\ a <> NULL /\ next n = default NULL (List.head addrs2).
Proof.
  intros [_ (lst & (m & la & _ & (_ & Ha & n & E & _ & Hd))%dseg_app)]. exists n. split_and!; auto.
  destruct addrs2 as [|b addrs2]; simpl in *; [by destruct Hd|by destruct Hd].
Qed.

Lemma dlist_head hp head addrs : dlist hp head addrs -> head = default NULL (List.head addrs).
Proof. intros [_ (lst & Hd)]. destruct addrs as [|a addrs]; simpl in Hd; [by destruct Hd|by destruct Hd]. Qed.

(** The edits change only links: anything that does not read them is kept. *)
Section payload.
Context {T : Type} (g : N -> T).
Hypothesis g_prev : forall p n, g (set_prev p n) = g n.
Hypothesis g_next : forall p n, g (set_next p n) = g n.

Lemma store_payload f a hp hp' :
  (forall n, g (f n) = g n) -> store f a hp = Ret hp' -> forall x, g <$> hp' !! x = g <$> hp !! x.
Proof.
  intros Hf. unfold store. destruct (hp !! a) as [n|] eqn:E; simpl; [|done]. intros [= <-] x.
  destruct (decide (x = a)) as [->|]; [|by rewrite lookup_insert_ne].
  rewrite lookup_insert_eq, E. simpl. by rewrite Hf.
Qed.

Lemma store_if_payload f a hp hp' :
  (forall n, g (f n) = g n) -> store_if f a hp = Ret hp' -> forall x, g <$> hp' !! x = g <$> hp !! x.
Proof. intros Hf. unfold store_if. case_match; [by intros [= <-]|by apply store_payload]. Qed.

Lemma push_payload hp head a hp' head' :
  push hp head a = Ret (hp', head') -> forall x, g <$> hp' !! x = g <$> hp !! x.
Proof.
  unfold push. intros (hp1 & E1 & (hp2 & E2 & [= <- <-])%bind_inv)%bind_inv x.
  rewrite (store_if_payload _ _ _ _ (g_prev _) E2).
  apply (store_payload _ _ _ _ (fun n => eq_trans (g_prev _ _) (g_next _ _)) E1).
Qed.

Lemma unlink_payload hp head a hp' head' :
  unlink hp head a = Ret (hp', head') -> forall x, g <$> hp' !! x = g <$> hp !! x.
Proof.
  unfold unlink. intros (n & _ & (hp1 & E1 & (hp2 & E2 & (hp3 & E3 & [= <- <-])%bind_inv)%bind_inv)%bind_inv)%bind_inv x.
  rewrite (store_payload _ _ _ _ (fun n => eq_trans (g_prev _ _) (g_next _ _)) E3).
  rewrite (store_if_payload _ _ _ _ (g_prev _) E2).
  apply (store_if_payload _ _ _ _ (g_next _) E1).
Qed.
End payload.

End lists.
