(* ===== verification/DList.v ===== *)
(** * The doubly linked list of integers (base/data/nv_list.c)

    The list is its head pointer; nodes are in a heap.  The result of [malloc]
    is an argument, NULL when it fails.  A walk along [next] takes at most as
    many steps as the heap has nodes unless the list is cyclic, which no
    operation makes. *)
From S2P Require Import Prelude DLinks.

Module DList.

Record nv_list_Node := mkNode { data : Z; n_prev : Z; n_next : Z }.

#[export, refine] Instance node_Linked : Linked nv_list_Node := {|
  prev := n_prev;
  next := n_next;
  set_prev p n := mkNode (data n) p (n_next n);
  set_next p n := mkNode (data n) (n_prev n) p;
|}.
Proof. all: done. Defined.

Abbreviation heap := (gmap Z nv_list_Node).

(** [new] is what [malloc] returned. *)
Definition nv_list_createNode (hp : heap) (new d : Z) : heap * Z :=
  if new =? NULL then (hp, NULL) else (<[new := mkNode d NULL NULL]> hp, new).

Fixpoint last_node (fuel : nat) (hp : heap) (temp : Z) : outcome Z :=
  match fuel with
  | O => UB
  | S fuel' =>
      n ← deref (hp !! temp);
      if next n =? NULL then Ret temp else last_node fuel' hp (next n)
  end.

Definition nv_list_insertEnd (hp : heap) (head new d : Z) : outcome (heap * Z) :=
  let '(hp, newNode) := nv_list_createNode hp new d in
  if newNode =? NULL then Ret (hp, head) else
  if head =? NULL then Ret (hp, newNode) else
  temp ← last_node (size hp) hp head;
  hp ← store (set_next newNode) temp hp;
  hp ← store (set_prev temp) newNode hp;
  Ret (hp, head).

Fixpoint find_node (fuel : nat) (hp : heap) (temp key : Z) : outcome Z :=
  if temp =? NULL then Ret NULL else
  match fuel with
  | O => UB
  | S fuel' =>
      n ← deref (hp !! temp);
      if data n =? key then Ret temp else find_node fuel' hp (next n) key
  end.

Definition nv_list_deleteNode (hp : heap) (head key : Z) : outcome (heap * Z) :=
  if head =? NULL then Ret (hp, NULL) else
  temp ← find_node (size hp) hp head key;
  if temp =? NULL then Ret (hp, head) else
  n ← deref (hp !! temp);
  hp ← store_if (set_next (next n)) (prev n) hp;
  hp ← store_if (set_prev (prev n)) (next n) hp;
  let head := if temp =? head then next n else head in
  Ret (delete temp hp, head).

(** The numbers [nv_list_printList] prints. *)
Fixpoint printed (fuel : nat) (hp : heap) (temp : Z) : outcome (list Z) :=
  if temp =? NULL then Ret [] else
  match fuel with
  | O => UB
  | S fuel' =>
      n ← deref (hp !! temp);
      l ← printed fuel' hp (next n);
      Ret (data n :: l)
  end.
Definition nv_list_printList (hp : heap) (head : Z) : outcome (list Z) := printed (size hp) hp head.

(** ** Refinement of a list of integers *)

(** The values stored at the addresses of the list. *)
Definition values (hp : heap) (addrs : list Z) : list (option Z) :=
  map (fun a => data <$> hp !! a) addrs.

Definition represents (hp : heap) (head : Z) (l : list Z) : Prop :=
  exists addrs, dlist hp head addrs /\ values hp addrs = map Some l.

Lemma dlist_size (hp : heap) head addrs : dlist hp head addrs -> (length addrs <= size hp)%nat.
Proof.
  intros [Hnd (lst & Hd)]. rewrite <- size_dom, <- (size_list_to_set (C := gset Z) addrs) by done.
  apply subseteq_size. intros a Ha%elem_of_list_to_set. apply elem_of_dom.
  eapply dseg_nonnull; eauto.
Qed.

Lemma last_node_spec hp pr p addrs lst fuel :
  dseg hp pr p addrs NULL lst -> addrs <> [] -> (length addrs <= fuel)%nat -> last_node fuel hp p = Ret lst.
Proof.
  revert pr p addrs. induction fuel as [|fuel IH]; intros pr p [|a addrs] Hd Hne Hf; try done; [simpl in Hf; lia|].
  destruct Hd as (-> & Ha & n & E & Hp & Hd). simpl. rewrite E. simpl.
  destruct addrs as [|b addrs].
  - destruct Hd as [Hn <-]. simpl in Hn. by rewrite Hn.
  - pose proof Hd as (Hb & Hb0 & _). rewrite <- Hb in Hb0.
    destruct (Z.eqb_spec (n_next n) NULL); [done|]. eapply IH; [exact Hd|done|simpl in *; lia].
Qed.

(** The first node with the key, splitting the list. *)
Lemma find_node_spec hp pr p addrs l lst fuel key :
  dseg hp pr p addrs NULL lst -> values hp addrs = map Some l -> (length addrs <= fuel)%nat ->
  (find_node fuel hp p key = Ret NULL /\ ~ (key ∈ l)) \/
  (exists a1 a a2 l1 l2, find_node fuel hp p key = Ret a /\ addrs = a1 ++ a :: a2 /\
     l = l1 ++ key :: l2 /\ length a1 = length l1 /\ ~ (key ∈ l1)).
Proof.
  revert pr p addrs l. induction fuel as [|fuel IH]; intros pr p [|a addrs] [|x l] Hd Hv Hf; try done;
    try (simpl in Hf; lia).
  - destruct Hd as [-> _]. left. split; [done|set_solver].
  - destruct Hd as [-> _]. left. split; [done|set_solver].
  - destruct Hd as (-> & Ha & n & E & Hp & Hd). cbn [find_node].
    destruct (Z.eqb_spec a NULL); [done|]. rewrite E. cbn [deref mbind outcome_bind].
    simpl in Hv. rewrite E in Hv. simpl in Hv. injection Hv as Hx Hv.
    destruct (Z.eqb_spec (data n) key) as [Ek|Ek].
    + right. exists [], a, addrs, [], l. split_and!; auto; [simpl; congruence|set_solver].
    + destruct (IH _ _ _ _ Hd Hv) as [[Ef Hk]|(a1 & b & a2 & l1 & l2 & Ef & -> & -> & Hl & Hk)];
        [simpl in Hf; lia| |].
      * left. split; [done|]. set_solver.
      * right. exists (a :: a1), b, a2, (x :: l1), l2. split_and!; auto; [simpl; congruence|set_solver].
Qed.

Lemma values_app hp a1 a2 : values hp (a1 ++ a2) = values hp a1 ++ values hp a2.
Proof. unfold values. by rewrite map_app. Qed.

Lemma values_ext hp hp' addrs :
  (forall a, a ∈ addrs -> data <$> hp' !! a = data <$> hp !! a) -> values hp' addrs = values hp addrs.
Proof. intros Hx. apply map_ext_in. intros a Ha. apply Hx. by apply list_elem_of_In. Qed.

Lemma deleteNode_unlink hp head addrs1 a addrs2 hp' head' :
  dlist hp head (addrs1 ++ a :: addrs2) -> unlink hp head a = Ret (hp', head') ->
  (n ← deref (hp !! a);
   hp ← store_if (set_next (next n)) (prev n) hp;
   hp ← store_if (set_prev (prev n)) (next n) hp;
   Ret (delete a hp, if a =? head then next n else head)) = Ret (delete a hp', head').
Proof.
  intros [Hnd (lst & Hd)] E. unfold unlink in E.
  apply bind_inv in E as (n & En & E). rewrite En. cbn [mbind outcome_bind].
  apply bind_inv in E as (hp1 & E1 & E). rewrite E1. cbn [mbind outcome_bind].
  apply bind_inv in E as (hp2 & E2 & E). rewrite E2. cbn [mbind outcome_bind].
  apply bind_inv in E as (hp3 & E3 & E). injection E as <- <-. f_equal. f_equal.
  - unfold store in E3. destruct (hp2 !! a) as [n2|]; [|done]. simpl in E3. injection E3 as <-.
    by rewrite delete_insert_eq.
  - apply dseg_app in Hd as (m & la & Hd1 & (-> & Ha & n' & En' & Hp & _)).
    rewrite En' in En. injection En as ->. simpl in Hp |- *. destruct addrs1 as [|b addrs1].
    + destruct Hd1 as [-> Hpr]. rewrite <- Hpr in Hp. rewrite Hp. simpl. by rewrite Z.eqb_refl.
    + pose proof (dseg_last_in _ _ _ _ _ _ Hd1 ltac:(done)) as Hin.
      destruct (dseg_nonnull _ _ _ _ _ _ _ Hd1 Hin) as [Hl0 _]. rewrite Hp.
      destruct (Z.eqb_spec la NULL); [done|]. destruct Hd1 as (-> & _).
      destruct (Z.eqb_spec a b) as [->|]; [|done].
      apply NoDup_app in Hnd as (_ & Hdis & _). exfalso. apply (Hdis b); set_solver.
Qed.

Lemma list_delete_represents hp head l key :
  represents hp head l ->
  exists hp' head', nv_list_deleteNode hp head key = Ret (hp', head') /\
    ((~ (key ∈ l) /\ hp' = hp /\ head' = head) \/
     (exists l1 l2, l = l1 ++ key :: l2 /\ ~ (key ∈ l1) /\ represents hp' head' (l1 ++ l2))).
Proof.
  intros (addrs & Hdl & Hv). pose proof (dlist_size _ _ _ Hdl) as Hsz. pose proof Hdl as [Hnd (lst & Hd)].
  unfold nv_list_deleteNode. destruct (Z.eqb_spec head NULL) as [->|Hh].
  { destruct addrs as [|a addrs]; [|by destruct Hd as (<- & ? & _)]. destruct l; [|done].
    exists hp, NULL. split; [done|left]. split; [set_solver|done]. }
  destruct (find_node_spec _ _ _ _ _ _ _ key Hd Hv Hsz)
    as [[-> Hk]|(a1 & a & a2 & l1 & l2 & -> & -> & -> & Hl & Hk)]; cbn [mbind outcome_bind].
  { exists hp, head. auto. }
  assert (a <> NULL) as Ha by (eapply dseg_nonnull; [exact Hd|set_solver]).
  destruct (Z.eqb_spec a NULL); [done|].
  destruct (unlink_spec _ _ _ _ _ Hdl) as (hp' & head' & n' & Eu & Hdl' & _).
  cbv zeta. rewrite (deleteNode_unlink _ _ _ _ _ _ _ Hdl Eu). exists (delete a hp'), head'.
  split; [done|right]. exists l1, l2. split_and!; auto. exists (a1 ++ a2).
  assert (~ (a ∈ a1 ++ a2)) as Hna.
  { apply NoDup_app in Hnd as (_ & Hdis & [Hn _]%NoDup_cons). set_solver. }
  destruct Hdl' as [Hnd' (lst' & Hd')]. split.
  - split; [done|]. exists lst'. eapply dseg_frame; [exact Hd'|]. intros b Hb.
    rewrite lookup_delete_ne; [done|set_solver].
  - rewrite (values_ext hp).
    + rewrite values_app in Hv |- *. rewrite map_app in Hv |- *. simpl in Hv.
      apply app_inj_1 in Hv as [-> Hv]; [|unfold values; by rewrite !length_map]. by injection Hv as _ ->.
    + intros b Hb. rewrite lookup_delete_ne by set_solver. by eapply unlink_payload.
Qed.

Lemma printed_spec hp pr p addrs l lst fuel :
  dseg hp pr p addrs NULL lst -> values hp addrs = map Some l -> (length addrs <= fuel)%nat ->
  printed fuel hp p = Ret l.
Proof.
  revert pr p addrs l. induction fuel as [|fuel IH]; intros pr p [|a addrs] [|x l] Hd Hv Hf; try done;
    try (simpl in Hf; lia); try (destruct Hd as [-> _]; done).
  destruct Hd as (-> & Ha & n & E & Hp & Hd). cbn [printed].
  destruct (Z.eqb_spec a NULL); [done|]. rewrite E. cbn [deref mbind outcome_bind].
  simpl in Hv. rewrite E in Hv. simpl in Hv. injection Hv as -> Hv.
  rewrite (IH _ _ _ _ Hd Hv) by (simpl in Hf; lia). done.
Qed.

Lemma list_insert_represents hp head l new d :
  represents hp head l -> new <> NULL -> hp !! new = None ->
  exists hp' head', nv_list_insertEnd hp head new d = Ret (hp', head') /\
    represents hp' head' (l ++ [d]).
Proof.
  intros (addrs & [Hnd (lst & Hd)] & Hv) Hnew Hfree. unfold nv_list_insertEnd, nv_list_createNode.
  assert (~ (new ∈ addrs)) as Hni.
  { intros Hin. destruct (dseg_nonnull _ _ _ _ _ _ _ Hd Hin) as [_ [? ?]]. congruence. }
  destruct (Z.eqb_spec new NULL) as [|_]; [done|]. destruct (Z.eqb_spec new NULL) as [|_]; [done|].
  set (hp1 := <[new := mkNode d NULL NULL]> hp).
  assert (hp1 !! new = Some (mkNode d NULL NULL)) as En by apply lookup_insert_eq.
  assert (forall a, a ∈ addrs -> hp1 !! a = hp !! a) as Hf.
  { intros a Ha. unfold hp1. rewrite lookup_insert_ne; [done|set_solver]. }
  assert (values hp1 addrs = map Some l) as Hv1 by (rewrite <- Hv; apply values_ext; intros; by rewrite Hf).
  destruct (decide (addrs = [])) as [->|Hne].
  - destruct Hd as [-> _]. destruct l; [|done]. simpl. exists hp1, new. split; [done|].
    exists [new]. split; [|unfold values; simpl; by rewrite En].
    split; [apply NoDup_singleton|]. exists new. split_and!; auto. exists (mkNode d NULL NULL). done.
  - assert (dseg hp1 NULL head addrs NULL lst) as Hd1 by (by eapply dseg_frame).
    assert (head <> NULL) as Hh.
    { destruct addrs as [|a addrs]; [done|]. by destruct Hd as (-> & ? & _). }
    destruct (Z.eqb_spec head NULL) as [|_]; [done|].
    assert (length addrs <= size hp1)%nat as Hsz by (eapply (dlist_size hp1 head); split; eauto).
    rewrite (last_node_spec _ _ _ _ _ _ Hd1 Hne Hsz). cbn [mbind outcome_bind].
    destruct (dseg_set_end _ _ _ _ _ _ new Hd1 Hnd Hne) as (nl & El & _ & Hd2).
    pose proof (dseg_last_in _ _ _ _ _ _ Hd1 Hne) as Hin.
    assert (lst <> new) as Hln by (intros ->; done).
    rewrite (store_eq _ _ _ nl El). cbn [mbind outcome_bind].
    rewrite (store_eq _ _ _ (mkNode d NULL NULL)) by (by rewrite lookup_insert_ne).
    cbn [mbind outcome_bind].
    eexists _, _. split; [done|]. exists (addrs ++ [new]). split.
    + split; [apply NoDup_app; split_and!; [done|set_solver|apply NoDup_singleton]|].
      exists new. apply dseg_app. exists new, lst. split.
      * eapply dseg_frame; [exact Hd2|]. intros a Ha. rewrite lookup_insert_ne; [done|set_solver].
      * split_and!; auto. eexists. rewrite lookup_insert_eq. split; [done|]. split; [done|]. done.
    + rewrite values_app, map_app. f_equal.
      * rewrite <- Hv1. apply values_ext. intros a Ha. rewrite lookup_insert_ne by set_solver.
        destruct (decide (a = lst)) as [->|]; [by rewrite lookup_insert_eq, El|by rewrite lookup_insert_ne].
      * unfold values. simpl. by rewrite lookup_insert_eq.
Qed.

Inductive op := InsertEnd (new d : Z) | DeleteNode (key : Z).
Definition run_op (hp : heap) (head : Z) (o : op) : outcome (heap * Z) :=
  match o with
  | InsertEnd new d => nv_list_insertEnd hp head new d
  | DeleteNode key => nv_list_deleteNode hp head key
  end.
(** Remove the first occurrence. *)
Fixpoint remove_first (l : list Z) (key : Z) : list Z :=
  match l with
  | [] => []
  | x :: l' => if x =? key then l' else x :: remove_first l' key
  end.
Definition spec_op (l : list Z) (o : op) : list Z :=
  match o with
  | InsertEnd new d => if new =? NULL then l else l ++ [d]
  | DeleteNode key => remove_first l key
  end.
Fixpoint run_ops (hp : heap) (head : Z) (os : list op) : outcome (heap * Z) :=
  match os with
  | [] => Ret (hp, head)
  | o :: os' => '(hp, head) ← run_op hp head o; run_ops hp head os'
  end.
(** A non-NULL result of [malloc] is an address that is not allocated. *)
Fixpoint malloc_ok (hp : heap) (head : Z) (os : list op) : Prop :=
  match os with
  | [] => True
  | o :: os' =>
      match o with InsertEnd new _ => new = NULL \/ hp !! new = None | DeleteNode _ => True end /\
      match run_op hp head o with Ret (hp, head) => malloc_ok hp head os' | _ => True end
  end.

Lemma remove_first_split l1 key l2 : ~ (key ∈ l1) -> remove_first (l1 ++ key :: l2) key = l1 ++ l2.
Proof.
  induction l1 as [|x l1 IH]; intros Hn; simpl; [by rewrite Z.eqb_refl|].
  destruct (Z.eqb_spec x key); [set_solver|]. rewrite IH; set_solver.
Qed.
Lemma remove_first_absent l key : ~ (key ∈ l) -> remove_first l key = l.
Proof.
  induction l as [|x l IH]; intros Hn; simpl; [done|].
  destruct (Z.eqb_spec x key); [set_solver|]. rewrite IH; set_solver.
Qed.

Lemma list_run_ops_represents os hp head l :
  represents hp head l -> malloc_ok hp head os ->
  exists hp' head', run_ops hp head os = Ret (hp', head') /\ represents hp' head' (fold_left spec_op os l).
Proof.
  revert hp head l. induction os as [|o os IH]; intros hp head l Hr Hm; simpl; [by exists hp, head|].
  simpl in Hm. destruct Hm as [Hm Hrest].
  assert (exists hp' head', run_op hp head o = Ret (hp', head') /\ represents hp' head' (spec_op l o))
    as (hp' & head' & E & Hr').
  { destruct o as [new d|key]; simpl.
    - destruct (Z.eqb_spec new NULL) as [->|Hne]; [by exists hp, head|].
      apply list_insert_represents; auto. naive_solver.
    - destruct (list_delete_represents hp head l key Hr) as (hp' & head' & E & [(Hk & -> & ->)|(l1 & l2 & -> & Hk & Hr')]).
      + exists hp, head. by rewrite remove_first_absent.
      + exists hp', head'. by rewrite remove_first_split. }
  rewrite E in *. simpl. eauto.
Qed.

(** Linked list.  Any sequence of appends and deletions from the empty list,
    whatever [malloc] returns (NULL included), runs without undefined behaviour
    and prints exactly the list of integers that the same appends and removals of
    first occurrences give: no link is left dangling and no node is lost. *)
Theorem nv_list_refines_list (os : list op) :
  malloc_ok ∅ NULL os ->
  exists hp head, run_ops ∅ NULL os = Ret (hp, head) /\
    nv_list_printList hp head = Ret (fold_left spec_op os []) /\
    exists addrs, dlist hp head addrs /\ length addrs = length (fold_left spec_op os []).
Proof.
  intros Hm. destruct (list_run_ops_represents os ∅ NULL []) as (hp & head & E & addrs & Hdl & Hv); [|done|].
  { exists []. split; [|done]. split; [constructor|]. by exists NULL. }
  exists hp, head. split_and!; [done| |].
  - pose proof (dlist_size _ _ _ Hdl). destruct Hdl as [_ (lst & Hd)]. by eapply printed_spec.
  - exists addrs. split; [done|]. apply (f_equal length) in Hv. unfold values in Hv. by rewrite !length_map in Hv.
Qed.

Lemma nv_list_refines_list_witness :
  exists hp head, run_ops ∅ NULL
      [InsertEnd 8 1; InsertEnd 16 2; InsertEnd 24 3; DeleteNode 2; InsertEnd 0 9; DeleteNode 1; InsertEnd 8 4] =
      Ret (hp, head) /\
    nv_list_printList hp head = Ret [3; 4].
Proof.
  destruct (nv_list_refines_list
    [InsertEnd 8 1; InsertEnd 16 2; InsertEnd 24 3; DeleteNode 2; InsertEnd 0 9; DeleteNode 1; InsertEnd 8 4])
    as (hp & head & E & P & _); [vm_compute; intuition congruence|].
  exists hp, head. split; [exact E|exact P].
Defined.

End DList.
