(* ===== verification/EventLoop.v ===== *)
(** * Events and the event loop (event/nv_event.c, event/nv_loop.c)

    Events are nodes in a heap (an address per event); a loop keeps the heads of
    its timer and idle lists, which are doubly linked through the events.  A
    handler is client code: the effect of calling one is a parameter, and the
    monotonic clock is part of the state, so a handler may let time pass, re-arm
    or delete timers, or stop the loop.  The results of [epoll_ctl], [epoll_wait],
    [pipe] and [malloc] are arguments of the operations. *)
From S2P Require Import Prelude DLinks.

Module EventLoop.

Definition NV_EVENT_READ : Z := 0x1.
Definition NV_EVENT_WRITE : Z := 0x2.
Definition NV_EVENT_ERROR : Z := 0x4.
Definition NV_EVENT_HUP : Z := 0x8.
Definition NV_EVENT_TIMER : Z := 0x10.
Definition NV_EVENT_IDLE : Z := 0x40.

Definition EPOLLIN : Z := 0x1.
Definition EPOLLOUT : Z := 0x4.
Definition EPOLLERR : Z := 0x8.
Definition EPOLLHUP : Z := 0x10.

Definition NV_EVENT_TYPE_IO : Z := 0.
Definition NV_EVENT_TYPE_TIMER : Z := 1.
Definition NV_EVENT_TYPE_SIGNAL : Z := 2.
Definition NV_EVENT_TYPE_IDLE : Z := 3.

Definition NV_EVENT_PRIO_NORMAL : Z := 1.
Definition NV_EVENT_PRIO_URGENT : Z := 3.

(** [handler] is 0 for NULL; [loop] is 0 for NULL. *)
Record nv_event_ext_t := mkEv {
  fd : Z; events : Z; revents : Z; active : bool;
  handler : Z; data : Z;
  timeout_ms : Z; expire_time : Z;
  e_next : Z; e_prev : Z;
  loop : Z;
  type : Z; priority : Z;
  trigger_count : Z; last_trigger : Z;
}.

Definition set_fd (v : Z) (e : nv_event_ext_t) := mkEv v (events e) (revents e) (active e) (handler e) (data e)
  (timeout_ms e) (expire_time e) (e_next e) (e_prev e) (loop e) (type e) (priority e) (trigger_count e) (last_trigger e).
Definition set_events (v : Z) (e : nv_event_ext_t) := mkEv (fd e) v (revents e) (active e) (handler e) (data e)
  (timeout_ms e) (expire_time e) (e_next e) (e_prev e) (loop e) (type e) (priority e) (trigger_count e) (last_trigger e).
Definition set_active (v : bool) (e : nv_event_ext_t) := mkEv (fd e) (events e) (revents e) v (handler e) (data e)
  (timeout_ms e) (expire_time e) (e_next e) (e_prev e) (loop e) (type e) (priority e) (trigger_count e) (last_trigger e).
Definition set_timeout (ms exp : Z) (e : nv_event_ext_t) := mkEv (fd e) (events e) (revents e) (active e) (handler e) (data e)
  ms exp (e_next e) (e_prev e) (loop e) (type e) (priority e) (trigger_count e) (last_trigger e).
Definition set_links (n p : Z) (e : nv_event_ext_t) := mkEv (fd e) (events e) (revents e) (active e) (handler e) (data e)
  (timeout_ms e) (expire_time e) n p (loop e) (type e) (priority e) (trigger_count e) (last_trigger e).
Definition set_loop (v : Z) (e : nv_event_ext_t) := mkEv (fd e) (events e) (revents e) (active e) (handler e) (data e)
  (timeout_ms e) (expire_time e) (e_next e) (e_prev e) v (type e) (priority e) (trigger_count e) (last_trigger e).
Definition set_type (v : Z) (e : nv_event_ext_t) := mkEv (fd e) (events e) (revents e) (active e) (handler e) (data e)
  (timeout_ms e) (expire_time e) (e_next e) (e_prev e) (loop e) v (priority e) (trigger_count e) (last_trigger e).
Definition set_prio (v : Z) (e : nv_event_ext_t) := mkEv (fd e) (events e) (revents e) (active e) (handler e) (data e)
  (timeout_ms e) (expire_time e) (e_next e) (e_prev e) (loop e) (type e) v (trigger_count e) (last_trigger e).
Definition set_trigger (rev cnt last : Z) (e : nv_event_ext_t) := mkEv (fd e) (events e) rev (active e) (handler e) (data e)
  (timeout_ms e) (expire_time e) (e_next e) (e_prev e) (loop e) (type e) (priority e) cnt last.
(** The resets of [nv_event_cleanup]: no descriptor, no handler, no links. *)
Definition set_clean (e : nv_event_ext_t) := mkEv (-1) 0 0 false 0 0
  (timeout_ms e) (expire_time e) 0 0 (loop e) (type e) (priority e) (trigger_count e) (last_trigger e).

#[export, refine] Instance event_Linked : Linked nv_event_ext_t := {|
  prev := e_prev;
  next := e_next;
  set_prev p e := set_links (e_next e) p e;
  set_next n e := set_links n (e_prev e) e;
|}.
Proof. all: done. Defined.

Inductive loop_state := LOOP_INIT | LOOP_RUNNING | LOOP_STOPPING | LOOP_STOPPED.
#[export] Instance loop_state_eq_dec : EqDecision loop_state.
Proof. solve_decision. Defined.

Record nv_loop_t := mkLoop {
  epoll_fd : Z;
  max_events : Z;
  state : loop_state;
  timers_head : Z;
  next_timeout : Z;
  sigs : list (Z * Z);          (* signals[i], signal_events[i] *)
  idle_head : Z;
  events_processed : Z; timers_processed : Z; signals_processed : Z; idle_processed : Z;
  signalfd_fd : Z;
  signalfd_ev : Z;
  wakeup_inited : bool;
  wakeup_pending : Z;           (* bytes in the wakeup pipe *)
}.

Definition with_state (s : loop_state) (l : nv_loop_t) := mkLoop (epoll_fd l) (max_events l) s (timers_head l)
  (next_timeout l) (sigs l) (idle_head l) (events_processed l) (timers_processed l) (signals_processed l)
  (idle_processed l) (signalfd_fd l) (signalfd_ev l) (wakeup_inited l) (wakeup_pending l).
Definition with_timers (h nt : Z) (l : nv_loop_t) := mkLoop (epoll_fd l) (max_events l) (state l) h
  nt (sigs l) (idle_head l) (events_processed l) (timers_processed l) (signals_processed l)
  (idle_processed l) (signalfd_fd l) (signalfd_ev l) (wakeup_inited l) (wakeup_pending l).
Definition with_idle (h : Z) (l : nv_loop_t) := mkLoop (epoll_fd l) (max_events l) (state l) (timers_head l)
  (next_timeout l) (sigs l) h (events_processed l) (timers_processed l) (signals_processed l)
  (idle_processed l) (signalfd_fd l) (signalfd_ev l) (wakeup_inited l) (wakeup_pending l).
Definition with_sigs (s : list (Z * Z)) (l : nv_loop_t) := mkLoop (epoll_fd l) (max_events l) (state l) (timers_head l)
  (next_timeout l) s (idle_head l) (events_processed l) (timers_processed l) (signals_processed l)
  (idle_processed l) (signalfd_fd l) (signalfd_ev l) (wakeup_inited l) (wakeup_pending l).
Definition with_stats (ev ti si id : Z) (l : nv_loop_t) := mkLoop (epoll_fd l) (max_events l) (state l) (timers_head l)
  (next_timeout l) (sigs l) (idle_head l) ev ti si id (signalfd_fd l) (signalfd_ev l) (wakeup_inited l) (wakeup_pending l).
Definition with_signalfd (f e : Z) (l : nv_loop_t) := mkLoop (epoll_fd l) (max_events l) (state l) (timers_head l)
  (next_timeout l) (sigs l) (idle_head l) (events_processed l) (timers_processed l) (signals_processed l)
  (idle_processed l) f e (wakeup_inited l) (wakeup_pending l).
Definition with_wakeup (b : bool) (n : Z) (l : nv_loop_t) := mkLoop (epoll_fd l) (max_events l) (state l) (timers_head l)
  (next_timeout l) (sigs l) (idle_head l) (events_processed l) (timers_processed l) (signals_processed l)
  (idle_processed l) (signalfd_fd l) (signalfd_ev l) b n.
Definition with_epoll (f : Z) (l : nv_loop_t) := mkLoop f (max_events l) (state l) (timers_head l)
  (next_timeout l) (sigs l) (idle_head l) (events_processed l) (timers_processed l) (signals_processed l)
  (idle_processed l) (signalfd_fd l) (signalfd_ev l) (wakeup_inited l) (wakeup_pending l).

(** The events, the loop and the clock (monotonic milliseconds). *)
Record world := mkWorld { evs : gmap Z nv_event_ext_t; lp : nv_loop_t; clock : Z }.
Definition on_evs (h : gmap Z nv_event_ext_t) (w : world) : world := mkWorld h (lp w) (clock w).
Definition on_loop (f : nv_loop_t -> nv_loop_t) (w : world) : world := mkWorld (evs w) (f (lp w)) (clock w).

(** The address of the (only) loop. *)
Definition LOOP : Z := 1.

Definition upd (a : Z) (f : nv_event_ext_t -> nv_event_ext_t) (w : world) : outcome world :=
  h ← store f a (evs w);
  Ret (on_evs h w).

(** [ts.tv_sec * 1000 + ts.tv_nsec / 1000000] *)
Definition nv_loop_get_monotonic_time (w : world) : Z := clock w.

(** ** Events *)

Definition zero_ev : nv_event_ext_t := mkEv 0 0 0 false 0 0 0 0 0 0 0 0 0 0 0.

Definition nv_event_init (w : world) (ev h d : Z) : outcome (Z * world) :=
  if (ev =? NULL) || (h =? 0) then Ret (-1, w) else
  w ← upd ev (fun _ => mkEv (-1) 0 0 false h d 0 0 0 0 0 NV_EVENT_TYPE_IO NV_EVENT_PRIO_NORMAL 0 0) w;
  Ret (0, w).

Definition nv_event_set_fd (w : world) (ev f : Z) : outcome (Z * world) :=
  if ev =? NULL then Ret (-1, w) else w ← upd ev (set_fd f) w; Ret (0, w).
Definition nv_event_set_events (w : world) (ev e : Z) : outcome (Z * world) :=
  if ev =? NULL then Ret (-1, w) else w ← upd ev (set_events e) w; Ret (0, w).
Definition nv_event_set_priority (w : world) (ev p : Z) : outcome (Z * world) :=
  if (ev =? NULL) || (NV_EVENT_PRIO_URGENT <=? p) then Ret (-1, w)
  else w ← upd ev (set_prio p) w; Ret (0, w).
Definition nv_event_set_timeout (w : world) (ev ms : Z) : outcome (Z * world) :=
  if ev =? NULL then Ret (-1, w) else
  w ← upd ev (fun e => if 0 <? ms
                       then set_type NV_EVENT_TYPE_TIMER (set_timeout ms (u64 (clock w + ms)) e)
                       else set_timeout ms (expire_time e) e) w;
  Ret (0, w).

(** Read-only queries; NULL gives the default. *)
Definition query {A} (w : world) (ev : Z) (dflt : A) (f : nv_event_ext_t -> A) : outcome A :=
  if ev =? NULL then Ret dflt else e ← deref (evs w !! ev); Ret (f e).
Definition nv_event_is_active (w : world) (ev : Z) : outcome bool := query w ev false active.
Definition nv_event_is_pending (w : world) (ev : Z) : outcome bool :=
  query w ev false (fun e => active e && negb (revents e =? 0)).
Definition nv_event_get_fd (w : world) (ev : Z) : outcome Z := query w ev (-1) fd.
Definition nv_event_get_events (w : world) (ev : Z) : outcome Z := query w ev 0 events.
Definition nv_event_is_expired (w : world) (ev : Z) : outcome bool :=
  query w ev false (fun e => (type e =? NV_EVENT_TYPE_TIMER) && (expire_time e <=? clock w)).
Definition nv_event_get_remaining_time (w : world) (ev : Z) : outcome Z :=
  query w ev 0 (fun e => if negb (type e =? NV_EVENT_TYPE_TIMER) then 0
                         else if expire_time e <=? clock w then 0 else u64 (expire_time e - clock w)).

(** ** Lists of the loop *)

Definition nv_loop_add_event_to_list := @push nv_event_ext_t _.
Definition nv_loop_remove_event_from_list := @unlink nv_event_ext_t _.

(** [ctl] is the result of [epoll_ctl]. *)
Definition nv_loop_add_event (w : world) (ev mask ctl : Z) : outcome (Z * world) :=
  if (ev =? NULL) || (epoll_fd (lp w) =? -1) then Ret (-1, w) else
  w ← upd ev (fun e => set_active true (set_events mask (set_loop LOOP e))) w;
  Ret (if ctl =? -1 then -1 else 0, w).

Definition nv_loop_del_event (w : world) (ev : Z) : outcome (Z * world) :=
  if (ev =? NULL) || (epoll_fd (lp w) =? -1) then Ret (-1, w) else
  w ← upd ev (fun e => set_loop NULL (set_active false e)) w;
  Ret (0, w).

Definition nv_loop_modify_event (w : world) (ev mask ctl : Z) : outcome (Z * world) :=
  if (ev =? NULL) || (epoll_fd (lp w) =? -1) then Ret (-1, w) else
  w ← upd ev (set_events mask) w;
  e ← deref (evs w !! ev);
  Ret (if active e && negb (fd e =? -1) && (ctl =? -1) then -1 else 0, w).

(** [if (!next_timeout || expire < next_timeout) next_timeout = expire] *)
Definition earlier (nt expire : Z) : Z := if (nt =? 0) || (expire <? nt) then expire else nt.

Definition nv_loop_add_timer (w : world) (ev ms : Z) : outcome (Z * world) :=
  if ev =? NULL then Ret (-1, w) else
  let expire := u64 (nv_loop_get_monotonic_time w + ms) in
  w ← upd ev (fun e => set_timeout ms expire (set_loop LOOP (set_type NV_EVENT_TYPE_TIMER e))) w;
  '(h, head) ← nv_loop_add_event_to_list (evs w) (timers_head (lp w)) ev;
  Ret (0, on_loop (with_timers head (earlier (next_timeout (lp w)) expire)) (on_evs h w)).

Definition nv_loop_del_timer (w : world) (ev : Z) : outcome (Z * world) :=
  if ev =? NULL then Ret (-1, w) else
  '(h, head) ← nv_loop_remove_event_from_list (evs w) (timers_head (lp w)) ev;
  w ← upd ev (set_loop NULL) (on_loop (with_timers head (next_timeout (lp w))) (on_evs h w));
  Ret (0, w).

Definition nv_loop_modify_timer (w : world) (ev ms : Z) : outcome (Z * world) :=
  if ev =? NULL then Ret (-1, w) else
  '(h, head) ← nv_loop_remove_event_from_list (evs w) (timers_head (lp w)) ev;
  let w := on_loop (with_timers head (next_timeout (lp w))) (on_evs h w) in
  let expire := u64 (nv_loop_get_monotonic_time w + ms) in
  w ← upd ev (set_timeout ms expire) w;
  '(h, head) ← nv_loop_add_event_to_list (evs w) (timers_head (lp w)) ev;
  Ret (0, on_loop (with_timers head (earlier (next_timeout (lp w)) expire)) (on_evs h w)).

Definition nv_loop_add_idle (w : world) (ev : Z) : outcome (Z * world) :=
  if ev =? NULL then Ret (-1, w) else
  w ← upd ev (fun e => set_loop LOOP (set_type NV_EVENT_TYPE_IDLE e)) w;
  '(h, head) ← nv_loop_add_event_to_list (evs w) (idle_head (lp w)) ev;
  Ret (0, on_loop (with_idle head) (on_evs h w)).

Definition nv_loop_del_idle (w : world) (ev : Z) : outcome (Z * world) :=
  if ev =? NULL then Ret (-1, w) else
  '(h, head) ← nv_loop_remove_event_from_list (evs w) (idle_head (lp w)) ev;
  w ← upd ev (set_loop NULL) (on_loop (with_idle head) (on_evs h w));
  Ret (0, w).

(** ** Signals *)

(** [grow] tells whether both [realloc] calls succeed. *)
Definition nv_loop_add_signal (w : world) (ev signo : Z) (grow : bool) : outcome (Z * world) :=
  if ev =? NULL then Ret (-1, w) else
  w ← upd ev (fun e => set_loop LOOP (set_type NV_EVENT_TYPE_SIGNAL e)) w;
  if grow then Ret (0, on_loop (with_sigs (sigs (lp w) ++ [(signo, ev)])) w) else Ret (-1, w).

Fixpoint remove_where (f : Z * Z -> bool) (l : list (Z * Z)) : option (list (Z * Z)) :=
  match l with
  | [] => None
  | x :: l' => if f x then Some l' else cons x <$> remove_where f l'
  end.
Definition nv_loop_del_signal (w : world) (ev : Z) : outcome (Z * world) :=
  if ev =? NULL then Ret (-1, w) else
  match remove_where (fun s => snd s =? ev) (sigs (lp w)) with
  | Some l => w ← upd ev (set_loop NULL) (on_loop (with_sigs l) w); Ret (0, w)
  | None => Ret (-1, w)
  end.
Definition nv_loop_ignore_signal (w : world) (signo : Z) : Z * world :=
  match remove_where (fun s => fst s =? signo) (sigs (lp w)) with
  | Some l => (0, on_loop (with_sigs l) w)
  | None => (-1, w)
  end.

(** ** Stopping *)

(** The result of writing one byte to the wakeup pipe. *)
Inductive write_result := Written | WouldBlock | WriteError.

Definition nv_loop_wakeup (w : world) (wr : write_result) : Z * world :=
  if wakeup_inited (lp w) then
    match wr with
    | Written => (0, on_loop (fun l => with_wakeup true (wakeup_pending l + 1) l) w)
    | WouldBlock => (0, w)
    | WriteError => (-1, w)
    end
  else (-1, w).
Definition nv_loop_stop (w : world) (wr : write_result) : Z * world :=
  match state (lp w) with
  | LOOP_RUNNING => (0, snd (nv_loop_wakeup (on_loop (with_state LOOP_STOPPING) w) wr))
  | _ => (0, w)
  end.
Definition nv_loop_pause (w : world) : Z * world :=
  match state (lp w) with
  | LOOP_RUNNING => (0, on_loop (with_state LOOP_STOPPING) w)
  | _ => (-1, w)
  end.
Definition nv_loop_resume (w : world) : Z * world :=
  match state (lp w) with
  | LOOP_STOPPING => (0, on_loop (with_state LOOP_RUNNING) w)
  | _ => (-1, w)
  end.
Definition nv_loop_is_running (w : world) : bool := bool_decide (state (lp w) = LOOP_RUNNING).
Definition nv_loop_reset_stats (w : world) : world := on_loop (with_stats 0 0 0 0) w.


(** ** Queries *)

Fixpoint count_active (fuel : nat) (w : world) (ev n : Z) : outcome Z :=
  if ev =? NULL then Ret n else
  match fuel with
  | O => UB
  | S fuel' => e ← deref (evs w !! ev); count_active fuel' w (next e) (if active e then u64 (n + 1) else n)
  end.
(** The four counters and the number of active timer and idle events. *)
Definition nv_loop_get_stats (fuel : nat) (w : world) : outcome (Z * Z * Z * Z * Z) :=
  n ← count_active fuel w (timers_head (lp w)) 0;
  n ← count_active fuel w (idle_head (lp w)) n;
  Ret (events_processed (lp w), timers_processed (lp w), signals_processed (lp w), idle_processed (lp w), n).

(** max_events and the three enable flags of the filled structure. *)
Definition nv_loop_get_config (w : world) : Z * bool * bool * bool :=
  (max_events (lp w), negb (timers_head (lp w) =? NULL), (0 <? Z.of_nat (length (sigs (lp w)))),
   negb (idle_head (lp w) =? NULL)).
Definition nv_loop_now (w : world) : Z := nv_loop_get_monotonic_time w.

(** ** Creation *)

Record nv_loop_config_t := mkConfig { c_max_events : Z; c_enable_signals : bool; c_enable_idle : bool }.
Definition NV_LOOP_CONFIG_DEFAULT : nv_loop_config_t := mkConfig 1024 true true.

(** [ep] is the result of [epoll_create1], [arr] tells whether the event array was
    allocated, [pip] whether [pipe] and the registration of its read end succeeded. *)
Definition nv_loop_init (cfg : option nv_loop_config_t) (ep : Z) (arr pip : bool) : Z * nv_loop_t :=
  let cfg := default NV_LOOP_CONFIG_DEFAULT cfg in
  let l := mkLoop ep (c_max_events cfg) LOOP_INIT 0 0 [] 0 0 0 0 0 0 0 false 0 in
  if ep =? -1 then (-1, l)
  else if arr then (0, with_wakeup pip 0 l) else (-1, l).

(** The descriptors that [nv_loop_init] opens and closes itself, in order, and what it leaves in
    [epoll_fd] and [wakeup_pipe]: [pp] is what [pipe] gives, [ctl] whether the read end could be
    registered ([pip] above is both).  Then what [nv_loop_cleanup] closes. *)
Inductive fd_event := Opened (f : Z) | Closed (f : Z).
Definition init_descriptors (ep : Z) (arr : bool) (pp : option (Z * Z)) (ctl : bool) : list fd_event * (Z * (Z * Z)) :=
  if ep =? -1 then ([], (-1, (-1, -1)))
  else if negb arr then ([Opened ep; Closed ep], (ep, (-1, -1)))
  else
    match pp with
    | None => ([Opened ep], (ep, (-1, -1)))
    | Some (r, w) =>
        if ctl then ([Opened ep; Opened r; Opened w], (ep, (r, w)))
        else ([Opened ep; Opened r; Opened w; Closed r; Closed w], (ep, (-1, -1)))
    end.
Definition cleanup_descriptors (k : Z * (Z * Z)) : list fd_event :=
  let '(epoll_fd, (p0, p1)) := k in
  (if 0 <=? p0 then [Closed p0] else []) ++ (if 0 <=? p1 then [Closed p1] else []) ++
  (if epoll_fd =? -1 then [] else [Closed epoll_fd]).
Definition opens (t : list fd_event) : list Z := omap (fun e => match e with Opened f => Some f | Closed _ => None end) t.
Definition closes (t : list fd_event) : list Z := omap (fun e => match e with Closed f => Some f | Opened _ => None end) t.

(** Initialisation and cleanup close each descriptor they opened once, except that the epoll
    descriptor is closed a second time when the event array could not be allocated. *)
Theorem nv_loop_epoll_closed_twice ep arr pp ctl :
  ep = -1 \/ 0 <= ep -> (forall r w, pp = Some (r, w) -> 0 <= r /\ 0 <= w) ->
  let '(t, k) := init_descriptors ep arr pp ctl in
  closes (t ++ cleanup_descriptors k) ≡ₚ opens (t ++ cleanup_descriptors k) ++ (if arr || (ep =? -1) then [] else [ep]).
Proof.
  intros Hep Hpp. unfold init_descriptors. destruct (Z.eqb_spec ep (-1)) as [->|Hne]; [by destruct arr|].
  destruct arr; cbn [negb orb]; [|cbn; by rewrite (proj2 (Z.eqb_neq ep (-1))) by done].
  destruct pp as [[r w]|]; [destruct (Hpp r w eq_refl) as [Hr Hw]; destruct ctl|]; cbn;
    rewrite ?(proj2 (Z.leb_le 0 r)), ?(proj2 (Z.leb_le 0 w)), ?(proj2 (Z.eqb_neq ep (-1))) by done; cbn; try done.
  - change [r; w; ep] with ([r; w] ++ [ep]). by rewrite Permutation_app_comm.
  - change [r; w; ep] with ([r; w] ++ [ep]). by rewrite Permutation_app_comm.
Qed.

(** [ev->loop && ev->active && ev->fd >= 0] unregisters the event; then the node is
    cut out of whatever list it is in and reset. *)
Definition nv_event_cleanup (w : world) (ev : Z) : outcome world :=
  if ev =? NULL then Ret w else
  e ← deref (evs w !! ev);
  w ← (if negb (loop e =? NULL) && active e && (0 <=? fd e)
       then '(_, w) ← nv_loop_del_event w ev; Ret w else Ret w);
  e ← deref (evs w !! ev);
  h ← store_if (set_prev (e_prev e)) (e_next e) (evs w);
  h ← store_if (set_next (e_next e)) (e_prev e) h;
  upd ev set_clean (on_evs h w).

Fixpoint cleanup_list (fuel : nat) (w : world) (ev : Z) : outcome world :=
  if ev =? NULL then Ret w else
  match fuel with
  | O => UB
  | S fuel' =>
      e ← deref (evs w !! ev);
      w ← nv_event_cleanup w ev;
      cleanup_list fuel' w (e_next e)
  end.

Definition nv_loop_detach_signalfd (w : world) : outcome world :=
  if signalfd_ev (lp w) =? NULL then Ret w else
  '(_, w) ← nv_loop_del_event w (signalfd_ev (lp w));
  Ret (on_loop (with_signalfd (-1) NULL) (on_evs (delete (signalfd_ev (lp w)) (evs w)) w)).

(** The address of [nv_loop_signalfd_handler]. *)
Definition SIGNALFD_HANDLER : Z := 2.

(** [new] is the result of [calloc], [ctl] of [epoll_ctl]. *)
Definition nv_loop_attach_signalfd (w : world) (sfd new ctl : Z) : outcome (Z * world) :=
  if (sfd <? 0) || (epoll_fd (lp w) <? 0) then Ret (-1, w) else
  w ← (if signalfd_ev (lp w) =? NULL then Ret w else nv_loop_detach_signalfd w);
  if new =? NULL then Ret (-1, on_loop (with_signalfd (signalfd_fd (lp w)) NULL) w) else
  let e := set_loop LOOP (mkEv sfd 0 0 false SIGNALFD_HANDLER LOOP 0 0 0 0 0 NV_EVENT_TYPE_IO 0 0 0) in
  let w := on_loop (with_signalfd sfd new) (on_evs (<[new := e]> (evs w)) w) in
  '(r, w) ← nv_loop_add_event w new EPOLLIN ctl;
  if r =? 0 then Ret (0, w)
  else Ret (-1, on_loop (with_signalfd (-1) NULL) (on_evs (delete new (evs w)) w)).

(** [f] bounds the walks along the lists. *)
Definition nv_loop_cleanup (f : nat) (w : world) (wr : write_result) : outcome (Z * world) :=
  let w := snd (nv_loop_stop w wr) in
  w ← cleanup_list f w (timers_head (lp w));
  w ← cleanup_list f w (idle_head (lp w));
  w ← nv_loop_detach_signalfd w;
  let w := on_loop (with_wakeup false 0) w in
  w ← fold_left (fun m s => w ← m; nv_event_cleanup w (snd s)) (sigs (lp w)) (Ret w);
  Ret (0, on_loop (fun l => with_state LOOP_STOPPED (with_epoll (-1) l)) w).

(** ** Dispatch *)
Section dispatch.
(** [call h w ev d]: the handler [h] runs in the world [w] for the event [ev]. *)
Variable call : Z -> world -> Z -> Z -> outcome world.

Definition nv_event_trigger (w : world) (ev rev : Z) : outcome world :=
  if ev =? NULL then Ret w else
  e ← deref (evs w !! ev);
  if handler e =? 0 then Ret w else
  w ← upd ev (set_trigger rev (u64 (trigger_count e + 1)) (clock w)) w;
  if loop e =? NULL then Ret w else call (handler e) w ev (data e).

(** epoll's event bits to the library's. *)
Definition to_revents (mask : Z) : Z :=
  let bit b v := if Z.land mask b =? 0 then 0 else v in
  Z.lor (Z.lor (Z.lor (bit EPOLLIN NV_EVENT_READ) (bit EPOLLOUT NV_EVENT_WRITE))
           (bit EPOLLERR NV_EVENT_ERROR)) (bit EPOLLHUP NV_EVENT_HUP).

(** One entry per ready descriptor: its bits and its event. *)
Fixpoint nv_loop_process_io_events (w : world) (ready : list (Z * Z)) : outcome world :=
  match ready with
  | [] => Ret w
  | (mask, ev) :: ready' =>
      w ← (if ev =? NULL then
             Ret (on_loop (fun l => if wakeup_inited l then with_wakeup true 0 l else l) w)
           else if to_revents mask =? 0 then Ret w
           else
             w ← nv_event_trigger w ev (to_revents mask);
             Ret (on_loop (fun l => with_stats (u64 (events_processed l + 1)) (timers_processed l)
                                      (signals_processed l) (idle_processed l) l) w));
      nv_loop_process_io_events w ready'
  end.

(** An expired timer: trigger it, then take it out of the list. *)
Definition fire_timer (w : world) (ev : Z) : outcome world :=
  w ← nv_event_trigger w ev NV_EVENT_TIMER;
  let w := on_loop (fun l => with_stats (events_processed l) (u64 (timers_processed l + 1))
                               (signals_processed l) (idle_processed l) l) w in
  '(h, head) ← nv_loop_remove_event_from_list (evs w) (timers_head (lp w)) ev;
  upd ev (set_loop NULL) (on_loop (with_timers head (next_timeout (lp w))) (on_evs h w)).

(** The walk over the timers; exhausted fuel is reported as [UB]. *)
Fixpoint timers_loop (fuel : nat) (now : Z) (w : world) (ev : Z) : outcome world :=
  if ev =? NULL then Ret w else
  match fuel with
  | O => UB
  | S fuel' =>
      e ← deref (evs w !! ev);
      let nxt := next e in
      w ← (if expire_time e <=? now then fire_timer w ev else Ret w);
      timers_loop fuel' now w nxt
  end.

Fixpoint min_expire (fuel : nat) (w : world) (ev nt : Z) : outcome Z :=
  if ev =? NULL then Ret nt else
  match fuel with
  | O => UB
  | S fuel' => e ← deref (evs w !! ev); min_expire fuel' w (next e) (earlier nt (expire_time e))
  end.

Definition nv_loop_process_timers (fuel : nat) (w : world) : outcome world :=
  let now := nv_loop_get_monotonic_time w in
  w ← timers_loop fuel now w (timers_head (lp w));
  nt ← min_expire fuel w (timers_head (lp w)) 0;
  Ret (on_loop (with_timers (timers_head (lp w)) nt) w).

Fixpoint idle_loop (fuel : nat) (w : world) (ev : Z) : outcome world :=
  if ev =? NULL then Ret w else
  match fuel with
  | O => UB
  | S fuel' =>
      e ← deref (evs w !! ev);
      w ← nv_event_trigger w ev NV_EVENT_IDLE;
      idle_loop fuel' (on_loop (fun l => with_stats (events_processed l) (timers_processed l)
                         (signals_processed l) (u64 (idle_processed l + 1)) l) w) (next e)
  end.
Definition nv_loop_process_idle_events (fuel : nat) (w : world) : outcome world :=
  idle_loop fuel w (idle_head (lp w)).


(** What a call of [epoll_wait] returns and the time after it. *)
Inductive wait_result :=
  | WaitReady (ready : list (Z * Z)) (t : Z)
  | WaitIntr (t : Z)
  | WaitFail.
Inductive run_result := Returned | Blocked.

(** One run of the loop over the results of its [epoll_wait] calls; [Blocked] when
    it waits for one more. *)
Fixpoint run_loop (fuel : nat) (script : list wait_result) (w : world) : outcome (run_result * world) :=
  match state (lp w) with
  | LOOP_RUNNING =>
      match script with
      | [] => Ret (Blocked, w)
      | WaitFail :: _ => Ret (Returned, w)
      | WaitIntr t :: script' => run_loop fuel script' (mkWorld (evs w) (lp w) t)
      | WaitReady ready t :: script' =>
          w ← nv_loop_process_io_events (mkWorld (evs w) (lp w) t) ready;
          w ← nv_loop_process_timers fuel w;
          w ← nv_loop_process_idle_events fuel w;
          run_loop fuel script' w
      end
  | _ => Ret (Returned, w)
  end.

Definition nv_loop_run (fuel : nat) (script : list wait_result) (w : world) : outcome (Z * run_result * world) :=
  match state (lp w) with
  | LOOP_RUNNING => Ret (-1, Returned, w)
  | _ => '(r, w) ← run_loop fuel script (on_loop (with_state LOOP_RUNNING) w); Ret (0, r, w)
  end.

End dispatch.

(** ** One pass over the timers

    The handlers of this section keep the events and the lists: they may do
    anything else (let time pass, stop the loop, change their own data). *)

(** What the link edits do not change. *)
Definition core (e : nv_event_ext_t) : Z * Z * Z * Z * Z * Z :=
  (expire_time e, trigger_count e, loop e, handler e, revents e, data e).

Definition quiet (w w' : world) : Prop :=
  evs w' = evs w /\ timers_head (lp w') = timers_head (lp w) /\ idle_head (lp w') = idle_head (lp w) /\
  timers_processed (lp w') = timers_processed (lp w).

(** What the loop itself does not touch in a pass: the clock and the loop but for its timer
    list and its counters. *)
Definition others (w : world) : Z * nv_loop_t := (clock w, with_timers 0 0 (with_stats 0 0 0 0 (lp w))).

Section pass.
Variable call : Z -> world -> Z -> Z -> outcome world.

(** From [w] to [w'] the calls of [l] were made, (handler, event, data) each, in this order;
    between them only the events, the timer list and the counters change. *)
Inductive called : list (Z * Z * Z) -> world -> world -> Prop :=
  | called_none w w' : others w' = others w -> called [] w w'
  | called_one h ev d l w w1 w2 w' : others w1 = others w -> call h w1 ev d = Ret w2 -> called l w2 w' -> called ((h, ev, d) :: l) w w'.

Lemma called_after l w1 w w' : others w1 = others w -> called l w1 w' -> called l w w'.
Proof.
  intros E Hc. destruct Hc as [w1 w' E0|h ev d l w1 w2 w3 w' E0 Ec Hc].
  - apply called_none. by rewrite E0.
  - eapply called_one; [|exact Ec|exact Hc]. by rewrite E0.
Qed.

Hypothesis call_quiet : forall h w ev d, exists w', call h w ev d = Ret w' /\ quiet w w'.

(** The event at [a] has been triggered as an expired timer and taken out. *)
Definition fired (e e' : nv_event_ext_t) : Prop :=
  expire_time e' = expire_time e /\ trigger_count e' = u64 (trigger_count e + 1) /\
  loop e' = NULL /\ revents e' = NV_EVENT_TIMER.

Lemma trigger_ok w ev e rev :
  ev <> NULL -> evs w !! ev = Some e -> handler e <> 0 -> loop e <> NULL ->
  exists w1 w', nv_event_trigger call w ev rev = Ret w' /\ others w1 = others w /\ call (handler e) w1 ev (data e) = Ret w' /\
    evs w' = <[ev := set_trigger rev (u64 (trigger_count e + 1)) (clock w) e]> (evs w) /\
    timers_head (lp w') = timers_head (lp w) /\ idle_head (lp w') = idle_head (lp w) /\
    timers_processed (lp w') = timers_processed (lp w).
Proof.
  intros Hev E Hh Hl. unfold nv_event_trigger, upd. destruct (Z.eqb_spec ev NULL) as [|_]; [done|].
  rewrite E. cbn [deref mbind outcome_bind]. destruct (Z.eqb_spec (handler e) 0) as [|_]; [done|].
  rewrite (store_eq _ _ _ e E). cbn [mbind outcome_bind]. rewrite (proj2 (Z.eqb_neq (loop e) NULL)) by done.
  set (w1 := on_evs _ w). destruct (call_quiet (handler e) w1 ev (data e)) as (w' & Ec & Q1 & Q2 & Q3 & Q4).
  exists w1, w'. by split_and!.
Qed.

(** One expired timer: it is triggered, unlinked and detached. *)
Lemma expire_step w K a R e :
  dlist (evs w) (timers_head (lp w)) (K ++ a :: R) -> evs w !! a = Some e -> handler e <> 0 -> loop e <> NULL ->
  exists w', fire_timer call w a = Ret w' /\ called [(handler e, a, data e)] w w' /\
   dlist (evs w') (timers_head (lp w')) (K ++ R) /\
   (forall x, x <> a -> core <$> evs w' !! x = core <$> evs w !! x) /\
   (forall x, ~ (x ∈ K ++ a :: R) -> evs w' !! x = evs w !! x) /\
   (exists e', evs w' !! a = Some e' /\ fired e e') /\
   idle_head (lp w') = idle_head (lp w) /\
   timers_processed (lp w') = u64 (timers_processed (lp w) + 1).
Proof.
  intros Hd E Hh Hl. destruct (dlist_at _ _ _ _ _ Hd) as (e0 & E0 & Ha & _).
  unfold fire_timer. destruct (trigger_ok w a e NV_EVENT_TIMER Ha E Hh Hl) as (w0 & w1 & -> & Ho & Ec & Ev1 & Th1 & Ih1 & Tp1).
  cbn [mbind outcome_bind].
  set (e1 := set_trigger NV_EVENT_TIMER (u64 (trigger_count e + 1)) (clock w) e) in *.
  assert (dlist (evs w1) (timers_head (lp w1)) (K ++ a :: R)) as Hd1.
  { rewrite Ev1, Th1. by apply (dlist_payload (evs w) (fun _ => e1) a e). }
  destruct (unlink_spec _ _ _ _ _ Hd1) as (h2 & head2 & n2 & Eu & Hd2 & Hf2 & En2 & _).
  cbv zeta. simpl evs. simpl timers_head. unfold nv_loop_remove_event_from_list. rewrite Eu.
  cbn [mbind outcome_bind]. unfold upd. simpl evs. rewrite (store_eq _ _ _ n2 En2).
  cbn [mbind outcome_bind].
  assert (forall x, core <$> h2 !! x = core <$> evs w1 !! x) as Hcore
    by (apply (unlink_payload core ltac:(done) ltac:(done) _ _ _ _ _ Eu)).
  eexists. split_and!; [done|econstructor; [exact Ho|exact Ec|by constructor]|..]; cbn [evs lp on_evs on_loop with_timers with_stats timers_head idle_head timers_processed].
  - by apply (dlist_payload h2 (set_loop NULL) a n2).
  - intros x Hx. rewrite lookup_insert_ne by done. rewrite Hcore, Ev1. by rewrite lookup_insert_ne.
  - intros x Hx. rewrite lookup_insert_ne by set_solver. rewrite Hf2 by done.
    rewrite Ev1. rewrite lookup_insert_ne; [done|set_solver].
  - specialize (Hcore a). rewrite En2, Ev1, lookup_insert_eq in Hcore. simpl in Hcore.
    injection Hcore as C1 C2 _ _ C5 _. exists (set_loop NULL n2). rewrite lookup_insert_eq.
    split; [done|]. by split_and!.
  - done.
  - by rewrite Tp1.
Qed.

(** Only the expired timers are touched. *)
Definition pass_result (now : Z) (evs0 evs1 : gmap Z nv_event_ext_t) (R : list Z) : Prop :=
  forall x e, x ∈ R -> evs0 !! x = Some e ->
    exists e', evs1 !! x = Some e' /\ if expire_time e <=? now then fired e e' else core e' = core e.

Lemma timers_loop_ok fuel now R w K exp cl :
  dlist (evs w) (timers_head (lp w)) (K ++ R) -> (length R <= fuel)%nat ->
  (forall x, x ∈ R -> exists e, evs w !! x = Some e /\ handler e <> 0 /\ expire_time e = exp x /\ loop e <> NULL /\ (handler e, x, data e) = cl x) ->
  in_range 64 (timers_processed (lp w)) ->
  exists w', timers_loop call fuel now w (default NULL (head R)) = Ret w' /\
    called (map cl (filter (fun x => exp x <= now) R)) w w' /\
    dlist (evs w') (timers_head (lp w')) (K ++ filter (fun x => now < exp x) R) /\
    pass_result now (evs w) (evs w') R /\
    (forall x, ~ (x ∈ R) -> core <$> evs w' !! x = core <$> evs w !! x) /\
    (forall x, ~ (x ∈ K ++ R) -> evs w' !! x = evs w !! x) /\
    idle_head (lp w') = idle_head (lp w) /\
    timers_processed (lp w') =
      u64 (timers_processed (lp w) + Z.of_nat (length (filter (fun x => exp x <= now) R))).
Proof.
  revert w K R. induction fuel as [|fuel IH]; intros w K R Hd Hf HR Htp;
    (destruct R as [|a R]; [exists w; rewrite Z.add_0_r, wrap_small by done; split_and!; try done; [by constructor|];
                            intros x e Hx; set_solver|]); [simpl in Hf; lia|].
  destruct (HR a ltac:(set_solver)) as (e & E & Hh & He & Hlp & Hcl).
  destruct (dlist_at _ _ _ _ _ Hd) as (e0 & E0 & Ha & Hnx). rewrite E in E0. injection E0 as <-.
  pose proof Hd as [Hnd _]. apply NoDup_app in Hnd as (_ & Hdis & [HaR HndR]%NoDup_cons).
  change (default NULL (head (a :: R))) with a. cbn [timers_loop]. destruct (Z.eqb_spec a NULL) as [|_]; [done|].
  rewrite E. cbn [deref mbind outcome_bind]. cbv zeta. rewrite Hnx, !filter_cons, <- !He.
  destruct (Z.leb_spec (expire_time e) now) as [Hexp|Hlive].
  - rewrite decide_True, decide_False by lia.
    destruct (expire_step w K a R e Hd E Hh Hlp) as (w1 & -> & Hcal1 & Hd1 & Hc1 & Hf1 & (e1 & E1 & Hfired) & Hi1 & Ht1).
    cbn [mbind outcome_bind].
    destruct (IH w1 K R Hd1) as (w' & -> & Hcal' & Hd' & Hp' & Hc' & Hf' & Hi' & Ht').
    + simpl in Hf. lia.
    + intros x Hx. destruct (HR x ltac:(set_solver)) as (ex & Ex & Hhx & Hexx & Hlx & Hclx).
      pose proof (Hc1 x ltac:(set_solver)) as Hcx. rewrite Ex in Hcx. simpl in Hcx.
      destruct (evs w1 !! x) as [ex'|]; [|done]. injection Hcx as C1 _ C3 C4 _ C6.
      exists ex'. split_and!; [done|congruence..].
    + rewrite Ht1. by apply wrap_range.
    + exists w'. split_and!; [done| |done| | | |congruence|].
      * cbn [map]. rewrite <- Hcl. inversion Hcal1 as [|h0 ev0 d0 l0 wa wb wc wd Ho Ec Hn]; subst. inversion Hn; subst. econstructor; [done..|].
        by eapply called_after.
      * intros x ex Hx Ex. destruct (decide (x = a)) as [->|Hxa].
        { rewrite E in Ex. injection Ex as <-. pose proof (Hc' a HaR) as Hca. rewrite E1 in Hca.
          destruct (evs w' !! a) as [e'|]; [|done]. simpl in Hca. injection Hca as C1 C2 C3 C4 C5 C6.
          exists e'. split; [done|]. destruct (Z.leb_spec (expire_time e) now); [|lia].
          destruct Hfired as (F1 & F2 & F3 & F4). split_and!; congruence. }
        pose proof (Hc1 x Hxa) as Hcx. rewrite Ex in Hcx. simpl in Hcx.
        destruct (evs w1 !! x) as [ex'|] eqn:Ex1; [|done]. injection Hcx as C1 C2 C3 C4 C5 C6.
        destruct (Hp' x ex' ltac:(set_solver) Ex1) as (e' & E' & Hres). exists e'. split; [done|].
        rewrite <- C1. unfold fired, core in *.
        destruct (expire_time ex' <=? now); [intuition congruence|congruence].
      * intros x Hx. rewrite Hc' by set_solver. apply Hc1. set_solver.
      * intros x Hx. rewrite Hf' by set_solver. apply Hf1. set_solver.
      * rewrite Ht', Ht1. cbn [length]. unfold wrap. rewrite Zplus_mod_idemp_l. f_equal. lia.
  - rewrite decide_False, decide_True by lia. cbn [mbind outcome_bind].
    destruct (IH w (K ++ [a]) R) as (w' & -> & Hcal' & Hd' & Hp' & Hc' & Hf' & Hi' & Ht');
      [by rewrite <- app_assoc|simpl in Hf; lia|intros; apply HR; set_solver|done|].
    exists w'. split_and!; auto.
    + by rewrite <- app_assoc in Hd'.
    + intros x ex Hx Ex. destruct (decide (x = a)) as [->|Hxa]; [|apply Hp'; set_solver].
      rewrite E in Ex. injection Ex as <-. pose proof (Hc' a HaR) as Hca. rewrite E in Hca.
      destruct (evs w' !! a) as [e'|]; [|done]. exists e'. split; [done|].
      destruct (Z.leb_spec (expire_time e) now); [lia|]. simpl in Hca. congruence.
    + intros x Hx. apply Hc'. set_solver.
    + intros x Hx. apply Hf'. set_solver.
Qed.

End pass.

(** The earliest of a list of expiry times, 0 for none. *)
Lemma min_expire_ok fuel w K R exp nt :
  dlist (evs w) (timers_head (lp w)) (K ++ R) -> (length R <= fuel)%nat ->
  (forall x, x ∈ R -> exists e, evs w !! x = Some e /\ expire_time e = exp x) ->
  min_expire fuel w (default NULL (head R)) nt = Ret (fold_left earlier (map exp R) nt).
Proof.
  revert K R nt. induction fuel as [|fuel IH]; intros K [|a R] nt Hd Hf HR; try done; [simpl in Hf; lia|].
  destruct (HR a ltac:(set_solver)) as (e & E & He).
  destruct (dlist_at _ _ _ _ _ Hd) as (e0 & E0 & Ha & Hnx). rewrite E in E0. injection E0 as <-.
  change (default NULL (head (a :: R))) with a. cbn [min_expire]. destruct (Z.eqb_spec a NULL) as [|_]; [done|].
  rewrite E. cbn [deref mbind outcome_bind]. rewrite Hnx, He. simpl.
  apply (IH (K ++ [a])); [by rewrite <- app_assoc|simpl in Hf; lia|]. intros x Hx. apply HR. set_solver.
Qed.

(** The expiry time of a timer, and the call that belongs to it. *)
Definition expire_of (w : world) (x : Z) : Z := default 0 (expire_time <$> evs w !! x).
Definition call_of (w : world) (x : Z) : Z * Z * Z := match evs w !! x with Some e => (handler e, x, data e) | None => (0, x, 0) end.

Lemma called_snoc call l w w1 w' : called call l w w1 -> others w' = others w1 -> called call l w w'.
Proof. induction 1 as [|h ev d l w0 w1 w2 w3 E Ec _ IH]; intros E'; [apply called_none; by rewrite E'|]. eapply called_one; [done..|]. by apply IH. Qed.

Lemma earlier_fold l nt :
  0 <= nt -> Forall (fun x => 0 < x) l ->
  let m := fold_left earlier l nt in
  0 <= m /\ (nt = 0 -> l = [] -> m = 0) /\ (0 < nt -> 0 < m /\ m <= nt) /\ Forall (fun x => 0 < m <= x) l /\
  (m = nt \/ m ∈ l).
Proof.
  intros Hnt Hl. revert nt Hnt. induction Hl as [|x l Hx Hl IH]; intros nt Hnt; simpl.
  { split_and!; [done|done|lia|constructor|by left]. }
  assert (0 < earlier nt x /\ earlier nt x <= x /\ (0 < nt -> earlier nt x <= nt) /\
    (earlier nt x = nt \/ earlier nt x = x)) as (E1 & E2 & E3 & E4).
  { unfold earlier. destruct (Z.eqb_spec nt 0), (Z.ltb_spec x nt); simpl; lia. }
  destruct (IH (earlier nt x) ltac:(lia)) as (A & _ & B & C & D). destruct (B E1) as [B1 B2].
  split_and!; [lia|done|lia| |].
  - constructor; [lia|done].
  - destruct D as [-> |D]; [|right; set_solver]. destruct E4 as [->| ->]; [by left|right; set_solver].
Qed.

(** C5: Timers.  Assumed: every armed timer has a handler and belongs to a loop, and the
    handlers leave the events and the lists alone (they may let time pass, stop the loop or
    change their own data); a handler that re-arms its timer breaks the list
    ([nv_loop_rearm_loses_timers]).  Then one pass of [nv_loop_process_timers] terminates, calls
    the handlers of exactly the expired timers, once each and in the order of the list, with
    their event and data, and nothing else; the expired ones are counted, detached and out of the
    list, the others keep their order and state, events of no timer are untouched, and
    [next_timeout] becomes the earliest remaining expiry (0 for none). *)
Theorem nv_loop_process_timers_correct
    (call : Z -> world -> Z -> Z -> outcome world) (w : world) (addrs : list Z) (fuel : nat) :
  (forall h w ev d, exists w', call h w ev d = Ret w' /\ quiet w w') ->
  dlist (evs w) (timers_head (lp w)) addrs -> (length addrs <= fuel)%nat ->
  (forall x e, x ∈ addrs -> evs w !! x = Some e -> handler e <> 0 /\ loop e <> NULL) ->
  in_range 64 (timers_processed (lp w)) -> 0 <= clock w ->
  let left := filter (fun x => clock w < expire_of w x) addrs in
  exists w', nv_loop_process_timers call fuel w = Ret w' /\
    called call (map (call_of w) (filter (fun x => expire_of w x <= clock w) addrs)) w w' /\
    dlist (evs w') (timers_head (lp w')) left /\
    pass_result (clock w) (evs w) (evs w') addrs /\
    (forall x, ~ (x ∈ addrs) -> evs w' !! x = evs w !! x) /\
    timers_processed (lp w') =
      u64 (timers_processed (lp w) + Z.of_nat (length (filter (fun x => expire_of w x <= clock w) addrs))) /\
    ((left = [] /\ next_timeout (lp w') = 0) \/
     (next_timeout (lp w') ∈ map (expire_of w) left /\ forall x, x ∈ left -> next_timeout (lp w') <= expire_of w x)).
Proof.
  intros Hcall Hd Hf Hh Htp Hclk left. unfold nv_loop_process_timers, nv_loop_get_monotonic_time.
  assert (forall x, x ∈ addrs -> exists e, evs w !! x = Some e /\ handler e <> 0 /\ expire_time e = expire_of w x /\ loop e <> NULL /\ (handler e, x, data e) = call_of w x) as HR.
  { intros x Hx. destruct Hd as [_ (lst & Hd)]. destruct (dseg_nonnull _ _ _ _ _ _ _ Hd Hx) as [_ [e E]].
    destruct (Hh x e Hx E). exists e. unfold expire_of, call_of. rewrite E. by split_and!. }
  rewrite (dlist_head _ _ _ Hd).
  destruct (timers_loop_ok call Hcall fuel (clock w) addrs w [] (expire_of w) (call_of w) Hd Hf HR Htp)
    as (w1 & -> & Hcal & Hd1 & Hp1 & _ & Hf1 & _ & Ht1).
  cbn [mbind outcome_bind]. simpl app in Hd1. fold left in Hd1.
  assert (min_expire fuel w1 (timers_head (lp w1)) 0 = Ret (fold_left earlier (map (expire_of w) left) 0)) as ->.
  { rewrite (dlist_head _ _ _ Hd1). apply (min_expire_ok fuel w1 [] left (expire_of w) 0 Hd1).
    - unfold left. etrans; [apply length_filter|done].
    - intros x Hx. apply list_elem_of_filter in Hx as [Hlt Hx]. destruct (HR x Hx) as (e & E & _ & He & _).
      destruct (Hp1 x e Hx E) as (e' & E' & Hres). exists e'. split; [done|].
      destruct (Z.leb_spec (expire_time e) (clock w)); [lia|]. unfold core in Hres. congruence. }
  cbn [mbind outcome_bind]. eexists. split_and!; [done|by eapply called_snoc|done|done|done|done|].
  cbn [lp on_loop next_timeout with_timers].
  destruct (earlier_fold (map (expire_of w) left) 0) as (_ & M1 & _ & M3 & M4); [lia| |].
  { apply Forall_fmap, Forall_forall. intros x Hx. apply list_elem_of_filter in Hx as [Hx _]. simpl. lia. }
  destruct left as [|y left'] eqn:El; [left; by auto|right]. rewrite Forall_forall in M3. split.
  - destruct M4 as [M4|M4]; [|done]. exfalso.
    assert (expire_of w y ∈ map (expire_of w) (y :: left')) as Hy by (simpl; set_solver).
    specialize (M3 _ Hy). simpl in M3, M4. lia.
  - intros x Hx. apply M3. by apply list_elem_of_fmap_2.
Qed.

(** ** The timer operations *)

(** The timer list is well formed and [next_timeout] is not later than any timer. *)
Record timers_inv (w : world) (addrs : list Z) : Prop := {
  ti_list : dlist (evs w) (timers_head (lp w)) addrs;
  ti_some : addrs <> [] -> 0 < next_timeout (lp w);
  ti_bound : forall x, x ∈ addrs -> next_timeout (lp w) <= expire_of w x;
  ti_nonneg : 0 <= next_timeout (lp w);
}.

Lemma earlier_bounds nt x : 0 <= nt -> 0 < x -> 0 < earlier nt x <= x /\ (0 < nt -> earlier nt x <= nt).
Proof. intros. unfold earlier. destruct (Z.eqb_spec nt 0), (Z.ltb_spec x nt); simpl; lia. Qed.

Lemma expire_of_payload w w' x :
  expire_time <$> evs w' !! x = expire_time <$> evs w !! x -> expire_of w' x = expire_of w x.
Proof. unfold expire_of. by intros ->. Qed.

(** Arming: the node is written, pushed at the head and [next_timeout] lowered. *)
Lemma arm_ok w ev e f addrs expire h' head' :
  timers_inv w addrs -> ~ (ev ∈ addrs) -> ev <> NULL -> evs w !! ev = Some e ->
  e_prev (f e) = e_prev e -> e_next (f e) = e_next e -> expire_time (f e) = expire -> 0 < expire ->
  push (<[ev := f e]> (evs w)) (timers_head (lp w)) ev = Ret (h', head') ->
  let w' := on_loop (with_timers head' (earlier (next_timeout (lp w)) expire)) (on_evs h' w) in
  timers_inv w' (ev :: addrs) /\ expire_of w' ev = expire /\
  (forall x, x <> ev -> expire_of w' x = expire_of w x) /\
  (forall x, ~ (x ∈ ev :: addrs) -> evs w' !! x = evs w !! x).
Proof.
  intros [Hd Hs Hb Hn] Hni Hev E Hfp Hfn Hfe Hpos Ep w'.
  assert (dlist (<[ev := f e]> (evs w)) (timers_head (lp w)) addrs) as Hd0
    by (by apply (dlist_payload (evs w) f ev e)).
  destruct (push_spec _ _ _ ev (f e) Hd0 Hni Hev) as (h1 & Ep' & Hd1 & Hf1); [by rewrite lookup_insert_eq|].
  rewrite Ep in Ep'. injection Ep' as -> ->.
  assert (forall x, expire_time <$> evs w' !! x = expire_time <$> <[ev := f e]> (evs w) !! x) as Hx
    by (apply (push_payload expire_time ltac:(done) ltac:(done) _ _ _ _ _ Ep)).
  assert (expire_of w' ev = expire) as Hev' by (unfold expire_of; by rewrite Hx, lookup_insert_eq; simpl).
  assert (forall x, x <> ev -> expire_of w' x = expire_of w x) as Hother.
  { intros x Hne. apply expire_of_payload. by rewrite Hx, lookup_insert_ne. }
  destruct (earlier_bounds (next_timeout (lp w)) expire Hn Hpos) as [[B1 B2] B3].
  split_and!; [split|done|done|].
  - done.
  - intros _. done.
  - intros x [->|Hin]%elem_of_cons; [rewrite Hev'; done|].
    rewrite Hother by (intros ->; done). etrans; [apply B3, Hs; intros ->; by apply not_elem_of_nil in Hin|by apply Hb].
  - simpl. lia.
  - intros x Hnin. change (evs w' !! x) with (h1 !! x). rewrite Hf1 by done.
    rewrite lookup_insert_ne; [done|set_solver].
Qed.

Lemma disarm_ok w ev addrs1 addrs2 h' head' :
  timers_inv w (addrs1 ++ ev :: addrs2) ->
  unlink (evs w) (timers_head (lp w)) ev = Ret (h', head') ->
  let w' := on_loop (with_timers head' (next_timeout (lp w))) (on_evs h' w) in
  timers_inv w' (addrs1 ++ addrs2) /\ (forall x, expire_of w' x = expire_of w x).
Proof.
  intros [Hd Hs Hb Hn] Eu w'. destruct (unlink_spec _ _ _ _ _ Hd) as (h1 & head1 & n1 & Eu' & Hd1 & _).
  rewrite Eu in Eu'. injection Eu' as -> ->.
  assert (forall x, expire_of w' x = expire_of w x) as Hx.
  { intros x. apply expire_of_payload. by eapply (unlink_payload expire_time ltac:(done) ltac:(done)). }
  split; [|done]. split; [done| | |done].
  - intros _. apply Hs. by destruct addrs1.
  - intros x Hin. rewrite Hx. apply Hb. set_solver.
Qed.

Lemma detach_inv w ev e addrs :
  timers_inv w addrs -> evs w !! ev = Some e ->
  exists w', upd ev (set_loop NULL) w = Ret w' /\ timers_inv w' addrs /\
    (forall x, expire_of w' x = expire_of w x) /\ lp w' = lp w.
Proof.
  intros [Hd Hs Hb Hn] E. unfold upd. rewrite (store_eq _ _ _ e E). cbn [mbind outcome_bind].
  eexists. split; [done|].
  assert (forall x, expire_of (on_evs (<[ev:=set_loop NULL e]> (evs w)) w) x = expire_of w x) as Hx.
  { intros x. apply expire_of_payload. simpl. destruct (decide (x = ev)) as [->|].
    - by rewrite lookup_insert_eq, E.
    - by rewrite lookup_insert_ne. }
  split_and!; [split; try done|done|done].
  - by apply (dlist_payload (evs w) (set_loop NULL) ev e).
  - intros x Hin. rewrite Hx. by apply Hb.
Qed.

(** C7: Timer list.  Outside a pass, adding a timer that is not armed, and deleting or
    changing the timeout of one that is armed, succeed and keep the list well formed, with exactly
    the expected members and expiry times, and keep [next_timeout] no later than any armed timer.
    (Deleting or changing a timer that is not armed, one that has fired for example, destroys the
    list: [nv_loop_del_timer_twice].) *)
Theorem nv_loop_timer_ops (w : world) (ev ms : Z) (e : nv_event_ext_t) (addrs1 addrs2 : list Z) :
  0 < clock w + ms < 2 ^ 64 -> ev <> NULL -> evs w !! ev = Some e -> ~ (ev ∈ addrs1 ++ addrs2) ->
  (timers_inv w (addrs1 ++ addrs2) ->
   exists w', nv_loop_add_timer w ev ms = Ret (0, w') /\ timers_inv w' (ev :: addrs1 ++ addrs2) /\
     expire_of w' ev = clock w + ms /\ forall x, x <> ev -> expire_of w' x = expire_of w x) /\
  (timers_inv w (addrs1 ++ ev :: addrs2) ->
   exists w', nv_loop_del_timer w ev = Ret (0, w') /\ timers_inv w' (addrs1 ++ addrs2) /\
     forall x, expire_of w' x = expire_of w x) /\
  (timers_inv w (addrs1 ++ ev :: addrs2) ->
   exists w', nv_loop_modify_timer w ev ms = Ret (0, w') /\ timers_inv w' (ev :: addrs1 ++ addrs2) /\
     expire_of w' ev = clock w + ms /\ forall x, x <> ev -> expire_of w' x = expire_of w x).
Proof.
  intros Hms Hev E Hni. assert (u64 (clock w + ms) = clock w + ms) as Hw by (apply wrap_small; split; lia).
  split_and!; intros Hinv.
  - unfold nv_loop_add_timer, nv_loop_get_monotonic_time, upd. destruct (Z.eqb_spec ev NULL) as [|_]; [done|].
    cbv zeta. rewrite Hw. rewrite (store_eq _ _ _ e E). cbn [mbind outcome_bind].
    cbn [evs lp on_evs]. unfold nv_loop_add_event_to_list.
    set (f := fun e => set_timeout ms (clock w + ms) (set_loop LOOP (set_type NV_EVENT_TYPE_TIMER e))).
    destruct (push_spec (<[ev := f e]> (evs w)) (timers_head (lp w)) (addrs1 ++ addrs2) ev (f e))
      as (h1 & Ep & _ & _); auto; [|by rewrite lookup_insert_eq|].
    { apply (dlist_payload (evs w) f ev e); try done. apply Hinv. }
    unfold f in Ep at 1. cbv beta in Ep. rewrite Ep. cbn [mbind outcome_bind]. eexists. split; [done|].
    destruct (arm_ok w ev e f _ (clock w + ms) h1 ev Hinv Hni Hev E) as (A & B & C & _); try done; lia.
  - unfold nv_loop_del_timer. destruct (Z.eqb_spec ev NULL) as [|_]; [done|].
    pose proof Hinv as [Hd _ _ _]. destruct (unlink_spec _ _ _ _ _ Hd) as (h1 & head1 & n1 & Eu & _ & _ & En & _).
    unfold nv_loop_remove_event_from_list. rewrite Eu. cbn [mbind outcome_bind].
    destruct (disarm_ok _ _ _ _ _ _ Hinv Eu) as [Hi Hx].
    destruct (detach_inv _ ev n1 _ Hi En) as (w' & -> & Hi' & Hx' & _). cbn [mbind outcome_bind].
    exists w'. split_and!; [done|done|]. intros x. by rewrite Hx', Hx.
  - unfold nv_loop_modify_timer. destruct (Z.eqb_spec ev NULL) as [|_]; [done|].
    pose proof Hinv as [Hd _ _ _]. destruct (unlink_spec _ _ _ _ _ Hd) as (h1 & head1 & n1 & Eu & _ & _ & En & _).
    unfold nv_loop_remove_event_from_list. rewrite Eu. cbn [mbind outcome_bind].
    destruct (disarm_ok _ _ _ _ _ _ Hinv Eu) as [Hi Hx]. cbv zeta.
    set (w1 := on_loop _ _) in *. unfold nv_loop_get_monotonic_time, upd.
    change (clock w1) with (clock w). rewrite Hw.
    rewrite (store_eq _ _ _ n1 En). cbn [mbind outcome_bind]. cbn [evs lp on_evs]. unfold nv_loop_add_event_to_list.
    set (f := set_timeout ms (clock w + ms)).
    destruct (push_spec (<[ev := f n1]> (evs w1)) (timers_head (lp w1)) (addrs1 ++ addrs2) ev (f n1))
      as (h2 & Ep & _ & _); auto; [|by rewrite lookup_insert_eq|].
    { apply (dlist_payload (evs w1) f ev n1); try done. apply Hi. }
    change (evs w1) with h1 in Ep. rewrite Ep. cbn [mbind outcome_bind]. eexists. split; [done|].
    destruct (arm_ok w1 ev n1 f _ (clock w + ms) h2 ev Hi Hni Hev En) as (A & B & C & _); try done; [lia|].
    split_and!; [done|done|]. intros x Hne. rewrite <- Hx. by apply C.
Qed.

(** ** Waiting and stopping *)


(** Stopping.  A running loop that is stopped, by a handler or another
    thread, ends without a further wait, and can be run again; a loop that is
    already running refuses a second run. *)
Theorem nv_loop_stop_ends_run (call : Z -> world -> Z -> Z -> outcome world) (w : world)
    (wr : write_result) (fuel : nat) (script : list wait_result) :
  state (lp w) = LOOP_RUNNING ->
  let w' := snd (nv_loop_stop w wr) in
  fst (nv_loop_stop w wr) = 0 /\
  run_loop call fuel script w' = Ret (Returned, w') /\
  nv_loop_run call fuel script w = Ret (-1, Returned, w) /\
  nv_loop_run call fuel [] w' = Ret (0, Blocked, on_loop (with_state LOOP_RUNNING) w') /\
  (wakeup_inited (lp w) = true -> wr = Written -> wakeup_pending (lp w') = wakeup_pending (lp w) + 1).
Proof.
  intros Hst w'. assert (state (lp w') = LOOP_STOPPING) as Hst'.
  { unfold w', nv_loop_stop, nv_loop_wakeup. rewrite Hst. simpl. by destruct (wakeup_inited (lp w)), wr. }
  split_and!.
  - unfold nv_loop_stop. by rewrite Hst.
  - destruct script; simpl; by rewrite Hst'.
  - unfold nv_loop_run. by rewrite Hst.
  - unfold nv_loop_run. rewrite Hst'. done.
  - intros Hi ->. unfold w', nv_loop_stop, nv_loop_wakeup. rewrite Hst. simpl. by rewrite Hi.
Qed.

(** Pause and resume.  Pausing a running loop makes its run return (there
    is no paused state), and resuming it afterwards marks it as running although
    no run is active: every later [nv_loop_run] is refused. *)
Theorem nv_loop_resume_dead (call : Z -> world -> Z -> Z -> outcome world) (w : world)
    (fuel : nat) (script script' : list wait_result) :
  state (lp w) = LOOP_RUNNING ->
  let w1 := snd (nv_loop_pause w) in
  let w2 := snd (nv_loop_resume w1) in
  run_loop call fuel script w1 = Ret (Returned, w1) /\
  nv_loop_is_running w2 = true /\ nv_loop_run call fuel script' w2 = Ret (-1, Returned, w2).
Proof.
  intros Hst. unfold nv_loop_pause. rewrite Hst. cbn [snd]. cbv zeta. split_and!; [|done|done].
  by destruct script.
Qed.

(** ** A handler that re-arms its own timer *)

(** What the heartbeat and the module tick do in their handlers. *)
Definition rearm (ms : Z) : Z -> world -> Z -> Z -> outcome world :=
  fun _ w ev _ => '(_, w) ← nv_loop_add_timer w ev ms; Ret w.

(** Event 16 expires at 100, event 32 at 500; both are armed at time 0. *)
Definition timer_ev (h : Z) : nv_event_ext_t := mkEv (-1) 0 0 false h 0 0 0 0 0 0 0 1 0 0.
Definition empty_loop : nv_loop_t := snd (nv_loop_init None 5 true true).
Definition idle_world : world := mkWorld (<[16 := timer_ev 7]> (<[32 := timer_ev 8]> ∅)) empty_loop 0.
Definition two_timers : world :=
  match nv_loop_add_timer idle_world 32 500 with
  | Ret (_, w) => match nv_loop_add_timer w 16 100 with Ret (_, w) => w | _ => idle_world end
  | _ => idle_world
  end.
Definition at_time (t : Z) (w : world) : world := mkWorld (evs w) (lp w) t.
Definition ret_or (d : world) (m : outcome world) : world := match m with Ret w => w | _ => d end.

Lemma two_timers_inv : timers_inv two_timers [16; 32].
Proof.
  split; [|vm_compute; congruence| |vm_compute; congruence].
  - split; [repeat constructor; set_solver|]. exists 32.
    split; [reflexivity|]. split; [done|]. eexists. split; [vm_compute; reflexivity|]. split; [reflexivity|].
    split; [reflexivity|]. split; [done|]. eexists. split; [vm_compute; reflexivity|]. split; [reflexivity|].
    split; reflexivity.
  - intros x Hx. rewrite !elem_of_cons, elem_of_nil in Hx. destruct Hx as [->|[->|[]]]; vm_compute; congruence.
Qed.

(** Re-arming.  When the handler of an expired timer arms the same timer
    again, the pass then takes it out of the list it has just entered: the timer
    keeps no loop, the other timer (not yet due) is no longer reachable from the
    head, and at the new expiry time no handler is called any more (a handler
    that would crash is not reached): a periodic timer fires once. *)
Theorem nv_loop_rearm_loses_timers :
  timers_inv two_timers [16; 32] /\
  let w1 := ret_or two_timers (nv_loop_process_timers (rearm 1000) 10 (at_time 100 two_timers)) in
  (timers_head (lp w1) = 16 /\ e_next <$> evs w1 !! 16 = Some NULL /\ loop <$> evs w1 !! 16 = Some NULL /\
   expire_of w1 32 = 500 /\ next_timeout (lp w1) = 1100) /\
  exists w2, nv_loop_process_timers (fun _ _ _ _ => UB) 10 (at_time 1100 w1) = Ret w2 /\
    timers_head (lp w2) = NULL.
Proof.
  split; [exact two_timers_inv|].
  cbv zeta. split; [vm_compute; repeat split; reflexivity|]. eexists. split; vm_compute; reflexivity.
Qed.

(** Double removal.  Deleting a timer that is no longer in the list (its
    links are NULL: it has fired, or its own handler deleted it) sets the head of
    the timer list to NULL: every other armed timer is lost. *)
Theorem nv_loop_del_timer_twice (w : world) (ev : Z) (e : nv_event_ext_t) :
  ev <> NULL -> evs w !! ev = Some e -> e_prev e = NULL -> e_next e = NULL ->
  exists w', nv_loop_del_timer w ev = Ret (0, w') /\ timers_head (lp w') = NULL /\
    forall x, x <> ev -> evs w' !! x = evs w !! x.
Proof.
  intros Hev E Hp Hn. unfold nv_loop_del_timer, nv_loop_remove_event_from_list, upd.
  destruct (Z.eqb_spec ev NULL) as [|_]; [done|].
  unfold unlink. rewrite E. cbn [deref mbind outcome_bind prev next event_Linked]. rewrite Hp, Hn.
  unfold store_if. cbn [Z.eqb NULL mbind outcome_bind]. rewrite (store_eq _ _ _ e E). cbn [mbind outcome_bind].
  rewrite (store_eq _ _ _ (set_prev NULL (set_next NULL e))) by (simpl; by rewrite lookup_insert_eq).
  cbn [mbind outcome_bind]. eexists. split_and!; [done|done|].
  intros x Hx. simpl. by rewrite !lookup_insert_ne.
Qed.

(** ** Witnesses *)

Lemma nv_loop_process_timers_correct_witness :
  exists w', nv_loop_process_timers (fun _ w _ _ => Ret w) 2 (at_time 100 two_timers) = Ret w' /\
    called (fun _ w _ _ => Ret w) [(7, 16, 0)] (at_time 100 two_timers) w' /\
    dlist (evs w') (timers_head (lp w')) [32] /\ timers_processed (lp w') = 1 /\ next_timeout (lp w') = 500.
Proof.
  destruct (nv_loop_process_timers_correct (fun _ w _ _ => Ret w) (at_time 100 two_timers) [16; 32] 2)
    as (w' & E & C & D & _ & _ & T & _).
  - intros h w ev d. exists w. split; [reflexivity|]. repeat split; reflexivity.
  - exact (ti_list _ _ two_timers_inv).
  - simpl. lia.
  - intros x e Hx. rewrite !elem_of_cons, elem_of_nil in Hx.
    destruct Hx as [->|[->|[]]]; intros E; vm_compute in E; injection E as <-; by split.
  - vm_compute. intuition congruence.
  - vm_compute. congruence.
  - exists w'. split; [exact E|]. split; [exact C|]. split; [exact D|]. split; [exact T|].
    vm_compute in E. injection E as <-. reflexivity.
Defined.

Lemma nv_loop_timer_ops_witness :
  exists w', nv_loop_modify_timer two_timers 32 40 = Ret (0, w') /\ timers_inv w' [32; 16] /\ expire_of w' 32 = 40.
Proof.
  destruct (nv_loop_timer_ops two_timers 32 40
    (mkEv (-1) 0 0 false 8 0 500 500 0 16 LOOP NV_EVENT_TYPE_TIMER 1 0 0) [16] []) as (_ & _ & T).
  - vm_compute. intuition congruence.
  - done.
  - vm_compute. reflexivity.
  - set_solver.
  - destruct (T two_timers_inv) as (w' & E & I & X & _). exists w'. split; [exact E|]. split; [exact I|exact X].
Defined.


Definition running : world := on_loop (with_state LOOP_RUNNING) two_timers.
Lemma nv_loop_stop_ends_run_witness :
  run_loop (fun _ w _ _ => Ret w) 5 [WaitReady [] 50] (snd (nv_loop_stop running Written)) =
    Ret (Returned, snd (nv_loop_stop running Written)).
Proof. apply (nv_loop_stop_ends_run (fun _ w _ _ => Ret w) running Written 5 [WaitReady [] 50]). reflexivity. Defined.

Lemma nv_loop_resume_dead_witness :
  nv_loop_run (fun _ w _ _ => Ret w) 5 [] (snd (nv_loop_resume (snd (nv_loop_pause running)))) =
    Ret (-1, Returned, snd (nv_loop_resume (snd (nv_loop_pause running)))).
Proof. apply (nv_loop_resume_dead (fun _ w _ _ => Ret w) running 5 [] []). reflexivity. Defined.

Lemma nv_loop_del_timer_twice_witness :
  exists w', nv_loop_del_timer (mkWorld (<[48 := timer_ev 9]> (evs two_timers)) (lp two_timers) 0) 48 = Ret (0, w') /\
    timers_head (lp w') = NULL.
Proof.
  destruct (nv_loop_del_timer_twice (mkWorld (<[48 := timer_ev 9]> (evs two_timers)) (lp two_timers) 0) 48 (timer_ev 9))
    as (w' & E & T & _); [done|reflexivity|reflexivity|reflexivity|].
  exists w'. split; [exact E|exact T].
Defined.

End EventLoop.
