(* ===== verification/Ini.v ===== *)
(** * INI files (base/nv_ini.c)

    A file is the list of its bytes.  Buffers that the code trims or cuts in
    place are modelled by the string they hold afterwards together with the
    string the returned pointer denotes.  Allocation is taken to succeed.
    [nv_ini_get_double] is left out (floating point). *)
From S2P Require Import Prelude.

Module Ini.

Record nv_ini_entry_t := mkEntry { section : cstr; key : cstr; value : cstr }.
(** The list from [head] on, newest first. *)
Record nv_ini_t := mkIni { entries : list nv_ini_entry_t; count : Z }.

Definition rtrim (s : cstr) : cstr := rev (drop_while isspace (rev s)).

(** The buffer after the call and the string at the returned pointer. *)
Definition nv_ini_trim_inplace (s : cstr) : cstr * cstr :=
  let t := rtrim (drop_while isspace s) in
  (take_while isspace s ++ t, t).

Definition nv_ini_strip_comment (line : cstr) : cstr :=
  match strchr line (ch ";") with
  | Some i => fst (nv_ini_trim_inplace (take i line))
  | None => line
  end.

Definition nv_ini_add_entry (ini : nv_ini_t) (sec k v : cstr) : nv_ini_t :=
  mkIni (mkEntry sec k v :: entries ini) (count ini + 1).

Definition entry_matches (sec k : cstr) (e : nv_ini_entry_t) : bool :=
  strcasecmp_eq (section e) sec && strcmp_eq (key e) k.

(** A NULL section is the global one. *)
Definition nv_ini_find (ini : option nv_ini_t) (sec : option cstr) (k : option cstr) : option nv_ini_entry_t :=
  match ini, k with
  | Some ini, Some k => List.find (entry_matches (default [] sec) k) (entries ini)
  | _, _ => None
  end.

Definition SECTION_SIZE : nat := 128.
Definition LINE_SIZE : nat := 1024.

(** One line of the file: the current section and the entries so far. *)
Definition parse_line (st : cstr * nv_ini_t) (line : cstr) : cstr * nv_ini_t :=
  let '(sec, ini) := st in
  let p := snd (nv_ini_trim_inplace (nv_ini_strip_comment line)) in
  match p with
  | [] => st
  | c :: rest =>
      if c =? ch "[" then
        match strchr p (ch "]") with
        | None => st
        | Some rb => (fst (nv_ini_trim_inplace (str_trunc SECTION_SIZE (drop 1 (take rb p)))), ini)
        end
      else
        match strchr p (ch "=") with
        | None => st
        | Some eq =>
            let k := snd (nv_ini_trim_inplace (take eq p)) in
            let v := snd (nv_ini_trim_inplace (drop (S eq) p)) in
            match k with
            | [] => st
            | _ => (sec, nv_ini_add_entry ini sec k v)
            end
        end
  end.

(** [fgets(line, n + 1, fp)]: at most [n] bytes, up to and including a newline. *)
Fixpoint fgets (n : nat) (content : list Z) : list Z * list Z :=
  match n, content with
  | O, _ => ([], content)
  | _, [] => ([], [])
  | S n', c :: content' =>
      if c =? 10 then ([c], content')
      else let '(l, r) := fgets n' content' in (c :: l, r)
  end.

(** The string in the line buffer ends at the first NUL. *)
Definition c_string (bytes : list Z) : cstr := take_while (fun c => negb (c =? 0)) bytes.

(** Every call of [fgets] reads at least one byte, so [length content] calls do. *)
Fixpoint load_loop (fuel : nat) (content : list Z) (st : cstr * nv_ini_t) : cstr * nv_ini_t :=
  match fuel, content with
  | S fuel', _ :: _ =>
      let '(line, rest) := fgets (LINE_SIZE - 1) content in
      load_loop fuel' rest (parse_line st (c_string line))
  | _, _ => st
  end.

(** [path] is NULL, or the file it names: missing, or its content. *)
Definition nv_ini_load (path : option (option (list Z))) : option nv_ini_t :=
  match path with
  | Some (Some content) => Some (snd (load_loop (length content) content ([], mkIni [] 0)))
  | _ => None
  end.

Definition nv_ini_has_key (ini : option nv_ini_t) (sec k : option cstr) : bool :=
  match nv_ini_find ini sec k with Some _ => true | None => false end.

Definition nv_ini_get_string (ini : option nv_ini_t) (sec k dflt : option cstr) : option cstr :=
  match nv_ini_find ini sec k with Some e => Some (value e) | None => dflt end.

Definition nv_ini_get_bool (ini : option nv_ini_t) (sec k : option cstr) (dflt : Z) : Z :=
  match nv_ini_get_string ini sec k None with
  | None => dflt
  | Some v =>
      if strcasecmp_eq v (str "true") || strcasecmp_eq v (str "yes") ||
         strcasecmp_eq v (str "on") || strcmp_eq v (str "1") then 1
      else if strcasecmp_eq v (str "false") || strcasecmp_eq v (str "no") ||
              strcasecmp_eq v (str "off") || strcmp_eq v (str "0") then 0
      else dflt
  end.

Definition nv_ini_get_int (ini : option nv_ini_t) (sec k : option cstr) (dflt : Z) : Z :=
  match nv_ini_get_string ini sec k None with
  | None => dflt
  | Some v => i32 (strtol 64 v)
  end.
Definition nv_ini_get_int64 (ini : option nv_ini_t) (sec k : option cstr) (dflt : Z) : Z :=
  match nv_ini_get_string ini sec k None with
  | None => dflt
  | Some v => strtol 64 v
  end.

(** ** Trimming *)

Lemma rtrim_app_spaces s w : Forall (fun c => isspace c = true) w -> rtrim (s ++ w) = rtrim s.
Proof.
  intros Hw. unfold rtrim. rewrite rev_app_distr. f_equal.
  assert (Forall (fun c => isspace c = true) (rev w)) as Hr by (by apply List.Forall_rev).
  induction Hr as [|c l Hc _ IH]; simpl; [done|]. by rewrite Hc.
Qed.

Lemma rtrim_id s : (forall c, last s = Some c -> isspace c = false) -> rtrim s = s.
Proof.
  intros Hs. unfold rtrim. destruct s as [|c s _] using rev_ind; [done|].
  rewrite rev_app_distr. simpl. rewrite last_snoc in Hs. rewrite (Hs c) by done.
  simpl. by rewrite rev_involutive.
Qed.

Definition trimmed (s : cstr) : Prop :=
  (forall c s', s = c :: s' -> isspace c = false) /\ (forall c, last s = Some c -> isspace c = false).

Lemma trim_trimmed s : trimmed s -> snd (nv_ini_trim_inplace s) = s.
Proof. intros [H1 H2]. simpl. rewrite drop_while_id by done. by apply rtrim_id. Qed.

Lemma trim_trailing s w :
  trimmed s -> Forall (fun c => isspace c = true) w -> snd (nv_ini_trim_inplace (s ++ w)) = s.
Proof.
  intros [H1 H2] Hw. simpl. destruct s as [|c s].
  - simpl. assert (drop_while isspace w = []) as ->; [|done].
    induction Hw as [|x l Hx _ IH]; simpl; [done|]. by rewrite Hx.
  - simpl. rewrite (H1 c s) by done. change (c :: s ++ w) with ((c :: s) ++ w).
    rewrite rtrim_app_spaces by done. by apply rtrim_id.
Qed.

(** ** Printing a document *)

Inductive item := Section (name : cstr) | Entry (k v : cstr).

Definition print_item (i : item) : list Z :=
  match i with
  | Section name => ch "[" :: name ++ [ch "]"; 10]
  | Entry k v => k ++ ch "=" :: v ++ [10]
  end.
Definition print (doc : list item) : list Z := concat (map print_item doc).

(** The state after the items, as the abstract reader sees it. *)
Definition read_item (st : cstr * nv_ini_t) (i : item) : cstr * nv_ini_t :=
  match i with
  | Section name => (name, snd st)
  | Entry k v => (fst st, nv_ini_add_entry (snd st) (fst st) k v)
  end.

(** Characters a line may contain: no NUL, newline or comment sign. *)
Definition line_char (c : Z) : Prop := char_ok c /\ c <> 10 /\ c <> ch ";".
Definition item_ok (i : item) : Prop :=
  (length (print_item i) < LINE_SIZE)%nat /\
  match i with
  | Section name =>
      Forall line_char name /\ ~ (ch "]" ∈ name) /\ (length name < SECTION_SIZE)%nat /\
      (forall c, last name = Some c -> isspace c = false)
  | Entry k v =>
      Forall line_char k /\ Forall line_char v /\ ~ (ch "=" ∈ k) /\ trimmed k /\ trimmed v /\
      k <> [] /\ head k <> Some (ch "[")
  end.

Lemma fgets_line l rest :
  Forall (fun c => c <> 10) l -> forall n, (length l < n)%nat ->
  fgets n (l ++ 10 :: rest) = (l ++ [10], rest).
Proof.
  induction 1 as [|c l Hc Hl IH]; intros [|n] Hn; simpl in *; try lia; [done|].
  destruct (Z.eqb_spec c 10); [done|]. rewrite IH by lia. done.
Qed.

Lemma c_string_ok l : Forall (fun c => c <> 0) l -> c_string l = l.
Proof.
  unfold c_string. induction 1 as [|c l Hc _ IH]; simpl; [done|].
  destruct (Z.eqb_spec c 0); [done|]. simpl. by rewrite IH.
Qed.

Lemma strchr_app_first l c r : ~ (c ∈ l) -> strchr (l ++ c :: r) c = Some (length l).
Proof.
  intros Hn. apply strchr_Some. split; [by rewrite list_lookup_middle|].
  intros j Hj E. apply Hn. rewrite lookup_app_l in E by done. by eapply list_elem_of_lookup_2.
Qed.

Lemma strip_no_comment l : ~ (ch ";" ∈ l) -> nv_ini_strip_comment l = l.
Proof. intros Hn. unfold nv_ini_strip_comment. by apply strchr_None in Hn as ->. Qed.

Lemma trim_buffer_id s : (forall c, last s = Some c -> isspace c = false) -> fst (nv_ini_trim_inplace s) = s.
Proof.
  intros Hl. simpl. rewrite rtrim_id; [apply take_drop_while|].
  intros c Hc. destruct (drop_while_suffix isspace s) as (w & Hw & _). apply Hl. rewrite Hw.
  rewrite last_app. by rewrite Hc.
Qed.

Lemma line_char_in l c : Forall line_char l -> c = ch ";" \/ c = 10 \/ c = 0 -> ~ (c ∈ l).
Proof.
  intros Hl Hc Hin. rewrite Forall_forall in Hl. destruct (Hl c Hin) as ([? ?] & ? & ?).
  destruct Hc as [-> | [-> | ->]]; [done|done|lia].
Qed.

Lemma parse_section st name : item_ok (Section name) ->
  parse_line st (print_item (Section name)) = read_item st (Section name).
Proof.
  intros (_ & Hc & Hrb & Hlen & Hlast). destruct st as [sec ini]. unfold parse_line, print_item.
  rewrite strip_no_comment.
  2: { pose proof (line_char_in name (ch ";") Hc ltac:(auto)).
       rewrite elem_of_cons, elem_of_app, !elem_of_cons, elem_of_nil.
       intros [?|[?|[?|[?|?]]]]; [done..|done|done|done]. }
  change (ch "[" :: name ++ [ch "]"; 10]) with (ch "[" :: (name ++ [ch "]"] ++ [10])).
  rewrite app_assoc, app_comm_cons. rewrite trim_trailing; [| |by repeat constructor].
  2: { split; [by intros c s' [= <- _]|]. intros c. rewrite app_comm_cons, last_snoc. by intros [= <-]. }
  cbn [read_item snd]. change (ch "[" =? ch "[") with true. cbv iota.
  rewrite app_comm_cons, strchr_app_first.
  2: { rewrite elem_of_cons. intros [?|?]; [done|by apply Hrb]. }
  f_equal. rewrite take_app_length. cbn [drop]. unfold str_trunc.
  rewrite drop_0, take_ge by (unfold SECTION_SIZE in *; lia). by apply trim_buffer_id.
Qed.

Lemma parse_entry st k v : item_ok (Entry k v) ->
  parse_line st (print_item (Entry k v)) = read_item st (Entry k v).
Proof.
  intros (_ & Hk & Hv & Heq & Htk & Htv & Hne & Hhd). destruct st as [sec ini]. unfold parse_line, print_item.
  rewrite strip_no_comment.
  2: { pose proof (line_char_in k (ch ";") Hk ltac:(auto)). pose proof (line_char_in v (ch ";") Hv ltac:(auto)).
       rewrite elem_of_app, elem_of_cons, elem_of_app, elem_of_cons, elem_of_nil.
       intros [?|[?|[?|[?|?]]]]; done. }
  rewrite app_comm_cons, app_assoc, trim_trailing; [| |by repeat constructor].
  2: { split.
       - intros c s' E. destruct k as [|x k]; [done|]. injection E as <- _. by eapply (proj1 Htk).
       - intros c. rewrite last_app, last_cons. destruct (last v) eqn:Ev; [by intros [= <-]; apply (proj2 Htv)|].
         by intros [= <-]. }
  pose proof (strchr_app_first k (ch "=") v Heq) as Es.
  pose proof (take_app_length k (ch "=" :: v)) as Et.
  pose proof (drop_app_ge k (ch "=" :: v) (S (length k)) ltac:(lia)) as Ed.
  replace (S (length k) - length k)%nat with 1%nat in Ed by lia. cbn [drop] in Ed. rewrite drop_0 in Ed.
  destruct k as [|c k]; [done|]. cbn [app] in *.
  destruct (Z.eqb_spec c (ch "[")) as [->|_]; [done|]. rewrite Es, Et, Ed.
  rewrite !trim_trimmed by done. done.
Qed.

Lemma print_item_line i :
  item_ok i -> exists l, print_item i = l ++ [10] /\ Forall (fun c => c <> 10) l /\
    Forall (fun c => c <> 0) (print_item i).
Proof.
  assert (forall l, Forall line_char l -> Forall (fun c => c <> 10) l /\ Forall (fun c => c <> 0) l) as Hl.
  { intros l Hl. split; eapply Forall_impl; try exact Hl; intros c ([? ?] & ? & ?); simpl; lia. }
  intros [_ Hi]. destruct i as [name|k v]; simpl.
  - destruct Hi as (Hc & _). destruct (Hl _ Hc) as [H1 H2]. exists (ch "[" :: name ++ [ch "]"]).
    rewrite <- app_comm_cons, <- app_assoc. split_and!; [done| |].
    + constructor; [done|]. apply Forall_app. split; [done|by repeat constructor].
    + constructor; [done|]. apply Forall_app. split; [done|by repeat constructor].
  - destruct Hi as (Hk & Hv & _). destruct (Hl _ Hk) as [H1 H2], (Hl _ Hv) as [H3 H4].
    exists (k ++ ch "=" :: v). rewrite <- app_assoc, <- app_comm_cons. split_and!; [done| |].
    + apply Forall_app. split; [done|]. by constructor.
    + apply Forall_app. split; [done|]. constructor; [done|]. apply Forall_app. split; [done|by repeat constructor].
Qed.

Lemma load_print doc st fuel :
  Forall item_ok doc -> (length (print doc) <= fuel)%nat ->
  load_loop fuel (print doc) st = fold_left read_item doc st.
Proof.
  intros Hd. revert st fuel. induction Hd as [|i doc Hi Hd IH]; intros st fuel Hf.
  { by destruct fuel. }
  destruct (print_item_line i Hi) as (l & El & H10 & H0).
  change (print (i :: doc)) with (print_item i ++ print doc) in *. rewrite El, <- app_assoc in *. cbn [app] in *.
  rewrite length_app in Hf. simpl in Hf. destruct fuel as [|fuel]; [lia|].
  assert (exists c r, l ++ 10 :: print doc = c :: r) as (c & r & Ec) by (destruct l; simpl; eauto).
  cbn [load_loop]. rewrite Ec. rewrite <- Ec.
  assert (length l < LINE_SIZE - 1)%nat as Hlen.
  { destruct Hi as [Hl _]. rewrite El, length_app in Hl. simpl in Hl. lia. }
  rewrite (fgets_line l (print doc) H10 (LINE_SIZE - 1) Hlen).
  rewrite <- El, c_string_ok by (by rewrite El).
  rewrite IH by lia. simpl. f_equal. destruct i; [by apply parse_section|by apply parse_entry].
Qed.

(** What the document defines for a section (case ignored) and a key: the last
    entry wins. *)
Fixpoint lookup_doc (cur : cstr) (doc : list item) (sec k : cstr) (acc : option cstr) : option cstr :=
  match doc with
  | [] => acc
  | Section name :: doc' => lookup_doc name doc' sec k acc
  | Entry k' v :: doc' =>
      lookup_doc cur doc' sec k (if strcasecmp_eq cur sec && strcmp_eq k' k then Some v else acc)
  end.

Lemma find_lookup_doc doc cur ini sec k :
  value <$> List.find (entry_matches sec k) (entries (snd (fold_left read_item doc (cur, ini)))) =
  lookup_doc cur doc sec k (value <$> List.find (entry_matches sec k) (entries ini)).
Proof.
  revert cur ini. induction doc as [|[name|k' v] doc IH]; intros cur ini; simpl; [done|apply IH|].
  rewrite IH. f_equal. simpl. unfold entry_matches at 1. simpl. by destruct (strcasecmp_eq cur sec && strcmp_eq k' k).
Qed.

(** C9: Round trip.  Loading the text of any document of sections and entries
    (lines shorter than the buffer, names without the special characters, trimmed)
    gives back exactly its entries, and every string lookup (section names without
    regard to case) returns the last value the document defines, or the default. *)
Theorem nv_ini_roundtrip (doc : list item) (sec k : cstr) (dflt : option cstr) :
  Forall item_ok doc ->
  nv_ini_load (Some (Some (print doc))) = Some (snd (fold_left read_item doc ([], mkIni [] 0))) /\
  nv_ini_get_string (nv_ini_load (Some (Some (print doc)))) (Some sec) (Some k) dflt =
    match lookup_doc [] doc sec k None with Some v => Some v | None => dflt end.
Proof.
  intros Hd. assert (nv_ini_load (Some (Some (print doc))) =
    Some (snd (fold_left read_item doc ([], mkIni [] 0)))) as E.
  { unfold nv_ini_load. do 2 f_equal. by apply load_print. }
  split; [done|]. rewrite E. unfold nv_ini_get_string, nv_ini_find. cbn [default].
  pose proof (find_lookup_doc doc [] (mkIni [] 0) sec k) as Hf. simpl in Hf. rewrite <- Hf.
  change (default [] (Some sec)) with sec. by destruct (List.find _ _).
Qed.

(** ** White space and comments *)

Lemma drop_while_spaces w s :
  Forall (fun c => isspace c = true) w -> drop_while isspace (w ++ s) = drop_while isspace s.
Proof. induction 1 as [|c w Hc _ IH]; simpl; [done|]. by rewrite Hc. Qed.

Lemma take_while_spaces s : Forall (fun c => isspace c = true) (take_while isspace s).
Proof. induction s as [|c s IH]; simpl; [constructor|]. destruct (isspace c) eqn:E; by constructor. Qed.

Lemma rtrim_prefix s : exists w, s = rtrim s ++ w.
Proof.
  unfold rtrim. destruct (drop_while_suffix isspace (rev s)) as (w & Hw & _). exists (rev w).
  rewrite <- rev_app_distr, <- Hw. by rewrite rev_involutive.
Qed.

Lemma rtrim_last s c : last (rtrim s) = Some c -> isspace c = false.
Proof.
  unfold rtrim. destruct (drop_while isspace (rev s)) as [|d r] eqn:E; [done|].
  simpl. rewrite last_snoc. intros [= <-]. by eapply drop_while_hd.
Qed.

Lemma trim_idem s : snd (nv_ini_trim_inplace (fst (nv_ini_trim_inplace s))) = snd (nv_ini_trim_inplace s).
Proof.
  simpl. set (t := rtrim (drop_while isspace s)). rewrite drop_while_spaces by apply take_while_spaces.
  rewrite drop_while_id.
  - apply rtrim_id. apply rtrim_last.
  - intros c s' Et. destruct (rtrim_prefix (drop_while isspace s)) as (w & Hw). fold t in Hw.
    rewrite Et in Hw. by eapply drop_while_hd.
Qed.

Lemma trim_leading w s :
  Forall (fun c => isspace c = true) w -> snd (nv_ini_trim_inplace (w ++ s)) = snd (nv_ini_trim_inplace s).
Proof. intros Hw. simpl. by rewrite drop_while_spaces. Qed.

Lemma strchr_spaces w s :
  Forall (fun c => isspace c = true) w -> strchr (w ++ s) (ch ";") = Nat.add (length w) <$> strchr s (ch ";").
Proof.
  induction 1 as [|c w Hc _ IH]; simpl.
  - destruct (strchr s (ch ";")); done.
  - destruct (Z.eqb_spec c (ch ";")) as [->|]; [done|]. rewrite IH. by destruct (strchr s (ch ";")).
Qed.

Lemma drop_while_app f s t :
  drop_while f (s ++ t) = match drop_while f s with [] => drop_while f t | l => l ++ t end.
Proof. induction s as [|c s IH]; simpl; [done|]. by destruct (f c). Qed.

Lemma trim_blanks_after s w :
  Forall (fun c => isspace c = true) w -> snd (nv_ini_trim_inplace (s ++ w)) = snd (nv_ini_trim_inplace s).
Proof.
  intros Hw. simpl. rewrite drop_while_app. destruct (drop_while isspace s) as [|c l].
  - rewrite <- (app_nil_r w), drop_while_spaces by done. done.
  - by apply rtrim_app_spaces.
Qed.

(** Layout.  White space before a line and a comment after it change nothing:
    a line means the same with leading blanks, and everything from the first ';'
    is ignored together with the blanks before it. *)
Theorem nv_ini_layout (st : cstr * nv_ini_t) (w w' line comment : cstr) :
  Forall (fun c => isspace c = true) w -> Forall (fun c => isspace c = true) w' ->
  parse_line st (w ++ line) = parse_line st line /\
  (~ (ch ";" ∈ line) -> parse_line st (line ++ w' ++ ch ";" :: comment) = parse_line st line).
Proof.
  intros Hw Hw'. assert (forall l l', snd (nv_ini_trim_inplace (nv_ini_strip_comment l)) =
    snd (nv_ini_trim_inplace (nv_ini_strip_comment l')) -> parse_line st l = parse_line st l') as Hp.
  { intros l l' E. unfold parse_line. by rewrite E. }
  split; [|intros Hn]; apply Hp; unfold nv_ini_strip_comment.
  - rewrite strchr_spaces by done. destruct (strchr line (ch ";")) as [j|]; simpl fmap; cbn [fmap option_fmap option_map].
    + rewrite !trim_idem. rewrite take_app_ge by lia.
      replace (length w + j - length w)%nat with j by lia. by apply trim_leading.
    + by apply trim_leading.
  - rewrite app_assoc, strchr_app_first.
    + rewrite take_app_length, trim_idem. apply strchr_None in Hn. rewrite Hn.
      by apply trim_blanks_after.
    + rewrite elem_of_app. intros [?|Hin]; [done|]. rewrite Forall_forall in Hw'. by apply Hw' in Hin.
Qed.

(** Loading a concrete file: two sections, a comment, blanks and a redefinition. *)
Definition sample : list item :=
  [Entry (str "name") (str "libnv"); Section (str "log"); Entry (str "level") (str "debug info");
   Entry (str "url") (str "a=b"); Section (str "net"); Section (str "LOG"); Entry (str "level") (str "error")].

Ltac solve_chars := repeat constructor; try (vm_compute; intuition congruence).

Lemma sample_ok : Forall item_ok sample.
Proof.
  repeat constructor; cbn [item_ok print_item]; try (vm_compute; lia);
    repeat split; try (solve [solve_chars]); try done;
    try (intros ? ? [= <- _]; reflexivity); try (intros ? [= <-]; reflexivity);
    rewrite list_elem_of_In; simpl; vm_compute; intuition congruence.
Qed.

Lemma nv_ini_roundtrip_witness :
  nv_ini_get_string (nv_ini_load (Some (Some (print sample)))) (Some (str "log")) (Some (str "level")) None =
    Some (str "error").
Proof. apply (nv_ini_roundtrip sample (str "log") (str "level") None sample_ok). Defined.

Lemma nv_ini_layout_witness :
  parse_line ([], mkIni [] 0) (str "  port = 80") = parse_line ([], mkIni [] 0) (str "port = 80").
Proof.
  destruct (nv_ini_layout ([], mkIni [] 0) (str "  ") [] (str "port = 80") []) as [T _].
  - constructor; [reflexivity|]. constructor; [reflexivity|constructor].
  - constructor.
  - exact T.
Defined.

End Ini.
