(* ===== verification/ThreadPool.v ===== *)
(** * The thread pool (base/sys/nv_thread_pool.c)

    The ring buffer of tasks is a sequential data structure; the pool around it
    is a concurrent state machine.  A critical section (from [pthread_mutex_lock]
    to the unlock or to [pthread_cond_wait]) is one step; a thread waiting on a
    condition variable is woken by a signal (one waiter, any of them), a broadcast
    (all) or spuriously, and re-enters its loop.  The ghost lists record the tasks
    accepted, started and finished, in order. *)
From S2P Require Import Prelude.

Module ThreadPool.

Definition NV_TP_OK : Z := 0.
Definition NV_TP_EINVAL : Z := -1.
Definition NV_TP_EFULL : Z := -2.
Definition NV_TP_ESHUTDOWN : Z := -3.
Definition NV_TP_ETIMEDOUT : Z := -4.

Inductive shutdown_mode := GRACEFUL | IMMEDIATE.

(** A function pointer and its argument. *)
Definition task : Type := Z * Z.

Record threadpool_t := mkTP {
  queue : list task;          (* the array, [queue_capacity] cells *)
  thread_count : nat;
  queue_capacity : nat;
  head : nat;
  tail : nat;
  count : nat;
  shutdown : bool;
  mode : shutdown_mode;
}.

(** ** The ring buffer *)

Definition nv_tp_enqueue (tp : threadpool_t) (t : task) : outcome (Z * threadpool_t) :=
  if (count tp =? queue_capacity tp)%nat then Ret (NV_TP_EFULL, tp) else
  _ ← deref (queue tp !! tail tp);
  Ret (NV_TP_OK, mkTP (<[tail tp := t]> (queue tp)) (thread_count tp) (queue_capacity tp) (head tp)
         ((tail tp + 1) mod queue_capacity tp) (count tp + 1) (shutdown tp) (mode tp)).

Definition nv_tp_dequeue (tp : threadpool_t) : outcome (Z * option task * threadpool_t) :=
  if (count tp =? 0)%nat then Ret (NV_TP_EINVAL, None, tp) else
  t ← deref (queue tp !! head tp);
  Ret (NV_TP_OK, Some t, mkTP (queue tp) (thread_count tp) (queue_capacity tp)
         ((head tp + 1) mod queue_capacity tp) (tail tp) (count tp - 1) (shutdown tp) (mode tp)).

(** [mem] is the memory of the task array; [alloc] whether the allocations succeed. *)
Definition nv_threadpool_create (threads capacity : Z) (mem : list task) (alloc : bool) : option threadpool_t :=
  if (threads <=? 0) || (capacity <=? 0) then None
  else if alloc then Some (mkTP mem (Z.to_nat threads) (Z.to_nat capacity) 0 0 0 false GRACEFUL)
  else None.

Record ring_ok (tp : threadpool_t) : Prop := {
  ro_len : length (queue tp) = queue_capacity tp;
  ro_cap : (0 < queue_capacity tp)%nat;
  ro_head : (head tp < queue_capacity tp)%nat;
  ro_count : (count tp <= queue_capacity tp)%nat;
  ro_tail : tail tp = ((head tp + count tp) mod queue_capacity tp)%nat;
}.

(** The queued tasks, oldest first: [count] cells from [head], around the end. *)
Definition contents (tp : threadpool_t) : list task :=
  omap (fun i => queue tp !! ((head tp + i) mod queue_capacity tp)%nat) (seq 0 (count tp)).

Lemma ring_lookup tp i :
  ring_ok tp -> exists t, queue tp !! ((head tp + i) mod queue_capacity tp)%nat = Some t.
Proof.
  intros [Hl Hc _ _ _]. apply lookup_lt_is_Some_2. rewrite Hl. apply Nat.mod_upper_bound. lia.
Qed.

Lemma omap_all {A} (f : nat -> option A) (l : list nat) :
  (forall i, i ∈ l -> is_Some (f i)) -> length (omap f l) = length l.
Proof.
  induction l as [|x l IH]; intros Hf; [done|]. rewrite omap_cons.
  destruct (Hf x ltac:(set_solver)) as [y ->]. simpl length. rewrite IH; set_solver.
Qed.

Lemma contents_length tp : ring_ok tp -> length (contents tp) = count tp.
Proof.
  intros Hr. unfold contents. rewrite omap_all, length_seq; [done|].
  intros i _. destruct (ring_lookup tp i Hr) as [t Ht]. eauto.
Qed.

Lemma omap_ext_in {A} (f g : nat -> option A) (l : list nat) : (forall i, i ∈ l -> f i = g i) -> omap f l = omap g l.
Proof.
  induction l as [|x l IH]; intros Hf; [done|]. rewrite !omap_cons, (Hf x) by set_solver.
  rewrite IH by set_solver. done.
Qed.

(** Distinct offsets below the capacity are distinct cells. *)
Lemma mod_offset_inj h i j n :
  (i < n)%nat -> (j < n)%nat -> ((h + i) mod n = (h + j) mod n)%nat -> i = j.
Proof.
  intros Hi Hj E. pose proof (Nat.div_mod_eq (h + i) n). pose proof (Nat.div_mod_eq (h + j) n).
  set (q := ((h + i) / n)%nat) in *. set (r := ((h + j) / n)%nat) in *.
  destruct (Nat.lt_trichotomy q r) as [Hq|[Hq|Hq]]; nia.
Qed.

Lemma enqueue_spec tp t :
  ring_ok tp -> (count tp < queue_capacity tp)%nat ->
  exists tp', nv_tp_enqueue tp t = Ret (NV_TP_OK, tp') /\ ring_ok tp' /\
    contents tp' = contents tp ++ [t] /\ count tp' = S (count tp) /\
    queue_capacity tp' = queue_capacity tp /\ shutdown tp' = shutdown tp /\ mode tp' = mode tp.
Proof.
  intros Hr Hlt. pose proof Hr as [Hl Hc Hh Hn Ht]. unfold nv_tp_enqueue.
  destruct (Nat.eqb_spec (count tp) (queue_capacity tp)); [lia|].
  destruct (ring_lookup tp (count tp) Hr) as [t0 E0]. rewrite <- Ht in E0. rewrite E0.
  cbn [deref mbind outcome_bind]. eexists. split; [done|].
  assert (tail tp < length (queue tp))%nat as Htl by (by eapply lookup_lt_Some).
  split_and!; try done; [| |simpl; lia].
  - split; cbn; [by rewrite length_insert|done|done|lia|].
    rewrite Ht, Nat.Div0.add_mod_idemp_l. f_equal. lia.
  - unfold contents. cbn [queue head queue_capacity count].
    replace (count tp + 1)%nat with (S (count tp)) by lia. rewrite seq_S, omap_app. f_equal.
    + apply omap_ext_in. intros i Hi%elem_of_seq. rewrite list_lookup_insert_ne; [done|].
      rewrite Ht. intros E. apply mod_offset_inj in E; lia.
    + simpl. rewrite <- Ht, list_lookup_insert_eq by done. done.
Qed.

Lemma dequeue_spec tp :
  ring_ok tp -> (0 < count tp)%nat ->
  exists t tp', nv_tp_dequeue tp = Ret (NV_TP_OK, Some t, tp') /\ ring_ok tp' /\
    contents tp = t :: contents tp' /\ S (count tp') = count tp /\
    queue_capacity tp' = queue_capacity tp /\ shutdown tp' = shutdown tp /\ mode tp' = mode tp.
Proof.
  intros Hr Hlt. pose proof Hr as [Hl Hc Hh Hn Ht]. unfold nv_tp_dequeue.
  destruct (Nat.eqb_spec (count tp) 0); [lia|].
  destruct (ring_lookup tp 0 Hr) as [t E0]. rewrite Nat.add_0_r, Nat.mod_small in E0 by done. rewrite E0.
  cbn [deref mbind outcome_bind]. eexists _, _. split; [done|].
  split_and!; try done; [| |simpl; lia].
  - split; cbn; [done|done|apply Nat.mod_upper_bound; lia|lia|].
    rewrite Ht, Nat.Div0.add_mod_idemp_l. f_equal. lia.
  - unfold contents. cbn [queue head queue_capacity count].
    destruct (count tp) as [|n'] eqn:En; [lia|]. cbn [seq]. rewrite omap_cons.
    rewrite Nat.add_0_r, Nat.mod_small, E0 by done. f_equal.
    replace (S n' - 1)%nat with n' by lia. rewrite <- fmap_S_seq.
    assert (forall (f : nat -> option task) (l : list nat), omap f (S <$> l) = omap (fun i => f (S i)) l) as ->.
    { intros f l. induction l as [|x l IH]; [done|]. by rewrite fmap_cons, !omap_cons, IH. }
    apply omap_ext_in. intros i _. rewrite Nat.Div0.add_mod_idemp_l. by replace (head tp + 1 + i)%nat with (head tp + S i)%nat by lia.
Qed.

(** ** The concurrent pool *)

(** A worker is about to lock, waits on [not_empty], runs a task outside the lock,
    or has left. *)
Inductive wpc := WEnter | WWait | WRun (t : task) | WExit.
#[export] Instance wpc_eq_dec : EqDecision wpc.
Proof. solve_decision. Defined.
(** A caller of [nv_threadpool_add] (or, timed, of [nv_threadpool_add_timeout]). *)
Inductive ppc := PEnter (t : task) (timed : bool) | PWait (t : task) (timed : bool) | PRet (rc : Z).
(** A caller of [nv_threadpool_wait_idle]. *)
Inductive ipc := IEnter | IWait | IRet.

Record conf := mkConf {
  tp : threadpool_t;
  ws : list wpc;
  ps : list ppc;
  idlers : list ipc;
  submitted : list task;      (* accepted by an add, in order *)
  started : list task;        (* dequeued, in order *)
  finished : list task;       (* run to the end *)
}.

(** The worker's critical section. *)
Inductive worker_result := ToWait | Leave | ToRun (t : task) (tp' : threadpool_t) | Again.
Definition worker_section (p : threadpool_t) : outcome worker_result :=
  if (count p =? 0)%nat && negb (shutdown p) then Ret ToWait
  else if shutdown p && (match mode p with IMMEDIATE => true | GRACEFUL => false end || (count p =? 0)%nat)
  then Ret Leave
  else
    '(rc, t, p') ← nv_tp_dequeue p;
    match t with
    | Some t => if rc =? NV_TP_OK then Ret (ToRun t p') else Ret Again
    | None => Ret Again
    end.

(** The submitter's critical section. *)
Inductive add_result := AddWait | AddRefuse | AddDone (rc : Z) (tp' : threadpool_t).
Definition add_section (p : threadpool_t) (t : task) : outcome add_result :=
  if negb (shutdown p) && (count p =? queue_capacity p)%nat then Ret AddWait
  else if shutdown p then Ret AddRefuse
  else '(rc, p') ← nv_tp_enqueue p t; Ret (AddDone rc p').

Definition start_shutdown (p : threadpool_t) (m : shutdown_mode) : threadpool_t :=
  mkTP (queue p) (thread_count p) (queue_capacity p) (head p) (tail p) (count p) true m.

Definition w_wake (w : wpc) : wpc := match w with WWait => WEnter | _ => w end.
Definition p_wake (p : ppc) : ppc := match p with PWait t b => PEnter t b | _ => p end.
Definition i_wake (i : ipc) : ipc := match i with IWait => IEnter | _ => i end.
Definition w_waiting (w : wpc) : bool := match w with WWait => true | _ => false end.
Definition p_waiting (p : ppc) : bool := match p with PWait _ _ => true | _ => false end.

(** A call with a null function returns at once. *)
Definition add_call (t : task) (timed : bool) : ppc :=
  if t.1 =? 0 then PRet NV_TP_EINVAL else PEnter t timed.

(** [pthread_cond_signal]: one waiter wakes, if there is one. *)
Definition signalled {A} (waiting : A -> bool) (wake : A -> A) (l l' : list A) : Prop :=
  (exists i a, l !! i = Some a /\ waiting a = true /\ l' = <[i := wake a]> l) \/
  (Forall (fun a => waiting a = false) l /\ l' = l).

(** One step of one thread.  [st_destroy] is the critical section of
    [nv_threadpool_destroy], which a pool goes through once since the call frees it;
    the call then joins the workers, so it returns when all of them have exited. *)
Inductive step : conf -> conf -> Prop :=
  | st_worker_wait c i : ws c !! i = Some WEnter -> worker_section (tp c) = Ret ToWait ->
      step c (mkConf (tp c) (<[i := WWait]> (ws c)) (ps c) (idlers c) (submitted c) (started c) (finished c))
  | st_worker_leave c i : ws c !! i = Some WEnter -> worker_section (tp c) = Ret Leave ->
      step c (mkConf (tp c) (<[i := WExit]> (ws c)) (ps c) (idlers c) (submitted c) (started c) (finished c))
  | st_worker_run c i t p' ps' : ws c !! i = Some WEnter -> worker_section (tp c) = Ret (ToRun t p') ->
      signalled p_waiting p_wake (ps c) ps' ->
      step c (mkConf p' (<[i := WRun t]> (ws c)) ps'
                (if (count p' =? 0)%nat then map i_wake (idlers c) else idlers c)
                (submitted c) (started c ++ [t]) (finished c))
  | st_worker_done c i t : ws c !! i = Some (WRun t) ->
      step c (mkConf (tp c) (<[i := WEnter]> (ws c)) (ps c) (idlers c) (submitted c) (started c) (finished c ++ [t]))
  | st_worker_spurious c i : ws c !! i = Some WWait ->
      step c (mkConf (tp c) (<[i := WEnter]> (ws c)) (ps c) (idlers c) (submitted c) (started c) (finished c))
  | st_add_call c t timed :
      step c (mkConf (tp c) (ws c) (ps c ++ [add_call t timed]) (idlers c) (submitted c) (started c) (finished c))
  | st_add_wait c j t timed : ps c !! j = Some (PEnter t timed) -> add_section (tp c) t = Ret AddWait ->
      step c (mkConf (tp c) (ws c) (<[j := PWait t timed]> (ps c)) (idlers c) (submitted c) (started c) (finished c))
  | st_add_refuse c j t timed : ps c !! j = Some (PEnter t timed) -> add_section (tp c) t = Ret AddRefuse ->
      step c (mkConf (tp c) (ws c) (<[j := PRet NV_TP_ESHUTDOWN]> (ps c)) (idlers c) (submitted c) (started c) (finished c))
  | st_add_done c j t timed p' ws' : ps c !! j = Some (PEnter t timed) ->
      add_section (tp c) t = Ret (AddDone NV_TP_OK p') -> signalled w_waiting w_wake (ws c) ws' ->
      step c (mkConf p' ws' (<[j := PRet NV_TP_OK]> (ps c)) (idlers c) (submitted c ++ [t]) (started c) (finished c))
  | st_add_timeout c j t : ps c !! j = Some (PWait t true) ->
      step c (mkConf (tp c) (ws c) (<[j := PRet NV_TP_ETIMEDOUT]> (ps c)) (idlers c) (submitted c) (started c) (finished c))
  | st_add_spurious c j t timed : ps c !! j = Some (PWait t timed) ->
      step c (mkConf (tp c) (ws c) (<[j := PEnter t timed]> (ps c)) (idlers c) (submitted c) (started c) (finished c))
  | st_idle_call c :
      step c (mkConf (tp c) (ws c) (ps c) (idlers c ++ [IEnter]) (submitted c) (started c) (finished c))
  | st_idle_wait c k : idlers c !! k = Some IEnter -> count (tp c) <> 0%nat ->
      step c (mkConf (tp c) (ws c) (ps c) (<[k := IWait]> (idlers c)) (submitted c) (started c) (finished c))
  | st_idle_ret c k : idlers c !! k = Some IEnter -> count (tp c) = 0%nat ->
      step c (mkConf (tp c) (ws c) (ps c) (<[k := IRet]> (idlers c)) (submitted c) (started c) (finished c))
  | st_idle_spurious c k : idlers c !! k = Some IWait ->
      step c (mkConf (tp c) (ws c) (ps c) (<[k := IEnter]> (idlers c)) (submitted c) (started c) (finished c))
  | st_destroy c m : shutdown (tp c) = false ->
      step c (mkConf (start_shutdown (tp c) m) (map w_wake (ws c)) (map p_wake (ps c)) (idlers c)
                (submitted c) (started c) (finished c)).

(** A pool just created: [n] of its threads were started and are about to enter their loop.  The
    code ignores failures of [pthread_create], so that fewer threads than asked for may run; if
    none does, nothing accepted is ever run. *)
Definition initial (p : threadpool_t) (n : nat) : conf := mkConf p (repeat WEnter n) [] [] [] [] [].

Inductive reachable : conf -> Prop :=
  | reach_init threads capacity mem p n : length mem = Z.to_nat capacity ->
      nv_threadpool_create threads capacity mem true = Some p -> (0 < n <= thread_count p)%nat -> reachable (initial p n)
  | reach_step c c' : reachable c -> step c c' -> reachable c'.

(** ** The invariant *)

Definition running (l : list wpc) : list task :=
  omap (fun w => match w with WRun t => Some t | _ => None end) l.
Definition awake (w : wpc) : bool := match w with WEnter | WRun _ => true | _ => false end.
Definition entering (p : ppc) : Z := match p with PEnter _ _ => 1 | _ => 0 end.
Definition nb_entering (l : list ppc) : Z := zsum (map entering l).

Record inv (c : conf) : Prop := {
  i_ring : ring_ok (tp c);
  i_fifo : submitted c = started c ++ contents (tp c);
  i_run : started c ≡ₚ finished c ++ running (ws c);
  i_some : (0 < length (ws c))%nat;
  i_awake : shutdown (tp c) = false -> (0 < count (tp c))%nat -> Exists (fun w => awake w = true) (ws c);
  i_down : shutdown (tp c) = true ->
    Forall (fun w => w_waiting w = false) (ws c) /\ Forall (fun p => p_waiting p = false) (ps c);
  i_slots : shutdown (tp c) = false -> Exists (fun p => p_waiting p = true) (ps c) ->
    Z.of_nat (queue_capacity (tp c)) - Z.of_nat (count (tp c)) <= nb_entering (ps c);
  i_exit : Exists (fun w => w = WExit) (ws c) ->
    shutdown (tp c) = true /\ (mode (tp c) = GRACEFUL -> count (tp c) = 0%nat);
}.

(** *** Threads in lists *)

Lemma Exists_insert {A} (P : A -> Prop) l i x y :
  l !! i = Some x ->
  Exists P (<[i := y]> l) <-> P y \/ exists j z, j <> i /\ l !! j = Some z /\ P z.
Proof.
  intros E. pose proof (lookup_lt_Some _ _ _ E) as Hi. rewrite Exists_exists. split.
  - intros (z & Hz & HP). apply list_elem_of_lookup in Hz as [j Hj].
    apply list_lookup_insert_Some in Hj as [(-> & -> & _)|[Hne Hj]]; [by left|right; eauto].
  - intros [HP|(j & z & Hne & Hj & HP)].
    + exists y. split; [|done]. apply list_elem_of_lookup. exists i. by apply list_lookup_insert_eq.
    + exists z. split; [|done]. apply list_elem_of_lookup. exists j. by rewrite list_lookup_insert_ne.
Qed.

Lemma Exists_lookup {A} (P : A -> Prop) l : Exists P l <-> exists j z, l !! j = Some z /\ P z.
Proof.
  rewrite Exists_exists. split.
  - intros (z & [j Hj]%list_elem_of_lookup & HP). eauto.
  - intros (j & z & Hj & HP). exists z. split; [|done]. by eapply list_elem_of_lookup_2.
Qed.

(** Replacing an element that does not satisfy [P] by one that may. *)
Lemma Exists_insert_keep {A} (P : A -> Prop) l i x y :
  l !! i = Some x -> (P x -> P y) -> Exists P l -> Exists P (<[i := y]> l).
Proof.
  intros E Hxy (j & z & Hj & HP)%Exists_lookup. apply (Exists_insert P l i x y E).
  destruct (decide (j = i)) as [->|]; [|by eauto 10]. rewrite E in Hj. injection Hj as <-. auto.
Qed.
Lemma Exists_insert_back {A} (P : A -> Prop) l i x y :
  l !! i = Some x -> ~ P y -> Exists P (<[i := y]> l) -> Exists P l.
Proof.
  intros E Hy [?|(j & z & _ & Hj & HP)]%(Exists_insert P l i x y E); [done|].
  apply Exists_lookup. eauto.
Qed.

Lemma running_insert l i x y :
  l !! i = Some x -> running [y] ++ running l ≡ₚ running [x] ++ running (<[i := y]> l).
Proof.
  intros E. unfold running. rewrite <- !omap_app. simpl app. by rewrite (insert_perm l i x y E).
Qed.

Lemma entering_insert l i x y :
  l !! i = Some x -> nb_entering (<[i := y]> l) = nb_entering l - entering x + entering y.
Proof. apply zsum_map_insert. Qed.
Lemma entering_nonneg l : 0 <= nb_entering l.
Proof. apply zsum_map_nonneg. by intros []. Qed.

Lemma entering_some l : 0 < nb_entering l -> exists j t timed, l !! j = Some (PEnter t timed).
Proof.
  induction l as [|x l IH]; [done|]. change (nb_entering (x :: l)) with (entering x + nb_entering l).
  destruct x as [t timed| |]; intros Hn; [by exists 0%nat, t, timed|..];
    (destruct IH as (j & t' & b & E); [simpl in Hn; lia|by exists (S j), t', b]).
Qed.

Lemma running_exited l : Forall (fun w => w = WExit) l -> running l = [].
Proof. induction 1 as [|w l -> _ IH]; [done|]. exact IH. Qed.

Lemma running_wake l : running (map w_wake l) = running l.
Proof.
  unfold running. induction l as [|[] l IH]; [done|..]; rewrite map_cons, !omap_cons; simpl w_wake; cbv iota;
    congruence.
Qed.

(** *** The critical sections *)

Lemma worker_wait_inv p : worker_section p = Ret ToWait -> count p = 0%nat /\ shutdown p = false.
Proof.
  unfold worker_section. destruct (Nat.eqb_spec (count p) 0), (shutdown p); simpl; try done.
  all: unfold nv_tp_dequeue; destruct (Nat.eqb_spec (count p) 0), (mode p), (queue p !! head p); done.
Qed.

Lemma worker_leave_inv p :
  worker_section p = Ret Leave -> shutdown p = true /\ (mode p = GRACEFUL -> count p = 0%nat).
Proof.
  unfold worker_section. destruct (Nat.eqb_spec (count p) 0), (shutdown p); simpl; try done.
  - destruct (mode p); simpl; [|done]. unfold nv_tp_dequeue. destruct (Nat.eqb_spec (count p) 0); [done|].
    destruct (queue p !! head p); simpl; done.
  - unfold nv_tp_dequeue. destruct (Nat.eqb_spec (count p) 0); [done|].
    destruct (queue p !! head p); simpl; done.
Qed.

Lemma worker_run_inv p t p' :
  ring_ok p -> worker_section p = Ret (ToRun t p') ->
  ring_ok p' /\ contents p = t :: contents p' /\ S (count p') = count p /\
  queue_capacity p' = queue_capacity p /\ shutdown p' = shutdown p /\ mode p' = mode p /\
  (shutdown p = true -> mode p = GRACEFUL).
Proof.
  intros Hr. unfold worker_section. destruct (Nat.eqb_spec (count p) 0) as [Hz|Hz].
  { destruct (shutdown p); simpl; [rewrite orb_true_r|]; done. }
  simpl. destruct (shutdown p && _) eqn:Es; [done|].
  destruct (dequeue_spec p Hr) as (t' & q & -> & H1 & H2 & H3 & H4 & H5 & H6); [lia|].
  simpl. intros [= <- <-]. split_and!; auto. intros Hs. rewrite Hs in Es. by destruct (mode p).
Qed.

Lemma add_wait_inv p t : add_section p t = Ret AddWait -> shutdown p = false /\ count p = queue_capacity p.
Proof.
  unfold add_section. destruct (shutdown p); simpl; [done|].
  destruct (Nat.eqb_spec (count p) (queue_capacity p)); [done|]. by destruct (nv_tp_enqueue p t) as [[? ?]| |].
Qed.
Lemma add_refuse_inv p t : add_section p t = Ret AddRefuse -> shutdown p = true.
Proof.
  unfold add_section. destruct (shutdown p); simpl; [done|].
  destruct (Nat.eqb_spec (count p) (queue_capacity p)); [done|]. by destruct (nv_tp_enqueue p t) as [[? ?]| |].
Qed.
Lemma add_done_inv p t rc p' :
  ring_ok p -> add_section p t = Ret (AddDone rc p') ->
  rc = NV_TP_OK /\ ring_ok p' /\ contents p' = contents p ++ [t] /\ count p' = S (count p) /\
  queue_capacity p' = queue_capacity p /\ shutdown p = false /\ shutdown p' = false.
Proof.
  intros Hr. unfold add_section. destruct (shutdown p) eqn:Es; simpl; [done|].
  destruct (Nat.eqb_spec (count p) (queue_capacity p)); [done|].
  destruct (enqueue_spec p t Hr) as (q & -> & H1 & H2 & H3 & H4 & H5 & H6); [destruct Hr; lia|].
  simpl. intros [= <- <-]. rewrite Es in H5. by split_and!.
Qed.

(** *** Preservation *)

(** A worker moves between control points that run nothing. *)
Lemma running_move l i x y :
  l !! i = Some x -> running [x] = [] -> running [y] = [] -> running (<[i := y]> l) ≡ₚ running l.
Proof. intros E Hx Hy. pose proof (running_insert l i x y E) as Hp. rewrite Hx, Hy in Hp. by symmetry. Qed.

Lemma running_signalled l l' : signalled w_waiting w_wake l l' -> running l' ≡ₚ running l.
Proof.
  intros [(i & a & E & Ha & ->)|[_ ->]]; [|done]. destruct a; try done. by eapply running_move.
Qed.

Lemma signalled_length {A} (f : A -> bool) g l l' : signalled f g l l' -> length l' = length l.
Proof. intros [(i & a & _ & _ & ->)|[_ ->]]; [apply length_insert|done]. Qed.

Lemma signalled_not_waiting {A} (f : A -> bool) g l l' :
  signalled f g l l' -> Forall (fun a => f a = false) l -> l' = l.
Proof.
  intros [(i & a & E & Ha & _)|[_ ->]] Hf; [|done]. rewrite Forall_lookup in Hf. by rewrite (Hf i a E) in Ha.
Qed.

(** A signal on [not_empty] leaves a worker awake, as long as none has left. *)
Lemma signalled_awake l l' :
  signalled w_waiting w_wake l l' -> (0 < length l)%nat -> ~ Exists (fun w => w = WExit) l ->
  Exists (fun w => awake w = true) l'.
Proof.
  intros [(i & a & E & Ha & ->)|[Hf ->]] Hl Hx.
  - apply (Exists_insert _ _ _ _ _ E). left. by destruct a.
  - destruct l as [|w l]; [simpl in Hl; lia|]. left. inversion Hf; subst.
    destruct w; try done. exfalso. apply Hx. by left.
Qed.

Lemma signalled_exit l l' :
  signalled w_waiting w_wake l l' -> Exists (fun w => w = WExit) l' -> Exists (fun w => w = WExit) l.
Proof.
  intros [(i & a & E & Ha & ->)|[_ ->]]; [|done]. apply (Exists_insert_back _ _ _ _ _ E). by destruct a.
Qed.

(** A signal on [not_full] reserves the freed cell for a woken submitter. *)
Lemma signalled_slots l l' :
  signalled p_waiting p_wake l l' -> Exists (fun p => p_waiting p = true) l' ->
  Exists (fun p => p_waiting p = true) l /\ nb_entering l' = nb_entering l + 1.
Proof.
  intros [(i & a & E & Ha & ->)|[Hf ->]] Hw.
  - split; [apply Exists_lookup; eauto|]. rewrite (entering_insert _ _ _ _ E). destruct a; simpl in *; try done; lia.
  - apply Exists_exists in Hw as (x & Hx & Hw). rewrite Forall_forall in Hf. by rewrite (Hf x Hx) in Hw.
Qed.

Lemma Forall_map_wake {A} (f : A -> bool) (g : A -> A) l :
  (forall a, f (g a) = false) -> Forall (fun a => f a = false) (map g l).
Proof. intros Hg. apply Forall_forall. intros x (y & -> & _)%list_elem_of_fmap. apply Hg. Qed.

Lemma Forall_insert_not {A} (f : A -> bool) l i y :
  f y = false -> Forall (fun a => f a = false) l -> Forall (fun a => f a = false) (<[i := y]> l).
Proof. intros. by apply Forall_insert. Qed.

(** The clauses of the invariant that one thread's move leaves to show. *)
Lemma inv_worker c i x y p' :
  inv c -> ws c !! i = Some x -> p' = tp c ->
  running [y] = running [x] -> w_waiting y = false ->
  (shutdown (tp c) = false -> awake x = true -> awake y = true) ->
  (y = WExit -> shutdown (tp c) = true /\ (mode (tp c) = GRACEFUL -> count (tp c) = 0%nat)) ->
  inv (mkConf p' (<[i := y]> (ws c)) (ps c) (idlers c) (submitted c) (started c) (finished c)).
Proof.
  intros [Hr Hf Hrun Hs Ha Hd Hsl He] E -> Hxy Hwt Haw Hex. split; cbn [tp ws ps idlers submitted started finished]; auto.
  - rewrite Hrun. f_equiv. apply (Permutation_app_inv_l (running [x])).
    rewrite <- Hxy at 1. by apply running_insert.
  - by rewrite length_insert.
  - intros H1 H2. eapply Exists_insert_keep; eauto.
  - intros H1. destruct (Hd H1). split; [by apply Forall_insert_not|done].
  - intros Hx. apply (Exists_insert _ _ _ _ _ E) in Hx as [->|(j & z & _ & Hj & Hz)]; [auto|].
    apply He, Exists_lookup. eauto.
Qed.

Lemma inv_worker_wait c i :
  inv c -> ws c !! i = Some WEnter -> worker_section (tp c) = Ret ToWait ->
  inv (mkConf (tp c) (<[i := WWait]> (ws c)) (ps c) (idlers c) (submitted c) (started c) (finished c)).
Proof.
  intros [Hr Hf Hrun Hs Ha Hd Hsl He] E [Hz Hn]%worker_wait_inv. split; cbn [tp ws ps idlers submitted started finished]; auto.
  - rewrite Hrun. f_equiv. symmetry. by eapply running_move.
  - by rewrite length_insert.
  - lia.
  - congruence.
  - intros Hx. apply He. by eapply Exists_insert_back in Hx.
Qed.

Lemma inv_worker_run c i t p' ps' :
  inv c -> ws c !! i = Some WEnter -> worker_section (tp c) = Ret (ToRun t p') ->
  signalled p_waiting p_wake (ps c) ps' ->
  forall is', inv (mkConf p' (<[i := WRun t]> (ws c)) ps' is' (submitted c) (started c ++ [t]) (finished c)).
Proof.
  intros [Hr Hf Hrun Hs Ha Hd Hsl He] E Hw Hps is'.
  destruct (worker_run_inv _ _ _ Hr Hw) as (Hr' & Hc & Hcnt & Hcap & Hsd & Hm & Hg). split; cbn [tp ws ps idlers submitted started finished]; auto.
  - rewrite Hf, Hc, <- app_assoc. done.
  - rewrite Hrun. pose proof (running_insert _ _ _ (WRun t) E) as Hp. simpl in Hp.
    rewrite <- Hp. by rewrite <- Permutation_cons_append, Permutation_middle.
  - by rewrite length_insert.
  - intros _ _. apply (Exists_insert _ _ _ _ _ E). by left.
  - rewrite Hsd. intros H1. destruct (Hd H1) as [Hd1 Hd2]. split; [by apply Forall_insert_not|].
    by rewrite (signalled_not_waiting _ _ _ _ Hps Hd2).
  - rewrite Hsd, Hcap. intros H1 [Hx ->]%(signalled_slots _ _ Hps). specialize (Hsl H1 Hx). lia.
  - rewrite Hsd, Hm. intros Hx. apply (Exists_insert_back _ _ _ _ _ E) in Hx; [|done].
    destruct (He Hx) as [H1 H2]. split; [done|]. intros H3. specialize (H2 H3). lia.
Qed.

Lemma inv_worker_done c i t :
  inv c -> ws c !! i = Some (WRun t) ->
  inv (mkConf (tp c) (<[i := WEnter]> (ws c)) (ps c) (idlers c) (submitted c) (started c) (finished c ++ [t])).
Proof.
  intros [Hr Hf Hrun Hs Ha Hd Hsl He] E. split; cbn [tp ws ps idlers submitted started finished]; auto.
  - rewrite Hrun, <- app_assoc. f_equiv. by pose proof (running_insert _ _ _ WEnter E).
  - by rewrite length_insert.
  - intros H1 H2. eapply Exists_insert_keep; eauto.
  - intros H1. destruct (Hd H1). split; [by apply Forall_insert_not|done].
  - intros Hx. apply He. by eapply Exists_insert_back in Hx.
Qed.

(** A submitter moves without touching the queue: it may wait only when the queue is
    full, and gives its reservation up only when no cell is free. *)
Lemma inv_submitter c j x y :
  inv c -> ps c !! j = Some x ->
  (shutdown (tp c) = false -> Exists (fun p => p_waiting p = true) (ps c) \/ p_waiting y = true ->
     entering x <= entering y \/ count (tp c) = queue_capacity (tp c)) ->
  (p_waiting y = true -> shutdown (tp c) = false /\ count (tp c) = queue_capacity (tp c)) ->
  inv (mkConf (tp c) (ws c) (<[j := y]> (ps c)) (idlers c) (submitted c) (started c) (finished c)).
Proof.
  intros [Hr Hf Hrun Hs Ha Hd Hsl He] E Hkeep Hwt. split; cbn [tp ws ps idlers submitted started finished]; auto.
  - intros H1. destruct (Hd H1). split; [done|]. apply Forall_insert_not; [|done].
    destruct (p_waiting y); [|done]. destruct (Hwt eq_refl). congruence.
  - intros H1 Hx. rewrite (entering_insert _ _ _ _ E). pose proof (entering_nonneg (<[j:=y]> (ps c))) as Hnn.
    rewrite (entering_insert _ _ _ _ E) in Hnn.
    destruct (p_waiting y) eqn:Ey; [destruct (Hwt eq_refl); lia|].
    apply (Exists_insert_back _ _ _ _ _ E) in Hx; [|congruence].
    destruct (Hkeep H1 (or_introl Hx)); [specialize (Hsl H1 Hx); lia|lia].
Qed.

Lemma inv_add_done c j t timed p' ws' :
  inv c -> ps c !! j = Some (PEnter t timed) -> add_section (tp c) t = Ret (AddDone NV_TP_OK p') ->
  signalled w_waiting w_wake (ws c) ws' ->
  inv (mkConf p' ws' (<[j := PRet NV_TP_OK]> (ps c)) (idlers c) (submitted c ++ [t]) (started c) (finished c)).
Proof.
  intros [Hr Hf Hrun Hs Ha Hd Hsl He] E Hadd Hws.
  destruct (add_done_inv _ _ _ _ Hr Hadd) as (_ & Hr' & Hc & Hcnt & Hcap & Hsd & Hsd').
  assert (~ Exists (fun w => w = WExit) (ws c)) as Hnx by (intros Hx; destruct (He Hx); congruence).
  split; cbn [tp ws ps idlers submitted started finished]; auto.
  - by rewrite Hf, Hc, app_assoc.
  - by rewrite (running_signalled _ _ Hws).
  - by rewrite (signalled_length _ _ _ _ Hws).
  - intros _ _. by eapply signalled_awake.
  - congruence.
  - intros _ Hx. rewrite (entering_insert _ _ _ _ E). apply (Exists_insert_back _ _ _ _ _ E) in Hx; [|done].
    specialize (Hsl Hsd Hx). simpl. rewrite Hcap. lia.
  - intros Hx. destruct Hnx. by eapply signalled_exit.
Qed.

Lemma inv_destroy c m :
  inv c -> shutdown (tp c) = false ->
  inv (mkConf (start_shutdown (tp c) m) (map w_wake (ws c)) (map p_wake (ps c)) (idlers c)
         (submitted c) (started c) (finished c)).
Proof.
  intros [Hr Hf Hrun Hs Ha Hd Hsl He] Hn. split; cbn [tp ws ps idlers submitted started finished start_shutdown shutdown mode]; try done.
  - by destruct Hr.
  - by rewrite running_wake.
  - by rewrite length_map.
  - intros _. split; apply Forall_map_wake; by intros [].
  - intros Hx. exfalso. apply Exists_exists in Hx as (w & (w' & -> & Hw)%list_elem_of_fmap & Hx).
    destruct w'; try done. assert (Exists (fun w => w = WExit) (ws c)) as Hc by (apply Exists_exists; eauto).
    destruct (He Hc). congruence.
Qed.

Lemma tp_inv_initial threads capacity mem p n :
  length mem = Z.to_nat capacity -> nv_threadpool_create threads capacity mem true = Some p -> (0 < n)%nat -> inv (initial p n).
Proof.
  unfold nv_threadpool_create. intros Hl. destruct (Z.leb_spec threads 0), (Z.leb_spec capacity 0); try done.
  intros [= <-] Hn. split; cbn; try done.
  - split; cbn; try lia. by rewrite Nat.Div0.mod_0_l.
  - by clear Hn; induction n.
  - by rewrite repeat_length.
  - lia.
  - by intros _ ?%Exists_nil.
  - intros Hx. exfalso. apply Exists_exists in Hx as (w & Hw & ->).
    apply list_elem_of_In, repeat_spec in Hw. done.
Qed.

Lemma tp_inv_step c c' : step c c' -> inv c -> inv c'.
Proof.
  intros Hst Hinv. destruct Hst as [| | | |c i E|c t timed|c j t timed E Ha|c j t timed E Ha| |c j t E|c j t timed E| | | | |].
  - by apply inv_worker_wait.
  - destruct (worker_leave_inv (tp c)) as [H1 H2]; [done|].
    eapply inv_worker; try done. congruence.
  - by eapply inv_worker_run.
  - by eapply inv_worker_done.
  - by eapply inv_worker.
  - destruct Hinv as [Hr Hf Hrun Hs Haw Hd Hsl He]. split; cbn [tp ws ps idlers submitted started finished]; auto.
    + intros H1. destruct (Hd H1). split; [done|]. apply Forall_app. split; [done|].
      apply Forall_singleton. unfold add_call. by case_match.
    + intros H1 [Hx|Hx]%Exists_app.
      * specialize (Hsl H1 Hx). unfold nb_entering. rewrite map_app, (zsum_app (map entering (ps c))).
        unfold add_call. unfold nb_entering in Hsl. case_match; cbn; lia.
      * apply Exists_cons in Hx as [Hx|Hx%Exists_nil]; [|done]. unfold add_call in Hx. by case_match.
  - apply add_wait_inv in Ha as [H1 H2]. eapply inv_submitter; eauto.
  - apply add_refuse_inv in Ha. eapply inv_submitter; eauto; simpl; try done. congruence.
  - by eapply inv_add_done.
  - eapply inv_submitter; eauto; simpl; try done. intros. left. lia.
  - eapply inv_submitter; eauto; simpl; try done. intros. left. lia.
  - by destruct Hinv.
  - by destruct Hinv.
  - by destruct Hinv.
  - by destruct Hinv.
  - by apply inv_destroy.
Qed.

Lemma tp_reachable_inv c : reachable c -> inv c.
Proof. induction 1 as [threads capacity mem p n Hl E [Hn _]|]; [by eapply tp_inv_initial|by eapply tp_inv_step]. Qed.

(** *** Waiting for an empty queue *)

Lemma wait_elem_insert (l : list ipc) k x : x <> IWait -> IWait ∈ <[k := x]> l -> IWait ∈ l.
Proof.
  intros Hx (j & E)%list_elem_of_lookup. apply list_elem_of_lookup. destruct (decide (j = k)) as [->|]; [|exists j; by rewrite list_lookup_insert_ne in E].
  destruct (decide (k < length l)%nat); [rewrite list_lookup_insert_eq in E by done; congruence|]. exists k. by rewrite list_insert_ge in E by lia.
Qed.
Lemma no_wait_after_wake l : ~ (IWait ∈ map i_wake l).
Proof. intros ([] & ? & _)%list_elem_of_In%in_map_iff; done. Qed.

Lemma idle_waiter_has_queue c : reachable c -> IWait ∈ idlers c -> (0 < count (tp c))%nat.
Proof.
  intros Hr. pose proof (tp_reachable_inv c Hr) as Hinv. revert Hinv. induction Hr as [threads capacity mem p n Hl E Hn|c c' Hr IH Hs]; intros Hinv'; [by intros ?%not_elem_of_nil|].
  pose proof (tp_reachable_inv c Hr) as Hinv. specialize (IH Hinv).
  destruct Hs as [| |c i t p' ps' E Ew Hsig| | | | | |c j t timed p' ws' E Ea Hsig| | |c|c k E Hc|c k E Hc|c k E|c m Hd]; cbn [tp idlers] in *; auto.
  - destruct (Nat.eqb_spec (count p') 0) as [|Hz]; [by intros ?%no_wait_after_wake|]. intros _. lia.
  - intros Hi. specialize (IH Hi). destruct (add_done_inv _ _ _ _ (i_ring _ Hinv) Ea) as (_ & _ & _ & -> & _). lia.
  - intros [Hi|Hi%list_elem_of_singleton]%elem_of_app; [by apply IH|done].
  - intros _. lia.
  - intros Hi. apply IH. by apply (wait_elem_insert _ k IRet).
  - intros Hi. apply IH. by apply (wait_elem_insert _ k IEnter).
Qed.

(** *** Shutdown *)

(** What the workers still have to do before all of them have left. *)
Definition worker_work (w : wpc) : Z := match w with WRun _ => 2 | WEnter | WWait => 1 | WExit => 0 end.
Definition work (c : conf) : Z := 3 * Z.of_nat (count (tp c)) + zsum (map worker_work (ws c)).

Lemma work_step c c' :
  inv c -> shutdown (tp c) = true -> step c c' ->
  shutdown (tp c') = true /\ (ws c' = ws c /\ tp c' = tp c \/ work c' < work c).
Proof.
  intros Hinv Hs Hst. pose proof (i_down _ Hinv Hs) as [Hw _].
  destruct Hst as [c i E Hsec|c i E Hsec|c i t p' ps' E Hsec|c i t E|c i E| | |
                   |c j t timed p' ws' E Hadd| | | | | | |c m Hn]; unfold work; cbn [tp ws]; eauto.
  - apply worker_wait_inv in Hsec as [_ ?]. congruence.
  - split; [done|right]. rewrite (zsum_map_insert worker_work _ _ _ _ E). cbn [worker_work]. lia.
  - destruct (worker_run_inv _ _ _ (i_ring _ Hinv) Hsec) as (_ & _ & Hcnt & _ & Hsd & _).
    split; [congruence|right]. rewrite (zsum_map_insert worker_work _ _ _ _ E). cbn [worker_work]. lia.
  - split; [done|right]. rewrite (zsum_map_insert worker_work _ _ _ _ E). cbn [worker_work]. lia.
  - rewrite Forall_lookup in Hw. by specialize (Hw _ _ E).
  - destruct (add_done_inv _ _ _ _ (i_ring _ Hinv) Hadd) as (_ & _ & _ & _ & _ & ? & _). congruence.
  - congruence.
Qed.

(** A worker about to enter its critical section takes a task, leaves or waits: the
    section has a defined result and the [else] branch of the dequeue is dead. *)
Lemma worker_section_total p :
  ring_ok p ->
  (worker_section p = Ret ToWait /\ count p = 0%nat /\ shutdown p = false) \/
  (worker_section p = Ret Leave /\ shutdown p = true) \/
  exists t p', worker_section p = Ret (ToRun t p') /\ (0 < count p)%nat.
Proof.
  intros Hr. unfold worker_section. destruct (Nat.eqb_spec (count p) 0) as [Hz|Hz].
  { destruct (shutdown p); simpl; [rewrite orb_true_r|]; auto. }
  destruct (dequeue_spec p Hr) as (t & p' & -> & _); [lia|].
  destruct (shutdown p), (mode p); simpl; eauto 8 with lia.
Qed.

(** Some result of a signal always exists. *)
Lemma signalled_exists {A} (f : A -> bool) g l : exists l', signalled f g l l'.
Proof.
  destruct (decide (Exists (fun a => f a = true) l)) as [(i & a & E & Ha)%Exists_lookup|Hn].
  - eexists. left. eauto.
  - exists l. right. split; [|done]. apply Forall_forall. intros x Hx. destruct (f x) eqn:E; [|done].
    destruct Hn. apply Exists_exists. eauto.
Qed.

Lemma work_progress c :
  inv c -> shutdown (tp c) = true -> ~ Forall (fun w => w = WExit) (ws c) -> exists c', step c c' /\ work c' < work c.
Proof.
  intros Hinv Hs Hne. pose proof (i_down _ Hinv Hs) as [Hw _].
  assert (exists i w, ws c !! i = Some w /\ w <> WExit) as (i & w & E & Hx).
  { apply not_Forall_Exists in Hne; [|apply _]. by apply Exists_lookup in Hne. }
  assert (exists c', step c c' /\ ws c' !! i <> ws c !! i) as (c' & Hst & Hd).
  { pose proof (lookup_lt_Some _ _ _ E) as Hi. destruct w as [| |t|]; [|..|done].
    - destruct (worker_section_total _ (i_ring _ Hinv)) as [(_ & _ & ?)|[(Hsec & _)|(t & p' & Hsec & _)]]; [congruence|..].
      + eexists. split; [by eapply st_worker_leave|]. cbn [ws]. by rewrite list_lookup_insert_eq, E.
      + destruct (signalled_exists p_waiting p_wake (ps c)) as [ps' Hps].
        eexists. split; [by eapply st_worker_run|]. cbn [ws]. by rewrite list_lookup_insert_eq, E.
    - rewrite Forall_lookup in Hw. by specialize (Hw _ _ E).
    - eexists. split; [by eapply st_worker_done|]. cbn [ws]. by rewrite list_lookup_insert_eq, E. }
  exists c'. split; [done|]. destruct (work_step _ _ Hinv Hs Hst) as [_ [[Heq _]|]]; [|done]. by rewrite Heq in Hd.
Qed.

Lemma work_nonneg c : 0 <= work c.
Proof.
  unfold work. assert (0 <= zsum (map worker_work (ws c))); [|lia]. apply zsum_map_nonneg. by intros [].
Qed.

(** ** The pool's guarantees *)

(** C4: the ring buffer hands tasks out in the order they were accepted and neither
    loses nor duplicates one, under every interleaving of workers, submitters, idle
    waiters and a shutdown: the accepted tasks are the started ones followed by the
    queued ones, and the started ones are those finished and those running. *)
Theorem nv_threadpool_fifo c :
  reachable c ->
  submitted c = started c ++ contents (tp c) /\
  started c ≡ₚ finished c ++ running (ws c) /\
  length (contents (tp c)) = count (tp c) /\ (count (tp c) <= queue_capacity (tp c))%nat.
Proof.
  intros Hinv%tp_reachable_inv. pose proof (i_ring _ Hinv) as Hr.
  split_and!; [apply Hinv|apply Hinv|by apply contents_length|apply Hr].
Qed.

(** C6: no wakeup is lost.  While the pool is open, a queued task has an awake worker
    (one running a task or about to dequeue one), and a submitter waiting although the
    queue has room implies another one that is about to put its task in; once the pool
    is shut down no worker and no submitter waits any more.  A caller of
    [nv_threadpool_wait_idle] waits, at any time, only while the queue is not empty; after an
    immediate shutdown, which leaves tasks in the queue, that can be for ever. *)
Theorem nv_threadpool_no_lost_wakeup c :
  reachable c ->
  (shutdown (tp c) = false -> (0 < count (tp c))%nat ->
     exists i, (exists t, ws c !! i = Some (WRun t)) \/
       (ws c !! i = Some WEnter /\ exists t p', worker_section (tp c) = Ret (ToRun t p'))) /\
  (shutdown (tp c) = false -> Exists (fun p => p_waiting p = true) (ps c) ->
     (count (tp c) < queue_capacity (tp c))%nat ->
     exists j t timed p', ps c !! j = Some (PEnter t timed) /\ add_section (tp c) t = Ret (AddDone NV_TP_OK p')) /\
  (shutdown (tp c) = true ->
     Forall (fun w => w_waiting w = false) (ws c) /\ Forall (fun p => p_waiting p = false) (ps c)) /\
  (IWait ∈ idlers c -> (0 < count (tp c))%nat).
Proof.
  intros Hr. pose proof (idle_waiter_has_queue c Hr) as Hidle. apply tp_reachable_inv in Hr as Hinv. split_and!; [| |apply Hinv|done].
  - intros Hs Hc0. pose proof Hc0 as Hc. apply (i_awake _ Hinv Hs), Exists_lookup in Hc as (i & w & E & Hw). exists i.
    destruct (worker_section_total _ (i_ring _ Hinv)) as [(_ & ? & _)|[(_ & ?)|(t & p' & Hsec & _)]];
      [lia|congruence|]. destruct w; try done; eauto 8.
  - intros Hs Hx Hc. pose proof (i_slots _ Hinv Hs Hx) as Hn.
    assert (exists j t timed, ps c !! j = Some (PEnter t timed)) as (j & t & timed & E).
    { destruct (entering_some (ps c)) as (j & t & timed & E); [lia|]. eauto. }
    exists j, t, timed. unfold add_section. rewrite Hs. simpl.
    destruct (Nat.eqb_spec (count (tp c)) (queue_capacity (tp c))); [lia|].
    destruct (enqueue_spec _ t (i_ring _ Hinv) Hc) as (p' & -> & _). simpl. eauto.
Qed.

(** C15: a shutdown ends.  Once the flag is set it stays set, every step either leaves the
    queue and the workers as they are or decreases the work left, and while a worker has
    not left some worker can make a decreasing step: the joins of
    [nv_threadpool_destroy] return under every fair schedule. *)
Theorem nv_threadpool_destroy_joins c :
  reachable c -> shutdown (tp c) = true ->
  0 <= work c /\
  (forall c', step c c' -> shutdown (tp c') = true /\ (ws c' = ws c /\ tp c' = tp c \/ work c' < work c)) /\
  (~ Forall (fun w => w = WExit) (ws c) -> exists c', step c c' /\ work c' < work c).
Proof.
  intros Hinv%tp_reachable_inv Hs. split_and!; [apply work_nonneg| |by apply work_progress].
  intros c'. by apply work_step.
Qed.

(** When the workers have been joined, a graceful shutdown has run every accepted
    task, and an immediate one has run the tasks it did not leave in the queue. *)
Theorem nv_threadpool_shutdown_complete c :
  reachable c -> Forall (fun w => w = WExit) (ws c) ->
  shutdown (tp c) = true /\ submitted c ≡ₚ finished c ++ contents (tp c) /\
  (mode (tp c) = GRACEFUL -> contents (tp c) = [] /\ submitted c ≡ₚ finished c).
Proof.
  intros Hinv%tp_reachable_inv Hx. pose proof (i_exit _ Hinv) as He. pose proof (i_some _ Hinv) as Hn.
  destruct He as [Hs Hg]. { destruct (ws c); [simpl in Hn; lia|]. left. by inversion Hx. }
  assert (submitted c ≡ₚ finished c ++ contents (tp c)) as Hsub.
  { rewrite (i_fifo _ Hinv), (i_run _ Hinv), (running_exited _ Hx), app_nil_r. done. }
  split_and!; [done|done|]. intros Hm.
  assert (contents (tp c) = []) as Hc.
  { apply length_zero_iff_nil. rewrite (contents_length _ (i_ring _ Hinv)). auto. }
  by rewrite Hc, app_nil_r in Hsub.
Qed.

(** ** A run of a pool with one worker and one cell *)

Definition ring1 (t : task) (n : nat) (s : bool) : threadpool_t := mkTP [t] 1 1 0 0 n s GRACEFUL.
Definition t1 : task := (7, 1).

(** Just accepted; started, with a caller of [nv_threadpool_wait_idle] back; finished
    and joined. *)
Definition run_queued : conf := mkConf (ring1 t1 1 false) [WEnter] [PRet 0] [] [t1] [] [].
Definition run_idle : conf := mkConf (ring1 t1 0 false) [WRun t1] [PRet 0] [IRet] [t1] [t1] [].
Definition run_down : conf := mkConf (ring1 t1 0 true) [WEnter] [PRet 0] [IRet] [t1] [t1] [t1].
Definition run_joined : conf := mkConf (ring1 t1 0 true) [WExit] [PRet 0] [IRet] [t1] [t1] [t1].

Lemma reach_to c c' c'' : reachable c -> step c c' -> c' = c'' -> reachable c''.
Proof. intros Hr Hs <-. by eapply reach_step. Qed.

Lemma no_waiter {A} (f : A -> bool) g l : Forall (fun a => f a = false) l -> signalled f g l l.
Proof. by right. Qed.

Lemma run_queued_reachable : reachable run_queued.
Proof.
  eapply reach_to; [eapply reach_to| |].
  - apply (reach_init 1 1 [(0, 0)] (ring1 (0, 0) 0 false) 1); [done|done|cbn; lia].
  - apply (st_add_call _ t1 false).
  - reflexivity.
  - by eapply (st_add_done _ 0 t1 false); [| |apply no_waiter; repeat constructor].
  - reflexivity.
Qed.

Lemma run_idle_reachable : reachable run_idle.
Proof.
  eapply reach_to; [eapply reach_to; [eapply reach_to; [apply run_queued_reachable| |]| |]| |].
  - by eapply (st_worker_run _ 0 t1); [| |apply no_waiter; repeat constructor].
  - reflexivity.
  - apply st_idle_call.
  - reflexivity.
  - by apply (st_idle_ret _ 0).
  - reflexivity.
Qed.

Lemma run_down_reachable : reachable run_down.
Proof.
  eapply reach_to; [eapply reach_to; [apply run_idle_reachable| |]| |].
  - by apply (st_worker_done _ 0 t1).
  - reflexivity.
  - by apply (st_destroy _ GRACEFUL).
  - reflexivity.
Qed.

Lemma run_joined_reachable : reachable run_joined.
Proof. eapply reach_to; [apply run_down_reachable|by apply (st_worker_leave _ 0)|done]. Qed.

Lemma nv_threadpool_fifo_witness : submitted run_idle = started run_idle ++ contents (tp run_idle).
Proof. apply (nv_threadpool_fifo run_idle). apply run_idle_reachable. Defined.

Lemma nv_threadpool_no_lost_wakeup_witness :
  exists i, (exists t, ws run_queued !! i = Some (WRun t)) \/
    (ws run_queued !! i = Some WEnter /\ exists t p', worker_section (tp run_queued) = Ret (ToRun t p')).
Proof. apply (nv_threadpool_no_lost_wakeup run_queued); [apply run_queued_reachable|done|simpl; lia]. Defined.

Lemma nv_threadpool_destroy_joins_witness : exists c', step run_down c' /\ work c' < work run_down.
Proof.
  apply (nv_threadpool_destroy_joins run_down); [apply run_down_reachable|done|].
  intros Hx. by inversion Hx.
Defined.

Lemma nv_threadpool_shutdown_complete_witness : submitted run_joined ≡ₚ finished run_joined.
Proof.
  apply (nv_threadpool_shutdown_complete run_joined); [apply run_joined_reachable|by repeat constructor|done].
Defined.

(** [nv_threadpool_wait_idle] waits for an empty queue, not for the tasks: there is
    a run in which it has returned while an accepted task is still running and no task
    has finished. *)
Theorem nv_threadpool_wait_idle_early :
  exists c, reachable c /\ IRet ∈ idlers c /\ submitted c = [t1] /\ running (ws c) = [t1] /\ finished c = [].
Proof. exists run_idle. split; [apply run_idle_reachable|]. split_and!; try done. by left. Qed.

End ThreadPool.
