(* ===== verification/Log.v ===== *)
(** * The asynchronous logger (base/log: nv_log.c), used by one thread at a time

    The level and overflow settings, the ring of log lines with its three overflow
    policies, and the rotation of the log file over a file system of named files.
    Theorems: the queue size is a power of two in its documented range, the ring is a
    bounded queue that refuses (DROP, BLOCK) or overwrites its oldest line
    (OVERWRITE) when full, and a rotation shifts the kept files by one. *)
From S2P Require Import Prelude.

Module Log.

Definition NV_LOG_LINE_MAX : Z := 4096.
Definition NV_LOG_MSG_MAX : Z := NV_LOG_LINE_MAX.
Definition NV_LOG_QUEUE_MIN : Z := 64.
Definition NV_LOG_QUEUE_MAX : Z := 65536.

(** [nv_log_level_e] *)
Definition NV_LOG_LEVEL_DEBUG : Z := 0.
Definition NV_LOG_LEVEL_INFO : Z := 1.
Definition NV_LOG_LEVEL_NOTICE : Z := 2.
Definition NV_LOG_LEVEL_WARNING : Z := 3.
Definition NV_LOG_LEVEL_ERROR : Z := 4.
Definition NV_LOG_LEVEL_CRIT : Z := 5.
Definition NV_LOG_LEVEL_FATAL : Z := 6.
Definition NV_LOG_LEVEL_MAX : Z := 7.

Inductive nv_log_overflow_e := NV_LOG_OVERFLOW_DROP | NV_LOG_OVERFLOW_BLOCK | NV_LOG_OVERFLOW_OVERWRITE.
#[export] Instance nv_log_overflow_eq_dec : EqDecision nv_log_overflow_e.
Proof. solve_decision. Defined.

(** ** Settings *)

Definition log_info : list cstr :=
  [str "DEBUG"; str "INFO"; str "NOTICE"; str "WARNING"; str "ERROR"; str "CRIT"; str "FATAL"].

Definition nv_log_get_info (level : Z) : outcome cstr :=
  if (level <? 0) || (NV_LOG_LEVEL_MAX <=? level) then Ret (str "UNKNOWN")
  else deref (log_info !! Z.to_nat level).

(** The file's static variables (the ring has its own record below). *)
Record settings := mkSettings {
  g_log_module : cstr;
  g_log_level : Z;
  g_log_console : Z;
  g_log_syslog : Z;
  g_ring_capacity : Z;
  g_overflow_policy : nv_log_overflow_e;
  g_async_ready : bool;
  g_rotate_max_bytes : Z;
  g_rotate_keep : Z;
  g_rotate_path : cstr;
}.

Definition nv_log_set_level (g : settings) (level : Z) : settings :=
  let level := if level <? 0 then NV_LOG_LEVEL_DEBUG
               else if NV_LOG_LEVEL_MAX <=? level then NV_LOG_LEVEL_FATAL
               else level in
  mkSettings (g_log_module g) level (g_log_console g) (g_log_syslog g) (g_ring_capacity g)
    (g_overflow_policy g) (g_async_ready g) (g_rotate_max_bytes g) (g_rotate_keep g) (g_rotate_path g).

Definition nv_log_set_module (g : settings) (module : option cstr) : settings :=
  let m := match module with Some (c :: m) => str_trunc 32 (c :: m) | _ => str "NV" end in
  mkSettings m (g_log_level g) (g_log_console g) (g_log_syslog g) (g_ring_capacity g)
    (g_overflow_policy g) (g_async_ready g) (g_rotate_max_bytes g) (g_rotate_keep g) (g_rotate_path g).

Definition nv_log_set_console (g : settings) (enable : Z) : settings :=
  mkSettings (g_log_module g) (g_log_level g) (if enable =? 0 then 0 else 1) (g_log_syslog g) (g_ring_capacity g)
    (g_overflow_policy g) (g_async_ready g) (g_rotate_max_bytes g) (g_rotate_keep g) (g_rotate_path g).

(** [LOG_DEBUG] ... of syslog.h. *)
Definition nv_log_to_syslog_priority (level : Z) : Z :=
  if level =? NV_LOG_LEVEL_DEBUG then 7
  else if level =? NV_LOG_LEVEL_INFO then 6
  else if level =? NV_LOG_LEVEL_NOTICE then 5
  else if level =? NV_LOG_LEVEL_WARNING then 4
  else if level =? NV_LOG_LEVEL_ERROR then 3
  else if level =? NV_LOG_LEVEL_CRIT then 2
  else if level =? NV_LOG_LEVEL_FATAL then 1
  else 6.

(** [None] is the return of -1, with [*out] unchanged. *)
Definition nv_log_level_from_string (name : option cstr) : option Z :=
  match name with
  | None => None
  | Some name =>
      if strcasecmp_eq name (str "debug") || strcasecmp_eq name (str "dump") then Some NV_LOG_LEVEL_DEBUG
      else if strcasecmp_eq name (str "info") then Some NV_LOG_LEVEL_INFO
      else if strcasecmp_eq name (str "notice") then Some NV_LOG_LEVEL_NOTICE
      else if strcasecmp_eq name (str "warning") || strcasecmp_eq name (str "warn") then Some NV_LOG_LEVEL_WARNING
      else if strcasecmp_eq name (str "error") then Some NV_LOG_LEVEL_ERROR
      else if strcasecmp_eq name (str "crit") || strcasecmp_eq name (str "critical") then Some NV_LOG_LEVEL_CRIT
      else if strcasecmp_eq name (str "fatal") then Some NV_LOG_LEVEL_FATAL
      else
        let v := strtol 64 name in
        if negb (strtol_converts name) || (v <? 0) || (NV_LOG_LEVEL_MAX <=? v) then None else Some v
  end.

Definition nv_log_overflow_from_string (name : option cstr) : option nv_log_overflow_e :=
  match name with
  | None => None
  | Some name =>
      if strcasecmp_eq name (str "drop") then Some NV_LOG_OVERFLOW_DROP
      else if strcasecmp_eq name (str "block") then Some NV_LOG_OVERFLOW_BLOCK
      else if strcasecmp_eq name (str "overwrite") || strcasecmp_eq name (str "cover")
      then Some NV_LOG_OVERFLOW_OVERWRITE
      else None
  end.

(** The [while] loop of [nv_log_round_pow2]; 10 doublings take 64 to 65536. *)
Fixpoint round_pow2_loop (fuel : nat) (p n : Z) : Z :=
  match fuel with
  | O => p
  | S f => if p <? n then round_pow2_loop f (u64 (Z.shiftl p 1)) n else p
  end.
Definition nv_log_round_pow2 (n : Z) : Z :=
  if NV_LOG_QUEUE_MAX <=? n then NV_LOG_QUEUE_MAX else round_pow2_loop 10 NV_LOG_QUEUE_MIN n.

(** The size is fixed once the log thread runs. *)
Definition nv_log_set_queue_size (g : settings) (capacity : Z) : settings :=
  if g_async_ready g then g
  else mkSettings (g_log_module g) (g_log_level g) (g_log_console g) (g_log_syslog g) (nv_log_round_pow2 capacity)
         (g_overflow_policy g) (g_async_ready g) (g_rotate_max_bytes g) (g_rotate_keep g) (g_rotate_path g).

(** The argument is the enum's integer. *)
Definition nv_log_set_overflow_policy (g : settings) (policy : Z) : settings :=
  let set p := mkSettings (g_log_module g) (g_log_level g) (g_log_console g) (g_log_syslog g) (g_ring_capacity g)
                 p (g_async_ready g) (g_rotate_max_bytes g) (g_rotate_keep g) (g_rotate_path g) in
  if policy =? 0 then set NV_LOG_OVERFLOW_DROP
  else if policy =? 1 then set NV_LOG_OVERFLOW_BLOCK
  else if policy =? 2 then set NV_LOG_OVERFLOW_OVERWRITE
  else g.

Definition nv_log_set_rotate (g : settings) (max_bytes keep_files : Z) : settings :=
  mkSettings (g_log_module g) (g_log_level g) (g_log_console g) (g_log_syslog g) (g_ring_capacity g)
    (g_overflow_policy g) (g_async_ready g) max_bytes (if 0 <? keep_files then keep_files else 1) (g_rotate_path g).

(** ** The ring *)

Record nv_log_slot_t := mkSlot { seq : Z; level : Z; text : cstr }.
Record nv_log_ring_t := mkRing {
  slots : list nv_log_slot_t;
  capacity : Z;
  mask : Z;
  enqueue_pos : Z;
  dequeue_pos : Z;
}.
Definition set_enqueue (r : nv_log_ring_t) (p : Z) : nv_log_ring_t :=
  mkRing (slots r) (capacity r) (mask r) p (dequeue_pos r).
Definition set_dequeue (r : nv_log_ring_t) (p : Z) : nv_log_ring_t :=
  mkRing (slots r) (capacity r) (mask r) (enqueue_pos r) p.
Definition index (r : nv_log_ring_t) (p : Z) : nat := Z.to_nat (Z.land p (mask r)).
Definition slot_at (r : nv_log_ring_t) (p : Z) : outcome nv_log_slot_t := deref (slots r !! index r p).
Definition set_slot (r : nv_log_ring_t) (p : Z) (s : nv_log_slot_t) : nv_log_ring_t :=
  mkRing (<[index r p := s]> (slots r)) (capacity r) (mask r) (enqueue_pos r) (dequeue_pos r).

(** A fresh ring: [calloc] zeroes the slots, the loop numbers them. *)
Definition nv_log_ring_init (ring_capacity : Z) : nv_log_ring_t :=
  let cap := nv_log_round_pow2 ring_capacity in
  mkRing (map (fun i => mkSlot (Z.of_nat i) 0 []) (List.seq 0 (Z.to_nat cap))) cap (cap - 1) 0 0.

(** One iteration of the claim loop of [nv_log_ring_push] and the loop: a full ring
    drops the line or, overwriting, discards the oldest one and tries again. *)
Fixpoint claim_loop (fuel : nat) (policy : nv_log_overflow_e) (r : nv_log_ring_t) (dropped : Z)
  : outcome (option Z * nv_log_ring_t * Z) :=
  match fuel with
  | O => UB
  | S f =>
      let pos := enqueue_pos r in
      let head := dequeue_pos r in
      if capacity r <=? u64 (pos - head) then
        match policy with
        | NV_LOG_OVERFLOW_DROP | NV_LOG_OVERFLOW_BLOCK => Ret (None, r, u64 (dropped + 1))
        | NV_LOG_OVERFLOW_OVERWRITE =>
            let r := set_dequeue r (u64 (head + 1)) in
            s ← slot_at r head;
            claim_loop f policy (set_slot r head (mkSlot (u64 (head + capacity r)) (level s) (text s)))
              (u64 (dropped + 1))
        end
      else Ret (Some pos, set_enqueue r (u64 (pos + 1)), dropped)
  end.

(** The line as the slot stores it. *)
Definition clip (line : cstr) : cstr := take (Z.to_nat (NV_LOG_MSG_MAX - 1)) line.

(** After the claim: check the slot's sequence number, fill it and publish it.  With no
    other thread the spin loop sees the same number at every turn. *)
Definition fill_slot (pos : Z) (line : cstr) (lvl : Z) (r : nv_log_ring_t) (dropped : Z)
  : outcome (Z * nv_log_ring_t * Z) :=
  s ← slot_at r pos;
  if negb (seq s =? pos) then Ret (-1, r, u64 (dropped + 1))
  else Ret (0, set_slot r pos (mkSlot (u64 (pos + 1)) lvl (clip line)), dropped).

(** [nv_log_ring_push]: the return code, the ring and [g_dropped]. *)
Definition nv_log_ring_push (ready : bool) (policy : nv_log_overflow_e) (line : option cstr) (lvl : Z)
    (r : nv_log_ring_t) (dropped : Z) : outcome (Z * nv_log_ring_t * Z) :=
  match line with
  | None => Ret (-1, r, u64 (dropped + 1))
  | Some line =>
      if negb ready then Ret (-1, r, u64 (dropped + 1))
      else if (length line =? 0)%nat then Ret (0, r, dropped)
      else
        '(claimed, r, dropped) ← claim_loop 2 policy r dropped;
        match claimed with
        | None => Ret (-1, r, dropped)
        | Some pos => fill_slot pos line lvl r dropped
        end
  end.

(** [nv_log_ring_pop]: [Some] line and its level is a return of 1. *)
Definition nv_log_ring_pop (r : nv_log_ring_t) : outcome (option (Z * cstr) * nv_log_ring_t) :=
  let pos := dequeue_pos r in
  let tail := enqueue_pos r in
  if tail <=? pos then Ret (None, r)
  else
    s ← slot_at r pos;
    if negb (seq s =? u64 (pos + 1)) then Ret (None, r)
    else Ret (Some (level s, text s),
              set_dequeue (set_slot r pos (mkSlot (u64 (pos + capacity r)) (level s) (text s))) (u64 (pos + 1))).

(** [capacity], [pending], [dropped] and the name of the policy, [None] being NULL. *)
Definition nv_log_get_queue_stats (g : settings) (r : nv_log_ring_t) (dropped : Z) : Z * Z * Z * option cstr :=
  if capacity r =? 0 then (g_ring_capacity g, 0, dropped, None)
  else (capacity r, u64 (enqueue_pos r - dequeue_pos r), dropped,
        Some (match g_overflow_policy g with
              | NV_LOG_OVERFLOW_BLOCK => str "block"
              | NV_LOG_OVERFLOW_OVERWRITE => str "overwrite"
              | NV_LOG_OVERFLOW_DROP => str "drop"
              end)).

(** ** The ring is a bounded queue *)

Record geometry (r : nv_log_ring_t) : Prop := {
  ge_cap : exists k, 0 <= k <= 16 /\ capacity r = 2 ^ k;
  ge_mask : mask r = capacity r - 1;
  ge_len : Z.of_nat (length (slots r)) = capacity r;
}.

(** The ring holds the lines [l], oldest first: the slot of an unread position [p] has
    sequence number [p + 1] and the line, that of a position still free in this lap has
    sequence number [p]. *)
Record holds (r : nv_log_ring_t) (l : list (Z * cstr)) : Prop := {
  ho_geom : geometry r;
  ho_pos : 0 <= dequeue_pos r;
  ho_count : enqueue_pos r = dequeue_pos r + Z.of_nat (length l);
  ho_fits : Z.of_nat (length l) <= capacity r;
  ho_used : forall i m, l !! i = Some m ->
    slots r !! index r (dequeue_pos r + Z.of_nat i) = Some (mkSlot (dequeue_pos r + Z.of_nat i + 1) m.1 m.2);
  ho_free : forall p, enqueue_pos r <= p < dequeue_pos r + capacity r ->
    exists lv tx, slots r !! index r p = Some (mkSlot p lv tx);
}.

Lemma index_mod r p : geometry r -> Z.of_nat (index r p) = p mod capacity r.
Proof.
  intros Hr. destruct (ge_cap _ Hr) as (k & Hk & Ec). unfold index.
  rewrite (ge_mask _ Hr), Ec. replace (2 ^ k - 1) with (Z.ones k) by (rewrite Z.ones_equiv; lia).
  rewrite Z.land_ones by lia. apply Z2Nat.id. apply Z.mod_pos_bound. lia.
Qed.

Lemma cap_pos r : geometry r -> 0 < capacity r <= 65536.
Proof.
  intros Hr. destruct (ge_cap _ Hr) as (k & Hk & ->). change 65536 with (2 ^ 16).
  split; [lia|]. apply Z.pow_le_mono_r; lia.
Qed.

(** Positions within a lap of one another have their own slots. *)
Lemma index_inj r p q :
  geometry r -> index r p = index r q -> Z.abs (p - q) < capacity r -> p = q.
Proof.
  intros Hr E Hlt. pose proof (cap_pos r Hr). apply (f_equal Z.of_nat) in E.
  rewrite !(index_mod _ _ Hr) in E. pose proof (Z.div_mod p (capacity r)). pose proof (Z.div_mod q (capacity r)).
  destruct (Z.lt_trichotomy (p / capacity r) (q / capacity r)) as [|[|]]; nia.
Qed.
Lemma index_lap r p : geometry r -> index r (p + capacity r) = index r p.
Proof.
  intros Hr. pose proof (cap_pos r Hr). apply Nat2Z.inj. rewrite !index_mod by done.
  rewrite <- (Z.mul_1_l (capacity r)) at 1. apply Z.mod_add. lia.
Qed.
Lemma index_lt r p : geometry r -> (index r p < length (slots r))%nat.
Proof.
  intros Hr. pose proof (cap_pos r Hr). apply Nat2Z.inj_lt. rewrite (ge_len _ Hr), index_mod by done.
  apply Z.mod_pos_bound. lia.
Qed.

Lemma set_slot_geometry r p s : geometry r -> geometry (set_slot r p s).
Proof. intros [? ? ?]. split; cbn; [done|done|by rewrite length_insert]. Qed.

Lemma set_slot_same r p s : geometry r -> slots (set_slot r p s) !! index r p = Some s.
Proof. intros Hg. apply list_lookup_insert_eq. by apply index_lt. Qed.
Lemma set_slot_other r p q s :
  geometry r -> p <> q -> Z.abs (p - q) < capacity r -> slots (set_slot r p s) !! index r q = slots r !! index r q.
Proof. intros Hg Hne Hd. apply list_lookup_insert_ne. intros E. by apply Hne, (index_inj r). Qed.

(** Far from the end of the 64-bit positions nothing wraps. *)
Definition small (r : nv_log_ring_t) : Prop := enqueue_pos r + 2 ^ 17 <= 2 ^ 64.

Lemma u64_small x : 0 <= x -> x < 2 ^ 64 -> u64 x = x.
Proof. intros. apply wrap_small. by split. Qed.

(** Discarding the oldest line, by the reader or by an overwriting writer. *)
Lemma holds_discard r m l :
  holds r (m :: l) ->
  holds (set_dequeue (set_slot r (dequeue_pos r) (mkSlot (dequeue_pos r + capacity r) m.1 m.2)) (dequeue_pos r + 1)) l.
Proof.
  intros [Hg Hp Hc Hf Hu Hfree]. pose proof (cap_pos r Hg). simpl length in *.
  split; [|cbn; lia..| |].
  - by destruct (set_slot_geometry r (dequeue_pos r) (mkSlot (dequeue_pos r + capacity r) m.1 m.2) Hg).
  - intros i x Hi. change (index _ ?p) with (index r p).
    change (slots (set_dequeue ?r _)) with (slots r). cbn [set_dequeue dequeue_pos]. pose proof (lookup_lt_Some _ _ _ Hi).
    replace (dequeue_pos r + 1 + Z.of_nat i) with (dequeue_pos r + Z.of_nat (S i)) by lia.
    rewrite set_slot_other by (done || lia). by apply Hu.
  - intros p Hpr. change (index _ ?q) with (index r q). change (slots (set_dequeue ?r _)) with (slots r).
    cbn in Hpr. destruct (decide (p = dequeue_pos r + capacity r)) as [->|].
    + rewrite index_lap by done. rewrite set_slot_same by done. eauto.
    + rewrite set_slot_other by (done || lia). apply Hfree. lia.
Qed.

(** Appending a line. *)
Lemma holds_append r l m :
  holds r l -> Z.of_nat (length l) < capacity r ->
  holds (set_slot (set_enqueue r (enqueue_pos r + 1)) (enqueue_pos r) (mkSlot (enqueue_pos r + 1) m.1 m.2)) (l ++ [m]).
Proof.
  intros [Hg Hp Hc Hf Hu Hfree] Hlt. pose proof (cap_pos r Hg).
  assert (geometry (set_enqueue r (enqueue_pos r + 1))) as Hg' by (by destruct Hg).
  split; [by apply set_slot_geometry|cbn; rewrite ?length_app; simpl; lia..| |].
  - intros i x Hi. change (index _ ?p) with (index r p). change (dequeue_pos (set_slot _ _ _)) with (dequeue_pos r).
    change (slots (set_slot (set_enqueue r _) ?p ?s)) with (slots (set_slot r p s)).
    apply lookup_app_Some in Hi as [Hi|[Hge Hi]].
    + pose proof (lookup_lt_Some _ _ _ Hi). rewrite set_slot_other by (done || lia). by apply Hu.
    + apply list_lookup_singleton_Some in Hi as [Hi ->].
      replace (dequeue_pos r + Z.of_nat i) with (enqueue_pos r) by lia. by apply set_slot_same.
  - intros p Hpr. cbn in Hpr. change (index _ ?q) with (index r q).
    change (slots (set_slot (set_enqueue r _) ?p ?s)) with (slots (set_slot r p s)). rewrite set_slot_other by (done || lia).
    apply Hfree. lia.
Qed.


Lemma pop_empty r : holds r [] -> nv_log_ring_pop r = Ret (None, r).
Proof.
  intros Hh. unfold nv_log_ring_pop. pose proof (ho_count _ _ Hh) as Hc. simpl in Hc.
  destruct (Z.leb_spec (enqueue_pos r) (dequeue_pos r)); [done|lia].
Qed.

Lemma slot_head r m l : holds r (m :: l) -> slot_at r (dequeue_pos r) = Ret (mkSlot (dequeue_pos r + 1) m.1 m.2).
Proof.
  intros Hh. unfold slot_at. pose proof (ho_used _ _ Hh 0%nat m eq_refl) as Hu.
  rewrite Z.add_0_r in Hu. by rewrite Hu.
Qed.

Lemma holds_bound r l : holds r l -> small r -> 0 <= dequeue_pos r /\ dequeue_pos r + capacity r < 2 ^ 64 /\
  0 <= enqueue_pos r /\ enqueue_pos r + capacity r < 2 ^ 64 /\ 0 < capacity r /\ enqueue_pos r < 2 ^ 64 - 1.
Proof.
  intros [Hg Hp Hc Hf _ _] Hs. pose proof (cap_pos r Hg). unfold small in Hs.
  change (2 ^ 17) with 131072 in Hs. lia.
Qed.

Lemma pop_first r m l :
  holds r (m :: l) -> small r ->
  exists r', nv_log_ring_pop r = Ret (Some m, r') /\ holds r' l /\
    capacity r' = capacity r /\ enqueue_pos r' = enqueue_pos r.
Proof.
  intros Hh Hs. pose proof (holds_bound _ _ Hh Hs) as Hb. unfold nv_log_ring_pop.
  pose proof (ho_count _ _ Hh) as Hc. simpl length in Hc.
  destruct (Z.leb_spec (enqueue_pos r) (dequeue_pos r)); [lia|].
  rewrite (slot_head _ _ _ Hh). cbn [mbind outcome_bind seq level text].
  rewrite !u64_small by lia. rewrite Z.eqb_refl. simpl negb. cbv iota.
  eexists. split; [by destruct m|]. split; [by apply holds_discard|done].
Qed.

(** What a push does to the queued lines, with the number of lines it discards. *)
Definition bounded_push (policy : nv_log_overflow_e) (cap : Z) (l : list (Z * cstr)) (m : Z * cstr)
  : Z * list (Z * cstr) * Z :=
  if Z.of_nat (length l) <? cap then (0, l ++ [m], 0)
  else match policy with
       | NV_LOG_OVERFLOW_OVERWRITE => (0, tail l ++ [m], 1)
       | _ => (-1, l, 1)
       end.

Lemma log_claim_room policy f r l d :
  holds r l -> small r -> Z.of_nat (length l) < capacity r ->
  claim_loop (S f) policy r d = Ret (Some (enqueue_pos r), set_enqueue r (enqueue_pos r + 1), d).
Proof.
  intros Hh Hs Hlt. pose proof (holds_bound _ _ Hh Hs). pose proof (ho_count _ _ Hh). cbn [claim_loop].
  rewrite (u64_small (enqueue_pos r - _)) by lia.
  destruct (Z.leb_spec (capacity r) (enqueue_pos r - dequeue_pos r)); [lia|]. by rewrite u64_small by lia.
Qed.

Lemma claim_full policy f r m l d :
  holds r (m :: l) -> small r -> capacity r <= Z.of_nat (length (m :: l)) ->
  claim_loop (S f) policy r d =
    match policy with
    | NV_LOG_OVERFLOW_OVERWRITE =>
        claim_loop f policy (set_dequeue (set_slot r (dequeue_pos r) (mkSlot (dequeue_pos r + capacity r) m.1 m.2))
                               (dequeue_pos r + 1)) (u64 (d + 1))
    | _ => Ret (None, r, u64 (d + 1))
    end.
Proof.
  intros Hh Hs Hge. pose proof (holds_bound _ _ Hh Hs). pose proof (ho_count _ _ Hh). cbn [claim_loop].
  assert ((capacity r <=? u64 (enqueue_pos r - dequeue_pos r)) = true) as ->.
  { rewrite u64_small by lia. apply Z.leb_le. lia. }
  destruct policy; try done. change (slot_at (set_dequeue r _) ?p) with (slot_at r p).
  rewrite (slot_head _ _ _ Hh). cbn [mbind outcome_bind level text].
  by rewrite (u64_small (dequeue_pos r + 1)), (u64_small (dequeue_pos r + capacity _)) by (cbn; lia).
Qed.

Lemma store_line r l line lvl d :
  holds r l -> small r -> Z.of_nat (length l) < capacity r ->
  exists r', fill_slot (enqueue_pos r) line lvl (set_enqueue r (enqueue_pos r + 1)) d = Ret (0, r', d) /\
    holds r' (l ++ [(lvl, clip line)]) /\ capacity r' = capacity r /\ enqueue_pos r' = enqueue_pos r + 1.
Proof.
  intros Hh Hs Hlt. pose proof (holds_bound _ _ Hh Hs). pose proof (ho_count _ _ Hh).
  destruct (ho_free _ _ Hh (enqueue_pos r)) as (lv & tx & E); [lia|].
  unfold fill_slot. change (slot_at (set_enqueue r _) ?p) with (slot_at r p). unfold slot_at. rewrite E.
  cbn [deref mbind outcome_bind seq]. rewrite Z.eqb_refl. simpl negb. cbv iota. rewrite u64_small by lia.
  eexists. split; [done|]. split; [|done]. by apply (holds_append r l (lvl, clip line)).
Qed.

Lemma log_push_spec policy line lvl r l d :
  holds r l -> small r -> 0 <= d < 2 ^ 64 -> line <> [] ->
  let '(rc, l', n) := bounded_push policy (capacity r) l (lvl, clip line) in
  exists r', nv_log_ring_push true policy (Some line) lvl r d = Ret (rc, r', u64 (d + n)) /\ holds r' l' /\
    capacity r' = capacity r /\ enqueue_pos r <= enqueue_pos r' <= enqueue_pos r + 1.
Proof.
  intros Hh Hs Hd Hne. unfold nv_log_ring_push, bounded_push. simpl negb. cbv iota.
  destruct (Nat.eqb_spec (length line) 0) as [?%length_zero_iff_nil|_]; [done|].
  destruct (Z.ltb_spec (Z.of_nat (length l)) (capacity r)) as [Hlt|Hge].
  { rewrite (log_claim_room _ _ _ _ _ Hh Hs Hlt). cbn [mbind outcome_bind].
    destruct (store_line _ _ line lvl d Hh Hs Hlt) as (r' & E & Hh1 & Hcap & Henq). exists r'.
    rewrite Z.add_0_r, (u64_small d) by lia. split; [exact E|]. split_and!; [done|done|lia|lia]. }
  pose proof (holds_bound _ _ Hh Hs). pose proof (ho_count _ _ Hh). pose proof (ho_fits _ _ Hh).
  destruct l as [|m l]; [simpl in *; lia|].
  rewrite (claim_full policy 1 r m l d) by done. simpl length in *.
  pose proof (holds_discard _ _ _ Hh) as Hh'. set (r1 := set_dequeue (set_slot _ _ _) _) in *.
  assert (small r1 /\ Z.of_nat (length l) < capacity r1) as [Hs1 Hlt1] by (split; [done|cbn; lia]).
  destruct policy; cbn [mbind outcome_bind].
  1,2: exists r; split_and!; [done|done|done|lia|lia].
  rewrite (log_claim_room _ _ _ _ _ Hh' Hs1 Hlt1). cbn [mbind outcome_bind].
  destruct (store_line _ _ line lvl (u64 (d + 1)) Hh' Hs1 Hlt1) as (r' & E & Hh1 & Hcap & Henq). exists r'.
  split; [exact E|]. split_and!; [done|done|rewrite Henq; cbn; lia..].
Qed.

(** *** Sequences of operations *)

Inductive op := Push (lvl : Z) (line : cstr) | Pop.
Inductive result := Pushed (rc : Z) | Popped (m : option (Z * cstr)).

Fixpoint run (policy : nv_log_overflow_e) (ops : list op) (r : nv_log_ring_t) (d : Z)
  : outcome (list result * nv_log_ring_t * Z) :=
  match ops with
  | [] => Ret ([], r, d)
  | Push lvl line :: ops =>
      '(rc, r, d) ← nv_log_ring_push true policy (Some line) lvl r d;
      '(rs, r, d) ← run policy ops r d; Ret (Pushed rc :: rs, r, d)
  | Pop :: ops =>
      '(m, r) ← nv_log_ring_pop r;
      '(rs, r, d) ← run policy ops r d; Ret (Popped m :: rs, r, d)
  end.

(** The specification: a bounded queue and a counter of discarded lines. *)
Fixpoint spec (policy : nv_log_overflow_e) (cap : Z) (ops : list op) (l : list (Z * cstr)) (d : Z)
  : list result * list (Z * cstr) * Z :=
  match ops with
  | [] => ([], l, d)
  | Push lvl [] :: ops => let '(rs, l, d) := spec policy cap ops l d in (Pushed 0 :: rs, l, d)
  | Push lvl line :: ops =>
      let '(rc, l, n) := bounded_push policy cap l (lvl, clip line) in
      let '(rs, l, d) := spec policy cap ops l (d + n) in (Pushed rc :: rs, l, d)
  | Pop :: ops => let '(rs, l', d) := spec policy cap ops (tail l) d in (Popped (head l) :: rs, l', d)
  end.

Lemma run_refines policy ops : forall r l d,
  holds r l -> enqueue_pos r + Z.of_nat (length ops) + 2 ^ 17 <= 2 ^ 64 ->
  0 <= d -> d + Z.of_nat (length ops) < 2 ^ 64 ->
  let '(rs, l', d') := spec policy (capacity r) ops l d in
  exists r', run policy ops r d = Ret (rs, r', d') /\ holds r' l'.
Proof.
  induction ops as [|[lvl line|] ops IH]; intros r l d Hh Hb Hd Hd'; cbn [run spec length] in *; [eauto|..].
  - assert (small r) as Hs by (unfold small; lia). destruct line as [|c line].
    + unfold nv_log_ring_push. simpl. specialize (IH r l d Hh). destruct (spec _ _ _ _ _) as [[rs l'] d'].
      destruct IH as (r' & -> & ?); [lia..|]. simpl. eauto.
    + pose proof (log_push_spec policy (c :: line) lvl r l d Hh Hs ltac:(lia) ltac:(done)) as Hp.
      destruct (bounded_push _ _ _ _) as [[rc l1] n] eqn:En.
      assert (0 <= n <= 1) as Hn by (unfold bounded_push in En; repeat case_match; simplify_eq; lia).
      destruct Hp as (r1 & -> & Hh1 & Hcap & Henq). rewrite u64_small by lia. cbn [mbind outcome_bind].
      specialize (IH r1 l1 (d + n) Hh1). rewrite Hcap in IH. destruct (spec _ _ _ _ _) as [[rs l'] d'].
      destruct IH as (r' & -> & ?); [lia..|]. simpl. eauto.
  - assert (small r) as Hs by (unfold small; lia). destruct l as [|m l].
    + rewrite (pop_empty _ Hh). cbn [mbind outcome_bind tail head]. specialize (IH r [] d Hh).
      destruct (spec _ _ _ _ _) as [[rs l'] d']. destruct IH as (r' & -> & ?); [lia..|]. simpl. eauto.
    + destruct (pop_first _ _ _ Hh Hs) as (r1 & -> & Hh1 & Hcap & Henq). cbn [mbind outcome_bind tail head].
      specialize (IH r1 l d Hh1). rewrite Hcap in IH.
      destruct (spec _ _ _ _ _) as [[rs l'] d']. destruct IH as (r' & -> & ?); [lia..|]. simpl. eauto.
Qed.

(** ** Start-up *)

Lemma round_loop_spec fuel : forall k n,
  0 <= k -> k + Z.of_nat fuel = 16 -> n <= 2 ^ 16 ->
  exists j, k <= j <= 16 /\ round_pow2_loop fuel (2 ^ k) n = 2 ^ j /\ n <= 2 ^ j /\ (j = k \/ 2 ^ (j - 1) < n).
Proof.
  induction fuel as [|f IH]; intros k n Hk Hf Hn; cbn [round_pow2_loop].
  - exists k. replace k with 16 in * by lia. split_and!; auto; lia.
  - destruct (Z.ltb_spec (2 ^ k) n) as [Hlt|]; [|exists k; split_and!; auto; lia].
    assert (u64 (Z.shiftl (2 ^ k) 1) = 2 ^ (k + 1)) as ->.
    { rewrite Z.shiftl_mul_pow2 by lia. rewrite <- Z.pow_add_r by lia. apply u64_small; [lia|].
      apply Z.pow_lt_mono_r; lia. }
    destruct (IH (k + 1) n) as (j & Hj & E & H1 & H2); [lia..|]. exists j. split_and!; try done; [lia|lia|].
    right. destruct H2 as [->|]; [|done]. by replace (k + 1 - 1) with k by lia.
Qed.

Lemma round_pow2_spec n :
  exists k, 6 <= k <= 16 /\ nv_log_round_pow2 n = 2 ^ k /\ (n <= 2 ^ 16 -> n <= 2 ^ k) /\ (k = 6 \/ 2 ^ (k - 1) < n).
Proof.
  unfold nv_log_round_pow2, NV_LOG_QUEUE_MAX, NV_LOG_QUEUE_MIN.
  destruct (Z.leb_spec 65536 n).
  - exists 16. split_and!; try done. right. change (2 ^ (16 - 1)) with 32768. lia.
  - destruct (round_loop_spec 10 6 n) as (j & Hj & E & H1 & H2); [lia..|change (2 ^ 16) with 65536; lia|].
    exists j. split_and!; auto; lia.
Qed.

Lemma init_holds n : holds (nv_log_ring_init n) [].
Proof.
  destruct (round_pow2_spec n) as (k & Hk & E & _). unfold nv_log_ring_init. rewrite E.
  set (r := mkRing _ _ _ _ _). assert (geometry r) as Hg.
  { split; cbn; [exists k; split; [lia|done]|done|]. rewrite length_map, length_seq. lia. }
  pose proof (cap_pos r Hg). split; try done; [cbn in *; lia|].
  intros p Hp. exists 0, []. cbn [enqueue_pos dequeue_pos r] in Hp.
  assert (index r p = Z.to_nat p) as ->.
  { apply Nat2Z.inj. rewrite index_mod by done. rewrite Z.mod_small by lia. lia. }
  change (capacity r) with (2 ^ k) in *. cbn [slots r].
  rewrite list_lookup_fmap, lookup_seq_lt by lia. simpl. by rewrite Z2Nat.id by lia.
Qed.

(** Whatever size is asked for, the queue gets a power of two between
    [NV_LOG_QUEUE_MIN] and [NV_LOG_QUEUE_MAX]: the least one that is large enough, or
    the maximum. *)
Theorem nv_log_round_pow2_least n :
  exists k, nv_log_round_pow2 n = 2 ^ k /\
    NV_LOG_QUEUE_MIN <= nv_log_round_pow2 n <= NV_LOG_QUEUE_MAX /\
    (n <= NV_LOG_QUEUE_MAX -> n <= nv_log_round_pow2 n) /\
    (nv_log_round_pow2 n = NV_LOG_QUEUE_MIN \/ nv_log_round_pow2 n < 2 * n).
Proof.
  destruct (round_pow2_spec n) as (k & Hk & -> & H1 & H2). exists k.
  unfold NV_LOG_QUEUE_MIN, NV_LOG_QUEUE_MAX. change 64 with (2 ^ 6). change 65536 with (2 ^ 16).
  split_and!; [done|apply Z.pow_le_mono_r; lia|apply Z.pow_le_mono_r; lia|done|].
  destruct H2 as [->|H2]; [by left|right]. replace k with (1 + (k - 1)) by lia.
  rewrite Z.pow_add_r by lia. lia.
Qed.

(** C22: from start-up on, any sequence of fewer than 2^63 pushes and pops, one at a time, behaves as a
    bounded queue of the configured capacity: lines come out in order, cut to
    [NV_LOG_MSG_MAX - 1] bytes; a full ring refuses the new line (DROP, BLOCK) or
    discards its oldest one (OVERWRITE), and [g_dropped] counts the discarded lines. *)
Theorem nv_log_ring_refines_bounded_queue policy ring_capacity ops :
  Z.of_nat (length ops) < 2 ^ 63 ->
  let '(rs, l, d) := spec policy (nv_log_round_pow2 ring_capacity) ops [] 0 in
  exists r, run policy ops (nv_log_ring_init ring_capacity) 0 = Ret (rs, r, d) /\ holds r l.
Proof.
  intros Hn. pose proof (run_refines policy ops _ _ 0 (init_holds ring_capacity)) as Hr.
  change (capacity (nv_log_ring_init ring_capacity)) with (nv_log_round_pow2 ring_capacity) in Hr.
  destruct (spec _ _ _ _ _) as [[rs l] d]. apply Hr; [cbn|lia|]; rewrite pow2_64_63; [|lia].
  change (2 ^ 17) with 131072. change (2 ^ 63) with 9223372036854775808 in *. lia.
Qed.

(** Sixty-five lines through the smallest ring, then a read. *)
Definition burst : list op := repeat (Push 1 (str "old")) 65 ++ [Push 2 (str "new"); Pop].
Lemma nv_log_ring_refines_bounded_queue_witness :
  exists r, run NV_LOG_OVERFLOW_DROP burst (nv_log_ring_init 0) 0 =
    Ret (repeat (Pushed 0) 64 ++ [Pushed (-1); Pushed (-1); Popped (Some (1, str "old"))], r, 2).
Proof.
  pose proof (nv_log_ring_refines_bounded_queue NV_LOG_OVERFLOW_DROP 0 burst ltac:(reflexivity)) as H.
  vm_compute in H. destruct H as (r & E & _). exists r. exact E.
Defined.

(** ** Formatting a line *)

(** [nv_log_append_newline] on the string in a buffer of [size] bytes. *)
Definition nv_log_append_newline (buf : cstr) (size : Z) : cstr :=
  match last buf with
  | Some c => if c =? 10 then buf else if strlen buf + 1 <? size then buf ++ [10] else buf
  | None => if strlen buf + 1 <? size then buf ++ [10] else buf
  end.

(** [nv_log_emit] with its header and message already expanded by [snprintf]
    ([None]: the header could not be formatted). *)
Definition nv_log_emit (log_level : Z) (ready : bool) (policy : nv_log_overflow_e) (lvl : Z)
    (header : option cstr) (message : cstr) (r : nv_log_ring_t) (dropped : Z) : outcome (nv_log_ring_t * Z) :=
  if (lvl <? 0) || (NV_LOG_LEVEL_MAX <=? lvl) then Ret (r, dropped)
  else if lvl <? log_level then Ret (r, dropped)
  else match header with
       | None => Ret (r, dropped)
       | Some header =>
           if NV_LOG_MSG_MAX <=? strlen header then Ret (r, dropped)
           else
             let line_buf := header ++ str_trunc (Z.to_nat (NV_LOG_MSG_MAX - strlen header)) message in
             '(_, r, dropped) ← nv_log_ring_push ready policy
                (Some (nv_log_append_newline line_buf NV_LOG_MSG_MAX)) lvl r dropped;
             Ret (r, dropped)
       end.

(** ** Rotation of the log file *)

(** The file system: the files by name. *)
Abbreviation files := (gmap cstr cstr).

Definition fs_remove (fs : files) (p : cstr) : files := delete p fs.
(** [rename]: nothing happens when the old name does not exist. *)
Definition fs_rename (fs : files) (old new : cstr) : files :=
  match fs !! old with
  | Some c => <[new := c]> (delete old fs)
  | None => fs
  end.
(** [fopen(p, "a")] creates the file when it does not exist. *)
Definition fs_append (fs : files) (p : cstr) : files :=
  match fs !! p with Some _ => fs | None => <[p := []]> fs end.

(** [snprintf(buf, 560, "%s.%d", path, i)] *)
Definition numbered (path : cstr) (i : Z) : cstr := str_trunc 560 (path ++ str "." ++ print_dec i).

Definition nv_log_remember_path (path : option cstr) : cstr :=
  match path with
  | Some (c :: p) => str_trunc 512 (c :: p)
  | _ => []
  end.

(** The [for] loop: [i] counts down from [keep - 1] to 1. *)
Fixpoint shift_files (path : cstr) (i : nat) (fs : files) : files :=
  match i with
  | O => fs
  | S j => shift_files path j (fs_rename fs (numbered path (Z.of_nat i)) (numbered path (Z.of_nat i + 1)))
  end.

(** [fopen(p, "a")]: the stream opened on [p], or NULL; [can] is what the system allows. *)
Definition fopen_append (can : cstr -> bool) (p : cstr) (fs : files) : option cstr * files :=
  if can p then (Some p, fs_append fs p) else (None, fs).

(** [nv_log_rotate_if_needed]; [file] is [g_log_file], by the name it was opened under.  A
    stream is closed before its file is renamed. *)
Definition nv_log_rotate_if_needed (can : cstr -> bool) (max_bytes keep : Z) (path : cstr) (file : option cstr) (fs : files)
  : option cstr * files :=
  if (max_bytes =? 0) || (length path =? 0)%nat || negb (bool_decide (is_Some file)) then (file, fs)
  else match fs !! path with
       | None => (file, fs)
       | Some content =>
           if strlen content <? max_bytes then (file, fs)
           else
             let fs := fs_remove fs (numbered path keep) in
             let fs := shift_files path (Z.to_nat (keep - 1)) fs in
             let fs := fs_rename fs path (numbered path 1) in
             fopen_append can path fs
       end.

Section rotation.
Context (path : cstr) (Hpath : (length path <= 511)%nat).

Lemma numbered_eq i : numbered path i = path ++ str "." ++ print_dec i.
Proof.
  unfold numbered, str_trunc. apply take_ge. rewrite !length_app. pose proof (dec_loop_length 20 i).
  unfold print_dec. change (length (str ".")) with 1%nat. lia.
Qed.

Lemma numbered_inj i j : 0 <= i < 10 ^ 20 -> 0 <= j < 10 ^ 20 -> numbered path i = numbered path j -> i = j.
Proof. rewrite !numbered_eq. intros Hi Hj E%(inj (path ++.))%(inj (str "." ++.)). by apply print_dec_inj. Qed.
Lemma numbered_ne i : numbered path i <> path.
Proof. rewrite numbered_eq. intros E%(f_equal length). rewrite !length_app in E.
  change (length (str ".")) with 1%nat in E. lia. Qed.

Lemma fs_rename_lookup fs old new p :
  old <> new -> fs !! new = None ->
  fs_rename fs old new !! p = if decide (p = new) then fs !! old else if decide (p = old) then None else fs !! p.
Proof.
  intros Hne Hn. unfold fs_rename. destruct (fs !! old) as [c|] eqn:E.
  - repeat case_decide; subst; simplify_map_eq; done.
  - repeat case_decide; subst; congruence.
Qed.

(** The loop moves file [i] to [i + 1] for every [i] up to [n], provided the last place
    is free, and frees the first place. *)
Lemma shift_files_spec n : forall fs,
  Z.of_nat n + 1 < 10 ^ 20 -> fs !! numbered path (Z.of_nat n + 1) = None ->
  let fs' := shift_files path n fs in
  (forall i, 1 <= i <= Z.of_nat n -> fs' !! numbered path (i + 1) = fs !! numbered path i) /\
  fs' !! numbered path 1 = None /\
  (forall p, (forall i, 1 <= i <= Z.of_nat n + 1 -> p <> numbered path i) -> fs' !! p = fs !! p).
Proof.
  induction n as [|n IH]; intros fs Hb Hfree; [split_and!; [lia|done|done]|].
  cbn [shift_files]. remember (Z.of_nat (S n)) as k eqn:Ek.
  assert (numbered path k <> numbered path (k + 1)) as Hne by (intros E%numbered_inj; lia).
  destruct (IH (fs_rename fs (numbered path k) (numbered path (k + 1)))) as (H1 & H2 & H3); [lia| |].
  { rewrite fs_rename_lookup by done. replace (Z.of_nat n + 1) with k by lia.
    by rewrite decide_False, decide_True by done. }
  split_and!; [|done|].
  - intros i Hi. destruct (decide (i = k)) as [->|].
    + rewrite H3 by (intros j Hj E%numbered_inj; lia). by rewrite fs_rename_lookup, decide_True.
    + rewrite H1 by lia. rewrite fs_rename_lookup by done.
      by rewrite !decide_False by (intros E%numbered_inj; lia).
  - intros p Hp. rewrite H3 by (intros i Hi; apply Hp; lia). rewrite fs_rename_lookup by done.
    rewrite !decide_False; [done|apply Hp; lia|apply Hp; lia].
Qed.

End rotation.

(** The files after a rotation. *)
Lemma rotate_full can max_bytes keep path file fs content :
  (1 <= length path <= 511)%nat -> 1 <= keep <= INT_MAX -> max_bytes <> 0 ->
  fs !! path = Some content -> max_bytes <= strlen content -> is_Some file -> can path = true ->
  let '(file', fs') := nv_log_rotate_if_needed can max_bytes keep path file fs in
  file' = Some path /\ fs' !! path = Some [] /\ fs' !! numbered path 1 = Some content /\
  (forall i, 1 <= i < keep -> fs' !! numbered path (i + 1) = fs !! numbered path i) /\
  (forall p, p <> path -> (forall i, 1 <= i <= keep -> p <> numbered path i) -> fs' !! p = fs !! p).
Proof.
  intros Hlen Hk Hm Hp Hsz Hf Hc. unfold nv_log_rotate_if_needed, INT_MAX in *. rewrite bool_decide_true by done.
  destruct (Z.eqb_spec max_bytes 0), (Nat.eqb_spec (length path) 0); [lia..|]. cbn [orb negb]. rewrite Hp.
  destruct (Z.ltb_spec (strlen content) max_bytes); [lia|].
  assert (forall i, numbered path i <> path) as Hnp by (intros; apply numbered_ne; lia).
  destruct (shift_files_spec path ltac:(lia) (Z.to_nat (keep - 1)) (fs_remove fs (numbered path keep))) as (H1 & H2 & H3);
    [lia| |].
  { rewrite Z2Nat.id by lia. unfold fs_remove. replace (keep - 1 + 1) with keep by lia. apply lookup_delete_eq. }
  rewrite Z2Nat.id in H1, H3 by lia. set (fs1 := shift_files _ _ _) in *.
  assert (fs1 !! path = Some content) as E1.
  { rewrite H3 by (intros i _; symmetry; by auto). unfold fs_remove. by rewrite lookup_delete_ne. }
  unfold fopen_append, fs_append. rewrite Hc. assert (forall p, fs_rename fs1 path (numbered path 1) !! p =
    if decide (p = numbered path 1) then Some content else if decide (p = path) then None else fs1 !! p) as Hr.
  { intros p. rewrite fs_rename_lookup by (done || by symmetry). by rewrite E1. }
  rewrite (Hr path), decide_False, decide_True by (done || by symmetry).
  split_and!; [done|apply lookup_insert_eq|..].
  - rewrite lookup_insert_ne by (symmetry; done). by rewrite Hr, decide_True.
  - intros i Hi. rewrite lookup_insert_ne by (symmetry; done). rewrite Hr.
    rewrite !decide_False by (done || intros E%numbered_inj; lia).
    rewrite H1 by lia. unfold fs_remove. rewrite lookup_delete_ne; [done|]. intros E%numbered_inj; lia.
  - intros p Hpp Hpi. rewrite lookup_insert_ne by done. rewrite Hr.
    rewrite !decide_False by (done || apply Hpi; lia). rewrite H3 by (intros i Hi; apply Hpi; lia).
    unfold fs_remove. rewrite lookup_delete_ne; [done|]. symmetry. apply Hpi. lia.
Qed.

(** When the log file has reached the limit, a rotation with [keep] files makes it
    [path.1], moves every [path.i] with [i < keep] to [path.(i+1)], drops the oldest
    [path.keep], starts an empty log file and touches no other file. *)
Theorem nv_log_rotation can max_bytes keep path file fs content :
  (1 <= length path <= 511)%nat -> 1 <= keep <= INT_MAX -> max_bytes <> 0 ->
  fs !! path = Some content -> max_bytes <= strlen content -> is_Some file -> can path = true ->
  let '(file', fs') := nv_log_rotate_if_needed can max_bytes keep path file fs in
  file' = Some path /\ fs' !! path = Some [] /\ fs' !! numbered path 1 = Some content /\
  (forall i, 1 <= i < keep -> fs' !! numbered path (i + 1) = fs !! numbered path i) /\
  (forall p, p <> path -> (forall i, 1 <= i <= keep -> p <> numbered path i) -> fs' !! p = fs !! p).
Proof. apply rotate_full. Qed.

Definition demo_files : files := <[str "a.log" := str "full"]> (<[str "a.log.1" := str "older"]> ∅).
Lemma nv_log_rotation_witness :
  (nv_log_rotate_if_needed (fun _ => true) 4 2 (str "a.log") (Some (str "a.log")) demo_files).2 !! numbered (str "a.log") 1 = Some (str "full").
Proof.
  assert (demo_files !! str "a.log" = Some (str "full")) as E by (unfold demo_files; apply lookup_insert_eq).
  pose proof (nv_log_rotation (fun _ => true) 4 2 (str "a.log") (Some (str "a.log")) demo_files (str "full")
    ltac:(vm_compute; lia) ltac:(vm_compute; intuition discriminate) ltac:(discriminate) E ltac:(vm_compute; discriminate)
    ltac:(by eexists) eq_refl) as H.
  destruct (nv_log_rotate_if_needed _ _ _ _ _ _) as [file fs]. exact (proj1 (proj2 (proj2 H))).
Defined.

(** ** A line, end to end *)

(** The text of a log line: header and message cut to the buffer, closed by a newline
    when one fits. *)
Definition line_of (header message : cstr) : cstr :=
  nv_log_append_newline (header ++ str_trunc (Z.to_nat (NV_LOG_MSG_MAX - strlen header)) message) NV_LOG_MSG_MAX.

Lemma append_newline_length buf size : strlen buf < size -> strlen (nv_log_append_newline buf size) < size.
Proof.
  unfold nv_log_append_newline, strlen. intros Hb. repeat case_match; rewrite ?length_app; simpl; lia.
Qed.

Lemma line_of_length header message :
  strlen header < NV_LOG_MSG_MAX -> strlen (line_of header message) < NV_LOG_MSG_MAX.
Proof.
  intros Hh. apply append_newline_length. unfold strlen, str_trunc in *. rewrite length_app, length_take. lia.
Qed.

Lemma line_of_nonempty header message : header <> [] -> line_of header message <> [].
Proof.
  intros Hh E%(f_equal length). destruct header as [|c h]; [done|]. revert E.
  unfold line_of, nv_log_append_newline. repeat case_match; rewrite ?length_app; simpl; lia.
Qed.

(** A line that passes the filter is pushed. *)
Lemma emit_line log_level policy lvl header message r l d :
  holds r l -> small r -> 0 <= d < 2 ^ 64 -> header <> [] -> strlen header < NV_LOG_MSG_MAX ->
  if (0 <=? lvl) && (lvl <? NV_LOG_LEVEL_MAX) && (log_level <=? lvl) then
    let '(_, l', n) := bounded_push policy (capacity r) l (lvl, line_of header message) in
    exists r', nv_log_emit log_level true policy lvl (Some header) message r d = Ret (r', u64 (d + n)) /\ holds r' l' /\
      capacity r' = capacity r /\ enqueue_pos r <= enqueue_pos r' <= enqueue_pos r + 1
  else nv_log_emit log_level true policy lvl (Some header) message r d = Ret (r, d).
Proof.
  intros Hh Hs Hd Hne Hlen. unfold nv_log_emit.
  destruct (Z.leb_spec 0 lvl), (Z.ltb_spec lvl 0); try lia; cbn [andb orb]; try done.
  destruct (Z.ltb_spec lvl NV_LOG_LEVEL_MAX), (Z.leb_spec NV_LOG_LEVEL_MAX lvl); try lia; cbn [andb]; try done.
  destruct (Z.leb_spec log_level lvl), (Z.ltb_spec lvl log_level); try lia; [|done].
  destruct (Z.leb_spec NV_LOG_MSG_MAX (strlen header)); [lia|]. fold (line_of header message).
  pose proof (log_push_spec policy (line_of header message) lvl r l d Hh Hs Hd (line_of_nonempty _ _ Hne)) as Hp.
  assert (clip (line_of header message) = line_of header message) as Hc.
  { apply take_ge. pose proof (line_of_length header message Hlen). unfold strlen in *. lia. }
  rewrite Hc in Hp. destruct (bounded_push _ _ _ _) as [[rc l'] n]. destruct Hp as (r' & -> & Hh' & Hcap & Henq).
  exists r'. split; [done|]. by split.
Qed.

(** A line reaches the queue exactly when its level is a level at or above the
    configured one; it is then queued whole (header, message cut to the buffer, newline)
    under the ring's overflow policy, and nothing else is touched otherwise. *)
Theorem nv_log_emit_queues log_level policy lvl header message r l d :
  holds r l -> small r -> 0 <= d < 2 ^ 64 -> header <> [] -> strlen header < NV_LOG_MSG_MAX ->
  if (0 <=? lvl) && (lvl <? NV_LOG_LEVEL_MAX) && (log_level <=? lvl) then
    let '(_, l', n) := bounded_push policy (capacity r) l (lvl, line_of header message) in
    exists r', nv_log_emit log_level true policy lvl (Some header) message r d = Ret (r', u64 (d + n)) /\ holds r' l'
  else nv_log_emit log_level true policy lvl (Some header) message r d = Ret (r, d).
Proof.
  intros Hh Hs Hd Hne Hlen. pose proof (emit_line log_level policy lvl header message r l d Hh Hs Hd Hne Hlen) as H.
  destruct ((0 <=? lvl) && _ && _); [|done]. destruct (bounded_push _ _ _ _) as [[rc l'] n]. destruct H as (r' & H1 & H2 & _). by exists r'.
Qed.

Lemma nv_log_emit_queues_witness :
  exists r', nv_log_emit 1 true NV_LOG_OVERFLOW_DROP 4 (Some (str "[E] ")) (str "disk") (nv_log_ring_init 64) 0 =
    Ret (r', u64 (0 + 0)) /\ holds r' [(4, str "[E] disk" ++ [10])].
Proof.
  exact (nv_log_emit_queues 1 NV_LOG_OVERFLOW_DROP 4 (str "[E] ") (str "disk") (nv_log_ring_init 64) [] 0
    (init_holds 64) ltac:(vm_compute; discriminate) ltac:(lia) ltac:(discriminate) ltac:(reflexivity)).
Defined.

End Log.
