(* ===== verification/LogRing.v ===== *)
(** * The logger's ring under concurrency (nv_log.c: push, pop, the log thread, shutdown)

    Any number of producers run [nv_log_ring_push] against the consumer
    [nv_log_thread_main] and one [nv_log_ring_shutdown], under any overflow policy.  A step
    is one access to a shared atomic variable, or one operation on the mutex or the
    condition variable; the text of a slot, which is not atomic, is copied with the access
    of its sequence number that guards it, and a producer's critical section, which holds
    only the signal, is one step, as is the broadcast's.  The repeated loads of the spin
    loop, which change nothing, are the one load whose result decides.  A run ends when
    the shutdown frees the ring.

    Theorems, for the policies DROP and BLOCK, which the code treats alike: lines are
    consumed in the order of their claims, none twice; the failure branch of a claimed
    slot is dead and [g_dropped] counts the refused lines; no wakeup is lost; a shutdown
    drains the ring up to the first unpublished claim.  Runs show what does not hold: a
    line may be popped and never written; a line may be refused although the ring is
    empty; under OVERWRITE the same race moves [dequeue_pos] past [enqueue_pos]; and the
    ring may be freed under a producer. *)
From S2P Require Import Prelude Log.
Import Log.

Module LogRing.

Abbreviation line_t := (Z * cstr)%type.

(** Where a producer stands in [nv_log_ring_push], with its line. *)
Inductive ppc :=
  | PStart (m : line_t)                     (* before the load of [enqueue_pos] *)
  | PPos (m : line_t) (pos : Z)             (* before the load of [dequeue_pos] *)
  | PHead (m : line_t) (pos head : Z)       (* before the test, then an exchange or the count *)
  | PCount (m : line_t) (head : Z)          (* OVERWRITE: before the count of the discarded line *)
  | PRelease (m : line_t) (head : Z)        (* OVERWRITE: before the store of its slot's number *)
  | PWrite (m : line_t) (pos : Z)           (* before the load of the claimed slot's number *)
  | PFill (m : line_t) (pos : Z)            (* before the store of the text and the number *)
  | PGiveUp (m : line_t)                    (* before the count of a claimed slot given up *)
  | PTail (m : line_t)                      (* before the load of [enqueue_pos] *)
  | PTest (m : line_t) (tail : Z)           (* before the load of [dequeue_pos] *)
  | PSignal (m : line_t)
  | PRet (m : line_t) (rc : Z).

(** The four calls of [nv_log_ring_pop] in [nv_log_thread_main]. *)
Inductive site := Top | Locked | Last | Drain.
(** Inside a pop: before the load of [dequeue_pos], of [enqueue_pos], of the sequence
    number, before the store of that number, before the store of [dequeue_pos]. *)
Inductive phase :=
  QLoad | QTail (pos : Z) | QSeq (pos : Z) | QStore (pos : Z) (m : line_t) | QDeq (pos : Z) (m : line_t).
Inductive cpc_t :=
  | CPop (w : site) (q : phase)
  | CStop                 (* the test of [stop] after the first pop *)
  | CLock
  | CWaitCheck            (* the test of [stop] with the mutex held *)
  | CWait
  | CRelock               (* woken, before [pthread_cond_wait] has the mutex again *)
  | CUnlock
  | CLastStop             (* the test of [stop] after the third pop *)
  | CExit.
Inductive spc := SIdle | SFlagged | SBroadcast | SFreed.

Record conf := mkConf {
  ring : nv_log_ring_t;
  cpc : cpc_t;
  producers : list ppc;
  stopper : spc;
  stop : bool;
  dropped : Z;
  claimed : list line_t;             (* the line of each claimed position *)
  consumed : list (line_t * bool);   (* the popped lines, and whether they were written *)
  policy : nv_log_overflow_e;
}.

(** What follows a pop that returned 0, and one that returned 1 (with whether
    [nv_log_write_msg] is called). *)
Definition pop_failed (w : site) : cpc_t :=
  match w with Top => CStop | Locked => CWaitCheck | Last => CLastStop | Drain => CExit end.
Definition pop_done (w : site) : cpc_t * bool :=
  match w with
  | Top => (CPop Top QLoad, true)
  | Locked => (CUnlock, false)
  | Last => (CPop Top QLoad, true)
  | Drain => (CPop Drain QLoad, true)
  end.
Definition holds_mutex (c : cpc_t) : bool :=
  match c with CPop Locked _ | CWaitCheck | CUnlock => true | _ => false end.
Definition woken (c : cpc_t) : cpc_t := match c with CWait => CRelock | _ => c end.

Definition set_cpc (c : conf) (q : cpc_t) : conf :=
  mkConf (ring c) q (producers c) (stopper c) (stop c) (dropped c) (claimed c) (consumed c) (policy c).
Definition set_ring (c : conf) (r : nv_log_ring_t) : conf :=
  mkConf r (cpc c) (producers c) (stopper c) (stop c) (dropped c) (claimed c) (consumed c) (policy c).
Definition set_prods (c : conf) (ps : list ppc) : conf :=
  mkConf (ring c) (cpc c) ps (stopper c) (stop c) (dropped c) (claimed c) (consumed c) (policy c).
Definition set_prod (c : conf) (j : nat) (p : ppc) : conf := set_prods c (<[j := p]> (producers c)).
Definition drop_line (c : conf) : conf :=
  mkConf (ring c) (cpc c) (producers c) (stopper c) (stop c) (u64 (dropped c + 1)) (claimed c) (consumed c) (policy c).
Definition claim (c : conf) (m : line_t) : conf :=
  mkConf (set_enqueue (ring c) (u64 (enqueue_pos (ring c) + 1))) (cpc c) (producers c) (stopper c) (stop c)
    (dropped c) (claimed c ++ [m]) (consumed c) (policy c).
Definition consume (c : conf) (m : line_t) (written : bool) : conf :=
  mkConf (ring c) (cpc c) (producers c) (stopper c) (stop c) (dropped c) (claimed c) (consumed c ++ [(m, written)])
    (policy c).
Definition set_stop (c : conf) (s : spc) (b : bool) : conf :=
  mkConf (ring c) (cpc c) (producers c) s b (dropped c) (claimed c) (consumed c) (policy c).

Abbreviation en c := (enqueue_pos (ring c)).
Abbreviation de c := (dequeue_pos (ring c)).
Abbreviation OVERWRITE := NV_LOG_OVERFLOW_OVERWRITE.

Inductive step : conf -> conf -> Prop :=
  (* a producer (the calls that return before the loop, for an empty line or a logger
     that is not started, leave the ring alone) *)
  | st_call c lvl line : line <> [] -> step c (set_prods c (producers c ++ [PStart (lvl, clip line)]))
  | st_load_pos c j m : producers c !! j = Some (PStart m) -> step c (set_prod c j (PPos m (en c)))
  | st_load_head c j m pos : producers c !! j = Some (PPos m pos) -> step c (set_prod c j (PHead m pos (de c)))
  | st_full c j m pos head : producers c !! j = Some (PHead m pos head) ->
      capacity (ring c) <= u64 (pos - head) -> policy c <> OVERWRITE -> step c (drop_line (set_prod c j (PRet m (-1))))
  | st_overwrite c j m pos head : producers c !! j = Some (PHead m pos head) ->
      capacity (ring c) <= u64 (pos - head) -> policy c = OVERWRITE -> de c = head ->
      step c (set_prod (set_ring c (set_dequeue (ring c) (u64 (head + 1)))) j (PCount m head))
  | st_overwrite_failed c j m pos head : producers c !! j = Some (PHead m pos head) ->  (* or spuriously *)
      capacity (ring c) <= u64 (pos - head) -> policy c = OVERWRITE -> step c (set_prod c j (PStart m))
  | st_overwrite_count c j m head : producers c !! j = Some (PCount m head) ->
      step c (drop_line (set_prod c j (PRelease m head)))
  | st_overwrite_release c j m head s : producers c !! j = Some (PRelease m head) -> slot_at (ring c) head = Ret s ->
      step c (set_prod (set_ring c (set_slot (ring c) head
                (mkSlot (u64 (head + capacity (ring c))) (level s) (text s)))) j (PStart m))
  | st_claim c j m pos head : producers c !! j = Some (PHead m pos head) ->
      u64 (pos - head) < capacity (ring c) -> en c = pos -> step c (claim (set_prod c j (PWrite m pos)) m)
  | st_claim_failed c j m pos head : producers c !! j = Some (PHead m pos head) ->     (* or spuriously *)
      u64 (pos - head) < capacity (ring c) -> step c (set_prod c j (PStart m))
  | st_ready c j m pos s : producers c !! j = Some (PWrite m pos) ->
      slot_at (ring c) pos = Ret s -> seq s = pos -> step c (set_prod c j (PFill m pos))
  | st_give_up c j m pos s : producers c !! j = Some (PWrite m pos) ->
      slot_at (ring c) pos = Ret s -> seq s <> pos -> step c (set_prod c j (PGiveUp m))
  | st_given_up c j m : producers c !! j = Some (PGiveUp m) -> step c (drop_line (set_prod c j (PRet m (-1))))
  | st_publish c j m pos : producers c !! j = Some (PFill m pos) ->
      step c (set_prod (set_ring c (set_slot (ring c) pos (mkSlot (u64 (pos + 1)) m.1 m.2))) j (PTail m))
  | st_tail c j m : producers c !! j = Some (PTail m) -> step c (set_prod c j (PTest m (en c)))
  | st_test c j m tail : producers c !! j = Some (PTest m tail) ->
      step c (set_prod c j (if de c <? tail then PSignal m else PRet m 0))
  | st_signal c j m : producers c !! j = Some (PSignal m) -> holds_mutex (cpc c) = false ->
      step c (set_cpc (set_prod c j (PRet m 0)) (woken (cpc c)))
  (* the log thread *)
  | st_pop_first c w : cpc c = CPop w QLoad -> step c (set_cpc c (CPop w (QTail (de c))))
  | st_pop_empty c w pos : cpc c = CPop w (QTail pos) -> en c <= pos -> step c (set_cpc c (pop_failed w))
  | st_pop_load c w pos : cpc c = CPop w (QTail pos) -> pos < en c -> step c (set_cpc c (CPop w (QSeq pos)))
  | st_pop_unready c w pos s : cpc c = CPop w (QSeq pos) -> slot_at (ring c) pos = Ret s ->
      seq s <> u64 (pos + 1) -> step c (set_cpc c (pop_failed w))
  | st_pop_read c w pos s : cpc c = CPop w (QSeq pos) -> slot_at (ring c) pos = Ret s ->
      seq s = u64 (pos + 1) -> step c (set_cpc c (CPop w (QStore pos (level s, text s))))
  | st_pop_store c w pos m s : cpc c = CPop w (QStore pos m) -> slot_at (ring c) pos = Ret s ->
      step c (set_cpc (set_ring c (set_slot (ring c) pos (mkSlot (u64 (pos + capacity (ring c))) (level s) (text s))))
                (CPop w (QDeq pos m)))
  | st_pop_deq c w pos m : cpc c = CPop w (QDeq pos m) ->
      step c (set_cpc (consume (set_ring c (set_dequeue (ring c) (u64 (pos + 1)))) m (pop_done w).2) (pop_done w).1)
  | st_stop c : cpc c = CStop -> step c (set_cpc c (if stop c then CPop Drain QLoad else CLock))
  | st_lock c : cpc c = CLock -> step c (set_cpc c (CPop Locked QLoad))
  | st_wait_check c : cpc c = CWaitCheck -> step c (set_cpc c (if stop c then CUnlock else CWait))
  | st_spurious c : cpc c = CWait -> step c (set_cpc c CRelock)
  | st_relock c : cpc c = CRelock -> step c (set_cpc c CUnlock)
  | st_unlock c : cpc c = CUnlock -> step c (set_cpc c (CPop Last QLoad))
  | st_last_stop c : cpc c = CLastStop ->
      step c (set_cpc c (if stop c then CPop Drain QLoad else CPop Top QLoad))
  (* the shutdown: the flag, the broadcast, the join with the release of the ring *)
  | st_flag c : stopper c = SIdle -> step c (set_stop c SFlagged true)
  | st_broadcast c : stopper c = SFlagged -> holds_mutex (cpc c) = false ->
      step c (set_cpc (set_stop c SBroadcast (stop c)) (woken (cpc c)))
  | st_free c : stopper c = SBroadcast -> cpc c = CExit -> step c (set_stop c SFreed (stop c)).

Definition initial (ring_capacity : Z) (pol : nv_log_overflow_e) : conf :=
  mkConf (nv_log_ring_init ring_capacity) (CPop Top QLoad) [] SIdle false 0 [] [] pol.

(** A run ends when the shutdown has freed the ring: an access to it by a producer that
    is still in its push has no defined result. *)
Inductive reachable : conf -> Prop :=
  | reach_init n pol : reachable (initial n pol)
  | reach_step c c' : reachable c -> stopper c <> SFreed -> step c c' -> reachable c'.

(** ** The invariant *)

Definition free_slot (c : conf) (p : Z) : Prop :=
  exists lv tx, slots (ring c) !! index (ring c) p = Some (mkSlot p lv tx).
Definition full_slot (c : conf) (p : Z) (m : line_t) : Prop :=
  slots (ring c) !! index (ring c) p = Some (mkSlot (p + 1) m.1 m.2).
Definition line_at (c : conf) (p : Z) (m : line_t) : Prop := claimed c !! Z.to_nat p = Some m.
(** The line and position of a producer between its claim and its publication. *)
Definition claim_of (q : ppc) : option (line_t * Z) :=
  match q with PWrite m p | PFill m p => Some (m, p) | _ => None end.
Definition pending (c : conf) (p : Z) : Prop :=
  exists j q m, producers c !! j = Some q /\ claim_of q = Some (m, p).
(** A producer that will signal, while [dequeue_pos] is [d]. *)
Definition will_signal (d : Z) (q : ppc) : bool :=
  match q with PTail _ | PSignal _ => true | PTest _ tail => d <? tail | _ => false end.
Definition signalling (c : conf) : Prop :=
  exists j q, producers c !! j = Some q /\ will_signal (de c) q = true.

(** The slot at [dequeue_pos] was given back and [dequeue_pos] not yet advanced. *)
Definition releasing (q : cpc_t) : bool := match q with CPop _ (QDeq _ _) => true | _ => false end.
(** The log thread is about to wait, or waits. *)
Definition parked (q : cpc_t) : bool := match q with CWaitCheck | CWait => true | _ => false end.

Definition prod_ok (c : conf) (q : ppc) : Prop :=
  match q with
  | PPos _ pos => 0 <= pos <= en c
  | PHead _ pos head => 0 <= pos <= en c /\ 0 <= head <= de c
  | PWrite m pos | PFill m pos => de c <= pos < en c /\ line_at c pos m /\ free_slot c pos
  | PCount _ _ | PRelease _ _ | PGiveUp _ => False
  | _ => True
  end.
Definition cons_ok (c : conf) (q : cpc_t) : Prop :=
  match q with
  | CPop _ (QTail pos) => pos = de c
  | CPop _ (QSeq pos) => pos = de c /\ de c < en c
  | CPop _ (QStore pos m) => pos = de c /\ de c < en c /\ line_at c pos m /\ full_slot c pos m
  | CPop _ (QDeq pos m) => pos = de c /\ de c < en c /\ line_at c pos m /\ free_slot c (pos + capacity (ring c))
  | _ => True
  end.

Record inv (c : conf) : Prop := {
  i_geom : geometry (ring c);
  i_en : en c = Z.of_nat (length (claimed c));
  i_pos : 0 <= de c <= en c /\ en c <= de c + capacity (ring c);
  i_fifo : map fst (consumed c) = take (Z.to_nat (de c)) (claimed c);
  i_prod : forall j q, producers c !! j = Some q -> prod_ok c q;
  i_owner : forall j k x y m n p, producers c !! j = Some x -> producers c !! k = Some y ->
    claim_of x = Some (m, p) -> claim_of y = Some (n, p) -> j = k;
  i_used : forall p m, de c <= p < en c -> line_at c p m -> (releasing (cpc c) = true -> p <> de c) ->
    full_slot c p m \/ pending c p;
  i_free : forall p, en c <= p < de c + capacity (ring c) -> free_slot c p;
  i_cons : cons_ok c (cpc c);
  i_wake : parked (cpc c) = true -> de c < en c -> forall m, full_slot c (de c) m -> signalling c;
}.

(** Far from the wrap-around of the 64-bit positions. *)
Definition below_wrap (c : conf) : Prop := Z.of_nat (length (claimed c)) + 2 ^ 17 <= 2 ^ 64.

Lemma below_small c : inv c -> below_wrap c ->
  0 <= de c <= en c /\ en c + capacity (ring c) < 2 ^ 64 /\ 0 < capacity (ring c) <= 65536.
Proof.
  intros Hi Hb. pose proof (i_pos _ Hi). pose proof (i_en _ Hi). pose proof (cap_pos _ (i_geom _ Hi)).
  unfold below_wrap in Hb. change (2 ^ 17) with 131072 in Hb. lia.
Qed.

Lemma not_free_full c p m : free_slot c p -> ~ full_slot c p m.
Proof. unfold full_slot. intros (lv & tx & ->) [= E _ _]. lia. Qed.

Lemma ring_inv_initial n pol : inv (initial n pol).
Proof.
  pose proof (init_holds n) as Hh. pose proof (cap_pos _ (ho_geom _ _ Hh)).
  destruct Hh as [Hg _ _ _ _ Hfree].
  split; try done.
  split; [done|]. cbn in *. lia.
Qed.

(** *** Moves of a producer that leave the ring alone *)

Lemma prod_lookup (l : list ppc) j k q q' x :
  l !! j = Some q -> <[j := q']> l !! k = Some x -> (k = j /\ x = q') \/ (k <> j /\ l !! k = Some x).
Proof. intros _ [(<- & -> & _)|[Hne Hk]]%list_lookup_insert_Some; auto. Qed.

Lemma signalling_insert c j q q' :
  producers c !! j = Some q -> (will_signal (de c) q = true -> will_signal (de c) q' = true) ->
  signalling c -> signalling (set_prod c j q').
Proof.
  intros Ej Hq (k & x & Hk & Hx). pose proof (lookup_lt_Some _ _ _ Ej).
  destruct (decide (k = j)) as [->|Hne].
  - simplify_eq. exists j, q'. split; [|by apply Hq]. by apply list_lookup_insert_eq.
  - exists k, x. split; [|done]. cbn [set_prod set_prods producers]. by rewrite list_lookup_insert_ne.
Qed.

(** A producer's claim, after another has moved. *)
Lemma pending_moved c j q q' p :
  producers c !! j = Some q -> claim_of q' = claim_of q -> pending c p -> pending (set_prod c j q') p.
Proof.
  intros Ej Hq (k & x & m & Hk & Hx). pose proof (lookup_lt_Some _ _ _ Ej).
  destruct (decide (k = j)) as [->|Hne].
  - simplify_eq. exists j, q', m. split; [by apply list_lookup_insert_eq|congruence].
  - exists k, x, m. split; [|done]. cbn [set_prod set_prods producers]. by rewrite list_lookup_insert_ne.
Qed.

Lemma inv_move c j q q' :
  inv c -> producers c !! j = Some q -> claim_of q' = claim_of q -> prod_ok c q' ->
  (will_signal (de c) q = true -> will_signal (de c) q' = true \/ parked (cpc c) = false \/ en c <= de c) ->
  inv (set_prod c j q').
Proof.
  intros [Hg He Hp Hf Hpr Ho Hu Hfr Hc Hw] Ej Hq Hok Hs.
  split; cbn [set_prod set_prods ring cpc claimed consumed]; auto.
  - intros k x [[_ ->]|[_ Hk]]%(prod_lookup _ _ _ _ _ _ Ej); [done|by eapply Hpr].
  - intros k k' x y m n p [[-> ->]|[_ Hk]]%(prod_lookup _ _ _ _ _ _ Ej) [[-> ->]|[_ Hk']]%(prod_lookup _ _ _ _ _ _ Ej);
      rewrite ?Hq; intros; try done; by eapply Ho.
  - intros p m Hr Hl Hn. destruct (Hu p m Hr Hl Hn) as [|Hpd]; [by left|right]. by eapply pending_moved.
  - intros H1 H2 m H3. specialize (Hw H1 H2 m H3). apply (signalling_insert c j q q'); try done.
    intros Hws. destruct (Hs Hws) as [|[|]]; [done|congruence|lia].
Qed.

(** *** Moves of the log thread that leave the ring alone *)
Lemma inv_cpc c q :
  inv c -> cons_ok c q -> releasing (cpc c) = false -> releasing q = false ->
  (parked q = true -> parked (cpc c) = true \/ forall m, de c < en c -> ~ full_slot c (de c) m) ->
  inv (set_cpc c q).
Proof.
  intros [Hg He Hp Hf Hpr Ho Hu Hfr Hc Hw] Hok Hr Hr' Hpk.
  split; cbn [set_cpc ring cpc claimed consumed producers]; auto.
  - intros p m H1 H2 _. apply Hu; auto. congruence.
  - intros H1 H2 m H3. destruct (Hpk H1) as [H4|H4]; [by eapply Hw|by destruct (H4 m H2)].
Qed.

(** *** Claiming a position *)

Lemma line_at_snoc c p m n :
  line_at c p m -> (claimed c ++ [n]) !! Z.to_nat p = Some m.
Proof. apply lookup_app_l_Some. Qed.
Lemma line_at_back c p m n :
  0 <= p < Z.of_nat (length (claimed c)) -> (claimed c ++ [n]) !! Z.to_nat p = Some m -> line_at c p m.
Proof. intros Hp. rewrite lookup_app_l by lia. done. Qed.

(** The position of a claim, and what its slot holds. *)
Lemma claim_ok c q m p : prod_ok c q -> claim_of q = Some (m, p) -> de c <= p < en c /\ line_at c p m /\ free_slot c p.
Proof. destruct q; cbn; intros; simplify_eq; done. Qed.
Lemma claim_bounds c q m p : prod_ok c q -> claim_of q = Some (m, p) -> de c <= p < en c.
Proof. intros Hq Hc. by apply (claim_ok _ _ _ _ Hq Hc). Qed.

(** A claim that passes the test has a free slot in front of it. *)
Lemma ring_claim_room c m pos head :
  inv c -> below_wrap c -> prod_ok c (PHead m pos head) -> u64 (pos - head) < capacity (ring c) ->
  en c = pos -> en c < de c + capacity (ring c).
Proof.
  intros Hi Hb [_ Hh] Hlt <-. pose proof (below_small _ Hi Hb). rewrite u64_small in Hlt by lia. lia.
Qed.

Lemma inv_claim c j m pos head :
  inv c -> below_wrap c -> producers c !! j = Some (PHead m pos head) ->
  u64 (pos - head) < capacity (ring c) -> en c = pos ->
  inv (claim (set_prod c j (PWrite m pos)) m).
Proof.
  intros Hi Hb Ej Hlt Hpos. pose proof (ring_claim_room _ _ _ _ Hi Hb (i_prod _ Hi _ _ Ej) Hlt Hpos) as Hroom.
  pose proof (below_small _ Hi Hb) as Hsm. destruct Hi as [Hg He Hp Hf Hpr Ho Hu Hfr Hc Hw].
  pose proof (lookup_lt_Some _ _ _ Ej) as Hj. subst pos.
  unfold claim. rewrite u64_small by (cbn; lia).
  split; cbn [set_prod set_prods ring cpc producers claimed consumed set_enqueue enqueue_pos dequeue_pos capacity].
  - by destruct Hg.
  - rewrite length_app. simpl. lia.
  - lia.
  - rewrite take_app_le by lia. done.
  - intros k x [[-> ->]|[_ Hk]]%(prod_lookup _ _ _ _ _ _ Ej).
    + split; [cbn; lia|]. split; [|by apply Hfr]. unfold line_at. cbn [claimed].
      by rewrite He, Nat2Z.id, lookup_app_r, Nat.sub_diag.
    + specialize (Hpr _ _ Hk). destruct x; cbn in *; try done; [lia|lia|..];
        destruct Hpr as (? & ? & ?); (split; [lia|]); (split; [by apply line_at_snoc|done]).
  - intros k k' x y a b p [[-> E]|[Hne Hk]]%(prod_lookup _ _ _ _ _ _ Ej) [[-> E']|[Hne' Hk']]%(prod_lookup _ _ _ _ _ _ Ej)
      Hx Hy; [done| | |by eapply Ho]; subst; cbn in *; simplify_eq.
    + pose proof (claim_bounds _ _ _ _ (Hpr _ _ Hk') Hy). lia.
    + pose proof (claim_bounds _ _ _ _ (Hpr _ _ Hk) Hx). lia.
  - intros p x Hr Hl Hn. destruct (decide (p = en c)) as [->|].
    + right. exists j, (PWrite m (en c)), m. cbn [producers]. by rewrite list_lookup_insert_eq.
    + destruct (Hu p x) as [|(k & y & z & Hk & Hy)]; [lia|apply line_at_back in Hl; [done|lia]|done|by left|right].
      exists k, y, z. cbn [producers]. rewrite list_lookup_insert_ne; [done|]. intros <-. by simplify_eq.
  - intros p Hr. apply Hfr. lia.
  - destruct (cpc c) as [w []| | | | | | | |]; cbn in *; try done; [lia|..];
      destruct Hc as (? & ? & ? & ?); (split_and!; [done|lia|by apply line_at_snoc|done]).
  - intros H1 H2 x H3. destruct (decide (de c = en c)) as [E|].
    + destruct (not_free_full c (de c) x); [|done]. rewrite E. by apply Hfr.
    + apply (signalling_insert c j (PHead m (en c) head)); try done. apply (Hw H1) with x; [lia|done].
Qed.

(** *** Writing a slot *)

(** The other slots of the lap keep what they hold. *)
Lemma free_other c pos s q : geometry (ring c) -> pos <> q -> Z.abs (pos - q) < capacity (ring c) ->
  free_slot c q -> free_slot (set_ring c (set_slot (ring c) pos s)) q.
Proof. intros Hg Hne Hd (lv & tx & E). exists lv, tx. cbn [set_ring ring]. change (index (set_slot ?r _ _) ?q) with (index r q). by rewrite set_slot_other. Qed.
Lemma full_other c pos s q m : geometry (ring c) -> pos <> q -> Z.abs (pos - q) < capacity (ring c) ->
  full_slot c q m -> full_slot (set_ring c (set_slot (ring c) pos s)) q m.
Proof. intros Hg Hne Hd E. unfold full_slot. cbn [set_ring ring]. change (index (set_slot ?r _ _) ?q) with (index r q). by rewrite set_slot_other. Qed.
Lemma full_other_back c pos s q m : geometry (ring c) -> pos <> q -> Z.abs (pos - q) < capacity (ring c) ->
  full_slot (set_ring c (set_slot (ring c) pos s)) q m -> full_slot c q m.
Proof. intros Hg Hne Hd. unfold full_slot. cbn [set_ring ring]. change (index (set_slot ?r _ _) ?q) with (index r q). by rewrite set_slot_other. Qed.

(** A free slot at a position of this lap is not one the reader has already released. *)
Lemma free_not_lap c p : geometry (ring c) -> free_slot c p -> ~ free_slot c (p + capacity (ring c)).
Proof.
  intros Hg (lv & tx & E) (lv' & tx' & E'). rewrite index_lap in E' by done. pose proof (cap_pos _ Hg).
  rewrite E in E'. injection E'. lia.
Qed.

(** A slot other than the producer's changes. *)
Lemma prod_ok_slot c r x :
  prod_ok c x -> enqueue_pos r = en c -> dequeue_pos r = de c ->
  (forall m p, claim_of x = Some (m, p) -> free_slot (set_ring c r) p) -> prod_ok (set_ring c r) x.
Proof.
  intros Hx E1 E2 Hf. destruct x; cbn in *; try done; rewrite ?E1, ?E2; try done;
    destruct Hx as (? & ? & _); (split_and!; [lia|lia|done|by eapply Hf]).
Qed.

Lemma inv_publish c j m pos :
  inv c -> below_wrap c -> producers c !! j = Some (PFill m pos) ->
  inv (set_prod (set_ring c (set_slot (ring c) pos (mkSlot (u64 (pos + 1)) m.1 m.2))) j (PTail m)).
Proof.
  intros Hi Hb Ej. pose proof (below_small _ Hi Hb) as Hsm. destruct Hi as [Hg He Hp Hf Hpr Ho Hu Hfr Hc Hw].
  pose proof (Hpr _ _ Ej) as (Hr & Hl & Hfree). pose proof (lookup_lt_Some _ _ _ Ej) as Hj.
  rewrite u64_small by lia. set (s := mkSlot _ _ _). set (c1 := set_ring c (set_slot (ring c) pos s)).
  assert (full_slot c1 pos m) as Hfull by exact (set_slot_same (ring c) pos s Hg).
  split; cbn [set_prod set_prods ring cpc producers claimed consumed].
  - by apply set_slot_geometry.
  - done.
  - done.
  - done.
  - intros k x [[-> ->]|[Hne Hk]]%(prod_lookup _ _ _ _ _ _ Ej); [done|].
    specialize (Hpr _ _ Hk) as Hx. change (prod_ok c1 x). apply (prod_ok_slot c (set_slot (ring c) pos s)); [done..|]. intros y q Eq.
    destruct (claim_ok _ _ _ _ Hx Eq) as (H1 & H2 & H3).
    apply (free_other c); [done| |lia|done]. intros ->. by destruct (Hne (Ho _ _ _ _ _ _ _ Hk Ej Eq eq_refl)).
  - intros k k' x y a b p [[_ E]|[_ Hk]]%(prod_lookup _ _ _ _ _ _ Ej) [[_ E']|[_ Hk']]%(prod_lookup _ _ _ _ _ _ Ej);
      subst; try done. by eapply Ho.
  - intros p x H1 H2 H3. change (line_at c p x) in H2. change (de c <= p < en c) in H1.
    destruct (decide (p = pos)) as [->|Hne]; [left; unfold line_at in *; simplify_eq; done|].
    destruct (Hu p x) as [H4|(k & y & n & Hk & Hy)]; [done|done|done|left|right].
    + apply (full_other c); [done|done|lia|done].
    + exists k, y, n. cbn [set_prod set_prods producers]. rewrite list_lookup_insert_ne; [done|].
      intros <-. rewrite Ej in Hk. injection Hk as <-. cbn in Hy. congruence.
  - intros p H1. change (en c <= p < de c + capacity (ring c)) in H1.
    apply (free_other c); [done|lia|lia|]. by apply Hfr.
  - change (cpc c1) with (cpc c). destruct (cpc c) as [w []| | | | | | | |]; try done; cbn in Hc.
    + destruct Hc as (-> & H1 & H2 & H3). split_and!; [done|done|done|].
      apply (full_other c); [done| |lia|done]. intros ->. by apply (not_free_full _ _ _ Hfree) in H3.
    + destruct Hc as (-> & H1 & H2 & H3). split_and!; [done|done|done|].
      assert (pos <> de c) by (intros ->; by apply (free_not_lap _ _ Hg Hfree) in H3).
      change (capacity (ring _)) with (capacity (ring c)). apply (free_other c); [done|lia|lia|done].
  - intros _ _ x _. exists j, (PTail m). cbn [set_prod set_prods producers]. by rewrite list_lookup_insert_eq.
Qed.

(** *** The reader *)

Lemma inv_pop_store c w pos m s :
  inv c -> below_wrap c -> cpc c = CPop w (QStore pos m) ->
  inv (set_cpc (set_ring c (set_slot (ring c) pos (mkSlot (u64 (pos + capacity (ring c))) (level s) (text s))))
         (CPop w (QDeq pos m))).
Proof.
  intros Hi Hb Ec. pose proof (below_small _ Hi Hb) as Hsm. destruct Hi as [Hg He Hp Hf Hpr Ho Hu Hfr Hc Hw].
  rewrite Ec in Hc. destruct Hc as (-> & Hlt & Hl & Hfull).
  rewrite u64_small by lia. set (s' := mkSlot _ _ _). set (c1 := set_ring c (set_slot (ring c) (de c) s')).
  split; cbn [set_cpc ring cpc producers claimed consumed]; try done.
  - by apply set_slot_geometry.
  - intros k x Hk. specialize (Hpr _ _ Hk) as Hx. change (prod_ok c1 x). apply (prod_ok_slot c (set_slot (ring c) (de c) s')); [done..|]. intros y q Eq.
    destruct (claim_ok _ _ _ _ Hx Eq) as (H1 & H2 & H3).
    apply (free_other c); [done| |lia|done]. intros <-. by apply (not_free_full _ _ _ H3) in Hfull.
  - intros p x H1 H2 H3. change (de c <= p < en c) in H1. specialize (H3 eq_refl). change (p <> de c) in H3.
    destruct (Hu p x) as [H4|]; [done|done|by rewrite Ec|left|by right].
    apply (full_other c); [done|done|lia|done].
  - intros p H1. change (en c <= p < de c + capacity (ring c)) in H1.
    apply (free_other c); [done|lia|lia|]. by apply Hfr.
  - split_and!; try done. exists (level s), (text s).
    change (slots (ring c1) !! index (ring c) (de c + capacity (ring c)) = Some s').
    rewrite (index_lap (ring c)) by done. by apply (set_slot_same (ring c)).
Qed.

Lemma inv_pop_deq c w pos m :
  inv c -> below_wrap c -> cpc c = CPop w (QDeq pos m) ->
  inv (set_cpc (consume (set_ring c (set_dequeue (ring c) (u64 (pos + 1)))) m (pop_done w).2) (pop_done w).1).
Proof.
  intros Hi Hb Ec. pose proof (below_small _ Hi Hb) as Hsm. destruct Hi as [Hg He Hp Hf Hpr Ho Hu Hfr Hc Hw].
  rewrite Ec in Hc. destruct Hc as (-> & Hlt & Hl & Hfree). rewrite u64_small by lia.
  split; cbn [set_cpc consume set_ring set_dequeue ring cpc producers claimed consumed enqueue_pos dequeue_pos capacity].
  - by destruct Hg.
  - done.
  - lia.
  - rewrite map_app, Hf. replace (Z.to_nat (de c + 1)) with (S (Z.to_nat (de c))) by lia.
    by rewrite (take_S_r _ _ m).
  - intros k x Hk. specialize (Hpr _ _ Hk) as Hx. destruct x as [| |x ps hd| | |x q|x q| | | | |]; try done.
    1: destruct Hx as [? ?]; split; cbn; lia.
    all: destruct Hx as (H1 & H2 & H3); split; [|done]; cbn;
      assert (q <> de c) by (intros ->; by apply (free_not_lap _ _ Hg H3) in Hfree); lia.
  - done.
  - intros p x H1 H2 _. destruct (Hu p x) as [H4|]; [lia|done|lia|by left|by right].
  - intros p H1. destruct (decide (p = de c + capacity (ring c))) as [->|]; [done|].
    apply Hfr. lia.
  - by destruct w.
  - by destruct w.
Qed.

(** What the reader sees in the slot at [dequeue_pos]. *)
Lemma read_line c w pos s :
  inv c -> below_wrap c -> cpc c = CPop w (QSeq pos) -> slot_at (ring c) pos = Ret s -> seq s = u64 (pos + 1) ->
  cons_ok c (CPop w (QStore pos (level s, text s))).
Proof.
  intros Hi Hb Ec Es Hq. pose proof (below_small _ Hi Hb). pose proof (i_cons _ Hi) as Hc. rewrite Ec in Hc.
  destruct Hc as (-> & Hlt). rewrite u64_small in Hq by lia. apply deref_Ret in Es.
  destruct (lookup_lt_is_Some_2 (claimed c) (Z.to_nat (de c))) as [m Hm].
  { rewrite (i_en _ Hi) in Hlt. lia. }
  assert (full_slot c (de c) m) as Hfull.
  { destruct (i_used _ Hi (de c) m) as [|(k & y & n & Hk & Hy)]; [lia|done|by rewrite Ec|done|].
    destruct (claim_ok _ _ _ _ (i_prod _ Hi _ _ Hk) Hy) as (_ & _ & lv & tx & E). rewrite E in Es. injection Es as <-. simpl in Hq. lia. }
  unfold full_slot in Hfull. rewrite Es in Hfull. injection Hfull as ->. cbn. destruct m. split_and!; try done; lia.
Qed.

Lemma inv_call c m :
  inv c -> inv (set_prods c (producers c ++ [PStart m])).
Proof.
  intros [Hg He Hp Hf Hpr Ho Hu Hfr Hc Hw].
  assert (forall j q, (producers c ++ [PStart m]) !! j = Some q -> producers c !! j = Some q \/ q = PStart m) as Hlk.
  { intros j q [|[_ [_ ->]%list_lookup_singleton_Some]]%lookup_app_Some; auto. }
  split; cbn [set_prods ring cpc producers claimed consumed]; auto.
  - intros j q [Hj| ->]%Hlk; [by apply (Hpr j q)|done].
  - intros j k x y a b p [Hj| ->]%Hlk [Hk| ->]%Hlk; try done. by eapply Ho.
  - intros p x H1 H2 H3. destruct (Hu p x H1 H2 H3) as [|(k & y & n & Hk & Hy)]; [by left|right].
    exists k, y, n. split; [by apply lookup_app_l_Some|done].
  - intros H1 H2 x H3. destruct (Hw H1 H2 x H3) as (j & y & Hj & Hy). exists j, y.
    split; [by apply lookup_app_l_Some|done].
Qed.

Lemma inv_drop c : inv c -> inv (drop_line c).
Proof. by intros []. Qed.

(** A wakeup of the log thread. *)
Lemma inv_woken c : inv c -> holds_mutex (cpc c) = false -> inv (set_cpc c (woken (cpc c))) /\ parked (woken (cpc c)) = false.
Proof.
  intros Hi Hm. assert (cpc c = CWait \/ cpc c <> CWait) as [E|E] by (destruct (cpc c); auto).
  - rewrite E. split; [|done]. by apply inv_cpc; try rewrite E.
  - assert (woken (cpc c) = cpc c) as -> by (by destruct (cpc c)). split; [by destruct c|].
    by destruct (cpc c).
Qed.

(** The slot of a claimed position is free: the check after the spin loop succeeds. *)
Lemma claimed_slot c j m pos s :
  inv c -> producers c !! j = Some (PWrite m pos) -> slot_at (ring c) pos = Ret s -> seq s = pos.
Proof.
  intros Hi Ej Es%deref_Ret. destruct (i_prod _ Hi _ _ Ej) as (_ & _ & lv & tx & E). by rewrite E in Es; simplify_eq.
Qed.

Lemma inv_unready c w pos s :
  inv c -> below_wrap c -> cpc c = CPop w (QSeq pos) -> slot_at (ring c) pos = Ret s -> seq s <> u64 (pos + 1) ->
  inv (set_cpc c (pop_failed w)).
Proof.
  intros Hi Hb E Es%deref_Ret Hq. pose proof (below_small _ Hi Hb). pose proof (i_cons _ Hi) as Hc.
  rewrite E in Hc. destruct Hc as (-> & Hlt). rewrite u64_small in Hq by lia.
  apply inv_cpc; [done|by destruct w|by rewrite E|by destruct w|]. intros _. right. intros m _ Hfull.
  unfold full_slot in Hfull. rewrite Es in Hfull. by injection Hfull as ->.
Qed.

Lemma ring_inv_step c c' : step c c' -> inv c -> policy c <> OVERWRITE -> below_wrap c -> inv c'.
Proof.
  intros Hst Hi Hpol Hb. pose proof (below_small _ Hi Hb) as Hsm.
  destruct Hst as [c lvl line _|c j m E|c j m pos E|c j m pos head E Hf|c j m pos head E Hf|c j m pos head E Hf
    |c j m head E|c j m head s E|c j m pos head E Hf He|c j m pos head E Hf
    |c j m pos s E Es Hq|c j m pos s E Es Hq|c j m E|c j m pos E|c j m E|c j m tail E|c j m E Hm
    |c w E|c w pos E He|c w pos E He|c w pos s E Es Hq|c w pos s E Es Hq|c w pos m s E Es|c w pos m E
    |c E|c E|c E|c E|c E|c E|c E|c E|c E Hm|c E E'];
    try done;
    try (by eapply inv_move);
    try (apply inv_cpc; [done|by destruct (stop c)|by rewrite E|by destruct (stop c)|by destruct (stop c)]);
    try (by destruct (i_prod _ Hi _ _ E)).
  - by apply inv_call.
  - eapply inv_move; try done. cbn. lia.
  - eapply inv_move; try done. pose proof (i_prod _ Hi _ _ E). cbn in *. lia.
  - apply inv_drop. by eapply inv_move.
  - by eapply inv_claim.
  - apply (inv_move c j (PWrite m pos)); try done. exact (i_prod _ Hi _ _ E).
  - by destruct Hq; eapply claimed_slot.
  - by eapply inv_publish.
  - apply (inv_move c j (PTail m)); try done. intros _. cbn.
    destruct (Z.ltb_spec (de c) (en c)); auto.
  - apply (inv_move c j (PTest m tail)); try done; cbn; destruct (de c <? tail); try done; auto.
  - destruct (inv_woken c Hi Hm) as [Hi' Hp]. apply (inv_move _ j (PSignal m) (PRet m 0) Hi'); try done. by auto.
  - pose proof (i_cons _ Hi) as Hc. rewrite E in Hc. cbn in Hc. subst pos.
    apply inv_cpc; [done|by destruct w|by rewrite E|by destruct w|]. intros _. right. intros. lia.
  - pose proof (i_cons _ Hi) as Hc. rewrite E in Hc. cbn in Hc. subst pos.
    apply inv_cpc; [done|done|by rewrite E|done|done].
  - by eapply inv_unready.
  - apply inv_cpc; [done| |by rewrite E|done|done]. by eapply read_line.
  - by apply inv_pop_store.
  - by apply inv_pop_deq.
  - apply inv_cpc; [done|by destruct (stop c)|by rewrite E|by destruct (stop c)|]. left. by rewrite E.
  - by destruct Hi.
  - destruct (inv_woken c Hi Hm) as [Hi' _]. by destruct Hi'.
  - by destruct Hi.
Qed.

(** Claims only accumulate. *)
Lemma claimed_mono c c' : step c c' -> (length (claimed c) <= length (claimed c'))%nat.
Proof. destruct 1; cbn; try lia. rewrite length_app. lia. Qed.
Lemma policy_fixed c c' : step c c' -> policy c' = policy c.
Proof. by destruct 1. Qed.

Lemma ring_reachable_inv c : reachable c -> policy c <> OVERWRITE -> below_wrap c -> inv c.
Proof.
  induction 1 as [n pol|c c' Hr IH _ Hst]; intros Hp Hb; [apply ring_inv_initial|].
  assert (below_wrap c) by (apply claimed_mono in Hst; unfold below_wrap in *; lia).
  rewrite (policy_fixed _ _ Hst) in Hp. eapply ring_inv_step; eauto.
Qed.

(** ** Accounting *)

(** The line of a producer that holds or held a claim, and 1 for a refused one. *)
Definition accepted (q : ppc) : option line_t :=
  match q with
  | PWrite m _ | PFill m _ | PGiveUp m | PTail m | PTest m _ | PSignal m => Some m
  | PRet m rc => if rc =? 0 then Some m else None
  | _ => None
  end.
Definition refused (q : ppc) : Z := match q with PRet _ rc => if rc =? -1 then 1 else 0 | _ => 0 end.

Record accounted (c : conf) : Prop := {
  ac_claimed : claimed c ≡ₚ omap accepted (producers c);
  ac_dropped : dropped c = u64 (zsum (map refused (producers c)));
}.

Lemma accounted_insert l j q q' : l !! j = Some q ->
  omap accepted [q'] ++ omap accepted l ≡ₚ omap accepted [q] ++ omap accepted (<[j := q']> l) /\
  zsum (map refused (<[j := q']> l)) = zsum (map refused l) - refused q + refused q'.
Proof.
  intros E. pose proof (insert_perm l j q q' E) as Hp. split.
  - rewrite <- !omap_app. simpl app. by rewrite Hp.
  - by apply zsum_map_insert.
Qed.

(** A producer's move that neither claims nor refuses. *)
Lemma accounted_move l j q q' : l !! j = Some q -> accepted q' = accepted q -> refused q' = refused q ->
  omap accepted (<[j := q']> l) ≡ₚ omap accepted l /\
  zsum (map refused (<[j := q']> l)) = zsum (map refused l).
Proof.
  intros E Ha Hr. destruct (accounted_insert l j q q' E) as [H1 H2]. split; [|lia].
  symmetry. apply (Permutation_app_inv_l (omap accepted [q])). rewrite <- H1. simpl. by rewrite Ha.
Qed.

Lemma accounted_step c c' : step c c' -> inv c -> policy c <> OVERWRITE -> accounted c -> accounted c'.
Proof.
  intros Hst Hi Hpol [Hc Hd].
  assert (forall j q q' cs,
    producers c !! j = Some q -> producers cs = <[j := q']> (producers c) ->
    accepted q' = accepted q -> refused q' = refused q ->
    claimed cs = claimed c -> dropped cs = dropped c -> accounted cs) as Hmove.
  { intros j q q' cs E E3 Ha Hr E1 E2. destruct (accounted_move _ _ _ _ E Ha Hr) as [H1 H2].
    split; rewrite ?E1, ?E2, E3; [by rewrite H1|by rewrite H2]. }
  assert (forall cs, claimed cs = claimed c -> dropped cs = dropped c -> producers cs = producers c -> accounted cs) as Hsame.
  { intros cs E1 E2 E3. split; congruence. }
  destruct Hst as [c lvl line _|c j m E|c j m pos E|c j m pos head E Hf|c j m pos head E Hf|c j m pos head E Hf
    |c j m head E|c j m head s E|c j m pos head E Hf He|c j m pos head E Hf
    |c j m pos s E Es Hq|c j m pos s E Es Hq|c j m E|c j m pos E|c j m E|c j m tail E|c j m E Hm
    | | | | | | | | | | | | | | | | |]; try done; try (by apply Hsame); try (by eapply Hmove);
    try (by destruct (i_prod _ Hi _ _ E)).
  - split; cbn [set_prods claimed dropped producers].
    + by rewrite omap_app, app_nil_r.
    + rewrite map_app, zsum_app. cbn. by rewrite Z.add_0_r.
  - destruct (accounted_insert _ _ _ (PRet m (-1)) E) as [H1 H2]. split; cbn [drop_line set_prod set_prods claimed dropped producers].
    + simpl in H1. by rewrite Hc, H1.
    + rewrite H2, Hd. cbn [refused]. unfold wrap. rewrite Zplus_mod_idemp_l. f_equal. simpl. lia.
  - destruct (accounted_insert _ _ _ (PWrite m pos) E) as [H1 H2]. split; cbn [claim set_prod set_prods claimed dropped producers].
    + rewrite Hc. simpl in H1. rewrite <- H1. symmetry. apply Permutation_cons_append.
    + rewrite H2. cbn [refused]. by rewrite Z.sub_0_r, Z.add_0_r.
  - eapply Hmove; [done|reflexivity|by destruct (de c <? tail)..].
Qed.

Lemma reachable_accounted c : reachable c -> policy c <> OVERWRITE -> below_wrap c -> accounted c.
Proof.
  induction 1 as [n pol|c c' Hr IH _ Hst]; intros Hp Hb; [done|].
  assert (below_wrap c) by (apply claimed_mono in Hst; unfold below_wrap in *; lia).
  rewrite (policy_fixed _ _ Hst) in Hp.
  eapply accounted_step; eauto. by apply ring_reachable_inv.
Qed.

(** ** What the logger guarantees *)

(** C8: under the policies DROP and BLOCK, and until the shutdown has freed the ring, the
    ring is linearised by its claims.  Under every interleaving of the accesses of the
    producers, the log thread and the shutdown, the popped lines are, in order, the first
    of the claimed ones, each popped once; the claimed lines are those of the producers
    that were not refused; and what is left between [dequeue_pos] and [enqueue_pos] never
    exceeds the capacity. *)
Theorem nv_log_ring_fifo c :
  reachable c -> policy c <> OVERWRITE -> below_wrap c ->
  claimed c = map fst (consumed c) ++ drop (Z.to_nat (de c)) (claimed c) /\
  claimed c ≡ₚ omap accepted (producers c) /\
  Z.of_nat (length (claimed c)) - Z.of_nat (length (consumed c)) <= capacity (ring c).
Proof.
  intros Hr Hpol Hb. pose proof (ring_reachable_inv c Hr Hpol Hb) as Hi. pose proof (below_small _ Hi Hb).
  split; [|split; [by apply reachable_accounted|]].
  - by rewrite (i_fifo _ Hi), take_drop.
  - pose proof (f_equal length (i_fifo _ Hi)) as E. rewrite length_map, length_take in E.
    pose proof (i_en _ Hi). pose proof (i_pos _ Hi). lia.
Qed.

(** A producer that has claimed a position finds its slot free, so the spin loop ends
    at its first test and the branch that gives a claimed slot up is dead; [g_dropped]
    is the number of calls that returned -1 (DROP and BLOCK). *)
Theorem nv_log_ring_claims_succeed c :
  reachable c -> policy c <> OVERWRITE -> below_wrap c ->
  (forall j m pos, producers c !! j = Some (PWrite m pos) ->
     exists s, slot_at (ring c) pos = Ret s /\ seq s = pos) /\
  dropped c = u64 (zsum (map refused (producers c))).
Proof.
  intros Hr Hpol Hb. pose proof (ring_reachable_inv c Hr Hpol Hb) as Hi. split; [|by apply reachable_accounted].
  intros j m pos E. destruct (i_prod _ Hi _ _ E) as (_ & _ & lv & tx & Es).
  eexists. split; [by apply deref_Ret|done].
Qed.

(** No wakeup of the log thread is lost (DROP and BLOCK): when it waits although the line
    at [dequeue_pos] is ready, a producer that published is still on its way to signal,
    and its next access brings it nearer: the load of [enqueue_pos], that of
    [dequeue_pos], which finds the ring not empty, and the signal, for which the mutex is
    free. *)
Theorem nv_log_no_lost_wakeup c m :
  reachable c -> policy c <> OVERWRITE -> below_wrap c -> cpc c = CWait -> de c < en c -> full_slot c (de c) m ->
  exists j x,
    (producers c !! j = Some (PTail x) /\ step c (set_prod c j (PTest x (en c)))) \/
    (exists tail, producers c !! j = Some (PTest x tail) /\ step c (set_prod c j (PSignal x))) \/
    (producers c !! j = Some (PSignal x) /\ step c (set_cpc (set_prod c j (PRet x 0)) CRelock)).
Proof.
  intros Hr Hpol Hb Ec Hlt Hfull. pose proof (ring_reachable_inv c Hr Hpol Hb) as Hi.
  destruct (i_wake _ Hi) with m as (j & q & Ej & Hq); [by rewrite Ec|done|done|].
  destruct q as [| | | | | | | |x|x tail|x|]; try done; exists j, x.
  - left. split; [done|by apply st_tail].
  - right; left. exists tail. split; [done|]. pose proof (st_test c j x tail Ej) as Hs. cbn in Hq. by rewrite Hq in Hs.
  - right; right. split; [done|]. pose proof (st_signal c j x Ej) as Hs. rewrite Ec in Hs. by apply Hs.
Qed.

(** C21: a shutdown drains the ring (DROP and BLOCK).  When the log thread leaves its final
    loop, either every line claimed until then has been popped, or the next line in the
    order of the claims belongs to a producer that has not published it yet: no line is
    left behind that was published before an unpublished claim. *)
Theorem nv_log_shutdown_drains c c' :
  reachable c -> policy c <> OVERWRITE -> below_wrap c -> step c c' -> cpc c <> CExit -> cpc c' = CExit ->
  map fst (consumed c') = claimed c' \/
  map fst (consumed c') = take (Z.to_nat (de c')) (claimed c') /\ pending c' (de c').
Proof.
  intros Hr Hpol Hb Hst Hx Hx'. pose proof (ring_reachable_inv c Hr Hpol Hb) as Hi. pose proof (below_small _ Hi Hb).
  pose proof (i_cons _ Hi) as Hc.
  destruct Hst as [| | | | | | | | | | | | | | | | | |c w pos E He| |c w pos s E Es Hq| | |c w pos m E| | | | | | | | | |];
    try done; cbn in Hx'; try (by destruct (stop _)); try (by destruct (cpc c)); try (by destruct w); rewrite E in Hc.
  - left. cbn in Hc. subst pos. cbn. rewrite (i_fifo _ Hi). apply take_ge. pose proof (i_en _ Hi). lia.
  - right. destruct Hc as (-> & Hlt). split; [exact (i_fifo _ Hi)|].
    destruct (lookup_lt_is_Some_2 (claimed c) (Z.to_nat (de c))) as [x Hm]; [rewrite (i_en _ Hi) in Hlt; lia|].
    destruct (i_used _ Hi (de c) x) as [Hf|Hp]; [lia|done|by rewrite E| |exact Hp].
    unfold full_slot in Hf. apply deref_Ret in Es. rewrite Hf in Es. injection Es as <-.
    destruct Hq. simpl. rewrite u64_small; lia.
Qed.

(** ** Runs *)

(** Advance a concrete run [R] by a rule, and compute the state reached. *)
Ltac decide_side := first [reflexivity | vm_compute; reflexivity | vm_compute; discriminate].
Tactic Notation "go" hyp(R) uconstr(rule) :=
  let R' := fresh in
  eassert (reachable _) as R' by (eapply reach_step; [exact R|decide_side|eapply rule; decide_side]);
  clear R; rename R' into R; vm_compute in R.

Definition hello : line_t := (1, str "hello").
Definition world : line_t := (1, str "world").

(** A push up to the store of its slot, and a pop, as runs. *)
Tactic Notation "go_claim" hyp(R) constr(j) :=
  go R (st_load_pos _ j); go R (st_load_head _ j); go R (st_claim _ j).
Tactic Notation "go_publish" hyp(R) constr(j) := go_claim R j; go R (st_ready _ j); go R (st_publish _ j).
Tactic Notation "go_empty" hyp(R) := go R st_pop_first; go R st_pop_empty.
Tactic Notation "go_pop" hyp(R) :=
  go R st_pop_first; go R st_pop_load; go R st_pop_read; go R st_pop_store; go R st_pop_deq.

(** The log thread finds nothing and waits; a line is published meanwhile and its
    producer has still to look at the ring. *)
Lemma run_parked :
  exists c, reachable c /\ policy c <> OVERWRITE /\ below_wrap c /\ cpc c = CWait /\ de c < en c /\
    full_slot c (de c) hello /\ producers c = [PTail hello].
Proof.
  pose proof (reach_init 64 NV_LOG_OVERFLOW_DROP) as R. vm_compute in R.
  go_empty R. go R st_stop. go R st_lock. go_empty R. go R st_wait_check.
  go R (st_call _ 1 (str "hello")). go_publish R 0%nat.
  eexists. split; [exact R|]. split_and!; decide_side.
Qed.

(** Two lines claimed, one published. *)
Lemma run_claimed :
  exists c, reachable c /\ policy c <> OVERWRITE /\ below_wrap c /\
    producers c !! 1%nat = Some (PWrite world 1) /\ claimed c = [hello; world].
Proof.
  pose proof (reach_init 64 NV_LOG_OVERFLOW_BLOCK) as R. vm_compute in R.
  go R (st_call _ 1 (str "hello")). go_publish R 0%nat.
  go R (st_call _ 1 (str "world")). go_claim R 1%nat.
  eexists. split; [exact R|]. split_and!; decide_side.
Qed.

(** A shutdown after one line, at the last pop. *)
Lemma run_draining :
  exists c, reachable c /\ policy c <> OVERWRITE /\ below_wrap c /\ cpc c = CPop Drain (QTail 1) /\ en c <= 1 /\
    producers c = [PTail hello] /\ consumed c = [(hello, true)] /\ claimed c = [hello] /\ de c = 1.
Proof.
  pose proof (reach_init 64 NV_LOG_OVERFLOW_DROP) as R. vm_compute in R.
  go R (st_call _ 1 (str "hello")). go_publish R 0%nat. go R st_flag.
  go_pop R. go_empty R. go R st_stop. go R st_pop_first.
  eexists. split; [exact R|]. split_and!; decide_side.
Qed.

Lemma nv_log_ring_fifo_witness : exists c, claimed c = [hello; world] /\ claimed c ≡ₚ omap accepted (producers c).
Proof.
  destruct run_claimed as (c & Hr & Hp & Hb & _ & Hc). exists c. split; [done|].
  exact (proj1 (proj2 (nv_log_ring_fifo c Hr Hp Hb))).
Defined.

Lemma nv_log_ring_claims_succeed_witness : exists c s, slot_at (ring c) 1 = Ret s /\ seq s = 1.
Proof.
  destruct run_claimed as (c & Hr & Hpol & Hb & Hp & _). exists c.
  exact (proj1 (nv_log_ring_claims_succeed c Hr Hpol Hb) 1%nat world 1 Hp).
Defined.

Lemma nv_log_no_lost_wakeup_witness :
  exists c j x, cpc c = CWait /\
    ((producers c !! j = Some (PTail x) /\ step c (set_prod c j (PTest x (en c)))) \/
     (exists tail, producers c !! j = Some (PTest x tail) /\ step c (set_prod c j (PSignal x))) \/
     (producers c !! j = Some (PSignal x) /\ step c (set_cpc (set_prod c j (PRet x 0)) CRelock))).
Proof.
  destruct run_parked as (c & Hr & Hp & Hb & Hw & Hlt & Hf & _).
  destruct (nv_log_no_lost_wakeup c hello Hr Hp Hb Hw Hlt Hf) as (j & x & H). by exists c, j, x.
Defined.

Lemma nv_log_shutdown_drains_witness :
  exists c', cpc c' = CExit /\
    (map fst (consumed c') = claimed c' \/
     map fst (consumed c') = take (Z.to_nat (de c')) (claimed c') /\ pending c' (de c')).
Proof.
  destruct run_draining as (c & Hr & Hp & Hb & Hc & He & _). exists (set_cpc c CExit). split; [done|].
  apply (nv_log_shutdown_drains c); [done|done|done|exact (st_pop_empty c Drain 1 Hc He)|by rewrite Hc|done].
Defined.

(** A line accepted by [nv_log_ring_push] can be popped and never written: the pop
    under the mutex leaves its line in a local variable that the next pop overwrites. *)
Theorem nv_log_line_lost :
  exists c, reachable c /\ producers c = [PRet hello 0] /\ consumed c = [(hello, false)].
Proof.
  pose proof (reach_init 64 NV_LOG_OVERFLOW_DROP) as R. vm_compute in R.
  go_empty R. go R st_stop. go R st_lock.
  go R (st_call _ 1 (str "hello")). go_publish R 0%nat. go R (st_tail _ 0%nat). go R (st_test _ 0%nat).
  go_pop R. go R st_unlock. go R (st_signal _ 0%nat).
  eexists. split; [exact R|]. split_and!; decide_side.
Qed.

(** A line can be refused although the ring is empty: [enqueue_pos] is read before
    [dequeue_pos], and when others push and pop in between the unsigned difference
    wraps around. *)
Theorem nv_log_spurious_drop :
  exists c, reachable c /\ en c = de c /\ dropped c = 1 /\ producers c !! 0%nat = Some (PRet hello (-1)).
Proof.
  pose proof (reach_init 64 NV_LOG_OVERFLOW_DROP) as R. vm_compute in R.
  go R (st_call _ 1 (str "hello")). go R (st_load_pos _ 0%nat).
  go R (st_call _ 1 (str "world")). go_publish R 1%nat. go_pop R.
  go R (st_load_head _ 0%nat). go R (st_full _ 0%nat).
  eexists. split; [exact R|]. split_and!; decide_side.
Qed.

(** The same race under OVERWRITE breaks the ring: the producer that believes it full
    advances [dequeue_pos] past [enqueue_pos], and from then on every producer finds it
    full, so that it goes on advancing [dequeue_pos] instead of claiming a position. *)
Theorem nv_log_overwrite_overtakes :
  exists c, reachable c /\ policy c = OVERWRITE /\ en c < de c /\ capacity (ring c) <= u64 (en c - de c) /\
    producers c !! 0%nat = Some (PStart hello).
Proof.
  pose proof (reach_init 64 OVERWRITE) as R. vm_compute in R.
  go R (st_call _ 1 (str "hello")). go R (st_load_pos _ 0%nat).
  go R (st_call _ 1 (str "world")). go_publish R 1%nat. go_pop R.
  go R (st_load_head _ 0%nat). go R (st_overwrite _ 0%nat). go R (st_overwrite_count _ 0%nat).
  go R (st_overwrite_release _ 0%nat).
  eexists. split; [exact R|]. split_and!; decide_side.
Qed.

(** The shutdown frees the ring while a producer that claimed a position is about to
    write its slot. *)
Theorem nv_log_freed_under_producer :
  exists c, reachable c /\ stopper c = SFreed /\ producers c = [PFill hello 0].
Proof.
  pose proof (reach_init 64 NV_LOG_OVERFLOW_DROP) as R. vm_compute in R.
  go R (st_call _ 1 (str "hello")). go_claim R 0%nat. go R (st_ready _ 0%nat).
  go R st_flag. go R st_broadcast. go R st_pop_first. go R st_pop_load. go R st_pop_unready. go R st_stop.
  go R st_pop_first. go R st_pop_load. go R st_pop_unready. go R st_free.
  eexists. split; [exact R|]. split_and!; decide_side.
Qed.

End LogRing.
