(* ===== verification/LogFile.v ===== *)
(** * The output side of the logger (log/nv_log.c)

    The header of a line, the default file name, opening, writing and rotating the log
    file, console and syslog output, start and close of the logger, and the hex dump, over
    the ring and the file system of [Log].  What the system answers (whether a file can be
    opened, the time, memory and threads) is an argument; writes to an open file succeed.
    Theorems: the files kept by rotation are always the last part of what was written;
    closing writes every queued line to each output (sequentially: the schedule in which the
    log thread loses one is in [LogRing]); a hex dump can be read back; the queue
    size cannot be set once the library is loaded; and the log thread may write to a stream
    that was closed under it. *)
From S2P Require Import Prelude Log.
Import Log.

Module LogFile.

(** ** Formatted output *)

(** [%0wd] and, for [w = 1], [%d] *)
Definition print_zeros (w : nat) (n : Z) : cstr := let d := print_dec n in repeat 48 (w - length d) ++ d.
Definition print_padded (w : nat) (n : Z) : cstr :=
  if n <? 0 then ch "-" :: print_zeros (w - 1) (- n) else print_zeros w n.
Definition print_int (n : Z) : cstr := print_padded 1 n.
(** [%02X] of a byte *)
Definition hex_digit (d : Z) : Z := if d <? 10 then 48 + d else 55 + d.
Definition print_hex (b : Z) : cstr := [hex_digit (b / 16); hex_digit (b mod 16)].

(** The macro [filename]: what follows the last slash. *)
Fixpoint filename (x : cstr) : cstr :=
  match x with
  | [] => []
  | c :: x' => if bool_decide (ch "/" ∈ x') then filename x' else if c =? ch "/" then x' else x
  end.

Record tm := mkTm { tm_year : Z; tm_mon : Z; tm_mday : Z; tm_hour : Z; tm_min : Z; tm_sec : Z }.

Definition nv_log_copy_module (g : settings) : cstr := str_trunc 32 (g_log_module g).

(** [nv_log_format_header]: the whole text [snprintf] would print, whose length it returns;
    [None] is the return of -1.  [now], [usec], [pid] and [tid] are what the system answers. *)
Definition nv_log_format_header (now : option tm) (usec pid tid : Z) (lvl : Z) (module : option cstr) (file : cstr)
    (line : Z) (module_fallback : cstr) : outcome (option cstr) :=
  match now with
  | None => Ret None
  | Some t =>
      let mod_ := match module with Some (c :: m) => c :: m | _ => module_fallback end in
      info ← nv_log_get_info lvl;
      Ret (Some (str "[" ++ print_padded 4 (tm_year t + 1900) ++ str "-" ++ print_padded 2 (tm_mon t + 1)
        ++ str "-" ++ print_padded 2 (tm_mday t) ++ str " " ++ print_padded 2 (tm_hour t) ++ str ":"
        ++ print_padded 2 (tm_min t) ++ str ":" ++ print_padded 2 (tm_sec t) ++ str "." ++ print_padded 3 (Z.quot usec 1000)
        ++ str "] [" ++ info ++ str "] [PID:" ++ print_int pid ++ str " TID:" ++ print_int tid ++ str "] ["
        ++ mod_ ++ str "] " ++ filename file ++ str ":" ++ print_int line ++ str " "))
  end.

(** ** The outputs *)

(** [g_log_file] is the open stream, by the name it was opened under; [console] is what was
    written to stderr, [journal] what was given to syslog. *)
Record output := mkOutput { g_log_file : option cstr; disk : files; console : cstr; journal : list (Z * cstr) }.
Definition on_file (o : output) (x : option cstr * files) : output := mkOutput x.1 x.2 (console o) (journal o).

Definition default_name (t : tm) : cstr :=
  let time_str := str_trunc 64 (print_padded 4 (tm_year t + 1900) ++ print_padded 2 (tm_mon t + 1) ++ print_padded 2 (tm_mday t)
    ++ str "-" ++ print_padded 2 (tm_hour t) ++ print_padded 2 (tm_min t) ++ print_padded 2 (tm_sec t)) in
  str_trunc 128 (str "/tmp/nv" ++ time_str ++ str "log").

(** Opening [p] in place of the stream there was; without success nothing changes. *)
Definition open_instead (can : cstr -> bool) (p : cstr) (o : output) : Z * output :=
  match fopen_append can p (disk o) with
  | (None, _) => (-1, o)
  | (Some fp, fs) => (0, on_file o (Some fp, fs))
  end.

Definition nv_log_open_default_file (can : cstr -> bool) (now : option tm) (o : output) : Z * output :=
  match now with
  | None => (-1, o)
  | Some t => open_instead can (default_name t) o
  end.

Definition nv_log_ensure_file_consumer (can : cstr -> bool) (now : option tm) (g : settings) (o : output) : output :=
  let o := match g_log_file o with None => (nv_log_open_default_file can now o).2 | Some _ => o end in
  on_file o (nv_log_rotate_if_needed can (g_rotate_max_bytes g) (g_rotate_keep g) (g_rotate_path g) (g_log_file o) (disk o)).

(** [fputs] and [fflush] on the stream opened under [p]. *)
Definition fputs (text : cstr) (p : cstr) (fs : files) : files := <[p := default [] (fs !! p) ++ text]> fs.

Definition strip_newline (buf : cstr) : cstr :=
  match last buf with
  | Some c => if c =? 10 then take (length buf - 1) buf else buf
  | None => buf
  end.

Definition nv_log_write_msg (can : cstr -> bool) (now : option tm) (g : settings) (slot : Z * cstr) (o : output) : output :=
  let '(lvl, text) := slot in
  if (length text =? 0)%nat then o else
  let o := if g_log_console g =? 0 then o
           else mkOutput (g_log_file o) (disk o) (console o ++ text) (journal o) in
  let o := nv_log_ensure_file_consumer can now g o in
  let o := match g_log_file o with
           | Some fp => mkOutput (Some fp) (fputs text fp (disk o)) (console o) (journal o)
           | None => o
           end in
  if g_log_syslog g =? 0 then o
  else mkOutput (g_log_file o) (disk o) (console o)
         (journal o ++ [(nv_log_to_syslog_priority lvl, strip_newline (clip text))]).

(** ** The logger *)

(** [ident] is the name syslog was opened with. *)
Record logger := mkLogger {
  conf : settings; ring : nv_log_ring_t; thread_started : bool; g_dropped : Z; out : output; ident : option cstr }.
Definition set_ready (b : bool) (g : settings) : settings :=
  mkSettings (g_log_module g) (g_log_level g) (g_log_console g) (g_log_syslog g) (g_ring_capacity g)
    (g_overflow_policy g) b (g_rotate_max_bytes g) (g_rotate_keep g) (g_rotate_path g).
Definition set_path (p : cstr) (g : settings) : settings :=
  mkSettings (g_log_module g) (g_log_level g) (g_log_console g) (g_log_syslog g) (g_ring_capacity g)
    (g_overflow_policy g) (g_async_ready g) (g_rotate_max_bytes g) (g_rotate_keep g) p.
Definition set_syslog (g : settings) : settings :=
  mkSettings (g_log_module g) (g_log_level g) (g_log_console g) 1 (g_ring_capacity g)
    (g_overflow_policy g) (g_async_ready g) (g_rotate_max_bytes g) (g_rotate_keep g) (g_rotate_path g).
Definition with_out (L : logger) (o : output) : logger :=
  mkLogger (conf L) (ring L) (thread_started L) (g_dropped L) o (ident L).
Definition with_ring (L : logger) (r : nv_log_ring_t) (d : Z) : logger :=
  mkLogger (conf L) r (thread_started L) d (out L) (ident L).

(** [nv_log_ring_init] whole: [mem] and [thr] are whether memory and a thread are given. *)
Definition nv_log_async_start (mem thr : bool) (L : logger) : Z * logger :=
  if g_async_ready (conf L) then (0, L) else
  let r := nv_log_ring_init (g_ring_capacity (conf L)) in
  if negb mem || negb thr
  then (-1, mkLogger (conf L) (mkRing [] (capacity r) (mask r) 0 0) false (g_dropped L) (out L) (ident L))
  else (0, mkLogger (set_ready true (conf L)) r true (g_dropped L) (out L) (ident L)).
Definition nv_log_auto_start (mem thr : bool) (L : logger) : logger := (nv_log_async_start mem thr L).2.

Definition nv_log_init_file (mem thr : bool) (can : cstr -> bool) (now : option tm) (path : option cstr) (L : logger) : Z * logger :=
  let '(rc, L) := nv_log_async_start mem thr L in
  if negb (rc =? 0) then (-1, L) else
  match path with
  | Some (c :: p) =>
      let '(rc, o) := open_instead can (c :: p) (out L) in
      if rc =? 0 then (0, mkLogger (set_path (nv_log_remember_path path) (conf L)) (ring L) (thread_started L) (g_dropped L) o (ident L))
      else (-1, L)
  | _ => let '(rc, o) := nv_log_open_default_file can now (out L) in (rc, with_out L o)
  end.

Definition nv_log_init_syslog (id : option cstr) (L : logger) : Z * logger :=
  (0, mkLogger (set_syslog (conf L)) (ring L) (thread_started L) (g_dropped L) (out L) (Some (default (str "nv") id))).

Definition nv_log_init (mem thr : bool) (can : cstr -> bool) (now : option tm) (L : logger) : Z * logger :=
  let '(rc, L) := nv_log_async_start mem thr L in
  if negb (rc =? 0) then (-1, L) else
  let '(rc, o) := nv_log_open_default_file can now (out L) in (rc, with_out L o).

Definition push_line (lvl : Z) (line : cstr) (L : logger) : outcome logger :=
  '(_, r, d) ← nv_log_ring_push (g_async_ready (conf L)) (g_overflow_policy (conf L)) (Some line) lvl (ring L) (g_dropped L);
  Ret (with_ring L r d).

(** [message] is the expanded text. *)
Definition nv_log_write (message : cstr) (L : logger) : outcome logger :=
  push_line NV_LOG_LEVEL_INFO (str_trunc (Z.to_nat NV_LOG_MSG_MAX) message) L.

(** [nv_log_emit] with its header. *)
Definition emit (now : option tm) (usec pid tid : Z) (lvl : Z) (module : option cstr) (file : cstr) (line : Z)
    (message : cstr) (L : logger) : outcome logger :=
  header ← nv_log_format_header now usec pid tid lvl module file line (nv_log_copy_module (conf L));
  '(r, d) ← nv_log_emit (g_log_level (conf L)) (g_async_ready (conf L)) (g_overflow_policy (conf L)) lvl header message
             (ring L) (g_dropped L);
  Ret (with_ring L r d).

(** The loop with which the log thread ends; each turn empties a slot. *)
Fixpoint write_queued (fuel : nat) (can : cstr -> bool) (now : option tm) (g : settings) (r : nv_log_ring_t) (o : output)
  : outcome (nv_log_ring_t * output) :=
  match fuel with
  | O => UB
  | S f =>
      '(m, r) ← nv_log_ring_pop r;
      match m with
      | Some m => write_queued f can now g r (nv_log_write_msg can now g m o)
      | None => Ret (r, o)
      end
  end.

(** A shutdown of a ring that no producer uses any more, by a log thread that is in its
    first pop, its last loop, or waits, and so writes what it pops: the thread is joined when
    its last loop has ended; then the ring is zeroed.  A thread that is at the pop it makes
    with the mutex held pops a line and does not write it ([LogRing.nv_log_line_lost]); that
    schedule is not one of this sequential model. *)
Definition nv_log_ring_shutdown (can : cstr -> bool) (now : option tm) (L : logger) : outcome logger :=
  if negb (thread_started L) then Ret L else
  '(_, o) ← write_queued (S (Z.to_nat (capacity (ring L)))) can now (conf L) (ring L) (out L);
  Ret (mkLogger (set_ready false (conf L)) (mkRing [] 0 0 0 0) false (g_dropped L) o (ident L)).

Definition nv_log_close (can : cstr -> bool) (now : option tm) (L : logger) : outcome logger :=
  L ← nv_log_ring_shutdown can now L;
  Ret (with_out L (on_file (out L) (None, disk (out L)))).

(** ** The hex dump *)

(** One turn of the [for] loop over the bytes of a line: the buffer of 128 bytes and the
    length [lp] that [snprintf] counted. *)
Definition hex_byte (s : cstr * Z) (b : Z) : cstr * Z :=
  (s.1 ++ str_trunc (Z.to_nat (128 - s.2)) (print_hex b ++ str " "), s.2 + 3).
Definition hex_line (bytes : list Z) : cstr :=
  let '(line, lp) := fold_left hex_byte bytes (str "  ", 2) in
  line ++ str_trunc (Z.to_nat (128 - lp)) [10].

(** The inner loop: lines of 16 bytes are added while [pos] leaves room; [rest] is the data
    from [i] on. *)
Fixpoint hex_chunk (fuel : nat) (rest : list Z) (chunk : cstr) (pos : Z) : cstr * list Z :=
  match fuel with
  | O => (chunk, rest)
  | S f =>
      if (0 <? length rest)%nat && (pos <? NV_LOG_MSG_MAX - 128) then
        let line := hex_line (take 16 rest) in
        hex_chunk f (drop 16 rest) (chunk ++ str_trunc (Z.to_nat (NV_LOG_MSG_MAX - pos)) line) (pos + strlen line)
      else (chunk, rest)
  end.

(** The outer loop: the chunks that are pushed. *)
Fixpoint hex_chunks (fuel : nat) (rest : list Z) : list cstr :=
  match fuel, rest with
  | S f, _ :: _ =>
      let '(chunk, rest) := hex_chunk (length rest) rest [] 0 in
      (if (length chunk =? 0)%nat then [] else [chunk]) ++ hex_chunks f rest
  | _, _ => []
  end.

Fixpoint push_all (lvl : Z) (l : list cstr) (L : logger) : outcome logger :=
  match l with
  | [] => Ret L
  | c :: l => L ← push_line lvl c L; push_all lvl l L
  end.

Definition nv_log_hex_dump (data : option (list Z)) (L : logger) : outcome logger :=
  match data with
  | None => Ret L
  | Some data => push_all NV_LOG_LEVEL_DEBUG (hex_chunks (length data) data) L
  end.
Definition printf_hex := nv_log_hex_dump.

(** ** A dump is read back *)

(** What a reader of the dump sees: the values of the pairs of hexadecimal digits. *)
Definition hex_value (c : Z) : option Z :=
  if (48 <=? c) && (c <=? 57) then Some (c - 48) else if (65 <=? c) && (c <=? 70) then Some (c - 55) else None.
Fixpoint unhex (s : cstr) : list Z :=
  match s with
  | a :: ((b :: s') as t) =>
      match hex_value a, hex_value b with
      | Some x, Some y => 16 * x + y :: unhex s'
      | _, _ => unhex t
      end
  | _ => []
  end.

(** A line without the cuts of [snprintf]. *)
Definition hex_words (bytes : list Z) : cstr := concat (map (fun b => print_hex b ++ str " ") bytes).
Definition plain_line (bytes : list Z) : cstr := str "  " ++ hex_words bytes ++ [10].

Lemma hex_words_length bytes : length (hex_words bytes) = (3 * length bytes)%nat.
Proof.
  induction bytes as [|b bytes IH]; [done|]. unfold hex_words in *. cbn [map concat]. rewrite length_app, IH. simpl. lia.
Qed.

Lemma hex_bytes_eq bytes : forall t lp, 0 <= lp -> lp + 3 * Z.of_nat (length bytes) < 128 ->
  fold_left hex_byte bytes (t, lp) = (t ++ hex_words bytes, lp + 3 * Z.of_nat (length bytes)).
Proof.
  induction bytes as [|b bytes IH]; intros t lp H0 Hlt.
  - unfold hex_words. simpl. f_equal; [by rewrite app_nil_r|lia].
  - cbn [fold_left length] in *. unfold hex_byte at 2. cbn [fst snd]. rewrite IH by lia. f_equal; [|lia].
    unfold str_trunc. rewrite take_ge by (simpl; lia). unfold hex_words. cbn [map concat]. by rewrite <- app_assoc.
Qed.

Lemma hex_line_eq bytes : (length bytes <= 16)%nat -> hex_line bytes = plain_line bytes.
Proof.
  intros Hl. unfold hex_line, plain_line. rewrite hex_bytes_eq by lia. unfold str_trunc. rewrite take_ge by (simpl; lia).
  by rewrite <- app_assoc.
Qed.
Lemma hex_line_length bytes : (length bytes <= 16)%nat -> strlen (hex_line bytes) = 3 + 3 * Z.of_nat (length bytes).
Proof.
  intros Hl. rewrite hex_line_eq by done. unfold plain_line, strlen. rewrite !length_app, hex_words_length. simpl. lia.
Qed.

Lemma hex_digit_value d : 0 <= d < 16 -> hex_value (hex_digit d) = Some d.
Proof.
  intros Hd. unfold hex_value, hex_digit. destruct (Z.ltb_spec d 10).
  - destruct (Z.leb_spec 48 (48 + d)), (Z.leb_spec (48 + d) 57); [|lia..]. simpl. f_equal. lia.
  - destruct (Z.leb_spec 48 (55 + d)), (Z.leb_spec (55 + d) 57); [lia| |lia..]. cbn [andb].
    destruct (Z.leb_spec 65 (55 + d)), (Z.leb_spec (55 + d) 70); [|lia..]. simpl. f_equal. lia.
Qed.

Lemma unhex_other c s : hex_value c = None -> unhex (c :: s) = unhex s.
Proof. intros E. destruct s as [|b s]; [done|]. cbn [unhex]. by rewrite E. Qed.
Lemma unhex_byte b s : is_byte b -> unhex (print_hex b ++ s) = b :: unhex s.
Proof.
  intros [H0 H1]. rewrite pow2_8 in H1. unfold print_hex. cbn [app unhex].
  rewrite !hex_digit_value by (Z.div_mod_to_equations; lia). f_equal. Z.div_mod_to_equations. lia.
Qed.
Lemma unhex_line bytes s : Forall is_byte bytes -> unhex (plain_line bytes ++ s) = bytes ++ unhex s.
Proof.
  intros Hb. unfold plain_line. rewrite <- !app_assoc. cbn [str map String.list_ascii_of_string app].
  rewrite !unhex_other by reflexivity. induction Hb as [|b bytes Hb _ IH].
  - cbn [hex_words map concat app]. by rewrite unhex_other.
  - unfold hex_words. cbn [map concat app]. rewrite <- !app_assoc, unhex_byte by done. cbn [app]. f_equal.
    change (str " ") with [32]. cbn [app]. rewrite unhex_other by done. apply IH.
Qed.

(** The chunk that is built: nothing of a line is cut, and it fits the buffer. *)
Lemma hex_chunk_spec fuel : forall rest chunk,
  (length rest <= fuel)%nat -> strlen chunk < NV_LOG_MSG_MAX - 77 -> Forall is_byte rest ->
  let '(chunk', rest') := hex_chunk fuel rest chunk (strlen chunk) in
  exists t bytes, chunk' = chunk ++ t /\ rest = bytes ++ rest' /\ strlen chunk' < NV_LOG_MSG_MAX - 77 /\
    (forall s, unhex (t ++ s) = bytes ++ unhex s) /\ (rest <> [] -> strlen chunk < NV_LOG_MSG_MAX - 128 -> bytes <> [] /\ t <> []).
Proof.
  unfold NV_LOG_MSG_MAX, NV_LOG_LINE_MAX.
  induction fuel as [|f IH]; intros rest chunk Hf Hc Hb; cbn [hex_chunk].
  - exists [], []. destruct rest; [|simpl in Hf; lia]. rewrite app_nil_r. by split_and!.
  - destruct (Nat.ltb_spec 0 (length rest)) as [Hr|Hr]; cbn [andb];
      [|exists [], []; rewrite app_nil_r; destruct rest; [by split_and!|simpl in Hr; lia]].
    unfold NV_LOG_MSG_MAX, NV_LOG_LINE_MAX. destruct (Z.ltb_spec (strlen chunk) (4096 - 128)) as [Hp|Hp];
      [|exists [], []; rewrite app_nil_r; split_and!; try done; lia].
    assert (length (take 16 rest) <= 16)%nat as H16 by (rewrite length_take; lia).
    pose proof (hex_line_length _ H16) as Hl.
    assert (str_trunc (Z.to_nat (4096 - strlen chunk)) (hex_line (take 16 rest)) = hex_line (take 16 rest)) as ->.
    { apply take_ge. unfold strlen in *. lia. }
    assert (strlen chunk + strlen (hex_line (take 16 rest)) = strlen (chunk ++ hex_line (take 16 rest))) as E
      by (unfold strlen; rewrite length_app; lia).
    rewrite E. specialize (IH (drop 16 rest) (chunk ++ hex_line (take 16 rest))).
    destruct (hex_chunk _ _ _ _) as [chunk' rest'].
    destruct IH as (t & bytes & -> & Er & Hs & Hu & _); [rewrite length_drop; lia|lia|by apply Forall_drop|].
    exists (hex_line (take 16 rest) ++ t), (take 16 rest ++ bytes). split_and!.
    + by rewrite <- app_assoc.
    + by rewrite <- app_assoc, <- Er, take_drop.
    + done.
    + intros s. rewrite <- !app_assoc, hex_line_eq, unhex_line by (done || by apply Forall_take). by rewrite Hu.
    + intros _ _. rewrite hex_line_eq by done. split; [destruct rest; [simpl in Hr; lia|done]|done].
Qed.

Lemma hex_chunks_spec fuel : forall rest, (length rest <= fuel)%nat -> Forall is_byte rest ->
  Forall (fun c => c <> [] /\ strlen c < NV_LOG_MSG_MAX) (hex_chunks fuel rest) /\
  forall s, unhex (concat (hex_chunks fuel rest) ++ s) = rest ++ unhex s.
Proof.
  induction fuel as [|f IH]; intros rest Hf Hb; [destruct rest; [done|simpl in Hf; lia]|].
  cbn [hex_chunks]. destruct rest as [|x rest0]; [done|]. set (rest := x :: rest0) in *.
  pose proof (hex_chunk_spec (length rest) rest [] ltac:(done) ltac:(done) Hb) as H.
  change (strlen []) with 0 in H. destruct (hex_chunk _ _ _ _) as [chunk rest'].
  destruct H as (t & bytes & -> & Er & Hs & Hu & Hne). destruct Hne as [Hb0 Ht]; [done..|].
  destruct (IH rest') as [I1 I2].
  { rewrite Er, length_app in Hf. destruct bytes; [done|]. simpl in Hf. lia. }
  { rewrite Er in Hb. by apply Forall_app in Hb as [_ ?]. }
  cbn [app]. destruct (Nat.eqb_spec (length t) 0) as [?%length_zero_iff_nil|_]; [done|]. split.
  - apply Forall_app. split; [|done]. apply Forall_singleton. split; [done|]. unfold NV_LOG_MSG_MAX, NV_LOG_LINE_MAX in *. cbn [app] in Hs. lia.
  - intros s. cbn [app concat]. rewrite <- app_assoc, Hu, I2, app_assoc. by rewrite <- Er.
Qed.

Lemma clip_short line : strlen line < NV_LOG_MSG_MAX -> clip line = line.
Proof. intros H. apply take_ge. unfold strlen in H. lia. Qed.

Lemma push_all_spec lvl chunks : forall L l,
  holds (ring L) l -> enqueue_pos (ring L) + Z.of_nat (length chunks) + 2 ^ 17 <= 2 ^ 64 -> 0 <= g_dropped L < 2 ^ 64 ->
  g_async_ready (conf L) = true -> Z.of_nat (length l + length chunks) <= capacity (ring L) ->
  Forall (fun c => c <> [] /\ strlen c < NV_LOG_MSG_MAX) chunks ->
  exists r, push_all lvl chunks L = Ret (with_ring L r (g_dropped L)) /\ holds r (l ++ map (pair lvl) chunks).
Proof.
  induction chunks as [|c chunks IH]; intros L l Hh Hs Hd Hr Hroom Hc; cbn [push_all map length] in *.
  - exists (ring L). rewrite app_nil_r. split; [by destruct L|done].
  - apply Forall_cons in Hc as [[Hne Hlt] Hc].
    pose proof (log_push_spec (g_overflow_policy (conf L)) c lvl (ring L) l (g_dropped L) Hh ltac:(unfold small; lia) Hd Hne) as Hp.
    unfold bounded_push in Hp. destruct (Z.ltb_spec (Z.of_nat (length l)) (capacity (ring L))); [|lia].
    destruct Hp as (r' & E & Hh' & Hcap & Henq). rewrite Z.add_0_r, u64_small in E by lia.
    unfold push_line. rewrite Hr, E. cbn [mbind outcome_bind]. rewrite clip_short in Hh' by done.
    destruct (IH (with_ring L r' (g_dropped L)) (l ++ [(lvl, c)])) as (r2 & E2 & Hh2); cbn [with_ring ring conf g_dropped]; try done; try lia.
    { rewrite length_app, Hcap. simpl. lia. }
    exists r2. rewrite E2. split; [done|]. by rewrite <- app_assoc in Hh2.
Qed.

(** A hex dump of any bytes, when the ring has room for its chunks, is queued whole, in
    order and at level DEBUG: no chunk is empty or longer than a slot, and reading the
    hexadecimal digits of the queued text gives the bytes back. *)
Theorem nv_log_hex_dump_roundtrip data L l :
  Forall is_byte data -> holds (ring L) l -> g_async_ready (conf L) = true ->
  let chunks := hex_chunks (length data) data in
  enqueue_pos (ring L) + Z.of_nat (length chunks) + 2 ^ 17 <= 2 ^ 64 -> 0 <= g_dropped L < 2 ^ 64 ->
  Z.of_nat (length l + length chunks) <= capacity (ring L) ->
  Forall (fun c => c <> [] /\ strlen c < NV_LOG_MSG_MAX) chunks /\ unhex (concat chunks) = data /\
  exists r, nv_log_hex_dump (Some data) L = Ret (with_ring L r (g_dropped L)) /\
    holds r (l ++ map (pair NV_LOG_LEVEL_DEBUG) chunks).
Proof.
  intros Hb Hh Hr chunks Hs Hd Hroom. destruct (hex_chunks_spec (length data) data ltac:(done) Hb) as [Hc Hu].
  split; [done|]. split; [specialize (Hu []); by rewrite !app_nil_r in Hu|]. by apply push_all_spec.
Qed.

Definition start_settings : settings :=
  mkSettings (str "NV") NV_LOG_LEVEL_INFO 1 0 2048 NV_LOG_OVERFLOW_DROP false 0 0 [].
(** The logger before its library is loaded. *)
Definition start : logger :=
  mkLogger start_settings (mkRing [] 0 0 0 0) false 0 (mkOutput None ∅ [] []) None.

Lemma nv_log_hex_dump_roundtrip_witness :
  unhex (concat (hex_chunks 20 (replicate 20 171))) = replicate 20 171 /\
  exists r, nv_log_hex_dump (Some (replicate 20 171)) (nv_log_auto_start true true start) =
    Ret (with_ring (nv_log_auto_start true true start) r 0) /\
    holds r (map (pair NV_LOG_LEVEL_DEBUG) (hex_chunks 20 (replicate 20 171))).
Proof.
  assert (length (hex_chunks 20 (replicate 20 171)) = 1%nat) as E by reflexivity.
  assert (Forall is_byte (replicate 20 171)) as Hb by (apply Forall_replicate; split; [lia|reflexivity]).
  destruct (nv_log_hex_dump_roundtrip (replicate 20 171) (nv_log_auto_start true true start) [] Hb (init_holds 2048) eq_refl) as (_ & H & H').
  - change (length (replicate 20 171)) with 20%nat. rewrite E. vm_compute. discriminate.
  - vm_compute. by split.
  - change (length (replicate 20 171)) with 20%nat. rewrite E. vm_compute. discriminate.
  - by split.
Defined.

(** ** The kept files are the end of the log *)

Definition writes (can : cstr -> bool) (now : option tm) (g : settings) (msgs : list (Z * cstr)) (o : output) : output :=
  fold_left (fun o m => nv_log_write_msg can now g m o) msgs o.

(** The numbered files, oldest first, and the log file. *)
Definition kept (fs : files) (path : cstr) (i : nat) : cstr := default [] (fs !! numbered path (Z.of_nat i)).
Definition history (fs : files) (path : cstr) (keep : nat) : cstr :=
  concat (map (kept fs path) (rev (List.seq 1 keep))) ++ default [] (fs !! path).

Lemma kept_insert fs path c i : (1 <= length path <= 511)%nat -> kept (<[path := c]> fs) path i = kept fs path i.
Proof. intros Hl. unfold kept. rewrite lookup_insert_ne; [done|]. symmetry. apply numbered_ne. lia. Qed.
Lemma history_append fs path keep text : (1 <= length path <= 511)%nat ->
  history (fputs text path fs) path keep = history fs path keep ++ text.
Proof.
  intros Hl. unfold history, fputs. rewrite lookup_insert_eq. cbn [default]. rewrite <- app_assoc. f_equal. f_equal.
  apply map_ext. intros i. by apply kept_insert.
Qed.

Section history.
Context (can : cstr -> bool) (now : option tm) (g : settings).
Abbreviation path := (g_rotate_path g).
Abbreviation keep := (Z.to_nat (g_rotate_keep g)).
Context (Hpath : (1 <= length path <= 511)%nat) (Hkeep : 1 <= g_rotate_keep g <= INT_MAX)
  (Hmax : 0 <= g_rotate_max_bytes g) (Hcan : can path = true).

(** A rotation forgets the oldest file and keeps the rest, in order. *)
Lemma rotation_history fs content :
  g_rotate_max_bytes g <> 0 -> fs !! path = Some content -> g_rotate_max_bytes g <= strlen content ->
  let '(file, fs') := nv_log_rotate_if_needed can (g_rotate_max_bytes g) (g_rotate_keep g) path (Some path) fs in
  file = Some path /\ fs' !! path = Some [] /\ history fs path keep = kept fs path keep ++ history fs' path keep.
Proof using Type*.
  intros Hm Hp Hsz.
  pose proof (rotate_full can (g_rotate_max_bytes g) (g_rotate_keep g) path (Some path) fs content
    ltac:(lia) Hkeep Hm Hp Hsz ltac:(by eexists) Hcan) as H.
  destruct (nv_log_rotate_if_needed _ _ _ _ _ _) as [file fs']. destruct H as (-> & H0 & H1 & H2 & _).
  split_and!; [done..|]. unfold history. rewrite H0, Hp. cbn [default].
  destruct keep as [|k] eqn:Ek; [lia|]. rewrite (seq_S k) at 1. rewrite rev_app_distr. cbn [rev app map concat].
  replace (1 + k)%nat with (S k) by lia. rewrite <- app_assoc. f_equal.
  cbn [List.seq rev]. rewrite map_app, concat_app, app_nil_r, <- (seq_shift k 1), <- map_rev, map_map. cbn [map concat].
  rewrite app_nil_r. change (kept fs' path 1) with (default [] (fs' !! numbered path 1)). rewrite H1. cbn [default].
  f_equal. f_equal. apply map_ext_in. intros i Hi%in_rev%in_seq. unfold kept.
  replace (Z.of_nat (S i)) with (Z.of_nat i + 1) by lia. rewrite H2 by lia. done.
Qed.

Definition logging (o : output) : Prop := g_log_file o = Some path /\ is_Some (disk o !! path).

Lemma write_history o lvl text : logging o -> text <> [] ->
  let o' := nv_log_write_msg can now g (lvl, text) o in
  logging o' /\ exists lost c, history (disk o) path keep ++ text = lost ++ history (disk o') path keep /\
    disk o' !! path = Some (c ++ text) /\
    (if g_rotate_max_bytes g =? 0 then lost = [] else strlen c < g_rotate_max_bytes g).
Proof using Type*.
  intros [Hf [c0 Hc]] Ht. unfold nv_log_write_msg.
  destruct (Nat.eqb_spec (length text) 0) as [?%length_zero_iff_nil|_]; [done|]. cbv zeta.
  set (o1 := if g_log_console g =? 0 then o else _).
  assert (g_log_file o1 = Some path /\ disk o1 = disk o) as [Hf1 Hd1] by (unfold o1; by case_match).
  unfold nv_log_ensure_file_consumer. rewrite Hf1, Hf1, Hd1. clearbody o1.
  assert (exists fs1 lost c, nv_log_rotate_if_needed can (g_rotate_max_bytes g) (g_rotate_keep g) path (Some path) (disk o) = (Some path, fs1) /\
    fs1 !! path = Some c /\ history (disk o) path keep = lost ++ history fs1 path keep /\
    (if g_rotate_max_bytes g =? 0 then lost = [] else strlen c < g_rotate_max_bytes g)) as (fs1 & lost & c & -> & Hc1 & Hh & Hb).
  { destruct (Z.eqb_spec (g_rotate_max_bytes g) 0) as [E|E].
    { exists (disk o), [], c0. split_and!; try done. unfold nv_log_rotate_if_needed. by rewrite E. }
    destruct (Z.ltb_spec (strlen c0) (g_rotate_max_bytes g)) as [Hs|Hs].
    - exists (disk o), [], c0. split_and!; try done. unfold nv_log_rotate_if_needed. rewrite Hc.
      destruct (Z.ltb_spec (strlen c0) (g_rotate_max_bytes g)); [by case_match|lia].
    - pose proof (rotation_history (disk o) c0 E Hc Hs) as H. destruct (nv_log_rotate_if_needed _ _ _ _ _ _) as [file fs1].
      destruct H as (-> & H0 & H1). exists fs1, (kept (disk o) path keep), []. split_and!; try done. change (strlen []) with 0. lia. }
  cbn [on_file g_log_file disk console journal fst snd].
  set (o2 := if g_log_syslog g =? 0 then _ else _).
  assert (g_log_file o2 = Some path /\ disk o2 = fputs text path fs1) as [Hf2 Hd2] by (unfold o2; by destruct (g_log_syslog g =? 0)).
  assert (disk o2 !! path = Some (c ++ text)) as Hc2.
  { rewrite Hd2. unfold fputs. rewrite lookup_insert_eq, Hc1. done. }
  split; [split; [done|by eexists]|]. exists lost, c. split_and!; [|done..].
  rewrite Hd2, history_append, Hh by done. by rewrite <- app_assoc.
Qed.

Lemma writes_history msgs : forall o, logging o -> Forall (fun m => m.2 <> []) msgs ->
  logging (writes can now g msgs o) /\
  exists lost, history (disk o) path keep ++ concat (map snd msgs) = lost ++ history (disk (writes can now g msgs o)) path keep /\
    (g_rotate_max_bytes g = 0 -> lost = []).
Proof using Type*.
  induction msgs as [|[lvl text] msgs IH]; intros o Hl Hne; cbn [writes fold_left map concat snd].
  - split; [done|]. exists []. by rewrite app_nil_r.
  - apply Forall_cons in Hne as [Ht Hne]. destruct (write_history o lvl text Hl Ht) as (Hl1 & lost & c & Hh & _ & Hb).
    destruct (IH _ Hl1 Hne) as (Hl2 & lost2 & Hh2 & Hb2). split; [done|]. exists (lost ++ lost2). split.
    + rewrite app_assoc, Hh, <- !app_assoc. f_equal. done.
    + intros E. rewrite E in Hb. cbn in Hb. by rewrite Hb, Hb2.
Qed.

End history.

(** C24: while the log file is open under its remembered path, the files rotation keeps (the
    numbered ones, oldest first, then the log file) are at any moment the end of everything
    that was there and has been written since, without a gap; nothing is lost when rotation is
    off; the last message is whole in the log file, which had less than the limit before. *)
Theorem nv_log_keeps_the_end can now g msgs lvl text o :
  (1 <= length (g_rotate_path g) <= 511)%nat -> 1 <= g_rotate_keep g <= INT_MAX -> 0 <= g_rotate_max_bytes g ->
  can (g_rotate_path g) = true -> logging g o -> Forall (fun m => m.2 <> []) (msgs ++ [(lvl, text)]) ->
  let path := g_rotate_path g in
  let keep := Z.to_nat (g_rotate_keep g) in
  let o' := writes can now g (msgs ++ [(lvl, text)]) o in
  exists lost c, history (disk o) path keep ++ concat (map snd msgs) ++ text = lost ++ history (disk o') path keep /\
    disk o' !! path = Some (c ++ text) /\ g_log_file o' = Some path /\
    (g_rotate_max_bytes g = 0 -> lost = []) /\ (g_rotate_max_bytes g <> 0 -> strlen c < g_rotate_max_bytes g).
Proof.
  intros Hp Hk Hm Hc Hl Hne path keep o'. apply Forall_app in Hne as [Hne Ht]. apply Forall_cons in Ht as [Ht _].
  destruct (writes_history can now g Hp Hk Hm Hc msgs o Hl Hne) as (Hl1 & lost & Hh & Hb).
  destruct (write_history can now g Hp Hk Hm Hc _ lvl text Hl1 Ht) as ([Hl2 _] & lost2 & c & Hh2 & Hd & Hb2).
  assert (o' = nv_log_write_msg can now g (lvl, text) (writes can now g msgs o)) as Eo by (unfold o', writes; by rewrite fold_left_app).
  rewrite Eo. clear Eo o'. exists (lost ++ lost2), c. split_and!; try done.
  - rewrite app_assoc. unfold path, keep. rewrite Hh, <- !app_assoc. by f_equal.
  - intros E. rewrite E in Hb2. cbn in Hb2. by rewrite Hb, Hb2.
  - intros E. by destruct (Z.eqb_spec (g_rotate_max_bytes g) 0).
Qed.

Definition demo_settings : settings :=
  mkSettings (str "NV") NV_LOG_LEVEL_INFO 1 1 2048 NV_LOG_OVERFLOW_DROP true 4 2 (str "a.log").
Definition demo_output : output := mkOutput (Some (str "a.log")) demo_files [] [].

Lemma nv_log_keeps_the_end_witness :
  exists lost c, history demo_files (str "a.log") 2 ++ concat [str "one"; str "two"] ++ str "three" =
      lost ++ history (disk (writes (fun _ => true) None demo_settings [(1, str "one"); (1, str "two"); (4, str "three")] demo_output)) (str "a.log") 2 /\
    disk (writes (fun _ => true) None demo_settings [(1, str "one"); (1, str "two"); (4, str "three")] demo_output) !! str "a.log" =
      Some (c ++ str "three") /\ strlen c < 4.
Proof.
  destruct (nv_log_keeps_the_end (fun _ => true) None demo_settings [(1, str "one"); (1, str "two")] 4 (str "three") demo_output
    ltac:(vm_compute; lia) ltac:(vm_compute; intuition discriminate) ltac:(vm_compute; discriminate) eq_refl
    ltac:(split; [reflexivity|by eexists]) ltac:(repeat constructor; discriminate)) as (lost & c & H1 & H2 & _ & _ & H3).
  exists lost, c. split_and!; [exact H1|exact H2|apply H3; discriminate].
Defined.

(** ** Closing writes what is queued *)

(** One line on every output, with the stream [p] and no rotation. *)
Lemma write_plain can now g m o p : g_rotate_max_bytes g = 0 -> g_log_file o = Some p -> m.2 <> [] ->
  nv_log_write_msg can now g m o = mkOutput (Some p) (fputs m.2 p (disk o))
    (if g_log_console g =? 0 then console o else console o ++ m.2)
    (if g_log_syslog g =? 0 then journal o else journal o ++ [(nv_log_to_syslog_priority m.1, strip_newline (clip m.2))]).
Proof.
  intros Hm Hf Ht. destruct m as [lvl text]. cbn [fst snd] in *. unfold nv_log_write_msg, nv_log_ensure_file_consumer, nv_log_rotate_if_needed.
  destruct (Nat.eqb_spec (length text) 0) as [?%length_zero_iff_nil|_]; [done|]. rewrite Hm. cbv zeta.
  destruct (g_log_console g =? 0); cbn [g_log_file]; rewrite Hf; cbn [Z.eqb orb on_file g_log_file disk console journal fst snd];
    rewrite ?Hf; by destruct (g_log_syslog g =? 0).
Qed.

(** The loop pops and writes every line. *)
Lemma write_queued_spec can now g l : forall fuel r o,
  (length l < fuel)%nat -> holds r l -> small r ->
  exists r', write_queued fuel can now g r o = Ret (r', writes can now g l o) /\ holds r' [].
Proof.
  induction l as [|m l IH]; intros fuel r o Hf Hh Hs; (destruct fuel as [|f]; [simpl in Hf; lia|]); cbn [write_queued].
  - rewrite (pop_empty _ Hh). cbn [mbind outcome_bind writes fold_left]. eauto.
  - destruct (pop_first _ _ _ Hh Hs) as (r1 & -> & Hh1 & Hcap & Henq). cbn [mbind outcome_bind writes fold_left].
    apply IH; [simpl in Hf; lia|done|]. unfold small in *. lia.
Qed.

Lemma writes_plain can now g p l : forall o, g_rotate_max_bytes g = 0 -> g_log_file o = Some p ->
  Forall (fun m => m.2 <> []) l -> is_Some (disk o !! p) ->
  let o' := writes can now g l o in
  g_log_file o' = Some p /\
  disk o' = fputs (concat (map snd l)) p (disk o) /\
  console o' = (if g_log_console g =? 0 then console o else console o ++ concat (map snd l)) /\
  journal o' = (if g_log_syslog g =? 0 then journal o
                else journal o ++ map (fun m => (nv_log_to_syslog_priority m.1, strip_newline (clip m.2))) l).
Proof.
  induction l as [|m l IH]; intros o Hm Hf Hne [c Hc].
  - cbn [writes fold_left map concat]. rewrite !app_nil_r. split_and!; [done| |by case_match..].
    unfold fputs. rewrite Hc. cbn [default]. rewrite app_nil_r. symmetry. by apply insert_id.
  - apply Forall_cons in Hne as [Ht Hne]. change (writes can now g (m :: l) o) with (writes can now g l (nv_log_write_msg can now g m o)).
    rewrite (write_plain can now g m o p Hm Hf Ht). set (o1 := mkOutput _ _ _ _).
    destruct (IH o1 Hm eq_refl Hne) as (H1 & H2 & H3 & H4).
    { cbn [o1 disk]. unfold fputs. rewrite lookup_insert_eq. by eexists. }
    split_and!; [done| |..].
    + rewrite H2. cbn [o1 disk map concat]. unfold fputs. rewrite lookup_insert_eq, insert_insert_eq. cbn [from_option id]. by rewrite <- app_assoc.
    + rewrite H3. cbn [o1 console map concat]. destruct (g_log_console g =? 0); [done|]. by rewrite <- app_assoc.
    + rewrite H4. cbn [o1 journal map]. destruct (g_log_syslog g =? 0); [done|]. by rewrite <- app_assoc.
Qed.

Lemma close_spec can now L l p :
  thread_started L = true -> holds (ring L) l -> small (ring L) -> Forall (fun m => m.2 <> []) l ->
  g_rotate_max_bytes (conf L) = 0 -> g_log_file (out L) = Some p -> is_Some (disk (out L) !! p) ->
  exists L', nv_log_close can now L = Ret L' /\
    g_log_file (out L') = None /\
    disk (out L') = fputs (concat (map snd l)) p (disk (out L)) /\
    console (out L') = console (out L) ++ (if g_log_console (conf L) =? 0 then [] else concat (map snd l)) /\
    journal (out L') = journal (out L) ++ (if g_log_syslog (conf L) =? 0 then []
      else map (fun m => (nv_log_to_syslog_priority m.1, strip_newline (clip m.2))) l) /\
    (forall lvl line, push_line lvl line L' = Ret (with_ring L' (ring L') (u64 (g_dropped L' + 1)))).
Proof.
  intros Ht Hh Hs Hne Hm Hf Hd. unfold nv_log_close, nv_log_ring_shutdown. rewrite Ht. cbn [negb].
  destruct (write_queued_spec can now (conf L) l (S (Z.to_nat (capacity (ring L)))) (ring L) (out L)) as (r' & -> & _); [|done..|].
  { pose proof (ho_fits _ _ Hh). lia. }
  destruct (writes_plain can now (conf L) p l (out L) Hm Hf Hne Hd) as (H1 & H2 & H3 & H4).
  cbn [mbind outcome_bind]. eexists. split; [done|]. cbn [with_out out on_file g_log_file disk console journal fst snd].
  split_and!; [done|done|rewrite H3; destruct (g_log_console (conf L) =? 0); by rewrite ?app_nil_r|rewrite H4; destruct (g_log_syslog (conf L) =? 0); by rewrite ?app_nil_r|done].
Qed.

(** Closing a running logger (no rotation configured, no schedule of the log thread that loses
    a line) writes every queued line, in order,
    to the log file, to the console when it is enabled and to syslog, with its priority and
    without its newline, when that is; no other file is touched, the file is closed, and a
    line pushed afterwards is counted as dropped and changes nothing else. *)
Theorem nv_log_close_flushes can now L l p :
  thread_started L = true -> holds (ring L) l -> small (ring L) -> Forall (fun m => m.2 <> []) l ->
  g_rotate_max_bytes (conf L) = 0 -> g_log_file (out L) = Some p -> is_Some (disk (out L) !! p) ->
  exists L', nv_log_close can now L = Ret L' /\
    g_log_file (out L') = None /\
    disk (out L') = fputs (concat (map snd l)) p (disk (out L)) /\
    console (out L') = console (out L) ++ (if g_log_console (conf L) =? 0 then [] else concat (map snd l)) /\
    journal (out L') = journal (out L) ++ (if g_log_syslog (conf L) =? 0 then []
      else map (fun m => (nv_log_to_syslog_priority m.1, strip_newline (clip m.2))) l) /\
    (forall lvl line, push_line lvl line L' = Ret (with_ring L' (ring L') (u64 (g_dropped L' + 1)))).
Proof. apply close_spec. Qed.

Definition demo_logger : logger :=
  mkLogger (mkSettings (str "NV") NV_LOG_LEVEL_INFO 1 1 2048 NV_LOG_OVERFLOW_DROP true 0 1 (str "a.log"))
    (nv_log_ring_init 2048) true 0 demo_output (Some (str "nv")).

Lemma nv_log_close_flushes_witness :
  exists L', nv_log_close (fun _ => true) None demo_logger = Ret L' /\ g_log_file (out L') = None /\
    disk (out L') = fputs [] (str "a.log") demo_files.
Proof.
  destruct (nv_log_close_flushes (fun _ => true) None demo_logger [] (str "a.log") eq_refl (init_holds 2048)
    ltac:(vm_compute; discriminate) ltac:(constructor) eq_refl eq_refl ltac:(by eexists)) as (L' & H1 & H2 & H3 & _).
  exists L'. by split_and!.
Defined.

(** ** Start-up *)

(** Loading the library starts the log thread (its constructor), and from then on the size
    of the queue cannot be set, although the header asks for it to be set before [nv_log_init]:
    the queue has its default size, and [nv_log_init] and [nv_log_init_file] keep it. *)
Theorem nv_log_queue_size_fixed capacity_asked mem thr can now path :
  let L := nv_log_auto_start true true start in
  nv_log_set_queue_size (conf L) capacity_asked = conf L /\ capacity (ring L) = 2048 /\
  ring (nv_log_init mem thr can now L).2 = ring L /\ ring (nv_log_init_file mem thr can now path L).2 = ring L.
Proof.
  split_and!; [done|reflexivity| |].
  - unfold nv_log_init. cbn [nv_log_async_start]. change (nv_log_async_start mem thr ?L) with (0, L). cbn [Z.eqb negb].
    by destruct (nv_log_open_default_file _ _ _).
  - unfold nv_log_init_file. change (nv_log_async_start mem thr ?L) with (0, L). cbn [Z.eqb negb].
    destruct path as [[|c p]|]; [by destruct (nv_log_open_default_file _ _ _)| |by destruct (nv_log_open_default_file _ _ _)].
    destruct (open_instead _ _ _) as [rc o]. by destruct (rc =? 0).
Qed.

(** ** A line with its header *)

Lemma print_padded_length w n : (length (print_padded w n) <= Nat.max w 20 + 1)%nat.
Proof.
  unfold print_padded, print_zeros, print_dec. pose proof (dec_loop_length 20 n). pose proof (dec_loop_length 20 (- n)).
  destruct (n <? 0); cbn [length]; rewrite length_app, repeat_length; lia.
Qed.
Lemma filename_length x : (length (filename x) <= length x)%nat.
Proof. induction x as [|c x IH]; cbn [filename length]; [lia|]. repeat case_match; simpl; lia. Qed.

(** A header fits the buffer unless the module or the file name is thousands of bytes long. *)
Lemma header_fits t usec pid tid lvl module file line fallback :
  0 <= lvl < NV_LOG_LEVEL_MAX -> (length (default [] module) + length fallback + length file <= 3000)%nat ->
  exists h, nv_log_format_header (Some t) usec pid tid lvl module file line fallback = Ret (Some h) /\
    h <> [] /\ strlen h < NV_LOG_MSG_MAX.
Proof.
  intros Hl Hlen. unfold nv_log_format_header, nv_log_get_info, NV_LOG_LEVEL_MAX in *.
  destruct (Z.ltb_spec lvl 0), (Z.leb_spec 7 lvl); [lia..|]. cbn [orb].
  assert (exists i, log_info !! Z.to_nat lvl = Some i /\ (length i <= 7)%nat) as (i & -> & Hi).
  { assert (Forall (fun i : cstr => (length i <= 7)%nat) log_info) as HF by (repeat constructor).
    destruct (lookup_lt_is_Some_2 log_info (Z.to_nat lvl)) as [i Ei]; [cbn; lia|]. exists i. split; [done|].
    by apply (Forall_lookup_1 _ _ _ _ HF Ei). }
  cbn [deref mbind outcome_bind]. eexists. split; [done|]. split; [done|].
  unfold strlen, NV_LOG_MSG_MAX, NV_LOG_LINE_MAX. pose proof (filename_length file).
  assert (length (match module with Some (c :: m) => c :: m | _ => fallback end) <= length (default [] module) + length fallback)%nat
    by (destruct module as [[|c m]|]; simpl; lia).
  rewrite !length_app. unfold print_int.
  repeat match goal with |- context [length (print_padded ?w ?n)] =>
    let H := fresh in pose proof (print_padded_length w n) as H; revert H; generalize (length (print_padded w n)); intros end.
  unfold str. rewrite !length_map. simpl length. lia.
Qed.

(** Without concurrency, a line logged at or above the configured level, with room in the
    queue, is in the log file after the logger is closed: behind what the file held and the lines queued before, with
    the header the system's answers give, cut to the buffer and ended by a newline. *)
Theorem nv_log_line_reaches_file can now t usec pid tid lvl module file line message L l p c :
  thread_started L = true -> g_async_ready (conf L) = true ->
  holds (ring L) l -> enqueue_pos (ring L) + 1 + 2 ^ 17 <= 2 ^ 64 -> 0 <= g_dropped L < 2 ^ 64 ->
  Z.of_nat (length l) < capacity (ring L) -> Forall (fun m => m.2 <> []) l ->
  0 <= lvl < NV_LOG_LEVEL_MAX -> g_log_level (conf L) <= lvl ->
  (length (default [] module) + length file <= 2900)%nat ->
  g_rotate_max_bytes (conf L) = 0 -> g_log_file (out L) = Some p -> disk (out L) !! p = Some c ->
  exists header L1 L2,
    nv_log_format_header (Some t) usec pid tid lvl module file line (nv_log_copy_module (conf L)) = Ret (Some header) /\
    emit (Some t) usec pid tid lvl module file line message L = Ret L1 /\ nv_log_close can now L1 = Ret L2 /\
    disk (out L2) !! p = Some (c ++ concat (map snd l) ++ line_of header message).
Proof.
  intros Ht Hr Hh Hs Hd Hroom Hne Hl Hlv Hlen Hm Hf Hc.
  destruct (header_fits t usec pid tid lvl module file line (nv_log_copy_module (conf L)) Hl) as (h & Eh & Hh0 & Hh1).
  { pose proof (trunc_length 32 (g_log_module (conf L)) ltac:(lia)). unfold nv_log_copy_module. lia. }
  exists h. unfold emit. rewrite Eh, Hr. cbn [mbind outcome_bind].
  pose proof (emit_line (g_log_level (conf L)) (g_overflow_policy (conf L)) lvl h message (ring L) l (g_dropped L)
    Hh ltac:(unfold small; lia) Hd Hh0 Hh1) as He.
  destruct (Z.leb_spec 0 lvl), (Z.ltb_spec lvl NV_LOG_LEVEL_MAX), (Z.leb_spec (g_log_level (conf L)) lvl); [|lia..].
  unfold bounded_push in He. destruct (Z.ltb_spec (Z.of_nat (length l)) (capacity (ring L))); [|lia].
  cbn [andb] in He. destruct He as (r' & -> & Hh' & Hcap & Henq). cbn [mbind outcome_bind].
  set (L1 := with_ring L r' (u64 (g_dropped L + 0))).
  destruct (close_spec can now L1 (l ++ [(lvl, line_of h message)]) p Ht Hh') as (L2 & E2 & _ & Hdisk & _).
  { unfold small. cbn [L1 with_ring ring]. lia. }
  { apply Forall_app. split; [done|]. apply Forall_singleton. by apply line_of_nonempty. }
  { done. } { done. } { by eexists. }
  exists L1, L2. split_and!; try done. rewrite Hdisk. unfold fputs. rewrite lookup_insert_eq. cbn [L1 with_ring out]. rewrite Hc.
  cbn [from_option id]. rewrite map_app, concat_app. cbn [map concat snd]. by rewrite app_nil_r.
Qed.

Lemma nv_log_line_reaches_file_witness :
  exists header L1 L2,
    nv_log_format_header (Some (mkTm 124 0 2 3 4 5)) 6000 7 8 NV_LOG_LEVEL_ERROR None (str "src/a.c") 9 (str "NV") = Ret (Some header) /\
    emit (Some (mkTm 124 0 2 3 4 5)) 6000 7 8 NV_LOG_LEVEL_ERROR None (str "src/a.c") 9 (str "disk") demo_logger = Ret L1 /\
    nv_log_close (fun _ => true) None L1 = Ret L2 /\
    disk (out L2) !! str "a.log" = Some (str "full" ++ [] ++ line_of header (str "disk")).
Proof.
  exact (nv_log_line_reaches_file (fun _ => true) None (mkTm 124 0 2 3 4 5) 6000 7 8 NV_LOG_LEVEL_ERROR None (str "src/a.c") 9
    (str "disk") demo_logger [] (str "a.log") (str "full") eq_refl eq_refl (init_holds 2048) ltac:(vm_compute; discriminate)
    ltac:(vm_compute; intuition discriminate) ltac:(reflexivity) ltac:(constructor) ltac:(vm_compute; intuition discriminate)
    ltac:(vm_compute; discriminate) ltac:(vm_compute; lia) eq_refl eq_refl ltac:(apply lookup_insert_eq)).
Defined.

(** The header of that line. *)
Example header_text :
  nv_log_format_header (Some (mkTm 124 0 2 3 4 5)) 6000 7 8 NV_LOG_LEVEL_ERROR None (str "src/a.c") 9 (str "NV") =
    Ret (Some (str "[2024-01-02 03:04:05.006] [ERROR] [PID:7 TID:8] [NV] a.c:9 ")).
Proof. reflexivity. Qed.

(** ** The stream is shared without a lock *)

(** Streams are numbered; the log thread holds the one it loaded from [g_log_file]. *)
Record streams := mkStreams { open_streams : list Z; log_file : option Z; fp : option Z; next_stream : Z }.
Inductive stream_step : streams -> streams -> Prop :=
  (* the log thread: [fp = g_log_file], then [fputs] on an open stream *)
  | StreamLoad o f n : stream_step (mkStreams o (Some f) None n) (mkStreams o (Some f) (Some f) n)
  | StreamPuts o g f n : f ∈ o -> stream_step (mkStreams o g (Some f) n) (mkStreams o g None n)
  (* another thread: [fopen], [fclose] of the stream there was, and the store *)
  | StreamInit o g h n : stream_step (mkStreams o g h n)
      (mkStreams (n :: filter (fun s => g <> Some s) o) (Some n) h (n + 1)).

(** Opening a log file while the log thread writes a line can close the stream the thread
    is about to write to: both use [g_log_file] without a lock, and [fputs] is then called
    on a closed stream. *)
Theorem nv_log_writes_closed_stream :
  exists s f, rtc stream_step (mkStreams [1] (Some 1) None 2) s /\ fp s = Some f /\ f ∉ open_streams s.
Proof.
  exists (mkStreams [2] (Some 2) (Some 1) 3), 1. split_and!; [|done|set_solver].
  eapply rtc_l; [apply StreamLoad|]. eapply rtc_l; [apply StreamInit|]. apply rtc_refl.
Qed.

End LogFile.
