(* ===== verification/PubSub.v ===== *)
(** * The publish/subscribe bus (core/bus/nv_core_pubsub.c)

    [Broker]: the datagrams between processes, their encoding, the registration of
    remote clients and the forwarding of messages.  [Bus]: the subscriptions of one
    process, where publishing threads call handlers outside the lock and an
    unsubscription waits for the calls in progress; a critical section is one step. *)
From S2P Require Import Prelude.

Definition NV_OK : Z := 0.
Definition NV_ERROR : Z := -1.

Module Broker.

Definition NV_PUBSUB_TOPIC_MAX : nat := 64.
Definition NV_PUBSUB_DATA_MAX : nat := 512.
Definition NV_PUBSUB_MAGIC : Z := 0x4e565053.
Definition NV_PUBSUB_OP_PUB : Z := 1.
Definition NV_PUBSUB_OP_SUB : Z := 2.
Definition NV_PUBSUB_OP_UNSUB : Z := 3.

(** The arrays of the packet have exactly their declared sizes. *)
Record packet := mkPacket { magic : Z; op : Z; plen : Z; topic : list Z; data : list Z }.
Definition SIZEOF_PACKET : Z := 588.

(** [None] is a NULL pointer; reading [len] bytes of a shorter buffer is undefined. *)
Definition nv_pubsub_fill_packet (o : Z) (t : option cstr) (d : option (list Z)) (len : nat) : outcome packet :=
  let top := zeroed NV_PUBSUB_TOPIC_MAX (str_trunc NV_PUBSUB_TOPIC_MAX (default [] t)) in
  match d with
  | Some d =>
      if (0 <? len)%nat then
        let len := Nat.min len NV_PUBSUB_DATA_MAX in
        if (length d <? len)%nat then UB
        else Ret (mkPacket NV_PUBSUB_MAGIC o (Z.of_nat len) top (zeroed NV_PUBSUB_DATA_MAX (take len d)))
      else Ret (mkPacket NV_PUBSUB_MAGIC o 0 top (zeroed NV_PUBSUB_DATA_MAX []))
  | None => Ret (mkPacket NV_PUBSUB_MAGIC o 0 top (zeroed NV_PUBSUB_DATA_MAX []))
  end.

(** A remote client: its topic and the bytes of its address. *)
Abbreviation client := (cstr * list Z)%type.

Definition nv_pubsub_addr_equal (a b : list Z) : bool :=
  (length a =? length b)%nat && bool_decide (a = b).

Fixpoint nv_core_pubsub_remove_ipc_client (cs : list client) (t : cstr) (a : list Z) : list client :=
  match cs with
  | [] => []
  | c :: cs' =>
      if strcmp_eq c.1 t && nv_pubsub_addr_equal c.2 a then cs'
      else c :: nv_core_pubsub_remove_ipc_client cs' t a
  end.

(** [alloc]: whether [calloc] succeeds. *)
Definition nv_core_pubsub_add_ipc_client (cs : list client) (t : cstr) (a : list Z) (alloc : bool) : Z * list client :=
  let cs := nv_core_pubsub_remove_ipc_client cs t a in
  if alloc then (NV_OK, (str_trunc NV_PUBSUB_TOPIC_MAX t, a) :: cs) else (NV_ERROR, cs).

(** The datagrams sent by [nv_core_pubsub_publish_ipc], in order. *)
Definition nv_core_pubsub_publish_ipc (fd : Z) (cs : list client) (t : cstr) (d : option (list Z)) (len : nat)
  : outcome (list (list Z * packet)) :=
  if fd <? 0 then Ret []
  else
    pkt ← nv_pubsub_fill_packet NV_PUBSUB_OP_PUB (Some t) d len;
    Ret (map (fun c => (c.2, pkt)) (filter (fun c => strcmp_eq c.1 t = true) cs)).

(** One datagram of [n] bytes from [peer]: the clients after it and the message to
    publish, if any (the body of the loop of [nv_core_pubsub_ipc_thread_main]). *)
Definition receive (cs : list client) (n : Z) (pkt : packet) (peer : list Z) (alloc : bool)
  : outcome (list client * option (cstr * list Z)) :=
  if negb (n =? SIZEOF_PACKET) || negb (magic pkt =? NV_PUBSUB_MAGIC) || (default 0 (head (topic pkt)) =? 0)
  then Ret (cs, None)
  else
    let len := Z.to_nat (Z.min (plen pkt) (Z.of_nat NV_PUBSUB_DATA_MAX)) in
    if op pkt =? NV_PUBSUB_OP_SUB then
      t ← field_string (topic pkt); Ret ((nv_core_pubsub_add_ipc_client cs t peer alloc).2, None)
    else if op pkt =? NV_PUBSUB_OP_UNSUB then
      t ← field_string (topic pkt); Ret (nv_core_pubsub_remove_ipc_client cs t peer, None)
    else if op pkt =? NV_PUBSUB_OP_PUB then
      t ← field_string (topic pkt); Ret (cs, Some (t, take len (data pkt)))
    else Ret (cs, None).

(** A client's reaction to a datagram while it is subscribed to [t]: the arguments of
    its handler ([nv_core_pubsub_client_subscribe]). *)
Definition client_receive (n : Z) (pkt : packet) (t : cstr) : outcome (option (cstr * list Z)) :=
  if (n =? SIZEOF_PACKET) && (magic pkt =? NV_PUBSUB_MAGIC) && (op pkt =? NV_PUBSUB_OP_PUB) then
    t' ← field_string (topic pkt);
    if strcmp_eq t' t then
      Ret (Some (t', take (Z.to_nat (Z.min (plen pkt) (Z.of_nat NV_PUBSUB_DATA_MAX))) (data pkt)))
    else Ret None
  else Ret None.

(** ** Encoding *)

Lemma fill_topic o t d len pkt :
  cstr_ok t -> t <> [] -> nv_pubsub_fill_packet o (Some t) d len = Ret pkt ->
  magic pkt = NV_PUBSUB_MAGIC /\ op pkt = o /\ default 0 (head (topic pkt)) <> 0 /\
  field_string (topic pkt) = Ret (str_trunc NV_PUBSUB_TOPIC_MAX t).
Proof.
  intros Ht Hne E.
  assert (magic pkt = NV_PUBSUB_MAGIC /\ op pkt = o /\
    topic pkt = zeroed NV_PUBSUB_TOPIC_MAX (str_trunc NV_PUBSUB_TOPIC_MAX t)) as (-> & -> & ->).
  { unfold nv_pubsub_fill_packet in E. destruct d; repeat case_match; simplify_eq; done. }
  split_and!; [done|done| |].
  - destruct t as [|c t]; [done|]. inversion Ht; subst. simpl. unfold char_ok in *. lia.
  - apply field_string_zeroed; [by apply trunc_ok|by apply trunc_length; unfold NV_PUBSUB_TOPIC_MAX; lia].
Qed.

Lemma fill_data o t d len :
  (len <= length d)%nat ->
  exists pkt, nv_pubsub_fill_packet o (Some t) (Some d) len = Ret pkt /\
    take (Z.to_nat (Z.min (plen pkt) (Z.of_nat NV_PUBSUB_DATA_MAX))) (data pkt) = take (Nat.min len NV_PUBSUB_DATA_MAX) d.
Proof.
  intros Hl. unfold nv_pubsub_fill_packet. destruct (Nat.ltb_spec 0 len) as [H0|H0].
  - destruct (Nat.ltb_spec (length d) (Nat.min len NV_PUBSUB_DATA_MAX)); [lia|]. eexists. split; [done|].
    cbn [plen data]. rewrite Z.min_l by lia. rewrite Nat2Z.id. unfold zeroed.
    rewrite take_app_le by (rewrite length_take; lia). rewrite take_take. f_equal. lia.
  - eexists. split; [done|]. cbn [plen]. by replace len with 0%nat by lia.
Qed.

(** ** The registered clients are a set *)

Lemma remove_client_spec cs t a :
  NoDup cs -> NoDup (nv_core_pubsub_remove_ipc_client cs t a) /\
  forall c, c ∈ nv_core_pubsub_remove_ipc_client cs t a <-> c ∈ cs /\ c <> (t, a).
Proof.
  induction cs as [|c cs IH]; intros Hnd; [split; [done|set_solver]|].
  apply NoDup_cons in Hnd as [Hc Hnd]. destruct (IH Hnd) as [IH1 IH2]. cbn [nv_core_pubsub_remove_ipc_client].
  assert (strcmp_eq c.1 t && nv_pubsub_addr_equal c.2 a = true <-> c = (t, a)) as Heq.
  { unfold nv_pubsub_addr_equal. rewrite !andb_true_iff, strcmp_eq_true, bool_decide_eq_true, Nat.eqb_eq.
    destruct c as [ct ca]; simpl. naive_solver. }
  destruct (strcmp_eq c.1 t && nv_pubsub_addr_equal c.2 a).
  - destruct Heq as [Heq _]. rewrite (Heq eq_refl) in *. split; [done|]. set_solver.
  - split.
    + apply NoDup_cons. split; [|done]. rewrite IH2. naive_solver.
    + intros x. rewrite !elem_of_cons, IH2. naive_solver.
Qed.

(** The requests of clients, as the datagrams [nv_core_pubsub_client_publish] and
    [nv_core_pubsub_client_subscribe] send. *)
Inductive request :=
  | Sub (t : cstr) (a : list Z)
  | Unsub (t : cstr) (a : list Z)
  | Pub (t : cstr) (d : list Z).
Definition request_topic (r : request) : cstr := match r with Sub t _ | Unsub t _ | Pub t _ => t end.
Definition encode (r : request) : outcome packet :=
  match r with
  | Sub t _ => nv_pubsub_fill_packet NV_PUBSUB_OP_SUB (Some t) None 0
  | Unsub t _ => nv_pubsub_fill_packet NV_PUBSUB_OP_UNSUB (Some t) None 0
  | Pub t d => nv_pubsub_fill_packet NV_PUBSUB_OP_PUB (Some t) (Some d) (length d)
  end.
Definition sender (r : request) : list Z := match r with Sub _ a | Unsub _ a => a | Pub _ _ => [] end.

(** The broker serving a sequence of requests: the clients and the messages published. *)
Fixpoint serve (cs : list client) (rs : list request) : outcome (list client * list (cstr * list Z)) :=
  match rs with
  | [] => Ret (cs, [])
  | r :: rs =>
      pkt ← encode r;
      '(cs, m) ← receive cs SIZEOF_PACKET pkt (sender r) true;
      '(cs, ms) ← serve cs rs;
      Ret (cs, match m with Some m => m :: ms | None => ms end)
  end.

(** The specification: a set of (topic, address) pairs. *)
Definition spec_clients (S : gset client) (r : request) : gset client :=
  match r with
  | Sub t a => {[ (str_trunc NV_PUBSUB_TOPIC_MAX t, a) ]} ∪ S
  | Unsub t a => S ∖ {[ (str_trunc NV_PUBSUB_TOPIC_MAX t, a) ]}
  | Pub _ _ => S
  end.
Definition spec_message (r : request) : option (cstr * list Z) :=
  match r with
  | Pub t d => Some (str_trunc NV_PUBSUB_TOPIC_MAX t, take NV_PUBSUB_DATA_MAX d)
  | _ => None
  end.

Lemma trunc_trunc n t : str_trunc n (str_trunc n t) = str_trunc n t.
Proof. unfold str_trunc. by rewrite take_take, Nat.min_id. Qed.

Definition represents (cs : list client) (S : gset client) : Prop := NoDup cs /\ forall c, c ∈ cs <-> c ∈ S.

(** Decide the comparisons of constants. *)
Ltac eval_tests :=
  repeat match goal with
  | |- context [?a =? ?b] => let v := eval vm_compute in (a =? b) in change (a =? b) with v
  end.

Lemma receive_request cs S r :
  represents cs S -> cstr_ok (request_topic r) -> request_topic r <> [] ->
  exists pkt cs', encode r = Ret pkt /\
    receive cs SIZEOF_PACKET pkt (sender r) true = Ret (cs', spec_message r) /\ represents cs' (spec_clients S r).
Proof.
  intros [Hnd Hin] Ht Hne.
  assert (exists pkt, encode r = Ret pkt) as [pkt E].
  { destruct r as [t a|t a|t d]; simpl; [eauto|eauto|].
    destruct (fill_data NV_PUBSUB_OP_PUB t d (length d)) as (pkt & E & _); [lia|eauto]. }
  exists pkt. assert (forall o d len, nv_pubsub_fill_packet o (Some (request_topic r)) d len = Ret pkt ->
    (default 0 (head (topic pkt)) =? 0) = false /\ magic pkt = NV_PUBSUB_MAGIC /\ op pkt = o /\
    field_string (topic pkt) = Ret (str_trunc NV_PUBSUB_TOPIC_MAX (request_topic r))) as Hf.
  { intros o d len Ef. destruct (fill_topic o _ d len pkt Ht Hne Ef) as (? & ? & ? & ?).
    split_and!; try done. by apply Z.eqb_neq. }
  destruct r as [t a|t a|t d]; cbn [request_topic encode sender] in *;
    destruct (Hf _ _ _ E) as (H1 & H2 & H3 & H4); unfold receive; rewrite H1, H2, H3, H4;
    eval_tests; cbn [orb negb mbind outcome_bind nv_core_pubsub_add_ipc_client snd spec_message spec_clients].
  - eexists. split; [done|]. split; [done|].
    destruct (remove_client_spec cs (str_trunc NV_PUBSUB_TOPIC_MAX t) a Hnd) as [Hn Hr]. rewrite trunc_trunc. split.
    + apply NoDup_cons. rewrite Hr. naive_solver.
    + intros c. rewrite elem_of_cons, Hr, Hin. destruct (decide (c = (str_trunc NV_PUBSUB_TOPIC_MAX t, a))); set_solver.
  - eexists. split; [done|]. split; [done|].
    destruct (remove_client_spec cs (str_trunc NV_PUBSUB_TOPIC_MAX t) a Hnd) as [Hn Hr].
    split; [done|]. intros c. rewrite Hr, Hin. set_solver.
  - eexists. split; [done|]. split; [|by split].
    destruct (fill_data NV_PUBSUB_OP_PUB t d (length d)) as (pkt' & E' & Hd); [lia|].
    rewrite E in E'. injection E' as <-. rewrite Hd. destruct (Nat.min_spec (length d) NV_PUBSUB_DATA_MAX) as [[? ->]|[? ->]]; [|done].
    by rewrite !take_ge by lia.
Qed.

(** C23: the broker's client list is the set of (topic, address) pairs whose last request
    was a subscription, without duplicates, and it publishes exactly the published
    messages, in order, with topics cut to 63 bytes and data to 512. *)
Theorem nv_pubsub_broker_refines rs :
  Forall (fun r => cstr_ok (request_topic r) /\ request_topic r <> []) rs ->
  exists cs, serve [] rs = Ret (cs, omap spec_message rs) /\
    NoDup cs /\ forall c, c ∈ cs <-> c ∈ foldl spec_clients ∅ rs.
Proof.
  intros Hrs. assert (represents [] ∅) as Hr by (split; [constructor|set_solver]).
  revert Hr. generalize (@nil client), (∅ : gset client).
  induction Hrs as [|r rs [Ht Hne] _ IH]; intros cs S Hr; [exists cs; by destruct Hr|].
  destruct (receive_request cs S r Hr Ht Hne) as (pkt & cs' & E & Er & Hr').
  destruct (IH _ _ Hr') as (cs'' & E' & H'). exists cs''. split; [|exact H'].
  cbn [serve]. rewrite E. cbn [mbind outcome_bind]. rewrite Er. cbn [mbind outcome_bind]. rewrite E'.
  cbn [mbind outcome_bind]. rewrite omap_cons. by destruct (spec_message r).
Qed.

Definition demo_requests : list request :=
  [Sub (str "news") [1]; Sub (str "news") [1]; Sub (str "temp") [2]; Pub (str "news") (str "hi"); Unsub (str "temp") [2]].
Lemma nv_pubsub_broker_refines_witness :
  exists cs, serve [] demo_requests = Ret (cs, [(str "news", str "hi")]) /\ NoDup cs /\
    forall c, c ∈ cs <-> c ∈ foldl spec_clients ∅ demo_requests.
Proof.
  apply (nv_pubsub_broker_refines demo_requests).
  repeat constructor; simpl; try done; unfold cstr_ok, char_ok; repeat constructor; vm_compute; done.
Defined.

(** A message published on the bus reaches a remote subscriber unchanged: the
    datagram sent for it makes the subscriber's handler run with the topic and the
    data, for topics below 64 bytes and data up to 512. *)
Theorem nv_pubsub_forward_roundtrip fd cs t d out :
  0 <= fd -> cstr_ok t -> t <> [] -> (length t < 64)%nat -> (length d <= 512)%nat ->
  nv_core_pubsub_publish_ipc fd cs t (Some d) (length d) = Ret out ->
  map fst out = map snd (filter (fun c => strcmp_eq c.1 t = true) cs) /\
  Forall (fun m => client_receive SIZEOF_PACKET m.2 t = Ret (Some (t, d))) out.
Proof.
  intros Hfd Ht Hne Hlt Hld. unfold nv_core_pubsub_publish_ipc. destruct (Z.ltb_spec fd 0); [lia|].
  destruct (fill_data NV_PUBSUB_OP_PUB t d (length d)) as (pkt & E & Hd); [lia|].
  destruct (fill_topic _ _ _ _ _ Ht Hne E) as (H1 & H2 & _ & H4). rewrite E. cbn [mbind outcome_bind].
  intros [= <-]. split; [by rewrite map_map|]. apply Forall_forall. intros m (c & -> & _)%list_elem_of_fmap.
  unfold client_receive. cbn [snd]. rewrite H1, H2, H4, !Z.eqb_refl. cbn [andb mbind outcome_bind].
  assert (str_trunc NV_PUBSUB_TOPIC_MAX t = t) as ->.
  { apply take_ge. unfold NV_PUBSUB_TOPIC_MAX. lia. }
  rewrite strcmp_eq_refl, Hd. unfold NV_PUBSUB_DATA_MAX. rewrite take_ge by lia. done.
Qed.

Lemma nv_pubsub_forward_roundtrip_witness :
  exists out, nv_core_pubsub_publish_ipc 3 [(str "t", [9])] (str "t") (Some (str "hi")) 2 = Ret out /\
    map fst out = [[9]].
Proof.
  eexists. split; [vm_compute; reflexivity|].
  apply (nv_pubsub_forward_roundtrip 3 [(str "t", [9])] (str "t") (str "hi")); try done; try (simpl; lia).
  repeat constructor; unfold char_ok; vm_compute; done.
Defined.

(** A datagram whose topic fills its array is read past the end of the array: the
    broker does not terminate the topic it received. *)
Theorem nv_pubsub_unterminated_topic cs peer o d len :
  o = NV_PUBSUB_OP_SUB \/ o = NV_PUBSUB_OP_UNSUB \/ o = NV_PUBSUB_OP_PUB ->
  receive cs SIZEOF_PACKET (mkPacket NV_PUBSUB_MAGIC o len (repeat 65 64) d) peer true = UB.
Proof. by intros [-> |[-> | ->]]. Qed.

Lemma nv_pubsub_unterminated_topic_witness :
  receive [] SIZEOF_PACKET (mkPacket NV_PUBSUB_MAGIC 2 0 (repeat 65 64) (repeat 0 512)) [1] true = UB.
Proof. apply (nv_pubsub_unterminated_topic [] [1] 2 (repeat 0 512) 0). by left. Defined.

End Broker.

Module Bus.

(** A subscription; [handler] and [user_data] are addresses. *)
Record nv_core_pubsub_t := mkSub {
  sid : Z;
  stopic : cstr;
  handler : Z;
  user_data : Z;
  active : bool;
  calls : Z;
}.
(** One entry of the array [calls] of a publisher. *)
Record nv_core_pubsub_call_t := mkCall { csub : Z; chandler : Z; cuser : Z }.

(** A publisher in [nv_core_pubsub_publish]: between two calls, inside a handler, or
    back.  [snap] is the whole array and [past] the calls already made. *)
Inductive publisher :=
  | PCalls (t : cstr) (d : list Z) (snap past todo : list nv_core_pubsub_call_t)
  | PRun (t : cstr) (d : list Z) (snap past : list nv_core_pubsub_call_t) (k : nv_core_pubsub_call_t)
      (todo : list nv_core_pubsub_call_t)
  | PRet (t : cstr) (d : list Z) (snap past : list nv_core_pubsub_call_t).

(** A caller of [nv_core_pubsub_unsubscribe] on the subscription [target]; [inside] is the
    publisher whose handler makes the call, if one does. *)
Inductive ustate := UEnter | UWait | URecheck | URet.
#[export] Instance ustate_eq_dec : EqDecision ustate.
Proof. solve_decision. Defined.
Record unsubscriber := mkUnsub { target : Z; inside : option nat; ust : ustate }.

Record conf := mkConf {
  subs : gmap Z nv_core_pubsub_t;      (* the nodes by address *)
  pubsubs : list Z;                    (* the chain from [ctx->pubsubs], newest first *)
  next_id : Z;
  pubs : list publisher;
  unsubs : list unsubscriber;
}.

Definition set_calls (n : Z) (s : nv_core_pubsub_t) : nv_core_pubsub_t :=
  mkSub (sid s) (stopic s) (handler s) (user_data s) (active s) n.
Definition add_calls (n : Z) (s : nv_core_pubsub_t) : nv_core_pubsub_t := set_calls (calls s + n) s.
Definition deactivate (s : nv_core_pubsub_t) : nv_core_pubsub_t :=
  mkSub (sid s) (stopic s) (handler s) (user_data s) false (calls s).

(** The two passes over the chain: the active subscriptions of the topic, in order. *)
Definition snapshot (c : conf) (t : cstr) : list nv_core_pubsub_call_t :=
  omap (fun p => s ← subs c !! p;
                 if active s && strcmp_eq (stopic s) t then Some (mkCall p (handler s) (user_data s)) else None)
    (pubsubs c).
Definition count_calls (m : gmap Z nv_core_pubsub_t) (l : list nv_core_pubsub_call_t) : gmap Z nv_core_pubsub_t :=
  foldr (fun k m => alter (add_calls 1) (csub k) m) m l.

Definition wake (u : unsubscriber) : unsubscriber :=
  match ust u with UWait => mkUnsub (target u) (inside u) URecheck | _ => u end.
(** The end of the critical section of [nv_core_pubsub_unsubscribe]. *)
Definition check_calls (m : gmap Z nv_core_pubsub_t) (u : unsubscriber) : unsubscriber :=
  match m !! target u with
  | Some s => mkUnsub (target u) (inside u) (if 0 <? calls s then UWait else URet)
  | None => u
  end.

Inductive step : conf -> conf -> Prop :=
  | st_subscribe c t h u p : t <> [] -> h <> 0 -> subs c !! p = None ->
      step c (mkConf (<[p := mkSub (next_id c) t h u true 0]> (subs c)) (p :: pubsubs c) (u64 (next_id c + 1))
                (pubs c) (unsubs c))
  | st_publish c t d : t <> [] ->
      step c (mkConf (count_calls (subs c) (snapshot c t)) (pubsubs c) (next_id c)
                (pubs c ++ [PCalls t d (snapshot c t) [] (snapshot c t)]) (unsubs c))
  | st_call c j t d snap past k todo : pubs c !! j = Some (PCalls t d snap past (k :: todo)) ->
      step c (mkConf (subs c) (pubsubs c) (next_id c) (<[j := PRun t d snap past k todo]> (pubs c)) (unsubs c))
  | st_return c j t d snap past k todo : pubs c !! j = Some (PRun t d snap past k todo) ->
      (* a handler that is unsubscribing returns after it *)
      Forall (fun u => inside u = Some j -> ust u = URet) (unsubs c) ->
      step c (mkConf (alter (add_calls (-1)) (csub k) (subs c)) (pubsubs c) (next_id c)
                (<[j := PCalls t d snap (past ++ [k]) todo]> (pubs c)) (map wake (unsubs c)))
  | st_finish c j t d snap past : pubs c !! j = Some (PCalls t d snap past []) ->
      step c (mkConf (subs c) (pubsubs c) (next_id c) (<[j := PRet t d snap past]> (pubs c)) (unsubs c))
  | st_unsubscribe c p : is_Some (subs c !! p) ->
      step c (mkConf (subs c) (pubsubs c) (next_id c) (pubs c) (unsubs c ++ [mkUnsub p None UEnter]))
  | st_unsubscribe_inside c p j t d snap past k todo : is_Some (subs c !! p) ->
      pubs c !! j = Some (PRun t d snap past k todo) ->
      step c (mkConf (subs c) (pubsubs c) (next_id c) (pubs c) (unsubs c ++ [mkUnsub p (Some j) UEnter]))
  | st_unsub_enter c i p j : unsubs c !! i = Some (mkUnsub p j UEnter) ->
      step c (mkConf (alter deactivate p (subs c)) (pubsubs c) (next_id c) (pubs c)
                (<[i := check_calls (subs c) (mkUnsub p j UEnter)]> (unsubs c)))
  | st_unsub_recheck c i p j : unsubs c !! i = Some (mkUnsub p j URecheck) ->
      step c (mkConf (subs c) (pubsubs c) (next_id c) (pubs c)
                (<[i := check_calls (subs c) (mkUnsub p j URecheck)]> (unsubs c)))
  | st_unsub_spurious c i p j : unsubs c !! i = Some (mkUnsub p j UWait) ->
      step c (mkConf (subs c) (pubsubs c) (next_id c) (pubs c) (<[i := mkUnsub p j URecheck]> (unsubs c))).

Definition initial : conf := mkConf ∅ [] 1 [] [].
Inductive reachable : conf -> Prop :=
  | reach_init : reachable initial
  | reach_step c c' : reachable c -> step c c' -> reachable c'.

(** ** The invariant *)

(** The calls of [p] a publisher still has to finish. *)
Definition occ (p : Z) (l : list nv_core_pubsub_call_t) : Z :=
  zsum (map (fun k => if csub k =? p then 1 else 0) l).
Definition owed (p : Z) (b : publisher) : Z :=
  match b with
  | PCalls _ _ _ _ todo => occ p todo
  | PRun _ _ _ _ k todo => occ p (k :: todo)
  | PRet _ _ _ _ => 0
  end.
Definition pending (p : Z) (l : list publisher) : Z := zsum (map (owed p) l).
Definition ordered (b : publisher) : Prop :=
  match b with
  | PCalls _ _ snap past todo => snap = past ++ todo
  | PRun _ _ snap past k todo => snap = past ++ k :: todo
  | PRet _ _ snap past => snap = past
  end.

Record inv (c : conf) : Prop := {
  i_calls : forall p s, subs c !! p = Some s -> calls s = pending p (pubs c);
  i_known : forall p, 0 < pending p (pubs c) -> is_Some (subs c !! p);
  i_order : Forall ordered (pubs c);
  i_target : Forall (fun u => exists s, subs c !! target u = Some s /\ (ust u <> UEnter -> active s = false)) (unsubs c);
  i_wait : Forall (fun u => ust u = UWait -> 0 < pending (target u) (pubs c)) (unsubs c);
  i_ret : Forall (fun u => ust u = URet -> pending (target u) (pubs c) = 0) (unsubs c);
}.

Lemma occ_nonneg p l : 0 <= occ p l.
Proof. apply zsum_map_nonneg. intros k. by case_match. Qed.
Lemma pending_nonneg p l : 0 <= pending p l.
Proof. apply zsum_map_nonneg. intros []; simpl; try apply occ_nonneg; lia || apply (occ_nonneg p (k :: todo)). Qed.
Lemma occ_cons p k l : occ p (k :: l) = (if csub k =? p then 1 else 0) + occ p l.
Proof. reflexivity. Qed.

Lemma pending_insert p l j x y :
  l !! j = Some x -> pending p (<[j := y]> l) = pending p l - owed p x + owed p y.
Proof. apply zsum_map_insert. Qed.
Lemma pending_snoc p l b : pending p (l ++ [b]) = pending p l + owed p b.
Proof. unfold pending. rewrite map_app, zsum_app. cbn. lia. Qed.

(** Counting the calls of a snapshot. *)
Lemma count_calls_lookup m l p : count_calls m l !! p = add_calls (occ p l) <$> m !! p.
Proof.
  induction l as [|k l IH]; cbn [count_calls foldr].
  - destruct (m !! p) as [[]|]; simpl; [|done]. unfold add_calls, set_calls. simpl. by rewrite Z.add_0_r.
  - fold (count_calls m l). rewrite occ_cons. destruct (Z.eqb_spec (csub k) p) as [->|Hne].
    + rewrite lookup_alter_eq, IH. destruct (m !! p); simpl; [|done]. f_equal. unfold add_calls, set_calls. simpl. f_equal. lia.
    + rewrite lookup_alter_ne by done. by rewrite IH.
Qed.

(** A snapshot holds active subscriptions only. *)
Lemma snapshot_active c t p : occ p (snapshot c t) <> 0 -> exists s, subs c !! p = Some s /\ active s = true.
Proof.
  unfold snapshot. induction (pubsubs c) as [|q l IH]; [done|]. rewrite omap_cons.
  destruct (subs c !! q) as [s|] eqn:E; simpl; [|done].
  destruct (active s) eqn:Ea, (strcmp_eq (stopic s) t); simpl; try done.
  rewrite occ_cons. simpl. destruct (Z.eqb_spec q p) as [->|]; [eauto|done].
Qed.

Lemma Forall_wake (P : unsubscriber -> Prop) l :
  (forall u, u ∈ l -> P (wake u)) -> Forall P (map wake l).
Proof. intros Hw. apply Forall_forall. intros u (v & -> & Hv)%list_elem_of_fmap. auto. Qed.

Lemma wake_target u : target (wake u) = target u.
Proof. unfold wake. by destruct (ust u). Qed.
Lemma wake_state u : ust (wake u) <> UWait /\ (ust (wake u) = URet -> ust u = URet) /\
  (ust (wake u) <> UEnter -> ust u <> UEnter).
Proof. unfold wake. destruct u as [t i []]; done. Qed.

Lemma inv_subscribe c t h u p :
  inv c -> subs c !! p = None ->
  inv (mkConf (<[p := mkSub (next_id c) t h u true 0]> (subs c)) (p :: pubsubs c) (u64 (next_id c + 1))
         (pubs c) (unsubs c)).
Proof.
  intros [Hc Hk Ho Ht Hw Hr] Hp. split; cbn [subs pubs unsubs]; auto.
  - intros q s. destruct (decide (q = p)) as [->|]; [|rewrite lookup_insert_ne by done; apply Hc].
    rewrite lookup_insert_eq. intros [= <-]. simpl. pose proof (pending_nonneg p (pubs c)).
    destruct (Z.eq_dec (pending p (pubs c)) 0); [done|]. destruct (Hk p) as [s Hs]; [lia|congruence].
  - intros q Hq. apply Hk in Hq as [s Hs]. rewrite lookup_insert_ne by congruence. eauto.
  - eapply Forall_impl; [exact Ht|]. intros v (s & Hs & Ha). exists s. split; [|done].
    by rewrite lookup_insert_ne by congruence.
Qed.

Lemma bus_inv_publish c t d :
  inv c ->
  inv (mkConf (count_calls (subs c) (snapshot c t)) (pubsubs c) (next_id c)
         (pubs c ++ [PCalls t d (snapshot c t) [] (snapshot c t)]) (unsubs c)).
Proof.
  intros [Hc Hk Ho Ht Hw Hr]. split; cbn [subs pubs unsubs].
  - intros p s. rewrite count_calls_lookup, pending_snoc. intros (s0 & Hs & ->)%fmap_Some. simpl. by rewrite (Hc _ _ Hs).
  - intros p. rewrite pending_snoc, count_calls_lookup. cbn [owed]. intros Hp. rewrite fmap_is_Some.
    destruct (Z.eq_dec (occ p (snapshot c t)) 0) as [E|E]; [apply Hk; lia|].
    apply snapshot_active in E as (s & -> & _). eauto.
  - apply Forall_app. split; [done|]. by repeat constructor.
  - eapply Forall_impl; [exact Ht|]. intros u (s & Hs & Ha). rewrite count_calls_lookup, Hs. eexists. by split.
  - eapply Forall_impl; [exact Hw|]. intros u Hu E. rewrite pending_snoc. specialize (Hu E).
    pose proof (occ_nonneg (target u) (snapshot c t)). cbn. lia.
  - rewrite Forall_forall in *. intros u Hin E. rewrite pending_snoc, (Hr u Hin E). cbn [owed].
    destruct (Z.eq_dec (occ (target u) (snapshot c t)) 0) as [->|E']; [done|].
    apply snapshot_active in E' as (s & Hs & Ha). destruct (Ht u Hin) as (s' & Hs' & Hi).
    assert (active s' = false) by (apply Hi; by rewrite E). congruence.
Qed.

(** A publisher's move that owes the same calls. *)
Lemma bus_inv_move c j x y :
  inv c -> pubs c !! j = Some x -> (forall p, owed p y = owed p x) -> ordered y ->
  inv (mkConf (subs c) (pubsubs c) (next_id c) (<[j := y]> (pubs c)) (unsubs c)).
Proof.
  intros [Hc Hk Ho Ht Hw Hr] E Hxy Hy.
  assert (forall p, pending p (<[j := y]> (pubs c)) = pending p (pubs c)) as Hp.
  { intros p. rewrite (pending_insert _ _ _ _ _ E), Hxy. lia. }
  split; cbn [subs pubs unsubs]; auto.
  - intros p s Hs. rewrite Hp. auto.
  - intros p. rewrite Hp. auto.
  - by apply Forall_insert.
  - eapply Forall_impl; [exact Hw|]. intros u. by rewrite Hp.
  - eapply Forall_impl; [exact Hr|]. intros u. by rewrite Hp.
Qed.

Lemma inv_return c j t d snap past k todo :
  inv c -> pubs c !! j = Some (PRun t d snap past k todo) ->
  inv (mkConf (alter (add_calls (-1)) (csub k) (subs c)) (pubsubs c) (next_id c)
         (<[j := PCalls t d snap (past ++ [k]) todo]> (pubs c)) (map wake (unsubs c))).
Proof.
  intros [Hc Hk Ho Ht Hw Hr] E.
  assert (forall p, pending p (<[j := PCalls t d snap (past ++ [k]) todo]> (pubs c)) =
    pending p (pubs c) - (if csub k =? p then 1 else 0)) as Hp.
  { intros p. rewrite (pending_insert _ _ _ _ _ E). cbn [owed]. rewrite occ_cons. lia. }
  split; cbn [subs pubs unsubs].
  - intros p s. rewrite Hp. destruct (Z.eqb_spec (csub k) p) as [<-|Hne].
    + rewrite lookup_alter_eq. intros (s0 & Hs & ->)%fmap_Some. simpl. rewrite (Hc _ _ Hs). lia.
    + rewrite lookup_alter_ne by done. intros Hs. rewrite (Hc _ _ Hs). lia.
  - intros p. rewrite Hp. intros Hpos. apply lookup_alter_is_Some. apply Hk. case_match; lia.
  - apply Forall_insert; [done|]. rewrite Forall_lookup in Ho. specialize (Ho _ _ E). cbn in *.
    by rewrite <- app_assoc.
  - apply Forall_wake. intros u Hu. rewrite Forall_forall in Ht. destruct (Ht u Hu) as (s & Hs & Ha).
    destruct (wake_state u) as (_ & _ & Hn). rewrite wake_target.
    destruct (decide (csub k = target u)) as [->|].
    + rewrite lookup_alter_eq, Hs. eexists. split; [done|]. simpl. auto.
    + rewrite lookup_alter_ne by done. eauto.
  - apply Forall_wake. intros u Hu Hs. by destruct (wake_state u) as [? _].
  - apply Forall_wake. intros u Hu Hs. destruct (wake_state u) as (_ & H2 & _). rewrite wake_target.
    rewrite Forall_forall in Hr. pose proof (Hr u Hu (H2 Hs)) as H0.
    pose proof (pending_nonneg (target u) (<[j := PCalls t d snap (past ++ [k]) todo]> (pubs c))) as Hnn.
    rewrite Hp in *. case_match; lia.
Qed.

(** The check of an unsubscription, with or without setting the flag. *)
Lemma inv_check c i p j st m :
  inv c -> unsubs c !! i = Some (mkUnsub p j st) -> st = UEnter \/ st = URecheck ->
  m = (if decide (st = UEnter) then alter deactivate p (subs c) else subs c) ->
  inv (mkConf m (pubsubs c) (next_id c) (pubs c) (<[i := check_calls (subs c) (mkUnsub p j st)]> (unsubs c))).
Proof.
  intros [Hc Hk Ho Ht Hw Hr] E Hst ->. pose proof (Forall_lookup_1 _ _ _ _ Ht E) as (s & Hs & Ha). cbn in Hs, Ha.
  assert (forall q s', (if decide (st = UEnter) then alter deactivate p (subs c) else subs c) !! q = Some s' ->
    exists s0, subs c !! q = Some s0 /\ calls s' = calls s0) as Hback.
  { intros q s'. case_decide; [|eauto]. destruct (decide (p = q)) as [<-|].
    - rewrite lookup_alter_eq. intros (s0 & Hs0 & ->)%fmap_Some. eauto.
    - rewrite lookup_alter_ne by done. eauto. }
  assert (forall q s0, subs c !! q = Some s0 -> exists s',
    (if decide (st = UEnter) then alter deactivate p (subs c) else subs c) !! q = Some s' /\
    (q = p \/ active s0 = false -> active s' = false)) as Hfwd.
  { intros q s0 Hq. case_decide as Hd; destruct (decide (p = q)) as [<-|].
    - rewrite lookup_alter_eq, Hq. eexists. by split.
    - rewrite lookup_alter_ne by done. exists s0. split; [done|]. naive_solver.
    - exists s0. split; [done|]. intros _. rewrite Hs in Hq. injection Hq as <-. auto.
    - exists s0. split; [done|]. naive_solver. }
  unfold check_calls. cbn [target inside]. rewrite Hs. split; cbn [subs pubs unsubs]; auto.
  - intros q s' Hq. apply Hback in Hq as (s0 & Hq & ->). auto.
  - intros q Hq. destruct (Hk q Hq) as [s0 Hs0]. destruct (Hfwd _ _ Hs0) as (s' & Hs' & _). eauto.
  - apply Forall_insert; [|destruct (Hfwd _ _ Hs) as (s' & Hs' & Hx); eauto 10].
    eapply Forall_impl; [exact Ht|]. intros u (s0 & Hs0 & Ha0). destruct (Hfwd _ _ Hs0) as (s' & Hs' & Hx). eauto 10.
  - apply Forall_insert; [done|]. cbn. rewrite <- (Hc _ _ Hs). by destruct (Z.ltb_spec 0 (calls s)).
  - apply Forall_insert; [done|]. cbn. rewrite <- (Hc _ _ Hs). destruct (Z.ltb_spec 0 (calls s)); [done|].
    intros _. pose proof (pending_nonneg p (pubs c)). rewrite (Hc _ _ Hs) in *. lia.
Qed.

Lemma inv_unsubscribe c p j :
  inv c -> is_Some (subs c !! p) ->
  inv (mkConf (subs c) (pubsubs c) (next_id c) (pubs c) (unsubs c ++ [mkUnsub p j UEnter])).
Proof.
  intros [Hc Hk Ho Ht Hw Hr] [s Hs]. split; cbn [subs pubs unsubs]; auto; apply Forall_app; (split; [done|]);
    apply Forall_singleton; cbn; [|done..]. by exists s.
Qed.

Lemma bus_inv_step c c' : step c c' -> inv c -> inv c'.
Proof.
  intros Hst Hi. destruct Hst as [c t h u p Ht Hh Hp|c t d Ht|c j t d snap past k todo E|c j t d snap past k todo E Hf
    |c j t d snap past E|c p Hp|c p j t d snap past k todo Hp E|c i p j E|c i p j E|c i p j E].
  - by apply inv_subscribe.
  - by apply bus_inv_publish.
  - eapply bus_inv_move; [done|done|done|]. apply (Forall_lookup_1 _ _ _ _ (i_order _ Hi)) in E. done.
  - by apply inv_return.
  - eapply bus_inv_move; [done|done|done|]. apply (Forall_lookup_1 _ _ _ _ (i_order _ Hi)) in E. cbn in *.
    by rewrite app_nil_r in E.
  - by apply inv_unsubscribe.
  - by apply inv_unsubscribe.
  - eapply inv_check; [done|done|by left|done].
  - eapply inv_check; [done|done|by right|done].
  - destruct Hi as [Hc Hk Ho Ht Hw Hr]. split; cbn [subs pubs unsubs]; auto; apply Forall_insert; try done.
    apply (Forall_lookup_1 _ _ _ _ Ht) in E as (s & Hs & Ha). exists s. split; [done|]. intros _. by apply Ha.
Qed.

Lemma bus_reachable_inv c : reachable c -> inv c.
Proof.
  induction 1 as [|c c' _ IH Hst]; [|by eapply bus_inv_step]. split; cbn; try constructor; done || (intros; lia).
Qed.

(** *** The chain *)
Definition chain_ok (c : conf) : Prop := NoDup (pubsubs c) /\ forall p, p ∈ pubsubs c <-> is_Some (subs c !! p).

Lemma chain_step c c' : step c c' -> chain_ok c -> chain_ok c'.
Proof.
  intros Hst [Hn Hd]. destruct Hst as [c t h u p Ht Hh Hp|c t d Ht| | | | | | | |]; try done; split; cbn; try done.
  - apply NoDup_cons. split; [|done]. rewrite Hd, Hp. by intros [? ?].
  - intros q. rewrite elem_of_cons, Hd. destruct (decide (q = p)) as [->|].
    + rewrite lookup_insert_eq. naive_solver.
    + rewrite lookup_insert_ne by done. naive_solver.
  - intros q. by rewrite count_calls_lookup, fmap_is_Some.
  - intros q. by rewrite lookup_alter_is_Some.
  - intros q. by rewrite lookup_alter_is_Some.
Qed.
Lemma reachable_chain c : reachable c -> chain_ok c.
Proof.
  induction 1 as [|c c' _ IH Hst]; [|by eapply chain_step]. split; [constructor|]. cbn. intros p.
  rewrite lookup_empty. set_solver.
Qed.

Lemma snapshot_spec c t :
  chain_ok c -> NoDup (map csub (snapshot c t)) /\
  forall p, p ∈ map csub (snapshot c t) <-> exists s, subs c !! p = Some s /\ active s = true /\ stopic s = t.
Proof.
  intros [Hn Hd].
  assert (forall l, (forall p, p ∈ map csub (omap (fun p => s ← subs c !! p;
      if active s && strcmp_eq (stopic s) t then Some (mkCall p (handler s) (user_data s)) else None) l) <->
    p ∈ l /\ exists s, subs c !! p = Some s /\ active s = true /\ stopic s = t)) as Hl.
  { induction l as [|q l IH]; intros p; [set_solver|]. rewrite omap_cons, elem_of_cons.
    assert ((forall s, subs c !! q = Some s -> active s = true -> stopic s <> t) ->
      (p ∈ l /\ (exists s, subs c !! p = Some s /\ active s = true /\ stopic s = t) <->
       (p = q \/ p ∈ l) /\ exists s, subs c !! p = Some s /\ active s = true /\ stopic s = t)) as Hskip.
    { intros Hq. split; [intros []; auto|]. intros [[->|?] (s & Hs & Ha & Ht)]; [by destruct (Hq s)|eauto]. }
    destruct (subs c !! q) as [s|] eqn:E; simpl; [|rewrite IH; apply Hskip; congruence].
    destruct (active s) eqn:Ea; simpl; [|rewrite IH; apply Hskip; congruence].
    destruct (strcmp_eq (stopic s) t) eqn:Et.
    - apply strcmp_eq_true in Et. simpl. rewrite elem_of_cons, IH. split.
      + intros [->|[? ?]]; [split; [by left|by exists s]|by split; [right|]].
      + intros [[->|] ?]; auto.
    - apply strcmp_eq_false in Et. rewrite IH. apply Hskip. congruence. }
  split.
  - unfold snapshot. clear Hd. induction Hn as [|q l Hq Hn IH]; [constructor|]. rewrite omap_cons.
    case_match eqn:E; [|done]. simpl. apply NoDup_cons. split; [|done]. rewrite Hl.
    destruct (subs c !! q) as [s|]; simpl in E; [|done]. destruct (active s && _); [|done].
    injection E as <-. simpl. by intros [? _].
  - intros p. unfold snapshot. rewrite Hl, Hd. split; [by intros [_ ?]|]. intros (s & Hs & ?). eauto.
Qed.

(** *** Executions *)
Lemma reachable_rtc c c' : reachable c -> rtc step c c' -> reachable c'.
Proof. intros Hr Hs. revert Hr. induction Hs; eauto using reach_step. Qed.

Lemma unsub_stays c c' i u :
  step c c' -> unsubs c !! i = Some u -> ust u = URet -> unsubs c' !! i = Some u.
Proof.
  intros Hst E Hu. destruct Hst as [| | | | | | |c k p j Ek|c k p j Ek|c k p j Ek]; cbn [unsubs]; try done.
  - rewrite list_lookup_fmap, E. simpl. unfold wake. by rewrite Hu.
  - by apply lookup_app_l_Some.
  - by apply lookup_app_l_Some.
  - rewrite list_lookup_insert_ne; [done|]. intros ->. rewrite E in Ek. injection Ek as ->. done.
  - rewrite list_lookup_insert_ne; [done|]. intros ->. rewrite E in Ek. injection Ek as ->. done.
  - rewrite list_lookup_insert_ne; [done|]. intros ->. rewrite E in Ek. injection Ek as ->. done.
Qed.

(** Nothing owed: no call of [p] is in progress or planned. *)
Lemma pending_zero p l j b k :
  pending p l = 0 -> l !! j = Some b ->
  (exists t d snap past todo, b = PRun t d snap past k todo \/ b = PCalls t d snap past todo /\ k ∈ todo) -> csub k <> p.
Proof.
  intros H0 E Hb <-. assert (0 < owed (csub k) b) as Hpos.
  { destruct Hb as (t & d & snap & past & todo & [-> |[-> Hin]]); cbn [owed].
    - rewrite occ_cons, Z.eqb_refl. pose proof (occ_nonneg (csub k) todo). lia.
    - apply list_elem_of_split in Hin as (l1 & l2 & ->). unfold occ. rewrite map_app, zsum_app.
      fold (occ (csub k) l1). change (zsum (map _ (k :: l2))) with (occ (csub k) (k :: l2)).
      rewrite occ_cons, Z.eqb_refl. pose proof (occ_nonneg (csub k) l1). pose proof (occ_nonneg (csub k) l2). lia. }
  pose proof (pending_insert (csub k) l j b (PRet [] [] [] []) E) as Hi. cbn [owed] in Hi.
  pose proof (pending_nonneg (csub k) (<[j := PRet [] [] [] []]> l)). lia.
Qed.

(** C11: unsubscription is a barrier.  Once [nv_core_pubsub_unsubscribe] has returned, in
    every continuation no publisher is inside the subscription's handler and none will
    call it, so its data may be released. *)
Theorem nv_core_pubsub_unsubscribe_barrier c c' i p ins j k b :
  reachable c -> unsubs c !! i = Some (mkUnsub p ins URet) -> rtc step c c' ->
  pubs c' !! j = Some b ->
  (exists t d snap past todo, b = PRun t d snap past k todo \/ b = PCalls t d snap past todo /\ k ∈ todo) ->
  csub k <> p.
Proof.
  intros Hr Hu Hs Hj Hk. assert (unsubs c' !! i = Some (mkUnsub p ins URet)) as Hu'.
  { clear Hj Hr. induction Hs as [|c1 c2 c3 Hst _ IH]; [done|]. apply IH. by eapply unsub_stays. }
  pose proof (bus_reachable_inv _ (reachable_rtc _ _ Hr Hs)) as Hi.
  pose proof (Forall_lookup_1 _ _ _ _ (i_ret _ Hi) Hu' eq_refl) as H0.
  by eapply pending_zero.
Qed.

(** C25: a publication calls the subscriptions of its topic that are active when it
    starts, each exactly once and newest first, whatever happens meanwhile. *)
Theorem nv_core_pubsub_delivers_once c :
  reachable c ->
  (forall t, NoDup (map csub (snapshot c t)) /\
     forall p, p ∈ map csub (snapshot c t) <-> exists s, subs c !! p = Some s /\ active s = true /\ stopic s = t) /\
  (forall j t d snap past, pubs c !! j = Some (PRet t d snap past) -> past = snap) /\
  (forall p s, subs c !! p = Some s -> calls s = pending p (pubs c)).
Proof.
  intros Hr. pose proof (bus_reachable_inv _ Hr) as Hi. split_and!.
  - intros t. by apply snapshot_spec, reachable_chain.
  - intros j t d snap past E. by apply (Forall_lookup_1 _ _ _ _ (i_order _ Hi)) in E.
  - apply Hi.
Qed.

(** The unsubscription [i] was called from the handler of the subscription it removes. *)
Definition self_waiting (c : conf) (i j : nat) (p : Z) : Prop :=
  exists st t d snap past k todo, unsubs c !! i = Some (mkUnsub p (Some j) st) /\ st <> URet /\
    pubs c !! j = Some (PRun t d snap past k todo) /\ csub k = p.

Lemma self_waiting_step c c' i j p : inv c -> step c c' -> self_waiting c i j p -> self_waiting c' i j p.
Proof.
  intros Hi Hst (st & t & d & snap & past & k & todo & Hu & Hn & Hj & Hk).
  assert (forall s, subs c !! p = Some s -> 0 < calls s) as Hpos.
  { intros s Hs. rewrite (i_calls _ Hi _ _ Hs). pose proof (pending_nonneg p (pubs c)).
    destruct (Z.eq_dec (pending p (pubs c)) 0) as [E|]; [|lia].
    exfalso. by apply (pending_zero p (pubs c) j _ k E Hj); eauto 10. }
  assert (forall st' c0, st' <> URet -> unsubs c0 = <[i := mkUnsub p (Some j) st']> (unsubs c) -> pubs c0 = pubs c ->
    self_waiting c0 i j p) as Hmine.
  { intros st' c0 Hn' Eu Ep. exists st', t, d, snap, past, k, todo. rewrite Eu, Ep.
    rewrite list_lookup_insert_eq by (by eapply lookup_lt_Some). done. }
  assert (forall q, check_calls (subs c) (mkUnsub p (Some j) q) = mkUnsub p (Some j) UWait) as Hchk.
  { intros q. destruct (Forall_lookup_1 _ _ _ _ (i_target _ Hi) Hu) as (s & Hs & _). cbn in Hs.
    unfold check_calls. cbn. rewrite Hs. destruct (Z.ltb_spec 0 (calls s)); [done|]. specialize (Hpos s Hs). lia. }
  assert (forall c0, unsubs c0 !! i = Some (mkUnsub p (Some j) st) -> pubs c0 !! j = pubs c !! j -> self_waiting c0 i j p) as Hkeep.
  { intros c0 Eu Ep. exists st, t, d, snap, past, k, todo. by rewrite Ep. }
  destruct Hst as [c ? ? ? ? _ _ _|c t0 d0 _|c j0 ? ? ? ? ? ? E|c j0 ? ? ? ? ? ? E Hf|c j0 ? ? ? ? E
    |c ? _|c ? ? ? ? ? ? ? ? _ _|c i0 p0 ? E|c i0 p0 ? E|c i0 p0 ? E].
  - by apply Hkeep.
  - apply Hkeep; [done|]. cbn. rewrite Hj. by apply lookup_app_l_Some.
  - apply Hkeep; [done|]. apply list_lookup_insert_ne. intros ->. rewrite E in Hj. done.
  - assert (j0 <> j) as Hne.
    { intros ->. rewrite Forall_lookup in Hf. by specialize (Hf _ _ Hu eq_refl). }
    exists (match st with UWait => URecheck | _ => st end), t, d, snap, past, k, todo.
    cbn [unsubs pubs]. rewrite list_lookup_fmap, Hu, list_lookup_insert_ne by done. cbn. by destruct st.
  - apply Hkeep; [done|]. apply list_lookup_insert_ne. intros ->. rewrite E in Hj. done.
  - apply Hkeep; [|done]. by apply lookup_app_l_Some.
  - apply Hkeep; [|done]. by apply lookup_app_l_Some.
  - destruct (decide (i0 = i)) as [->|]; [|apply Hkeep; [|done]; cbn; by rewrite list_lookup_insert_ne].
    rewrite Hu in E. injection E as <- <- ->. eapply (Hmine UWait); [done| |done]. cbn. by rewrite Hchk.
  - destruct (decide (i0 = i)) as [->|]; [|apply Hkeep; [|done]; cbn; by rewrite list_lookup_insert_ne].
    rewrite Hu in E. injection E as <- <- ->. eapply (Hmine UWait); [done| |done]. cbn. by rewrite Hchk.
  - destruct (decide (i0 = i)) as [->|]; [|apply Hkeep; [|done]; cbn; by rewrite list_lookup_insert_ne].
    rewrite Hu in E. injection E as <- <- ->. by eapply (Hmine URecheck).
Qed.

(** A waiting unsubscription waits for a call in progress or planned, so nobody waits
    when no publication is under way. *)
Theorem nv_core_pubsub_wait_has_cause c i p ins :
  reachable c -> unsubs c !! i = Some (mkUnsub p ins UWait) ->
  exists s, subs c !! p = Some s /\ active s = false /\ 0 < calls s /\ calls s = pending p (pubs c).
Proof.
  intros Hr Hu. pose proof (bus_reachable_inv _ Hr) as Hi.
  destruct (Forall_lookup_1 _ _ _ _ (i_target _ Hi) Hu) as (s & Hs & Ha). cbn in *.
  pose proof (Forall_lookup_1 _ _ _ _ (i_wait _ Hi) Hu eq_refl) as Hw. cbn in Hw.
  exists s. rewrite (i_calls _ Hi _ _ Hs). split_and!; auto.
Qed.

(** A handler that unsubscribes its own subscription never returns: the call waits
    for the end of the handler that makes it. *)
Theorem nv_core_pubsub_self_unsubscribe_hangs c c' i j p :
  reachable c -> self_waiting c i j p -> rtc step c c' ->
  exists st, unsubs c' !! i = Some (mkUnsub p (Some j) st) /\ st <> URet.
Proof.
  intros Hr Hw Hs. assert (self_waiting c' i j p) as (st & t & d & snap & past & k & todo & Hu & Hn & _); [|by exists st].
  induction Hs as [|c1 c2 c3 Hst _ IH]; [done|]. apply IH; [by eapply reach_step|].
  eapply self_waiting_step; eauto. by apply bus_reachable_inv.
Qed.

(** ** Runs *)
Ltac bus_side := first [done | vm_compute; reflexivity | vm_compute; discriminate | vm_compute; eauto | by repeat constructor].
Tactic Notation "bus" hyp(R) uconstr(rule) :=
  let R' := fresh in
  eassert (reachable _) as R' by (eapply reach_step; [exact R|eapply rule; bus_side]);
  clear R; rename R' into R; vm_compute in R.

(** One subscription (at address 5, handler 9) and a publication inside its handler,
    which has just called [nv_core_pubsub_unsubscribe]. *)
Lemma run_in_handler : exists c, reachable c /\ self_waiting c 0 0 5.
Proof.
  pose proof reach_init as R. vm_compute in R.
  bus R (st_subscribe _ (str "t") 9 0 5). bus R (st_publish _ (str "t") (str "hi")). bus R (st_call _ 0%nat).
  bus R (st_unsubscribe_inside _ 5 0%nat).
  eexists. split; [exact R|]. eexists _, _, _, _, _, _, _. by split_and!.
Qed.

(** The same unsubscription from another thread, waiting. *)
Lemma run_waiting : exists c, reachable c /\ unsubs c = [mkUnsub 5 None UWait].
Proof.
  pose proof reach_init as R. vm_compute in R.
  bus R (st_subscribe _ (str "t") 9 0 5). bus R (st_publish _ (str "t") (str "hi")). bus R (st_call _ 0%nat).
  bus R (st_unsubscribe _ 5). bus R (st_unsub_enter _ 0%nat). eexists. split; [exact R|done].
Qed.

(** The unsubscription has returned and another subscription is being served. *)
Lemma run_after : exists c, reachable c /\ unsubs c !! 0%nat = Some (mkUnsub 5 None URet) /\
  pubs c !! 0%nat = Some (PRun (str "t") (str "hi") [mkCall 6 9 0] [] (mkCall 6 9 0) []).
Proof.
  pose proof reach_init as R. vm_compute in R.
  bus R (st_subscribe _ (str "t") 9 0 5). bus R (st_unsubscribe _ 5). bus R (st_unsub_enter _ 0%nat).
  bus R (st_subscribe _ (str "t") 9 0 6). bus R (st_publish _ (str "t") (str "hi")). bus R (st_call _ 0%nat).
  eexists. split; [exact R|done].
Qed.

Lemma nv_core_pubsub_unsubscribe_barrier_witness : csub (mkCall 6 9 0) <> 5.
Proof.
  destruct run_after as (c & Hr & Hu & Hp).
  apply (nv_core_pubsub_unsubscribe_barrier c c 0 5 None 0 (mkCall 6 9 0) _ Hr Hu (rtc_refl _ _) Hp). eauto 10.
Defined.

Lemma nv_core_pubsub_delivers_once_witness : exists c, reachable c /\ NoDup (map csub (snapshot c (str "t"))).
Proof.
  destruct run_after as (c & Hr & _). exists c. split; [done|].
  apply (nv_core_pubsub_delivers_once c Hr).
Defined.

Lemma nv_core_pubsub_wait_has_cause_witness : exists c s, subs c !! 5 = Some s /\ active s = false /\ 0 < calls s.
Proof.
  destruct run_waiting as (c & Hr & Hu). exists c.
  destruct (nv_core_pubsub_wait_has_cause c 0 5 None Hr) as (s & H1 & H2 & H3 & _); [by rewrite Hu|]. by exists s.
Defined.

Lemma nv_core_pubsub_self_unsubscribe_hangs_witness :
  exists c st, unsubs c !! 0%nat = Some (mkUnsub 5 (Some 0%nat) st) /\ st <> URet.
Proof.
  destruct run_in_handler as (c & Hr & Hw). exists c.
  exact (nv_core_pubsub_self_unsubscribe_hangs c c 0 0 5 Hr Hw (rtc_refl _ _)).
Defined.

End Bus.
