(* ===== verification/PubSubIpc.v ===== *)
(** * The bus between processes (core/bus/nv_core_pubsub.c)

    Local datagram sockets as the processes of one machine share them: names in the file
    system, sockets with their queues, and the name each socket is bound to.  Over them the
    start of the broker, its thread, its cleanup, and the clients that publish and subscribe,
    with the datagrams of [PubSub].  What the system answers is an argument.  Theorems: what a
    client publishes reaches exactly the queues of the clients registered for its topic, and the
    handlers of those whose topic has fewer than 64 bytes; a subscription is made and ended by a client's own datagrams; start and cleanup give back
    what they take, except a socket file whose path is long or the default one. *)
From S2P Require Import Prelude PubSub.

Module PubSubIpc.
Import Broker.

(** A socket is known by a number; a name leads to the socket bound to it, also after that
    was closed. *)
Record net := mkNet { names : gmap cstr Z; queues : gmap Z (list (cstr * packet)); own : gmap Z cstr }.

Definition SUN_PATH : nat := 108.
Definition sun_path (p : cstr) : cstr := str_trunc SUN_PATH p.

Definition socket (s : Z) (n : net) : net := mkNet (names n) (<[s := []]> (queues n)) (own n).
Definition unlink (p : cstr) (n : net) : net := mkNet (delete p (names n)) (queues n) (own n).
(** A name that exists is refused, as is one the directory does not allow ([ok]). *)
Definition bind (ok : bool) (s : Z) (p : cstr) (n : net) : option net :=
  if negb ok then None else
  match names n !! p with
  | Some _ => None
  | None => Some (mkNet (<[p := s]> (names n)) (queues n) (<[s := p]> (own n)))
  end.
Definition close (s : Z) (n : net) : net := mkNet (names n) (delete s (queues n)) (delete s (own n)).
(** [room s]: whether the queue of [s] takes another datagram. *)
Definition sendto (room : Z -> bool) (s : Z) (p : cstr) (pkt : packet) (n : net) : bool * net :=
  match names n !! p with
  | Some g =>
      match queues n !! g with
      | Some q => if room g then (true, mkNet (names n) (<[g := q ++ [(default [] (own n !! s), pkt)]]> (queues n)) (own n)) else (false, n)
      | None => (false, n)
      end
  | None => (false, n)
  end.
(** The first datagram of a queue, with its sender. *)
Definition recvfrom (s : Z) (n : net) : option (cstr * packet * net) :=
  match queues n !! s with
  | Some (x :: q) => Some (x, mkNet (names n) (<[s := q]> (queues n)) (own n))
  | _ => None
  end.

Definition nv_pubsub_send_packet (room : Z -> bool) (s : Z) (addr : cstr) (pkt : packet) (n : net) : Z * net :=
  let '(ok, n) := sendto room s addr pkt n in (if ok then NV_OK else NV_ERROR, n).

(** ** The clients *)

(** [s]: the new socket, negative when there is none; [path] is the printed name, which fits. *)
Definition nv_pubsub_make_client_socket (s : Z) (ok : bool) (path : cstr) (n : net) : Z * net :=
  if s <? 0 then (-1, n) else
  let n := unlink path (socket s n) in
  match bind ok s (sun_path path) n with
  | Some n => (s, n)
  | None => (-1, close s n)
  end.
Definition NV_CORE_DEFAULT_PUBSUB_SOCKET : cstr := str "/tmp/nv_pubsub.sock".
Definition nv_pubsub_fill_server_addr (server_socket : option cstr) : cstr := sun_path (default NV_CORE_DEFAULT_PUBSUB_SOCKET server_socket).

Definition nv_core_pubsub_client_publish (room : Z -> bool) (s : Z) (ok : bool) (path : cstr) (server : option cstr) (t : option cstr)
    (d : option (list Z)) (len : nat) (n : net) : outcome (Z * net) :=
  match t with
  | None | Some [] => Ret (NV_ERROR, n)
  | Some t =>
      let '(fd, n) := nv_pubsub_make_client_socket s ok path n in
      if fd <? 0 then Ret (NV_ERROR, n) else
      pkt ← nv_pubsub_fill_packet NV_PUBSUB_OP_PUB (Some t) d len;
      let '(rc, n) := nv_pubsub_send_packet room fd (nv_pubsub_fill_server_addr server) pkt n in
      Ret (rc, unlink path (close fd n))
  end.

(** The subscribing client up to its loop: the socket it waits on. *)
Definition subscribe_start (room : Z -> bool) (s : Z) (ok : bool) (path : cstr) (server : option cstr) (t : option cstr) (n : net) : outcome (option Z * net) :=
  match t with
  | None | Some [] => Ret (None, n)
  | Some t =>
      let '(fd, n) := nv_pubsub_make_client_socket s ok path n in
      if fd <? 0 then Ret (None, n) else
      pkt ← nv_pubsub_fill_packet NV_PUBSUB_OP_SUB (Some t) None 0;
      let '(rc, n) := nv_pubsub_send_packet room fd (nv_pubsub_fill_server_addr server) pkt n in
      if rc =? NV_OK then Ret (Some fd, n) else Ret (None, unlink path (close fd n))
  end.
(** One turn of its loop: the arguments of the handler, if it is called. *)
Definition subscribe_turn (fd : Z) (t : cstr) (n : net) : outcome (option (cstr * list Z) * net) :=
  match recvfrom fd n with
  | Some (_, pkt, n) => m ← client_receive SIZEOF_PACKET pkt t; Ret (m, n)
  | None => Ret (None, n)
  end.
(** After the loop. *)
Definition subscribe_end (room : Z -> bool) (fd : Z) (path : cstr) (server : option cstr) (t : cstr) (n : net) : outcome (Z * net) :=
  pkt ← nv_pubsub_fill_packet NV_PUBSUB_OP_UNSUB (Some t) None 0;
  let '(_, n) := nv_pubsub_send_packet room fd (nv_pubsub_fill_server_addr server) pkt n in
  Ret (NV_OK, unlink path (close fd n)).

(** ** The broker *)

(** The fields of the context; [delivered] are the messages given to the handlers of the
    process, [sync] whether mutex and condition exist. *)
Record broker := mkBroker {
  inited : bool; sync : bool; ipc_fd : Z; running : bool; thread_started : bool; clients : list client; delivered : list (cstr * list Z); bnet : net
}.
Definition on_net (n : net) (b : broker) := mkBroker (inited b) (sync b) (ipc_fd b) (running b) (thread_started b) (clients b) (delivered b) n.
Definition on_ipc (fd : Z) (r th : bool) (b : broker) := mkBroker (inited b) (sync b) fd r th (clients b) (delivered b) (bnet b).
Definition on_clients (cs : list client) (b : broker) := mkBroker (inited b) (sync b) (ipc_fd b) (running b) (thread_started b) cs (delivered b) (bnet b).
Definition on_delivered (l : list (cstr * list Z)) (b : broker) := mkBroker (inited b) (sync b) (ipc_fd b) (running b) (thread_started b) (clients b) l (bnet b).
Definition on_inited (i s : bool) (b : broker) := mkBroker i s (ipc_fd b) (running b) (thread_started b) (clients b) (delivered b) (bnet b).

(** [s]: the new socket; [ok], [thr]: whether the name is allowed and the thread is made. *)
Definition nv_core_pubsub_start_ipc (s : Z) (ok thr : bool) (sock : option cstr) (b : broker) : Z * broker :=
  if thread_started b then (NV_OK, b) else
  let path := default NV_CORE_DEFAULT_PUBSUB_SOCKET sock in
  if s <? 0 then (NV_ERROR, b) else
  let n := unlink path (socket s (bnet b)) in
  match bind ok s (sun_path path) n with
  | None => (NV_ERROR, on_net (close s n) b)
  | Some n =>
      if thr then (NV_OK, on_ipc s true true (on_net n b))
      else (NV_ERROR, on_ipc (-1) false (thread_started b) (on_net (close s n) b))
  end.
Definition nv_core_pubsub_init (mutex cond : bool) (s : Z) (ok thr : bool) (sock : option cstr) (b : broker) : Z * broker :=
  if inited b then (NV_OK, b) else
  if negb mutex then (NV_ERROR, b) else
  if negb cond then (NV_ERROR, b) else
  let b := on_ipc (-1) (running b) (thread_started b) (on_inited true true b) in
  (NV_OK, snd (nv_core_pubsub_start_ipc s ok thr sock b)).

(** Publishing in the broker's process: its own handlers, then the clients.  [ini] is
    [nv_core_pubsub_init] with the answers it would get. *)
Definition send_all (room : Z -> bool) (fd : Z) (l : list (cstr * packet)) (n : net) : net :=
  foldl (fun n x => snd (nv_pubsub_send_packet room fd (fst x) (snd x) n)) n l.
Definition nv_core_pubsub_publish (ini : broker -> Z * broker) (room : Z -> bool) (t : cstr) (d : list Z) (len : nat) (b : broker) : outcome (Z * broker) :=
  if bool_decide (t = []) then Ret (NV_ERROR, b) else
  let '(rc, b) := ini b in
  if negb (rc =? NV_OK) then Ret (NV_ERROR, b) else
  let len := Nat.min len NV_PUBSUB_DATA_MAX in
  let b := on_delivered (delivered b ++ [(t, take len d)]) b in
  out ← nv_core_pubsub_publish_ipc (ipc_fd b) (clients b) t (Some d) len;
  Ret (NV_OK, on_net (send_all room (ipc_fd b) out (bnet b)) b).
(** One turn of the thread with a datagram in the queue. *)
Definition nv_core_pubsub_ipc_turn (ini : broker -> Z * broker) (room : Z -> bool) (alloc : bool) (b : broker) : outcome broker :=
  if negb (running b) then Ret b else
  match recvfrom (ipc_fd b) (bnet b) with
  | None => Ret b
  | Some (peer, pkt, n) =>
      let b := on_net n b in
      '(cs, m) ← receive (clients b) SIZEOF_PACKET pkt peer alloc;
      let b := on_clients cs b in
      match m with
      | Some (t, d) => '(_, b) ← nv_core_pubsub_publish ini room t d (length d) b; Ret b
      | None => Ret b
      end
  end.

Definition nv_core_pubsub_free_ipc_clients (b : broker) : broker := on_clients [] b.
(** The subscriptions of the process itself are [Bus]'s. *)
Definition nv_core_pubsub_cleanup (sock : option cstr) (b : broker) : broker :=
  if negb (inited b) then b else
  let b := on_ipc (ipc_fd b) false (thread_started b) b in
  let b := if 0 <=? ipc_fd b then on_ipc (-1) (running b) (thread_started b) (on_net (close (ipc_fd b) (bnet b)) b) else b in
  let b := on_ipc (ipc_fd b) (running b) false b in
  let b := match sock with Some p => on_net (unlink p (bnet b)) b | None => b end in
  on_inited false false (nv_core_pubsub_free_ipc_clients b).

(** ** What is sent *)

(** Names lead to different sockets. *)
Definition names_inj (n : net) : Prop := forall a b g, names n !! a = Some g -> names n !! b = Some g -> a = b.

Lemma sendto_ok room s p pkt n g q : names n !! p = Some g -> queues n !! g = Some q -> room g = true ->
  sendto room s p pkt n = (true, mkNet (names n) (<[g := q ++ [(default [] (own n !! s), pkt)]]> (queues n)) (own n)).
Proof. intros H1 H2 H3. unfold sendto. by rewrite H1, H2, H3. Qed.
Lemma sendto_frame room s p pkt n : names (snd (sendto room s p pkt n)) = names n /\ own (snd (sendto room s p pkt n)) = own n /\
  forall g, names n !! p <> Some g -> queues (snd (sendto room s p pkt n)) !! g = queues n !! g.
Proof.
  unfold sendto. destruct (names n !! p) as [g|]; [|done]. destruct (queues n !! g); [|done]. destruct (room g); [|done]. split_and!; [done|done|].
  intros h Hh. simpl. rewrite lookup_insert_ne; [done|congruence].
Qed.

(** A packet sent to different names: each socket behind one of them gets it once. *)
Lemma send_all_spec room fd pkt as_ n : NoDup as_ -> names_inj n -> (forall g, room g = true) ->
  let n' := send_all room fd (map (fun a => (a, pkt)) as_) n in
  names n' = names n /\ own n' = own n /\
  (forall a g q, a ∈ as_ -> names n !! a = Some g -> queues n !! g = Some q -> queues n' !! g = Some (q ++ [(default [] (own n !! fd), pkt)])) /\
  (forall g, (forall a, a ∈ as_ -> names n !! a <> Some g) -> queues n' !! g = queues n !! g).
Proof.
  intros Hnd. revert n. induction Hnd as [|a l Ha Hnd IH]; intros n Hinj Hroom n'; [split_and!; try done; by intros ? ? ? ?%not_elem_of_nil|].
  unfold n', send_all. cbn [map foldl fst snd].
  assert (snd (nv_pubsub_send_packet room fd a pkt n) = snd (sendto room fd a pkt n)) as -> by (unfold nv_pubsub_send_packet; by destruct (sendto room fd a pkt n)).
  destruct (sendto_frame room fd a pkt n) as (F1 & F2 & F3). destruct (sendto room fd a pkt n) as [ok n1] eqn:Es. cbn [snd] in *.
  destruct (IH n1) as (I1 & I2 & I3 & I4); [unfold names_inj; by rewrite F1|done|]. unfold send_all in *.
  split_and!; [congruence|congruence| |].
  - intros b g q [->|Hb]%elem_of_cons Hg Hq.
    + rewrite (sendto_ok room fd a pkt n g q Hg Hq (Hroom g)) in Es. injection Es as <- <-. rewrite I4; [apply lookup_insert_eq|].
      intros c Hc Ec. simpl in Ec. by rewrite (Hinj _ _ _ Hg Ec) in Ha.
    + rewrite <- F2. apply (I3 b); [done|by rewrite F1|]. rewrite F3; [done|]. intros Eg. by rewrite (Hinj _ _ _ Hg Eg) in Hb.
  - intros g Hg. rewrite I4 by (intros b Hb; rewrite F1; apply Hg, elem_of_cons; by right). apply F3, Hg, elem_of_cons. by left.
Qed.

Lemma filter_topic (cs : list client) t : NoDup cs ->
  NoDup (map snd (filter (fun c => strcmp_eq c.1 t = true) cs)) /\ forall a, a ∈ map snd (filter (fun c => strcmp_eq c.1 t = true) cs) <-> (t, a) ∈ cs.
Proof.
  intros Hnd. split.
  - apply NoDup_fmap_2_strong; [|by apply NoDup_filter]. intros [t1 a1] [t2 a2] [H1 _]%list_elem_of_filter [H2 _]%list_elem_of_filter.
    apply strcmp_eq_true in H1, H2. simpl in *. congruence.
  - intros a. rewrite list_elem_of_fmap. split.
    + intros ([t1 a1] & -> & [H1 Hin]%list_elem_of_filter). apply strcmp_eq_true in H1. simpl in *. by subst.
    + intros Hin. exists (t, a). split; [done|]. apply list_elem_of_filter. split; [apply strcmp_eq_refl|done].
Qed.

(** ** From a publisher to the subscribers *)

(** A broker that serves the name [P]. *)
Record serving (P : cstr) (b : broker) : Prop := {
  sv_inited : inited b = true;
  sv_running : running b = true;
  sv_fd : 0 <= ipc_fd b;
  sv_name : names (bnet b) !! P = Some (ipc_fd b);
  sv_own : own (bnet b) !! ipc_fd b = Some P;
  sv_queue : queues (bnet b) !! ipc_fd b = Some [];
  sv_inj : names_inj (bnet b);
  sv_nodup : NoDup (clients b);
  sv_others : forall t a, (t, a) ∈ clients b -> a <> P
}.
(** A socket and a name nobody uses. *)
Definition unused (s : Z) (path : cstr) (n : net) : Prop :=
  0 <= s /\ queues n !! s = None /\ own n !! s = None /\ names n !! path = None /\ (forall a, names n !! a <> Some s) /\ (length path < SUN_PATH)%nat.

Lemma sun_path_short path : (length path < SUN_PATH)%nat -> sun_path path = path.
Proof. intros H. apply take_ge. unfold SUN_PATH in *. lia. Qed.
Lemma make_client_ok s path n : unused s path n ->
  nv_pubsub_make_client_socket s true path n = (s, mkNet (<[path := s]> (names n)) (<[s := []]> (queues n)) (<[s := path]> (own n))).
Proof.
  intros (H0 & _ & _ & Hn & _ & Hl). unfold nv_pubsub_make_client_socket. destruct (Z.ltb_spec s 0); [lia|]. rewrite sun_path_short by done.
  unfold bind. cbn [negb unlink names socket]. rewrite lookup_delete_eq. cbn [own queues unlink socket]. by rewrite delete_id.
Qed.

Lemma cut_data (d : list Z) : take (Nat.min (length d) NV_PUBSUB_DATA_MAX) d = take NV_PUBSUB_DATA_MAX d.
Proof. destruct (Nat.min_spec (length d) NV_PUBSUB_DATA_MAX) as [[? ->]|[? ->]]; [|done]. by rewrite !take_ge by lia. Qed.
(** What a publication is to the broker and to a subscriber. *)
Lemma pub_packet t d : cstr_ok t -> t <> [] -> exists pkt, nv_pubsub_fill_packet NV_PUBSUB_OP_PUB (Some t) (Some d) (length d) = Ret pkt /\
  (forall cs peer alloc, receive cs SIZEOF_PACKET pkt peer alloc = Ret (cs, Some (str_trunc NV_PUBSUB_TOPIC_MAX t, take NV_PUBSUB_DATA_MAX d))) /\
  (forall u, client_receive SIZEOF_PACKET pkt u =
     Ret (if bool_decide (u = str_trunc NV_PUBSUB_TOPIC_MAX t) then Some (str_trunc NV_PUBSUB_TOPIC_MAX t, take NV_PUBSUB_DATA_MAX d) else None)).
Proof.
  intros Ht Hne. destruct (fill_data NV_PUBSUB_OP_PUB t d (length d)) as (pkt & E & Hd); [lia|]. rewrite cut_data in Hd.
  destruct (fill_topic _ _ _ _ _ Ht Hne E) as (H1 & H2 & H3 & H4). exists pkt. split; [done|].
  unfold receive, client_receive. rewrite H1, H2, H4. apply Z.eqb_neq in H3. rewrite H3. split.
  - intros cs peer alloc. eval_tests. cbn [orb negb mbind outcome_bind]. by rewrite Hd.
  - intros u. eval_tests. cbn [andb mbind outcome_bind]. rewrite Hd. unfold strcmp_eq.
    by case_bool_decide; case_bool_decide; subst.
Qed.

Lemma client_publish_ok room s path sock t d b pkt : serving (nv_pubsub_fill_server_addr sock) b -> unused s path (bnet b) -> (forall g, room g = true) -> t <> [] ->
  nv_pubsub_fill_packet NV_PUBSUB_OP_PUB (Some t) (Some d) (length d) = Ret pkt ->
  nv_core_pubsub_client_publish room s true path sock (Some t) (Some d) (length d) (bnet b) =
  Ret (NV_OK, mkNet (names (bnet b)) (<[ipc_fd b := [(path, pkt)]]> (queues (bnet b))) (own (bnet b))).
Proof.
  intros Hsv Hu Hroom Hne E. pose proof Hu as (H0 & Hq & Ho & Hn & Hs & Hl). destruct Hsv. unfold nv_core_pubsub_client_publish. destruct t as [|c t]; [done|].
  rewrite make_client_ok by done. destruct (Z.ltb_spec s 0); [lia|]. rewrite E. cbn [mbind outcome_bind]. unfold nv_pubsub_send_packet.
  assert (s <> ipc_fd b) by congruence. assert (nv_pubsub_fill_server_addr sock <> path) by congruence.
  rewrite (sendto_ok _ _ _ _ _ (ipc_fd b) []); [|cbn [names]; by rewrite lookup_insert_ne|cbn [queues]; by rewrite lookup_insert_ne|done].
  cbn [own names queues]. rewrite lookup_insert_eq. do 2 f_equal. unfold unlink, close. cbn [names queues own]. f_equal.
  - by rewrite delete_insert_eq, delete_id.
  - rewrite insert_insert_ne by done. by rewrite delete_insert_eq, delete_id by (by rewrite lookup_insert_ne).
  - by rewrite delete_insert_eq, delete_id.
Qed.

(** C12: a message that a client publishes to a serving broker is, after one turn of the
    broker's thread, in the queue of every client registered for its topic cut to 63 bytes, and
    in no other queue; the broker's own handlers get the topic so cut and the data cut to 512
    bytes, and its queue is empty again.  A client that reads the datagram calls its handler,
    with the same topic and data, exactly when the topic it subscribed to, which it compares
    whole, is the cut one: a client that subscribed to a topic of 64 bytes or more is registered
    and sent the datagrams, and never calls its handler. *)
Theorem nv_pubsub_end_to_end mutex cond s0 ok thr sock room alloc s path t d b :
  serving (nv_pubsub_fill_server_addr sock) b -> unused s path (bnet b) -> (forall g, room g = true) -> cstr_ok t -> t <> [] ->
  let topic := str_trunc NV_PUBSUB_TOPIC_MAX t in
  exists n1 b2 pkt, nv_core_pubsub_client_publish room s true path sock (Some t) (Some d) (length d) (bnet b) = Ret (NV_OK, n1) /\
    nv_core_pubsub_ipc_turn (nv_core_pubsub_init mutex cond s0 ok thr sock) room alloc (on_net n1 b) = Ret b2 /\
    (forall u, client_receive SIZEOF_PACKET pkt u =
       Ret (if bool_decide (u = topic) then Some (topic, take NV_PUBSUB_DATA_MAX d) else None)) /\
    (forall a g q, (topic, a) ∈ clients b -> names (bnet b) !! a = Some g -> queues (bnet b) !! g = Some q ->
       queues (bnet b2) !! g = Some (q ++ [(nv_pubsub_fill_server_addr sock, pkt)])) /\
    (forall g, (forall a, (topic, a) ∈ clients b -> names (bnet b) !! a <> Some g) -> queues (bnet b2) !! g = queues (bnet b) !! g) /\
    queues (bnet b2) !! ipc_fd b2 = Some [] /\ clients b2 = clients b /\ delivered b2 = delivered b ++ [(topic, take NV_PUBSUB_DATA_MAX d)].
Proof.
  intros Hsv Hu Hroom Ht Hne topic. destruct (pub_packet t d Ht Hne) as (pkt & E & Hr & _).
  assert (cstr_ok topic) as Ht' by (by apply trunc_ok). assert (topic <> []) as Hne' by (by destruct t).
  destruct (pub_packet topic (take NV_PUBSUB_DATA_MAX d) Ht' Hne') as (pkt2 & E2 & _ & Hc).
  assert (str_trunc NV_PUBSUB_TOPIC_MAX topic = topic) as Htt by apply trunc_trunc. rewrite Htt in Hc. rewrite take_take, Nat.min_id in Hc.
  rewrite (client_publish_ok room s path sock t d b pkt Hsv Hu Hroom Hne E).
  exists (mkNet (names (bnet b)) (<[ipc_fd b := [(path, pkt)]]> (queues (bnet b))) (own (bnet b))). destruct Hsv.
  unfold nv_core_pubsub_ipc_turn, recvfrom. cbn [running on_net bnet ipc_fd queues]. rewrite sv_running0. cbn [negb]. rewrite lookup_insert_eq.
  rewrite insert_insert_eq, (insert_id (queues (bnet b)) (ipc_fd b) []) by done. cbn [names own]. assert (mkNet (names (bnet b)) (queues (bnet b)) (own (bnet b)) = bnet b) as -> by (by destruct (bnet b)).
  rewrite Hr. cbn [mbind outcome_bind]. unfold nv_core_pubsub_publish. rewrite bool_decide_eq_false_2 by done. unfold nv_core_pubsub_init.
  cbn [inited on_clients on_net]. rewrite sv_inited0. change (negb (NV_OK =? NV_OK)) with false. cbv iota.
  unfold nv_core_pubsub_publish_ipc. cbn [ipc_fd on_delivered on_clients on_net clients]. destruct (Z.ltb_spec (ipc_fd b) 0); [lia|].
  assert (Nat.min (length (take NV_PUBSUB_DATA_MAX d)) NV_PUBSUB_DATA_MAX = length (take NV_PUBSUB_DATA_MAX d)) as -> by (rewrite length_take; lia).
  fold topic. rewrite E2. cbn [mbind outcome_bind delivered bnet].
  destruct (filter_topic (clients b) topic sv_nodup0) as [Hnd Hin].
  assert (map (fun c : client => (c.2, pkt2)) (filter (fun c => strcmp_eq c.1 topic = true) (clients b)) =
    map (fun a => (a, pkt2)) (map snd (filter (fun c => strcmp_eq c.1 topic = true) (clients b)))) as -> by (by rewrite map_map).
  destruct (send_all_spec room (ipc_fd b) pkt2 _ (bnet b) Hnd sv_inj0 Hroom) as (N1 & N2 & N3 & N4). rewrite sv_own0 in N3.
  do 2 eexists. split; [reflexivity|]. split; [reflexivity|]. split_and!; [exact Hc| | | |done|].
  - intros a g q Ha Hg Hq. apply (N3 a g q); [by apply Hin|done|done].
  - intros g Hg. apply N4. intros a Ha. by apply Hg, Hin.
  - cbn [bnet on_net ipc_fd on_delivered on_clients]. rewrite N4; [done|]. intros a Ha Ea. apply Hin, sv_others0 in Ha. by rewrite (sv_inj0 _ _ _ Ea sv_name0) in Ha.
  - simpl. by rewrite take_ge by lia.
Qed.

(** A broker with two subscribers, and a publisher's socket. *)
Definition P0 : cstr := str "/run/nv.sock".
Definition net0 : net := mkNet (<[P0 := 3]> (<[str "/tmp/a" := 4]> {[str "/tmp/b" := 5]})) (<[3 := []]> (<[4 := []]> {[5 := []]})) (<[3 := P0]> (<[4 := str "/tmp/a"]> {[5 := str "/tmp/b"]})).
Definition broker0 : broker := mkBroker true true 3 true true [(str "news", str "/tmp/a"); (str "temp", str "/tmp/b")] [] net0.
Lemma broker0_serving : serving P0 broker0.
Proof.
  split; try done.
  - intros a b g. unfold broker0, net0. cbn [bnet names]. rewrite !lookup_insert_Some, !lookup_singleton_Some. intros Ha Hb.
    destruct Ha as [[<- <-]|[? [[<- <-]|[? [<- <-]]]]], Hb as [[<- ?]|[? [[<- ?]|[? [<- ?]]]]]; congruence.
  - apply (bool_decide_eq_true_1 (NoDup _)). reflexivity.
  - intros t a. unfold broker0. cbn [clients]. rewrite !elem_of_cons, elem_of_nil. intros [[= _ ->]|[[= _ ->]|[]]]; done.
Qed.
Lemma unused0 : unused 9 (str "/tmp/c") net0.
Proof.
  split_and!; try done; [|vm_compute; lia]. intros a. unfold net0. cbn [names]. rewrite !lookup_insert_Some, lookup_singleton_Some. intros H. naive_solver lia.
Qed.
Lemma nv_pubsub_end_to_end_witness :
  let topic := str_trunc NV_PUBSUB_TOPIC_MAX (str "news") in
  exists n1 b2 pkt, nv_core_pubsub_client_publish (fun _ => true) 9 true (str "/tmp/c") (Some P0) (Some (str "news")) (Some (str "hi")) 2 net0 = Ret (NV_OK, n1) /\
    nv_core_pubsub_ipc_turn (nv_core_pubsub_init true true 0 true true (Some P0)) (fun _ => true) true (on_net n1 broker0) = Ret b2 /\
    (forall u, client_receive SIZEOF_PACKET pkt u =
       Ret (if bool_decide (u = topic) then Some (topic, take NV_PUBSUB_DATA_MAX (str "hi")) else None)) /\
    (forall a g q, (topic, a) ∈ clients broker0 -> names net0 !! a = Some g -> queues net0 !! g = Some q ->
       queues (bnet b2) !! g = Some (q ++ [(nv_pubsub_fill_server_addr (Some P0), pkt)])) /\
    (forall g, (forall a, (topic, a) ∈ clients broker0 -> names net0 !! a <> Some g) -> queues (bnet b2) !! g = queues net0 !! g) /\
    queues (bnet b2) !! ipc_fd b2 = Some [] /\ clients b2 = clients broker0 /\ delivered b2 = [] ++ [(topic, take NV_PUBSUB_DATA_MAX (str "hi"))].
Proof.
  apply (nv_pubsub_end_to_end true true 0 true true (Some P0) (fun _ => true) true 9 (str "/tmp/c") (str "news") (str "hi") broker0); try done.
  - apply broker0_serving.
  - apply unused0.
  - by apply cstr_ok_check.
Defined.

(** A client that subscribed to a topic of 64 bytes or more is deaf: no datagram published
    through the library, with its own topic or another, makes it call its handler. *)
Theorem nv_pubsub_long_topic_unheard t u d :
  cstr_ok t -> t <> [] -> (NV_PUBSUB_TOPIC_MAX <= length u)%nat ->
  exists pkt, nv_pubsub_fill_packet NV_PUBSUB_OP_PUB (Some t) (Some d) (length d) = Ret pkt /\
    client_receive SIZEOF_PACKET pkt u = Ret None.
Proof.
  intros Ht Hne Hu. destruct (pub_packet t d Ht Hne) as (pkt & E & _ & Hc). exists pkt. split; [done|].
  rewrite Hc, bool_decide_eq_false_2; [done|]. intros ->.
  pose proof (trunc_length NV_PUBSUB_TOPIC_MAX t ltac:(unfold NV_PUBSUB_TOPIC_MAX; lia)). lia.
Qed.

(** ** Subscribing *)

(** A packet for the broker in its empty queue is handled with its sender. *)
Lemma turn_request ini room peer pkt b cs' : running b = true -> queues (bnet b) !! ipc_fd b = Some [(peer, pkt)] ->
  receive (clients b) SIZEOF_PACKET pkt peer true = Ret (cs', None) ->
  nv_core_pubsub_ipc_turn ini room true b = Ret (on_clients cs' (on_net (mkNet (names (bnet b)) (<[ipc_fd b := []]> (queues (bnet b))) (own (bnet b))) b)).
Proof.
  intros Hr Hq Hrec. unfold nv_core_pubsub_ipc_turn, recvfrom. rewrite Hr. cbn [negb]. rewrite Hq. cbn [clients on_net]. rewrite Hrec. done.
Qed.
Lemma represents_self (cs : list client) : NoDup cs -> represents cs (list_to_set cs).
Proof. intros H. split; [done|]. intros c. by rewrite elem_of_list_to_set. Qed.

(** A client that subscribes is registered after one turn of the broker, under its topic
    cut to 63 bytes and the name of its socket; when it ends, it is taken out again after the
    next turn, and the sockets and names are those from before. *)
Theorem nv_pubsub_subscription ini room s path sock t b :
  serving (nv_pubsub_fill_server_addr sock) b -> unused s path (bnet b) -> (forall g, room g = true) -> cstr_ok t -> t <> [] ->
  exists n1 b1, subscribe_start room s true path sock (Some t) (bnet b) = Ret (Some s, n1) /\
    nv_core_pubsub_ipc_turn ini room true (on_net n1 b) = Ret b1 /\
    (forall c, c ∈ clients b1 <-> c ∈ clients b \/ c = (str_trunc NV_PUBSUB_TOPIC_MAX t, path)) /\
    exists n2 b2, subscribe_end room s path sock t (bnet b1) = Ret (NV_OK, n2) /\
      nv_core_pubsub_ipc_turn ini room true (on_net n2 b1) = Ret b2 /\
      (forall c, c ∈ clients b2 <-> c ∈ clients b /\ c <> (str_trunc NV_PUBSUB_TOPIC_MAX t, path)) /\ bnet b2 = bnet b.
Proof.
  intros Hsv Hu Hroom Ht Hne. pose proof Hu as (H0 & Hq & Ho & Hn & Hs & Hl). destruct Hsv. set (P := nv_pubsub_fill_server_addr sock) in *.
  destruct (receive_request (clients b) _ (Sub t path) (represents_self _ sv_nodup0) Ht Hne) as (pkt & cs1 & E1 & R1 & [Nd1 C1]). cbn [encode sender spec_message spec_clients] in *.
  destruct (receive_request cs1 _ (Unsub t path) (represents_self _ Nd1) Ht Hne) as (pkt2 & cs2 & E2 & R2 & [_ C2]). cbn [encode sender spec_message spec_clients] in *.
  assert (s <> ipc_fd b) by congruence. assert (P <> path) by congruence.
  unfold subscribe_start. destruct t as [|c0 t]; [done|]. rewrite make_client_ok by done. destruct (Z.ltb_spec s 0); [lia|]. rewrite E1. cbn [mbind outcome_bind].
  unfold nv_pubsub_send_packet. fold P.
  rewrite (sendto_ok _ _ _ _ _ (ipc_fd b) []); [|cbn [names]; by rewrite lookup_insert_ne|cbn [queues]; by rewrite lookup_insert_ne|done].
  change (NV_OK =? NV_OK) with true. cbv iota. cbn [own names queues app]. rewrite lookup_insert_eq. cbn [default]. eexists _, _. split; [reflexivity|].
  rewrite (turn_request _ _ path pkt _ cs1); [|done|apply lookup_insert_eq|exact R1]. split; [reflexivity|]. cbn [clients on_clients].
  split; [intros c; rewrite C1, elem_of_union, elem_of_singleton, elem_of_list_to_set; naive_solver|].
  unfold subscribe_end. rewrite E2. cbn [mbind outcome_bind bnet on_clients on_net names queues own ipc_fd]. unfold nv_pubsub_send_packet. fold P. rewrite insert_insert_eq.
  rewrite (sendto_ok _ _ _ _ _ (ipc_fd b) []); [|cbn [names]; by rewrite lookup_insert_ne|cbn [queues]; apply lookup_insert_eq|done].
  cbn [own names queues app]. rewrite lookup_insert_eq. cbn [default]. eexists _, _. split; [reflexivity|].
  rewrite (turn_request _ _ path pkt2 _ cs2); [|done| |exact R2]; last first.
  { cbn [bnet on_net unlink close queues ipc_fd on_clients]. rewrite lookup_delete_ne by done. apply lookup_insert_eq. }
  split; [reflexivity|]. split.
  - intros c. cbn [clients on_clients]. rewrite C2, elem_of_difference, elem_of_list_to_set, C1, elem_of_union, !elem_of_singleton, elem_of_list_to_set. naive_solver.
  - cbn [bnet on_clients on_net unlink close names queues own ipc_fd]. destruct (bnet b) as [N Q O] eqn:Eb. cbn [names queues own] in *. f_equal.
    + by rewrite delete_insert_eq, delete_id.
    + rewrite insert_insert_eq. rewrite (insert_insert_ne _ (ipc_fd b) s) by done. rewrite delete_insert_eq, delete_id by (by rewrite lookup_insert_ne).
      by rewrite insert_insert_eq, insert_id.
    + by rewrite delete_insert_eq, delete_id.
Qed.

Lemma nv_pubsub_subscription_witness :
  exists n1 b1, subscribe_start (fun _ => true) 9 true (str "/tmp/c") (Some P0) (Some (str "news")) net0 = Ret (Some 9, n1) /\
    nv_core_pubsub_ipc_turn (fun b => (NV_OK, b)) (fun _ => true) true (on_net n1 broker0) = Ret b1 /\
    (forall c, c ∈ clients b1 <-> c ∈ clients broker0 \/ c = (str_trunc NV_PUBSUB_TOPIC_MAX (str "news"), str "/tmp/c")) /\
    exists n2 b2, subscribe_end (fun _ => true) 9 (str "/tmp/c") (Some P0) (str "news") (bnet b1) = Ret (NV_OK, n2) /\
      nv_core_pubsub_ipc_turn (fun b => (NV_OK, b)) (fun _ => true) true (on_net n2 b1) = Ret b2 /\
      (forall c, c ∈ clients b2 <-> c ∈ clients broker0 /\ c <> (str_trunc NV_PUBSUB_TOPIC_MAX (str "news"), str "/tmp/c")) /\ bnet b2 = net0.
Proof.
  apply (nv_pubsub_subscription (fun b => (NV_OK, b)) (fun _ => true) 9 (str "/tmp/c") (Some P0) (str "news") broker0);
    [apply broker0_serving|apply unused0|done|by apply cstr_ok_check|done].
Defined.

(** ** Start and cleanup *)

Definition server_path (sock : option cstr) : cstr := default NV_CORE_DEFAULT_PUBSUB_SOCKET sock.
Lemma pubsub_init_ok s sock b : inited b = false -> thread_started b = false -> 0 <= s -> names (unlink (server_path sock) (bnet b)) !! sun_path (server_path sock) = None ->
  nv_core_pubsub_init true true s true true sock b =
  (NV_OK, mkBroker true true s true true (clients b) (delivered b)
    (mkNet (<[sun_path (server_path sock) := s]> (delete (server_path sock) (names (bnet b)))) (<[s := []]> (queues (bnet b))) (<[s := sun_path (server_path sock)]> (own (bnet b))))).
Proof.
  intros Hi Ht Hs Hn. unfold nv_core_pubsub_init. rewrite Hi. cbn [negb]. unfold nv_core_pubsub_start_ipc. cbn [thread_started on_ipc on_inited]. rewrite Ht.
  destruct (Z.ltb_spec s 0); [lia|]. unfold bind. cbn [negb]. unfold server_path in *.
  cbn [unlink names socket bnet on_ipc on_inited] in *. rewrite Hn. done.
Qed.

(** After the initialisation of the bus and its cleanup the sockets are those from before
    and no client is registered.  The name of the socket is gone when it was configured and
    fits the address; a longer one stays, so that the next initialisation reports success but
    runs no broker; the default name stays too. *)
Theorem nv_core_pubsub_gives_back s s' sock b : inited b = false -> thread_started b = false -> 0 <= s -> queues (bnet b) !! s = None -> 0 <= s' ->
  names (unlink (server_path sock) (bnet b)) !! sun_path (server_path sock) = None ->
  exists b1, nv_core_pubsub_init true true s true true sock b = (NV_OK, b1) /\ running b1 = true /\ names (bnet b1) !! sun_path (server_path sock) = Some s /\
    let b2 := nv_core_pubsub_cleanup sock b1 in
    queues (bnet b2) = queues (bnet b) /\ inited b2 = false /\ running b2 = false /\ thread_started b2 = false /\ clients b2 = [] /\
    (if (length (server_path sock) <? SUN_PATH)%nat then names (bnet b2) = (match sock with Some p => delete p | None => id end) (names (bnet b1))
     else names (bnet b2) !! sun_path (server_path sock) = Some s /\
       exists b3, nv_core_pubsub_init true true s' true true sock b2 = (NV_OK, b3) /\ thread_started b3 = false /\ running b3 = false).
Proof.
  intros Hi Ht Hs Hq Hs' Hn. rewrite (pubsub_init_ok s sock b Hi Ht Hs Hn). eexists. split; [reflexivity|]. cbn [running bnet names]. split; [done|].
  split; [apply lookup_insert_eq|]. set (b2 := nv_core_pubsub_cleanup sock _).
  assert (b2 = mkBroker false false (-1) false false [] (delivered b)
    (mkNet ((match sock with Some p => delete p | None => id end) (<[sun_path (server_path sock) := s]> (delete (server_path sock) (names (bnet b))))) (queues (bnet b))
       (delete s (own (bnet b))))) as ->.
  { unfold b2, nv_core_pubsub_cleanup. cbn [inited negb on_ipc ipc_fd running thread_started]. destruct (Z.leb_spec 0 s); [|lia].
    destruct sock; cbn; unfold close, unlink; cbn; by rewrite !delete_insert_eq, (delete_id (queues (bnet b))). }
  cbn [bnet queues inited running thread_started clients names]. split_and!; try done.
  destruct (Nat.ltb_spec (length (server_path sock)) SUN_PATH) as [Hlt|Hge]; [done|].
  assert (sun_path (server_path sock) <> server_path sock) as Hne.
  { intros Eq. apply (f_equal length) in Eq. unfold sun_path, str_trunc in Eq. rewrite length_take in Eq. unfold SUN_PATH in *. lia. }
  assert (exists p, sock = Some p) as [p ->] by (destruct sock as [p|]; [eauto|]; vm_compute in Hge; lia).
  split; [rewrite lookup_delete_ne by done; apply lookup_insert_eq|].
  unfold nv_core_pubsub_init. cbn [inited negb]. unfold nv_core_pubsub_start_ipc. cbn [thread_started on_ipc on_inited]. destruct (Z.ltb_spec s' 0); [lia|].
  unfold bind. cbn [negb unlink names socket bnet on_ipc on_inited]. change (default NV_CORE_DEFAULT_PUBSUB_SOCKET (Some p)) with (server_path (Some p)).
  rewrite !lookup_delete_ne by done. rewrite lookup_insert_eq. eexists. split; [reflexivity|]. done.
Qed.
Definition idle0 : broker := mkBroker false false (-1) false false [] [] (mkNet ∅ ∅ ∅).
Lemma nv_core_pubsub_gives_back_witness :
  exists b1, nv_core_pubsub_init true true 3 true true (Some P0) idle0 = (NV_OK, b1) /\ running b1 = true /\ names (bnet b1) !! sun_path (server_path (Some P0)) = Some 3 /\
    let b2 := nv_core_pubsub_cleanup (Some P0) b1 in
    queues (bnet b2) = queues (bnet idle0) /\ inited b2 = false /\ running b2 = false /\ thread_started b2 = false /\ clients b2 = [] /\
    (if (length (server_path (Some P0)) <? SUN_PATH)%nat then names (bnet b2) = delete P0 (names (bnet b1))
     else names (bnet b2) !! sun_path (server_path (Some P0)) = Some 3 /\
       exists b3, nv_core_pubsub_init true true 4 true true (Some P0) b2 = (NV_OK, b3) /\ thread_started b3 = false /\ running b3 = false).
Proof. apply (nv_core_pubsub_gives_back 3 4 (Some P0) idle0); try done. Defined.

End PubSubIpc.
