(* ===== verification/Cli.v ===== *)
(** * The management command line (core/cli/nv_core_cli.c)

    The registry of commands, the splitting and dispatch of a line, and the completion
    of a command name.  Theorems: the registry is a finite map from case-folded names,
    splitting computes the words of a line, dispatch calls the command a line names,
    completion extends what was typed by the longest common prefix of the candidates. *)
From S2P Require Import Prelude.

Module Cli.

Definition NV_OK : Z := 0.
Definition NV_ERROR : Z := -1.
Definition NV_CORE_CLI_LINE_MAX : nat := 512.
Definition NV_CORE_CLI_OUT_MAX : nat := 4096.
Definition NV_CORE_CLI_NAME_MAX : nat := 32.
Definition NV_CORE_CLI_HELP_MAX : nat := 128.
Definition NV_CLI_CLOSE_SESSION : Z := 2.

(** The built-in handlers, and the handlers of other parts by their address. *)
Inductive handler :=
  | cmd_help | cmd_status | cmd_uptime | cmd_version | cmd_workers | cmd_config | cmd_reload | cmd_exit | cmd_ping
  | cmd_other (addr : Z).
#[export] Instance handler_eq_dec : EqDecision handler.
Proof. solve_decision. Defined.

Record nv_cli_cmd_node_t := mkCmd { name : cstr; help : cstr; hdl : handler; userdata : Z }.

(** [g_cli_cmds], [g_cli_interactive] and [g_cli_inited]. *)
Record cli := mkCli { g_cli_cmds : list nv_cli_cmd_node_t; g_cli_interactive : bool; g_cli_inited : bool }.

(** What one [nv_core_cli_write] puts out, its text already formatted. *)
Definition nv_core_cli_write (s : cstr) : cstr := str_trunc NV_CORE_CLI_OUT_MAX s.
Definition crlf : cstr := [13; 10].

(** ** The registry *)

Definition nv_cli_find (cmds : list nv_cli_cmd_node_t) (nm : cstr) : option nv_cli_cmd_node_t :=
  head (filter (fun n => strcasecmp_eq (name n) nm = true) cmds).

(** [alloc]: whether [calloc] succeeds; a handler is not NULL. *)
Definition nv_cli_add_node (cmds : list nv_cli_cmd_node_t) (nm : option cstr) (hlp : option cstr) (h : handler)
    (ud : Z) (alloc : bool) : Z * list nv_cli_cmd_node_t :=
  match nm with
  | None | Some [] => (NV_ERROR, cmds)
  | Some nm =>
      if nv_cli_find cmds nm is Some _ then (NV_ERROR, cmds)
      else if alloc then
        (NV_OK, mkCmd (str_trunc NV_CORE_CLI_NAME_MAX nm)
                  (str_trunc NV_CORE_CLI_HELP_MAX (default [] hlp)) h ud :: cmds)
      else (NV_ERROR, cmds)
  end.

Definition builtins : list (cstr * cstr * handler) :=
  [(str "help", str "show this help", cmd_help);
   (str "?", str "show this help", cmd_help);
   (str "status", str "process and loop status", cmd_status);
   (str "stat", str "process and loop status", cmd_status);
   (str "uptime", str "running time", cmd_uptime);
   (str "version", str "libnv version", cmd_version);
   (str "ver", str "libnv version", cmd_version);
   (str "workers", str "worker/thread settings", cmd_workers);
   (str "config", str "key configuration", cmd_config);
   (str "reload", str "reload config file", cmd_reload);
   (str "quit", str "leave CLI (daemon runs)", cmd_exit);
   (str "exit", str "leave CLI (daemon runs)", cmd_exit);
   (str "shutdown", str "same as quit", cmd_exit);
   (str "ping", str "connectivity test", cmd_ping)].

Definition nv_cli_register_builtins (cmds : list nv_cli_cmd_node_t) : list nv_cli_cmd_node_t :=
  foldl (fun cmds '(nm, hlp, h) =>
           if nv_cli_find cmds nm is Some _ then cmds else (nv_cli_add_node cmds (Some nm) (Some hlp) h 0 true).2)
    cmds builtins.

Definition nv_core_cli_init (st : cli) : cli :=
  if g_cli_inited st then st
  else mkCli (nv_cli_register_builtins (g_cli_cmds st)) (g_cli_interactive st) true.

Definition nv_core_cli_cleanup (st : cli) : cli := mkCli [] (g_cli_interactive st) false.

Definition nv_core_cli_register (st : cli) (nm hlp : option cstr) (h : handler) (ud : Z) (alloc : bool) : Z * cli :=
  match nm with
  | None => (NV_ERROR, st)
  | Some _ =>
      let st := nv_core_cli_init st in
      let '(rc, cmds) := nv_cli_add_node (g_cli_cmds st) nm hlp h ud alloc in
      (rc, mkCli cmds (g_cli_interactive st) (g_cli_inited st))
  end.

Fixpoint unlink_cmd (cmds : list nv_cli_cmd_node_t) (nm : cstr) : option (list nv_cli_cmd_node_t) :=
  match cmds with
  | [] => None
  | n :: cmds' => if strcasecmp_eq (name n) nm then Some cmds' else (n ::.) <$> unlink_cmd cmds' nm
  end.
Definition nv_core_cli_unregister (st : cli) (nm : option cstr) : Z * cli :=
  match nm with
  | None => (NV_ERROR, st)
  | Some nm =>
      match unlink_cmd (g_cli_cmds st) nm with
      | Some cmds => (NV_OK, mkCli cmds (g_cli_interactive st) (g_cli_inited st))
      | None => (NV_ERROR, st)
      end
  end.

(** ** Running a line *)

(** [nv_cli_split_args] with room for [n] arguments: the strings [argv] points to. *)
Fixpoint split_loop (n : nat) (p : cstr) : list cstr :=
  match n with
  | O => []
  | S n' =>
      match drop_while isspace p with
      | [] => []
      | p' => take_while (fun c => negb (isspace c)) p' ::
              match drop_while (fun c => negb (isspace c)) p' with
              | [] => []
              | _ :: r => split_loop n' r
              end
      end
  end.
Definition nv_cli_split_args (line : cstr) (max_argv : nat) : list cstr := split_loop (max_argv - 1) line.

Section commands.
(** The handlers that report on other parts of the process: status, uptime, version,
    workers, config, reload and the registered ones.  The result is the return code and
    the text written. *)
Context (report : handler -> list cstr -> Z * list cstr) (pid : Z).

(** [%-16s] *)
Definition pad16 (s : cstr) : cstr := s ++ repeat 32 (16 - length s).

Definition nv_cli_cmd_help (cmds : list nv_cli_cmd_node_t) : Z * list cstr :=
  (NV_OK,
   [nv_core_cli_write (str "commands:" ++ crlf)] ++
   map (fun n => match help n with
                 | [] => nv_core_cli_write (str "  " ++ name n ++ crlf)
                 | h => nv_core_cli_write (str "  " ++ pad16 (name n) ++ str "  " ++ h ++ crlf)
                 end) cmds ++
   [nv_core_cli_write
      (crlf ++ str "  Stop nvd: kill -TERM <pid>  (not via CLI)" ++ crlf ++ crlf ++
       str "  Up/Down           command history (telnet)" ++ crlf ++
       str "  Tab               command name completion" ++ crlf)]).

Definition nv_cli_cmd_exit (interactive : bool) : Z * list cstr :=
  if interactive then
    (NV_CLI_CLOSE_SESSION, [nv_core_cli_write (str "OK disconnected (nvd keeps running)" ++ crlf)])
  else
    (NV_OK, [nv_core_cli_write (str "OK (nvd keeps running; stop with: kill -TERM " ++ print_dec pid ++ str ")" ++ crlf)]).

Definition nv_cli_cmd_ping : Z * list cstr := (NV_OK, [nv_core_cli_write (str "pong" ++ crlf)]).

Definition call_handler (st : cli) (h : handler) (argv : list cstr) : Z * list cstr :=
  match h with
  | cmd_help => nv_cli_cmd_help (g_cli_cmds st)
  | cmd_exit => nv_cli_cmd_exit (g_cli_interactive st)
  | cmd_ping => nv_cli_cmd_ping
  | h => report h argv
  end.

(** Dropping the CRs and LFs at the end of the buffer. *)
Definition chop_eol (s : cstr) : cstr := rev (drop_while (fun c => (c =? 13) || (c =? 10)) (rev s)).

Definition set_interactive (st : cli) (b : bool) : cli := mkCli (g_cli_cmds st) b (g_cli_inited st).

Definition nv_core_cli_execute_line (st : cli) (fd : Z) (line : option cstr) (interactive : bool)
  : Z * cli * list cstr :=
  match line with
  | None => (NV_ERROR, st, [])
  | Some line =>
      if fd <? 0 then (NV_ERROR, st, [])
      else
        let st := set_interactive (nv_core_cli_init st) interactive in
        let buf := chop_eol (str_trunc NV_CORE_CLI_LINE_MAX line) in
        match buf with
        | [] => (NV_OK, st, [])
        | _ =>
            match nv_cli_split_args buf 16 with
            | [] => (NV_OK, st, [])
            | (arg0 :: _) as argv =>
                match nv_cli_find (g_cli_cmds st) arg0 with
                | Some cmd =>
                    let '(rc, out) := call_handler st (hdl cmd) argv in
                    (rc, set_interactive st false, out)
                | None =>
                    (NV_ERROR, set_interactive st false,
                     [nv_core_cli_write (str "unknown command: " ++ arg0 ++ str " (try help)" ++ crlf)])
                end
            end
        end
  end.

End commands.

(** ** Completion *)

Definition blank (c : Z) : bool := (c =? 32) || (c =? 9).
Definition nv_cli_first_word_len (line : cstr) : nat := length (take_while (fun c => negb (blank c)) line).

Fixpoint nv_cli_str_common_prefix (a b : cstr) : nat :=
  match a, b with
  | x :: a', y :: b' => if tolower x =? tolower y then S (nv_cli_str_common_prefix a' b') else O
  | _, _ => O
  end.
Definition nv_cli_matches_lcp (matches : list cstr) : nat :=
  match matches with
  | [] => O
  | m0 :: ms => foldl (fun len m => Nat.min (nv_cli_str_common_prefix m0 m) len) (length m0) ms
  end.
Definition nv_cli_match_exists (matches : list cstr) (nm : cstr) : bool :=
  existsb (fun m => strcasecmp_eq m nm) matches.

(** The loop over the commands: at most 32 candidates, in the order of the list. *)
Fixpoint collect (cmds : list nv_cli_cmd_node_t) (line : cstr) (word_len : nat) (matches : list cstr) : list cstr :=
  match cmds with
  | [] => matches
  | cmd :: cmds' =>
      if (length matches <? 32)%nat then
        collect cmds' line word_len
          (if ((word_len =? 0)%nat || strncasecmp_eq (name cmd) line word_len) &&
              negb (nv_cli_match_exists matches (name cmd))
           then matches ++ [name cmd] else matches)
      else matches
  end.

Definition nv_cli_build_completed_line (out_size : nat) (cmd tail : cstr) : cstr :=
  match tail with
  | [] => str_trunc out_size (cmd ++ str " ")
  | c :: _ => if blank c then str_trunc out_size (cmd ++ tail) else str_trunc out_size (cmd ++ str " " ++ tail)
  end.

(** The string copied into the line buffer, if any, and the text written.  [line] is the
    text before [*line_len], in a buffer of [line_max] bytes. *)
Definition nv_core_cli_tab_complete (st : cli) (fd : Z) (line : cstr) (line_max : nat)
  : Z * cli * option cstr * list cstr :=
  if (line_max <? 2)%nat || (fd <? 0) then (NV_ERROR, st, None, [])
  else
    let st := nv_core_cli_init st in
    let word_len := nv_cli_first_word_len line in
    let tail := if (word_len <? length line)%nat then str_trunc NV_CORE_CLI_LINE_MAX (drop word_len line) else [] in
    match collect (g_cli_cmds st) line word_len [] with
    | [] => (NV_OK, st, None, [nv_core_cli_write [7]])
    | [m] => (NV_OK, st, Some (str_trunc line_max (nv_cli_build_completed_line NV_CORE_CLI_LINE_MAX m tail)), [])
    | (m0 :: _) as matches =>
        let lcp_len := nv_cli_matches_lcp matches in
        let line' := if (word_len <? lcp_len)%nat
                     then Some (str_trunc line_max (str_trunc NV_CORE_CLI_LINE_MAX (take lcp_len m0 ++ tail)))
                     else None in
        (NV_OK, st, line', [nv_core_cli_write crlf] ++ map (fun m => nv_core_cli_write (m ++ str "  ")) matches ++
                           [nv_core_cli_write crlf])
    end.

(** ** Case folding *)

Abbreviation fold := (map tolower).

Lemma strcasecmp_fold a b : strcasecmp_eq a b = true <-> fold a = fold b.
Proof. apply bool_decide_eq_true. Qed.

(** *** The registry is a map *)

Definition unique (cmds : list nv_cli_cmd_node_t) : Prop := NoDup (map (fun n => fold (name n)) cmds).

Lemma find_spec cmds nm n :
  unique cmds -> nv_cli_find cmds nm = Some n <-> n ∈ cmds /\ fold (name n) = fold nm.
Proof.
  unfold unique, nv_cli_find. induction cmds as [|m cmds IH]; intros Hu; [set_solver|].
  apply NoDup_cons in Hu as [Hm Hu]. rewrite filter_cons, elem_of_cons. case_decide as Hd.
  - apply strcasecmp_fold in Hd. simpl. split.
    + intros [= <-]. auto.
    + intros [[->|Hin] He]; [done|]. destruct Hm. rewrite Hd, <- He. by apply (list_elem_of_fmap_2 (fun n => fold (name n))).
  - rewrite IH by done. rewrite strcasecmp_fold in Hd. naive_solver.
Qed.

Lemma find_none cmds nm : nv_cli_find cmds nm = None <-> forall n, n ∈ cmds -> fold (name n) <> fold nm.
Proof.
  unfold nv_cli_find. induction cmds as [|m cmds IH]; [set_solver|].
  rewrite filter_cons. case_decide as Hd; rewrite strcasecmp_fold in Hd.
  - split; [done|]. intros Hn. by destruct (Hn m ltac:(by left)).
  - rewrite IH. split; [|set_solver]. intros Hn n [->|]%elem_of_cons; auto.
Qed.

(** The abstract registry. *)
Abbreviation registry := (gmap cstr (cstr * handler * Z)).
Definition entry (n : nv_cli_cmd_node_t) : cstr * handler * Z := (help n, hdl n, userdata n).
Definition represents (cmds : list nv_cli_cmd_node_t) (m : registry) : Prop :=
  unique cmds /\ forall k e, m !! k = Some e <-> exists n, n ∈ cmds /\ fold (name n) = k /\ entry n = e.

Lemma cli_find_represents cmds m nm : represents cmds m -> entry <$> nv_cli_find cmds nm = m !! fold nm.
Proof.
  intros [Hu Hm]. destruct (nv_cli_find cmds nm) as [n|] eqn:E; simpl.
  - apply find_spec in E as [Hin He]; [|done]. symmetry. apply Hm. eauto.
  - destruct (m !! fold nm) as [e|] eqn:Em; [|done]. apply Hm in Em as (n & Hn & Hk & _).
    rewrite find_none in E. by destruct (E n Hn).
Qed.

Lemma cli_add_represents cmds m n :
  represents cmds m -> m !! fold (name n) = None -> represents (n :: cmds) (<[fold (name n) := entry n]> m).
Proof.
  intros [Hu Hm] Hn. split.
  - apply NoDup_cons. split; [|done]. intros (x & Hx & Hin)%list_elem_of_fmap.
    assert (m !! fold (name n) = Some (entry x)) by (apply Hm; eauto). congruence.
  - intros k e. destruct (decide (k = fold (name n))) as [->|Hne].
    + rewrite lookup_insert_eq. split; [intros [= <-]; exists n; set_solver|].
      intros (x & [->|Hx]%elem_of_cons & Hk & <-); [done|].
      assert (m !! fold (name n) = Some (entry x)) by (apply Hm; eauto). congruence.
    + rewrite lookup_insert_ne, Hm by done. setoid_rewrite elem_of_cons. naive_solver.
Qed.

Lemma unlink_represents cmds m nm :
  represents cmds m ->
  match unlink_cmd cmds nm with
  | Some cmds' => is_Some (m !! fold nm) /\ represents cmds' (delete (fold nm) m)
  | None => m !! fold nm = None
  end.
Proof.
  revert m. induction cmds as [|n cmds IH]; intros m [Hu Hm]; cbn [unlink_cmd].
  { destruct (m !! fold nm) eqn:E; [|done]. apply Hm in E as (? & ? & _). set_solver. }
  assert (m !! fold (name n) = Some (entry n)) as Hn by (apply Hm; exists n; set_solver).
  apply NoDup_cons in Hu as [Hnot Hu].
  assert (represents cmds (delete (fold (name n)) m)) as Hr.
  { split; [done|]. intros k e. rewrite lookup_delete_Some, Hm. setoid_rewrite elem_of_cons. split.
    - intros (Hne & x & [->|Hx] & Hk & He); [done|eauto].
    - intros (x & Hx & Hk & He). split; [|eauto 10]. intros <-. apply Hnot. rewrite <- Hk.
      by apply (list_elem_of_fmap_2 (fun n => fold (name n))). }
  destruct (strcasecmp_eq (name n) nm) eqn:Es.
  - apply strcasecmp_fold in Es. rewrite <- Es. by rewrite Hn.
  - assert (fold (name n) <> fold nm) as Hne by (rewrite <- strcasecmp_fold, Es; done).
    specialize (IH _ Hr). rewrite lookup_delete_ne in IH by done. destruct (unlink_cmd cmds nm); simpl; [|done].
    destruct IH as [H1 H2]. split; [done|].
    replace (delete (fold nm) m) with (<[fold (name n) := entry n]> (delete (fold nm) (delete (fold (name n)) m))).
    + apply cli_add_represents; [done|]. rewrite lookup_delete_ne by done. apply lookup_delete_eq.
    + apply map_eq. intros k. destruct (decide (k = fold (name n))) as [->|];
        [rewrite lookup_insert_eq, lookup_delete_ne by done; done|].
      rewrite lookup_insert_ne by done. destruct (decide (k = fold nm)) as [->|]; [by rewrite !lookup_delete_eq|].
      by rewrite !lookup_delete_ne by done.
Qed.

(** A duplicate-free list as a map. *)
Definition as_map (cmds : list nv_cli_cmd_node_t) : registry :=
  list_to_map (map (fun n => (fold (name n), entry n)) cmds).
Lemma as_map_represents cmds : unique cmds -> represents cmds (as_map cmds).
Proof.
  intros Hu. split; [done|]. intros k e. unfold as_map. rewrite <- elem_of_list_to_map.
  - rewrite list_elem_of_fmap. naive_solver.
  - unfold unique in Hu. by rewrite <- list_fmap_compose.
Qed.

Inductive op := Register (nm hlp : cstr) (h : handler) (ud : Z) | Unregister (nm : cstr) | Find (nm : cstr).
Inductive answer := Code (rc : Z) | Found (e : option (cstr * handler * Z)).

Fixpoint run (ops : list op) (st : cli) : list answer * cli :=
  match ops with
  | [] => ([], st)
  | o :: ops =>
      let '(a, st) := match o with
        | Register nm hlp h ud => let '(rc, st) := nv_core_cli_register st (Some nm) (Some hlp) h ud true in (Code rc, st)
        | Unregister nm => let '(rc, st) := nv_core_cli_unregister st (Some nm) in (Code rc, st)
        | Find nm => (Found (entry <$> nv_cli_find (g_cli_cmds st) nm), st)
        end in
      let '(rs, st) := run ops st in (a :: rs, st)
  end.

Definition spec_op (m : registry) (o : op) : answer * registry :=
  match o with
  | Register nm hlp h ud =>
      if m !! fold nm is Some _ then (Code NV_ERROR, m)
      else (Code NV_OK, <[fold nm := (str_trunc NV_CORE_CLI_HELP_MAX hlp, h, ud)]> m)
  | Unregister nm => if m !! fold nm is Some _ then (Code NV_OK, delete (fold nm) m) else (Code NV_ERROR, m)
  | Find nm => (Found (m !! fold nm), m)
  end.
Fixpoint spec_run (ops : list op) (m : registry) : list answer * registry :=
  match ops with
  | [] => ([], m)
  | o :: ops => let '(a, m) := spec_op m o in let '(rs, m) := spec_run ops m in (a :: rs, m)
  end.

Definition registrable (o : op) : Prop :=
  match o with Register nm _ _ _ => nm <> [] /\ (length nm < 32)%nat | _ => True end.

Lemma register_represents st m nm hlp h ud :
  represents (g_cli_cmds st) m -> g_cli_inited st = true -> nm <> [] -> (length nm < 32)%nat ->
  exists rc st', nv_core_cli_register st (Some nm) (Some hlp) h ud true = (rc, st') /\ g_cli_inited st' = true /\
    Code rc = (spec_op m (Register nm hlp h ud)).1 /\
    represents (g_cli_cmds st') (spec_op m (Register nm hlp h ud)).2.
Proof.
  intros Hr Hi Hne Hl. unfold nv_core_cli_register, nv_core_cli_init. rewrite Hi.
  pose proof (cli_find_represents _ _ nm Hr) as Hf. unfold nv_cli_add_node. destruct nm as [|c nm]; [done|].
  cbn [spec_op]. rewrite <- Hf. destruct (nv_cli_find (g_cli_cmds st) (c :: nm)) as [n|]; simpl fmap; cbv iota.
  - eexists _, _. by split_and!.
  - assert (str_trunc NV_CORE_CLI_NAME_MAX (c :: nm) = c :: nm) as ->.
    { apply take_ge. unfold NV_CORE_CLI_NAME_MAX. lia. }
    eexists _, _. split; [done|]. split_and!; try done.
    by apply (cli_add_represents _ m (mkCmd (c :: nm) _ h ud)).
Qed.

Lemma run_represents ops : forall st m,
  represents (g_cli_cmds st) m -> g_cli_inited st = true -> Forall registrable ops ->
  (run ops st).1 = (spec_run ops m).1 /\ represents (g_cli_cmds (run ops st).2) (spec_run ops m).2.
Proof.
  induction ops as [|o ops IH]; intros st m Hr Hi Hops; [done|]. apply Forall_cons in Hops as [Ho Hops].
  assert (exists a st' m', spec_op m o = (a, m') /\ represents (g_cli_cmds st') m' /\ g_cli_inited st' = true /\
    match o with
    | Register nm hlp h ud => let '(rc, st) := nv_core_cli_register st (Some nm) (Some hlp) h ud true in (Code rc, st)
    | Unregister nm => let '(rc, st) := nv_core_cli_unregister st (Some nm) in (Code rc, st)
    | Find nm => (Found (entry <$> nv_cli_find (g_cli_cmds st) nm), st)
    end = (a, st')) as (a & st' & m' & Es & Hr' & Hi' & Eo).
  { destruct o as [nm hlp h ud|nm|nm].
    - destruct Ho as [Hne Hl]. destruct (register_represents st m nm hlp h ud Hr Hi Hne Hl) as (rc & st' & -> & Hi' & Ha & Hm).
      exists (Code rc), st', (spec_op m (Register nm hlp h ud)).2. rewrite Ha. split_and!; try done. by destruct (spec_op _ _).
    - pose proof (unlink_represents _ _ nm Hr) as Hu. unfold nv_core_cli_unregister. cbn [spec_op].
      destruct (unlink_cmd (g_cli_cmds st) nm) as [cmds|].
      + destruct Hu as [[e ->] Hu].
        eexists _, (mkCli cmds (g_cli_interactive st) (g_cli_inited st)), _. by split_and!.
      + rewrite Hu. eexists _, st, _. by split_and!.
    - cbn [spec_op]. rewrite (cli_find_represents _ _ nm Hr). eexists _, st, _. by split_and!. }
  cbn [run spec_run]. rewrite Es, Eo. destruct (IH st' m' Hr' Hi' Hops) as [H1 H2].
  destruct (run ops st') as [rs st''], (spec_run ops m') as [rs' m'']. simpl in *. by subst.
Qed.

(** The registry after [nv_core_cli_init]. *)
Definition started : cli := nv_core_cli_init (mkCli [] false false).
Lemma started_represents : represents (g_cli_cmds started) (as_map (g_cli_cmds started)).
Proof. apply as_map_represents. unfold unique. apply (bool_decide_unpack _). vm_compute. exact I. Qed.

(** C26: for names that are not empty and have fewer than 32 bytes, registering, unregistering
    and finding commands behave as a finite map from names up to case: a name in use is
    refused, others are added, and the built-in commands are there from the start.  (Longer
    names are stored cut: [nv_core_cli_long_name_twice].) *)
Theorem nv_core_cli_registry_refines_map ops :
  Forall registrable ops ->
  (run ops started).1 = (spec_run ops (as_map (g_cli_cmds started))).1 /\
  unique (g_cli_cmds (run ops started).2).
Proof.
  intros Hops. destruct (run_represents ops started _ started_represents eq_refl Hops) as [H1 H2]. split; [done|apply H2].
Qed.

Lemma nv_core_cli_registry_refines_map_witness :
  (run [Register (str "Foo") [] (cmd_other 9) 0; Register (str "foo") [] (cmd_other 9) 0; Unregister (str "FOO"); Find (str "PING")]
     started).1 =
  [Code NV_OK; Code NV_ERROR; Code NV_OK; Found (Some (str "connectivity test", cmd_ping, 0))].
Proof.
  etransitivity; [apply nv_core_cli_registry_refines_map|vm_compute; reflexivity].
  repeat constructor; done || (simpl; lia).
Defined.

(** A name of 32 bytes or more is stored cut, so the uniqueness test never sees it:
    the same name is accepted twice and then found under neither registration. *)
Theorem nv_core_cli_long_name_twice :
  let nm := repeat 97 40 in
  (run [Register nm [] (cmd_other 1) 0; Register nm [] (cmd_other 2) 0; Find nm] started).1 =
  [Code NV_OK; Code NV_OK; Found None].
Proof. vm_compute. reflexivity. Qed.

(** ** Words *)

(** The words of a line, by one scan with the word being read. *)
Fixpoint words_from (s cur : cstr) : list cstr :=
  match s with
  | [] => match cur with [] => [] | _ => [cur] end
  | c :: s' =>
      if isspace c then match cur with [] => words_from s' [] | _ => cur :: words_from s' [] end
      else words_from s' (cur ++ [c])
  end.
Definition words (s : cstr) : list cstr := words_from s [].

Lemma words_from_run s cur :
  cur <> [] ->
  words_from s cur = (cur ++ take_while (fun c => negb (isspace c)) s) ::
                     words (tail (drop_while (fun c => negb (isspace c)) s)).
Proof.
  revert cur. induction s as [|c s IH]; intros cur Hc; simpl.
  - rewrite app_nil_r. by destruct cur.
  - destruct (isspace c); simpl; [by rewrite app_nil_r; destruct cur|].
    rewrite IH by (by destruct cur). by rewrite <- app_assoc.
Qed.

Lemma words_skip s : words s = words (drop_while isspace s).
Proof. unfold words. induction s as [|c s IH]; [done|]. simpl. destruct (isspace c) eqn:E; [done|]. simpl. by rewrite E. Qed.

Lemma split_loop_words n s : split_loop n s = take n (words s).
Proof.
  revert s. induction n as [|n IH]; intros s; [done|]. cbn [split_loop]. rewrite (words_skip s).
  destruct (drop_while isspace s) as [|c s'] eqn:E; [done|]. pose proof (drop_while_hd _ _ _ _ E) as Hc.
  unfold words. cbn [words_from]. rewrite Hc. simpl app. rewrite words_from_run by done.
  cbn [take_while drop_while]. rewrite Hc. cbn [negb]. simpl take. f_equal.
  destruct (drop_while _ s') as [|c' r]; simpl; [by destruct n|]. apply IH.
Qed.

Lemma words_trailing e : Forall (fun c => isspace c = true) e -> forall s cur, words_from (s ++ e) cur = words_from s cur.
Proof.
  intros He. assert (words_from e [] = []) as H0.
  { induction He as [|c e Hc _ IH]; [done|]. simpl. by rewrite Hc. }
  induction s as [|c s IH]; intros cur; simpl.
  - destruct cur as [|x cur]; [done|]. destruct He as [|c e Hc _]; [done|]. simpl in *. rewrite Hc in *. by rewrite H0.
  - destruct (isspace c); by rewrite !IH.
Qed.

Lemma words_chop s : words (chop_eol s) = words s.
Proof.
  unfold chop_eol. destruct (drop_while_suffix (fun c => (c =? 13) || (c =? 10)) (rev s)) as (e & He & Hf).
  apply (f_equal (@rev Z)) in He. rewrite rev_involutive, rev_app_distr in He. rewrite He at 2. symmetry.
  apply words_trailing. apply Forall_rev. eapply Forall_impl; [exact Hf|].
  intros c [->%Z.eqb_eq| ->%Z.eqb_eq]%orb_true_iff; done.
Qed.

(** A line of less than 512 bytes is run as its words say: nothing for a blank line,
    otherwise the command whose name is the first word up to case, with at most 15
    words as arguments, or the message for an unknown command. *)
Theorem nv_core_cli_dispatch report pid st fd line interactive :
  0 <= fd -> (length line < 512)%nat ->
  nv_core_cli_execute_line report pid st fd (Some line) interactive =
  let st1 := set_interactive (nv_core_cli_init st) interactive in
  match take 15 (words line) with
  | [] => (NV_OK, st1, [])
  | w :: ws =>
      match nv_cli_find (g_cli_cmds st1) w with
      | Some cmd => let '(rc, out) := call_handler report pid st1 (hdl cmd) (w :: ws) in (rc, set_interactive st1 false, out)
      | None => (NV_ERROR, set_interactive st1 false,
                 [nv_core_cli_write (str "unknown command: " ++ w ++ str " (try help)" ++ crlf)])
      end
  end.
Proof.
  intros Hfd Hl. unfold nv_core_cli_execute_line. destruct (Z.ltb_spec fd 0); [lia|].
  assert (str_trunc NV_CORE_CLI_LINE_MAX line = line) as ->.
  { apply take_ge. unfold NV_CORE_CLI_LINE_MAX. lia. }
  rewrite <- (words_chop line). unfold nv_cli_split_args. rewrite split_loop_words.
  change (16 - 1)%nat with 15%nat. by destruct (chop_eol line).
Qed.

Lemma nv_core_cli_dispatch_witness :
  nv_core_cli_execute_line (fun _ _ => (0, [])) 1 started 5 (Some (str "  PING now" ++ crlf)) true =
  (NV_OK, set_interactive started false, [str "pong" ++ crlf]).
Proof.
  rewrite (nv_core_cli_dispatch (fun _ _ => (0, [])) 1 started 5 (str "  PING now" ++ crlf) true); [|lia|vm_compute; lia].
  vm_compute. reflexivity.
Defined.

(** ** Completion *)

Lemma common_prefix_spec a b :
  let n := nv_cli_str_common_prefix a b in
  (n <= length a)%nat /\ (n <= length b)%nat /\ take n (fold a) = take n (fold b) /\
  (n = length a \/ n = length b \/ fold a !! n <> fold b !! n).
Proof.
  revert b. induction a as [|x a IH]; intros [|y b]; simpl; try (split_and!; auto; lia).
  destruct (Z.eqb_spec (tolower x) (tolower y)) as [E|E]; simpl.
  - destruct (IH b) as (H1 & H2 & H3 & H4). split_and!; try lia; [by rewrite E, H3|]. naive_solver.
  - split_and!; try lia; [done|]. right. right. congruence.
Qed.

Definition agrees (n : nat) (a b : cstr) : Prop := (n <= length b)%nat /\ take n (fold a) = take n (fold b).

Lemma agrees_le n k a b : agrees k a b -> (n <= k)%nat -> agrees n a b.
Proof.
  intros [Hl He] Hn. split; [lia|]. rewrite <- (Nat.min_l n k Hn). rewrite <- !take_take. by rewrite He.
Qed.

(** The length computed is that of the longest common prefix, up to case. *)
Lemma lcp_fold m0 ms len :
  (len <= length m0)%nat ->
  let n := foldl (fun len m => Nat.min (nv_cli_str_common_prefix m0 m) len) len ms in
  (n <= len)%nat /\ Forall (agrees n m0) ms /\
  (n = len \/ exists m, m ∈ ms /\ (n = length m0 \/ n = length m \/ fold m0 !! n <> fold m !! n)).
Proof.
  revert len. induction ms as [|m ms IH]; intros len Hlen; simpl; [split_and!; auto|].
  destruct (common_prefix_spec m0 m) as (H1 & H2 & H3 & H4).
  destruct (IH (Nat.min (nv_cli_str_common_prefix m0 m) len)) as (I1 & I2 & I3); [lia|].
  set (n := foldl _ _ ms) in *. split_and!; [lia| |].
  - constructor; [|done]. apply (agrees_le _ (nv_cli_str_common_prefix m0 m)); [by split|lia].
  - destruct I3 as [I3|(x & Hx & I3)]; [|right; exists x; set_solver].
    destruct (Nat.min_spec (nv_cli_str_common_prefix m0 m) len) as [[Hm E]|[Hm E]].
    + right. exists m. split; [by left|]. rewrite I3, E. done.
    + left. lia.
Qed.

Lemma matches_lcp_spec m0 ms :
  let n := nv_cli_matches_lcp (m0 :: ms) in
  Forall (agrees n m0) (m0 :: ms) /\ (n <= length m0)%nat /\
  (n = length m0 \/ exists m, m ∈ ms /\ (n = length m \/ fold m0 !! n <> fold m !! n)).
Proof.
  cbn [nv_cli_matches_lcp]. destruct (lcp_fold m0 ms (length m0) ltac:(lia)) as (H1 & H2 & H3).
  set (n := foldl _ _ ms) in *. split_and!; [constructor; [by split|done]|done|]. naive_solver.
Qed.

(** [strncasecmp] over bytes that are not NUL. *)
Lemma strncasecmp_agrees a line n :
  (n <= length line)%nat -> cstr_ok line -> strncasecmp_eq a line n = true -> agrees n line a.
Proof.
  intros Hn Hok E. unfold strncasecmp_eq in E. apply bool_decide_eq_true in E.
  rewrite (take_app_le (fold line)) in E by (rewrite length_map; lia).
  assert (n <= length a)%nat as Hl.
  { destruct (decide (n <= length a)%nat) as [|Hgt]; [done|]. exfalso.
    assert ((take n (fold a ++ [0])) !! length a = Some 0) as Hz.
    { rewrite lookup_take_lt by lia. rewrite lookup_app_r by (rewrite length_map; lia). by rewrite length_map, Nat.sub_diag. }
    rewrite E in Hz. rewrite lookup_take_lt in Hz by lia. apply list_lookup_fmap_Some_1 in Hz as (c & H0 & Hc).
    apply (Forall_lookup_1 _ _ _ _ Hok) in Hc. unfold char_ok, tolower in *. repeat case_match; lia. }
  split; [done|]. by rewrite take_app_le in E by (rewrite length_map; lia).
Qed.

(** The candidates have the typed word as a prefix. *)
Lemma collect_spec cmds line wl ms :
  (wl <= length line)%nat -> cstr_ok line ->
  Forall (agrees wl line) ms -> Forall (agrees wl line) (collect cmds line wl ms).
Proof.
  intros Hw Hok. revert ms. induction cmds as [|c cmds IH]; intros ms Hms; cbn [collect]; [done|].
  destruct (length ms <? 32)%nat; [|done]. apply IH.
  destruct ((wl =? 0)%nat || strncasecmp_eq (name c) line wl) eqn:E; simpl; [|done].
  destruct (negb (nv_cli_match_exists ms (name c))); [|done]. apply Forall_app. split; [done|]. apply Forall_singleton.
  apply orb_true_iff in E as [->%Nat.eqb_eq|E]; [split; [lia|done]|]. by apply strncasecmp_agrees.
Qed.

Lemma first_word_app w tl :
  Forall (fun c => blank c = false) w -> (forall c r, tl = c :: r -> blank c = true) ->
  nv_cli_first_word_len (w ++ tl) = length w.
Proof.
  intros Hw Ht. unfold nv_cli_first_word_len. induction Hw as [|c w Hc _ IH]; simpl.
  - destruct tl as [|c r]; [done|]. simpl. by rewrite (Ht c r).
  - rewrite Hc. simpl. by rewrite IH.
Qed.

Lemma agrees_app n w tl m : (n = length w)%nat -> agrees n (w ++ tl) m -> fold w `prefix_of` fold m.
Proof.
  intros -> [_ He]. rewrite map_app, take_app_le, take_ge in He by (rewrite length_map; lia).
  rewrite He. apply prefix_take.
Qed.

Lemma collect_names cmds line wl ms m :
  m ∈ collect cmds line wl ms -> m ∈ ms \/ exists c, c ∈ cmds /\ name c = m.
Proof.
  revert ms. induction cmds as [|c cmds IH]; intros ms; cbn [collect]; [auto|].
  destruct (length ms <? 32)%nat; [|auto]. intros [Hm|(x & Hx & E)]%IH; [|set_solver].
  case_match; [|auto]. apply elem_of_app in Hm as [|Hm]; [auto|]. set_solver.
Qed.

(** Completing a typed word keeps the rest of the line, replaces the word by one that
    extends it up to case, and what it is replaced with begins every candidate; a single
    candidate is completed whole, with a space when nothing follows. *)
Theorem nv_core_cli_tab_complete_extends st fd w tl :
  0 <= fd -> cstr_ok (w ++ tl) -> Forall (fun c => blank c = false) w ->
  (forall c r, tl = c :: r -> blank c = true) -> (length w + length tl < 480)%nat ->
  Forall (fun n => (length (name n) < 32)%nat) (g_cli_cmds (nv_core_cli_init st)) ->
  let matches := collect (g_cli_cmds (nv_core_cli_init st)) (w ++ tl) (length w) [] in
  exists w' new out, nv_core_cli_tab_complete st fd (w ++ tl) 512 = (NV_OK, nv_core_cli_init st, new, out) /\
    default (w ++ tl) new = w' ++ tl /\ fold w `prefix_of` fold w' /\
    match matches with
    | [] => w' = w
    | [m] => w' = m ++ match tl with [] => str " " | _ => [] end
    | _ => Forall (fun m => fold w' `prefix_of` fold m) matches
    end.
Proof.
  intros Hfd Hok Hw Ht Hlen Hn matches. unfold nv_core_cli_tab_complete. rewrite (first_word_app w tl Hw Ht).
  destruct (Z.ltb_spec fd 0); [lia|]. change (512 <? 2)%nat with false. cbn [orb].
  assert ((if (length w <? length (w ++ tl))%nat then str_trunc NV_CORE_CLI_LINE_MAX (drop (length w) (w ++ tl)) else []) = tl)
    as ->.
  { rewrite length_app, drop_app_length. unfold str_trunc, NV_CORE_CLI_LINE_MAX.
    destruct (Nat.ltb_spec (length w) (length w + length tl)); [apply take_ge; lia|].
    destruct tl; [done|simpl in *; lia]. }
  assert (Forall (agrees (length w) (w ++ tl)) matches) as Hag.
  { apply collect_spec; [rewrite length_app; lia|done|constructor]. }
  assert (Forall (fun m => (length m < 32)%nat) matches) as Hshort.
  { apply Forall_forall. intros m Hm. apply collect_names in Hm as [Hm|(c & Hc & <-)]; [set_solver|].
    by rewrite Forall_forall in Hn; apply Hn. }
  assert (forall l k, (length l <= k)%nat -> (k < 512)%nat -> str_trunc 512 l = l) as Htr.
  { intros l k H1 H2. apply take_ge. lia. }
  fold matches. destruct matches as [|m [|m' ms]].
  - exists w, None, [nv_core_cli_write [7]]. by split_and!.
  - apply Forall_inv in Hag, Hshort. cbv beta in Hshort. exists (m ++ match tl with [] => str " " | _ => [] end). eexists _, _.
    assert (nv_cli_build_completed_line NV_CORE_CLI_LINE_MAX m tl = (m ++ match tl with [] => str " " | _ => [] end) ++ tl) as ->.
    { unfold nv_cli_build_completed_line. destruct tl as [|c r]; [rewrite app_nil_r; apply (Htr _ 40%nat); [rewrite length_app; simpl; lia|lia]|].
      rewrite (Ht c r), app_nil_r by done. apply (Htr _ 511%nat); [rewrite length_app in *; lia|lia]. }
    split; [done|]. split; [|split; [|done]].
    + simpl default. rewrite (Htr _ 511%nat); [done|rewrite !length_app; destruct tl; simpl in *; lia|lia].
    + rewrite map_app. apply prefix_app_r. by eapply agrees_app.
  - set (n := nv_cli_matches_lcp (m :: m' :: ms)).
    pose proof (matches_lcp_spec m (m' :: ms)) as Hs. cbv zeta in Hs. fold n in Hs. destruct Hs as (Hall & Hnl & _).
    apply Forall_cons in Hshort as [Hm _]. cbv beta in Hm. pose proof (Forall_inv Hag) as Hwm.
    eexists (if (length w <? n)%nat then take n m else w), _, _. split; [done|]. split; [|split].
    + assert (str_trunc 512 (str_trunc NV_CORE_CLI_LINE_MAX (take n m ++ tl)) = take n m ++ tl) as ->.
      { assert (length (take n m ++ tl) <= 511)%nat by (rewrite length_app, length_take; lia).
        unfold NV_CORE_CLI_LINE_MAX. rewrite (Htr (take n m ++ tl) 511%nat) by lia. apply (Htr _ 511%nat); lia. }
      fold n. by destruct (length w <? n)%nat.
    + destruct (Nat.ltb_spec (length w) n); [|done]. apply (agrees_app (length w) w tl m eq_refl) in Hwm.
      destruct Hwm as [k Hk]. rewrite <- firstn_map, Hk. rewrite take_app_ge by (rewrite length_map; lia). apply prefix_app_r. done.
    + destruct (Nat.ltb_spec (length w) n).
      * eapply Forall_impl; [exact Hall|]. intros x [_ He]. rewrite <- firstn_map, He. apply prefix_take.
      * eapply Forall_impl; [exact Hag|]. intros x Hx. by eapply agrees_app.
Qed.

Lemma nv_core_cli_tab_complete_extends_witness :
  exists w' new out, nv_core_cli_tab_complete started 5 (str "ST") 512 = (NV_OK, started, new, out) /\
    default (str "ST") new = w' ++ [] /\ fold (str "ST") `prefix_of` fold w' /\ Forall (fun m => fold w' `prefix_of` fold m) [str "stat"; str "status"].
Proof.
  destruct (nv_core_cli_tab_complete_extends started 5 (str "ST") []) as (w' & new & out & H1 & H2 & H3 & H4).
  - lia.
  - repeat constructor; unfold char_ok; vm_compute; done.
  - repeat constructor.
  - done.
  - vm_compute; lia.
  - apply (bool_decide_unpack _). vm_compute. exact I.
  - exists w', new, out. split; [exact H1|]. split; [exact H2|]. split; [exact H3|]. exact H4.
Defined.

End Cli.
