(* ===== verification/Telnet.v ===== *)
(** * The telnet console (core/cli/nv_core_telnet.c)

    A session is a state machine over the bytes it receives: login, password, shell, with
    line editing, history, escape sequences and completion, running its lines through
    the command line of [Cli] and its credentials through the comparison of [Secure].
    Theorems: whatever is received, the session's buffers stay within bounds; no command
    runs before the configured user and password were entered; a password is not echoed;
    leaving the shell is followed by a use of the freed session. *)
From S2P Require Import Prelude Secure Cli.
Import Secure Cli.

Module Telnet.

Definition NV_TELNET_USER_MAX : nat := 64.
Definition NV_TELNET_LINE_MAX : nat := 512.
Definition NV_TELNET_HISTORY_MAX : nat := 32.
Definition NV_TELNET_ESC_BUF_MAX : nat := 8.

Inductive nv_telnet_state_t := NV_TELNET_ST_USER | NV_TELNET_ST_PASS | NV_TELNET_ST_SHELL.
#[export] Instance state_eq_dec : EqDecision nv_telnet_state_t.
Proof. solve_decision. Defined.

(** [line] is the whole array: what follows [line_len] is left over from earlier lines.
    [history] holds the [history_count] entries. *)
Record nv_telnet_sess_t := mkSess {
  state : nv_telnet_state_t;
  user : cstr;
  line : list Z;
  line_len : nat;
  history : list cstr;
  history_pos : Z;
  history_draft : cstr;
  esc_buf : list Z;
}.

(** A session with the command registry, the bytes written to the client and the lines
    submitted so far with the state they were submitted in. *)
Record world := mkW { ses : nv_telnet_sess_t; reg : cli; out : list cstr; log : list (nv_telnet_state_t * cstr) }.

Definition put (w : world) (s : cstr) : world := mkW (ses w) (reg w) (out w ++ [s]) (log w).
Definition on_ses (f : nv_telnet_sess_t -> nv_telnet_sess_t) (w : world) : world := mkW (f (ses w)) (reg w) (out w) (log w).

Definition set_state (v : nv_telnet_state_t) (s : nv_telnet_sess_t) : nv_telnet_sess_t :=
  mkSess v (user s) (line s) (line_len s) (history s) (history_pos s) (history_draft s) (esc_buf s).
Definition set_user (v : cstr) (s : nv_telnet_sess_t) : nv_telnet_sess_t :=
  mkSess (state s) v (line s) (line_len s) (history s) (history_pos s) (history_draft s) (esc_buf s).
Definition set_line (l : list Z) (n : nat) (s : nv_telnet_sess_t) : nv_telnet_sess_t :=
  mkSess (state s) (user s) l n (history s) (history_pos s) (history_draft s) (esc_buf s).
Definition set_history (l : list cstr) (s : nv_telnet_sess_t) : nv_telnet_sess_t :=
  mkSess (state s) (user s) (line s) (line_len s) l (history_pos s) (history_draft s) (esc_buf s).
Definition set_pos (p : Z) (s : nv_telnet_sess_t) : nv_telnet_sess_t :=
  mkSess (state s) (user s) (line s) (line_len s) (history s) p (history_draft s) (esc_buf s).
Definition set_draft (d : cstr) (s : nv_telnet_sess_t) : nv_telnet_sess_t :=
  mkSess (state s) (user s) (line s) (line_len s) (history s) (history_pos s) d (esc_buf s).
Definition set_esc (e : list Z) (s : nv_telnet_sess_t) : nv_telnet_sess_t :=
  mkSess (state s) (user s) (line s) (line_len s) (history s) (history_pos s) (history_draft s) e.

(** A store into an array. *)
Definition poke (l : list Z) (i : nat) (c : Z) : outcome (list Z) :=
  if (i <? length l)%nat then Ret (<[i := c]> l) else UB.

(** [nv_telnet_str_copy] into the array [dst]: the bytes after the NUL stay. *)
Definition nv_telnet_str_copy (dst : list Z) (src : cstr) : list Z :=
  let s := str_trunc (length dst) src in s ++ [0] ++ drop (S (length s)) dst.

Section console.
(** The credentials of the configuration, the handlers of [Cli], the version line of the
    banner and [ctx->quit]. *)
Context (cli_username cli_password : option cstr).
Context (report : handler -> list cstr -> Z * list cstr) (pid : Z) (banner : cstr) (quit : bool) (fd : Z).

Definition nv_telnet_auth (u p : cstr) : bool :=
  let eu := default (str "admin") cli_username in
  let ep := default (str "nvadmin") cli_password in
  nv_secure_str_equal (Some u) (Some eu) && nv_secure_str_equal (Some p) (Some ep).

Definition prompt : cstr := str "nv> ".

Definition nv_telnet_send_login_user (w : world) : world :=
  on_ses (set_state NV_TELNET_ST_USER) (put (put w banner) (str "login: ")).
Definition nv_telnet_send_login_pass (w : world) : world :=
  on_ses (set_state NV_TELNET_ST_PASS) (put w (crlf ++ str "password: ")).
Definition nv_telnet_send_shell (w : world) : world :=
  on_ses (fun s => set_esc [] (set_history [] (set_pos (-1) (set_state NV_TELNET_ST_SHELL s))))
    (put (put w (crlf ++ str "OK login successful" ++ crlf)) prompt).

Definition nv_telnet_redraw_line (w : world) : outcome world :=
  l ← poke (line (ses w)) (line_len (ses w)) 0;
  t ← field_string l;
  Ret (put (on_ses (set_line l (line_len (ses w))) w) ([13; 27] ++ str "[K" ++ prompt ++ t)).

Definition nv_telnet_history_add (s : nv_telnet_sess_t) (l : cstr) : nv_telnet_sess_t :=
  if (length l =? 0)%nat || negb (bool_decide (state s = NV_TELNET_ST_SHELL)) then s
  else if bool_decide (last (history s) = Some l) then s
  else
    let h := if (length (history s) <? NV_TELNET_HISTORY_MAX)%nat then history s else drop 1 (history s) in
    set_pos (-1) (set_history (h ++ [str_trunc NV_TELNET_LINE_MAX l]) s).

(** Show a string as the edited line. *)
Definition show_line (t : cstr) (w : world) : outcome world :=
  let l := nv_telnet_str_copy (line (ses w)) t in
  t ← field_string l;
  nv_telnet_redraw_line (on_ses (set_line l (length t)) w).

Definition nv_telnet_history_up (w : world) : outcome world :=
  let s := ses w in
  let count := Z.of_nat (length (history s)) in
  if negb (bool_decide (state s = NV_TELNET_ST_SHELL)) || (count <=? 0) then Ret w
  else if history_pos s <? 0 then
    t ← field_string (line s);
    h ← deref (history s !! Z.to_nat (count - 1));
    show_line h (on_ses (fun s => set_pos (count - 1) (set_draft (str_trunc NV_TELNET_LINE_MAX t) s)) w)
  else if 0 <? history_pos s then
    h ← deref (history s !! Z.to_nat (history_pos s - 1));
    show_line h (on_ses (set_pos (history_pos s - 1)) w)
  else Ret w.

Definition nv_telnet_history_down (w : world) : outcome world :=
  let s := ses w in
  let count := Z.of_nat (length (history s)) in
  if negb (bool_decide (state s = NV_TELNET_ST_SHELL)) || (history_pos s <? 0) then Ret w
  else if count - 1 <=? history_pos s then show_line (history_draft s) (on_ses (set_pos (-1)) w)
  else
    h ← deref (history s !! Z.to_nat (history_pos s + 1));
    show_line h (on_ses (set_pos (history_pos s + 1)) w).

(** The bytes of the escape buffer before a NUL. *)
Definition esc_string (e : list Z) : cstr := take_while (fun c => negb (c =? 0)) e.

(** The byte [c] of an escape sequence (the buffer is not empty, or [c] is ESC). *)
Definition nv_telnet_escape_feed (w : world) (c : Z) : outcome world :=
  let e := if (length (esc_buf (ses w)) <? NV_TELNET_ESC_BUF_MAX - 1)%nat then esc_buf (ses w) ++ [c] else esc_buf (ses w) in
  let w := on_ses (set_esc e) w in
  let sq := esc_string e in
  if strstr sq (str "[A") || strstr sq (str "OA") then
    w ← nv_telnet_history_up w; Ret (on_ses (set_esc []) w)
  else if strstr sq (str "[B") || strstr sq (str "OB") then
    w ← nv_telnet_history_down w; Ret (on_ses (set_esc []) w)
  else
    let second := default 0 (e !! 1%nat) in
    if (3 <=? length e)%nat || ((2 <=? length e)%nat && negb (second =? ch "[") && negb (second =? ch "O"))
    then Ret (on_ses (set_esc []) w) else Ret w.

(** [nv_telnet_process_line]; [None] when the session was removed and freed. *)
Definition nv_telnet_process_line (w : world) : outcome (option world) :=
  l ← poke (line (ses w)) (line_len (ses w)) 0;
  t ← field_string l;
  let w := mkW (set_line l (line_len (ses w)) (ses w)) (reg w) (out w) (log w ++ [(state (ses w), t)]) in
  match state (ses w) with
  | NV_TELNET_ST_USER =>
      Ret (Some (nv_telnet_send_login_pass
        (on_ses (fun s => set_line (line s) 0 (set_user (str_trunc NV_TELNET_USER_MAX t) s)) w)))
  | NV_TELNET_ST_PASS =>
      if nv_telnet_auth (user (ses w)) t
      then Ret (Some (nv_telnet_send_shell (on_ses (fun s => set_line (line s) 0 s) w)))
      else Ret (Some (nv_telnet_send_login_user
             (on_ses (fun s => set_line (line s) 0 s) (put w (crlf ++ str "login incorrect" ++ crlf)))))
  | NV_TELNET_ST_SHELL =>
      let w := put (on_ses (fun s => nv_telnet_history_add s t) w) crlf in
      let '(rc, reg', o) := nv_core_cli_execute_line report pid (reg w) fd (Some t) true in
      let w := mkW (set_esc [] (set_pos (-1) (set_line (line (ses w)) 0 (ses w)))) reg' (out w ++ o) (log w) in
      if rc =? NV_CLI_CLOSE_SESSION then Ret None
      else Ret (Some (if quit then w else put w prompt))
  end.

Definition nv_telnet_tab_complete (w : world) : outcome world :=
  if negb (bool_decide (state (ses w) = NV_TELNET_ST_SHELL)) then Ret w
  else
    let w := on_ses (fun s => if 0 <=? history_pos s then set_pos (-1) s else s) w in
    l ← poke (line (ses w)) (line_len (ses w)) 0;
    t ← field_string l;
    let '(_, reg', new, o) := nv_core_cli_tab_complete (reg w) fd t NV_TELNET_LINE_MAX in
    let s := match new with
             | Some t' => set_line (zeroed NV_TELNET_LINE_MAX t') (length t') (ses w)   (* [strncpy] pads *)
             | None => set_line l (line_len (ses w)) (ses w)
             end in
    nv_telnet_redraw_line (mkW s reg' (out w ++ o) (log w)).

Definition nv_telnet_echo_char (w : world) (c : Z) : world :=
  put w (if bool_decide (state (ses w) = NV_TELNET_ST_PASS) then str "*" else [c]).

(** A printable byte. *)
Definition type_char (w : world) (c : Z) : outcome world :=
  if (line_len (ses w) <? NV_TELNET_LINE_MAX - 1)%nat then
    w ← (if bool_decide (state (ses w) = NV_TELNET_ST_SHELL) && (0 <=? history_pos (ses w)) then
           l ← poke (line (ses w)) 0 0; Ret (on_ses (fun s => set_line l 0 (set_pos (-1) s)) w)
         else Ret w);
    l ← poke (line (ses w)) (line_len (ses w)) c;
    Ret (nv_telnet_echo_char (on_ses (set_line l (S (line_len (ses w)))) w) c)
  else Ret w.

(** [nv_telnet_feed]; touching the session after it was freed is undefined. *)
Fixpoint nv_telnet_feed (w : world) (data : list Z) : outcome (option world) :=
  match data with
  | [] => Ret (Some w)
  | c :: rest =>
      if negb (length (esc_buf (ses w)) =? 0)%nat || (c =? 27) then
        w ← nv_telnet_escape_feed w c; nv_telnet_feed w rest
      else if c =? 255 then
        match rest with
        | [] => nv_telnet_feed w rest
        | cmd :: rest' =>
            if (251 <=? cmd) && (cmd <=? 254) then
              match rest' with
              | [] => nv_telnet_feed w rest'
              | _ :: rest'' => nv_telnet_feed w rest''
              end
            else nv_telnet_feed w rest'
        end
      else if c =? 13 then
        r ← nv_telnet_process_line w;
        match r with
        | Some w => nv_telnet_feed w rest
        | None => match rest with [] => Ret None | _ => UB end
        end
      else if c =? 10 then
        if (0 <? line_len (ses w))%nat then
          r ← nv_telnet_process_line w;
          match r with
          | Some w => nv_telnet_feed w rest
          | None => match rest with [] => Ret None | _ => UB end
          end
        else nv_telnet_feed w rest
      else if (c =? 127) || (c =? 8) then
        if (0 <? line_len (ses w))%nat
        then nv_telnet_feed (put (on_ses (fun s => set_line (line s) (line_len s - 1) s) w) [8; 32; 8]) rest
        else nv_telnet_feed w rest
      else if c =? 9 then w ← nv_telnet_tab_complete w; nv_telnet_feed w rest
      else if c <? 32 then nv_telnet_feed w rest
      else w ← type_char w c; nv_telnet_feed w rest
  end.

(** One readiness of the client's socket: [Some] bytes read, or the end of the stream.
    After the bytes are fed the handler looks at [sess->ctx]. *)
Definition nv_telnet_client_handler (w : world) (input : option (list Z)) : outcome (option world) :=
  match input with
  | None | Some [] => Ret None
  | Some data =>
      r ← nv_telnet_feed w data;
      match r with
      | Some w => if quit then Ret None else Ret (Some w)
      | None => UB
      end
  end.

(** Successive reads of a client, for as long as its session lives. *)
Fixpoint reads (w : world) (chunks : list (list Z)) : outcome (option world) :=
  match chunks with
  | [] => Ret (Some w)
  | d :: ds =>
      r ← nv_telnet_client_handler w (Some d);
      match r with Some w => reads w ds | None => Ret None end
  end.

(** A session just accepted ([calloc] zeroes it). *)
Definition nv_telnet_sess_start (reg : cli) : world :=
  nv_telnet_send_login_user
    (mkW (mkSess NV_TELNET_ST_USER [] (repeat 0 NV_TELNET_LINE_MAX) 0 [] (-1) [] []) reg
       [[255; 251; 3; 255; 251; 1; 255; 253; 1; 255; 254; 34]] []).

End console.

(** ** Buffers *)

(** The line array: a NUL in its last cell, which nothing overwrites. *)
Record array_ok (l : list Z) : Prop := {
  ao_len : length l = 512%nat;
  ao_last : l !! 511%nat = Some 0;
  ao_bytes : Forall (fun c => 0 <= c < 256) l;
}.
Definition text_ok (t : cstr) : Prop := cstr_ok t /\ (length t <= 511)%nat.

Record sess_ok (s : nv_telnet_sess_t) : Prop := {
  so_line : array_ok (line s);
  so_len : (line_len s <= 511)%nat;
  so_text : cstr_ok (take (line_len s) (line s));
  so_user : cstr_ok (user s);
  so_hist : Forall text_ok (history s) /\ (length (history s) <= 32)%nat;
  so_pos : -1 <= history_pos s < Z.of_nat (length (history s)) \/ history_pos s = -1;
  so_draft : text_ok (history_draft s);
  so_esc : (length (esc_buf s) <= 2)%nat;
}.

(** The line being edited. *)
Definition cur (s : nv_telnet_sess_t) : cstr := take (line_len s) (line s).
Lemma cur_ok s : sess_ok s -> text_ok (cur s).
Proof. intros Hs. split; [apply Hs|]. unfold cur. rewrite length_take. pose proof (so_len _ Hs). lia. Qed.

Lemma poke_array l i c : array_ok l -> (i < 511)%nat \/ c = 0 -> (i <= 511)%nat -> 0 <= c < 256 ->
  poke l i c = Ret (<[i := c]> l) /\ array_ok (<[i := c]> l).
Proof.
  intros [H1 H2 H3] Hi Hle Hc. unfold poke. destruct (Nat.ltb_spec i (length l)); [|lia]. split; [done|]. split.
  - by rewrite length_insert.
  - destruct (decide (i = 511)%nat) as [->|]; [rewrite list_lookup_insert_eq by lia; destruct Hi; [lia|by subst]|].
    by rewrite list_lookup_insert_ne.
  - by apply Forall_insert.
Qed.

(** A NUL after text makes the array that text. *)
Lemma field_string_at l t : take (length t) l = t -> cstr_ok t -> l !! length t = Some 0 -> field_string l = Ret t.
Proof.
  intros Ht Hok Hz. unfold field_string. assert (strchr l 0 = Some (length t)) as ->; [|by rewrite Ht].
  apply strchr_Some. split; [done|]. intros j Hj E.
  assert (t !! j = Some 0) as Ej by (rewrite <- Ht, lookup_take_lt; done).
  apply (Forall_lookup_1 _ _ _ _ Hok) in Ej. unfold char_ok in Ej. lia.
Qed.

(** Any array is some text. *)
Lemma field_string_array l : array_ok l -> exists t, field_string l = Ret t /\ text_ok t.
Proof.
  intros [H1 H2 H3]. unfold field_string. destruct (strchr l 0) as [i|] eqn:E.
  - exists (take i l). split; [done|]. apply strchr_Some in E as [Ei Hj]. split.
    + apply Forall_lookup. intros j c Hc. assert (j < i)%nat as Hji.
      { apply lookup_lt_Some in Hc. rewrite length_take in Hc. lia. }
      rewrite lookup_take_lt in Hc by done. pose proof (Forall_lookup_1 _ _ _ _ H3 Hc) as Hb.
      unfold char_ok. assert (c <> 0) by (intros ->; by apply (Hj j)). cbv beta in Hb. lia.
    + rewrite length_take. destruct (decide (i <= 511)%nat); [lia|]. exfalso. apply (Hj 511%nat); [lia|done].
  - apply strchr_None in E. destruct E. by eapply list_elem_of_lookup_2.
Qed.

Lemma str_copy_array l t : array_ok l -> text_ok t ->
  array_ok (nv_telnet_str_copy l t) /\ take (length t) (nv_telnet_str_copy l t) = t /\
  nv_telnet_str_copy l t !! length t = Some 0.
Proof.
  intros [H1 H2 H3] [Ht Hl]. unfold nv_telnet_str_copy. rewrite H1.
  assert (str_trunc 512 t = t) as -> by (apply take_ge; lia). split_and!.
  - split.
    + rewrite !length_app, length_drop, H1. simpl. lia.
    + destruct (decide (length t = 511)%nat) as [E|].
      * rewrite lookup_app_r, E by lia. done.
      * rewrite lookup_app_r by lia. rewrite lookup_app_r by (simpl; lia). rewrite lookup_drop.
        simpl length. by replace (S (length t) + (511 - length t - 1))%nat with 511%nat by lia.
    + apply Forall_app. split; [|apply Forall_app; split; [by repeat constructor|by apply Forall_drop]].
      eapply Forall_impl; [exact Ht|]. unfold char_ok. intros; lia.
  - by rewrite take_app_length.
  - by rewrite lookup_app_r, Nat.sub_diag.
Qed.

Lemma zeroed_array t : text_ok t -> array_ok (zeroed 512 t) /\ take (length t) (zeroed 512 t) = t /\ zeroed 512 t !! length t = Some 0.
Proof.
  intros [Ht Hl]. unfold zeroed. split_and!.
  - split.
    + rewrite length_app, repeat_length. lia.
    + rewrite lookup_app_r by lia. apply lookup_repeat. lia.
    + apply Forall_app. split; [eapply Forall_impl; [exact Ht|]; unfold char_ok; intros; lia|].
      apply Forall_forall. intros c Hc. apply list_elem_of_In, repeat_spec in Hc. lia.
  - by rewrite take_app_length.
  - rewrite lookup_app_r by lia. rewrite Nat.sub_diag. apply lookup_repeat. lia.
Qed.

(** Terminating the edited line. *)
Lemma terminate s : sess_ok s ->
  poke (line s) (line_len s) 0 = Ret (<[line_len s := 0]> (line s)) /\
  array_ok (<[line_len s := 0]> (line s)) /\ field_string (<[line_len s := 0]> (line s)) = Ret (cur s) /\
  take (line_len s) (<[line_len s := 0]> (line s)) = cur s.
Proof.
  intros Hs. pose proof (so_len _ Hs) as Hl. pose proof (so_line _ Hs) as Ha.
  destruct (poke_array (line s) (line_len s) 0 Ha) as [H1 H2]; [by right|done|lia|].
  assert (take (line_len s) (<[line_len s := 0]> (line s)) = cur s) as Ht by (by rewrite take_insert_ge).
  assert (length (cur s) = line_len s) as Hlen by (unfold cur; rewrite length_take, (ao_len _ Ha); lia).
  split_and!; try done. apply field_string_at; [by rewrite Hlen|apply Hs|]. rewrite Hlen.
  apply list_lookup_insert_eq. rewrite (ao_len _ Ha). lia.
Qed.

(** *** Fields *)
Lemma ok_set_line s l n : sess_ok s -> array_ok l -> (n <= 511)%nat -> cstr_ok (take n l) -> sess_ok (set_line l n s).
Proof. intros [] Hl Hn Ht. by split. Qed.
Lemma ok_set_pos s p : sess_ok s -> -1 <= p < Z.of_nat (length (history s)) \/ p = -1 -> sess_ok (set_pos p s).
Proof. intros [] Hp. by split. Qed.
Lemma ok_set_draft s d : sess_ok s -> text_ok d -> sess_ok (set_draft d s).
Proof. intros [] Hd. by split. Qed.
Lemma ok_set_esc s e : sess_ok s -> (length e <= 2)%nat -> sess_ok (set_esc e s).
Proof. intros [] He. by split. Qed.
Lemma ok_set_state s v : sess_ok s -> sess_ok (set_state v s).
Proof. intros []. by split. Qed.
Lemma ok_set_user s u : sess_ok s -> cstr_ok u -> sess_ok (set_user u s).
Proof. intros [] Hu. by split. Qed.
Lemma ok_clear s : sess_ok s -> sess_ok (set_line (line s) 0 s).
Proof. intros Hs. apply ok_set_line; [done|apply Hs|lia|constructor]. Qed.

Create HintDb telnet.
#[local] Hint Resolve ok_set_pos ok_set_draft ok_set_esc ok_set_state ok_set_user ok_clear : telnet.

Definition reg_ok (st : cli) : Prop := Forall (fun n => cstr_ok (name n)) (g_cli_cmds (nv_core_cli_init st)).
Definition wok (w : world) : Prop := sess_ok (ses w) /\ reg_ok (reg w).

(** [w'] differs from [w] by editing only. *)
Definition edited (w w' : world) : Prop :=
  wok w' /\ state (ses w') = state (ses w) /\ user (ses w') = user (ses w) /\ log w' = log w.

Lemma edited_trans w1 w2 w3 : edited w1 w2 -> edited w2 w3 -> edited w1 w3.
Proof. intros (_ & H1 & H2 & H3) (? & H4 & H5 & H6). split_and!; congruence || done. Qed.

Lemma redraw_ok w : wok w -> exists w', nv_telnet_redraw_line w = Ret w' /\ edited w w' /\ cur (ses w') = cur (ses w) /\
  line_len (ses w') = line_len (ses w) /\ history_pos (ses w') = history_pos (ses w) /\ esc_buf (ses w') = esc_buf (ses w).
Proof.
  intros [Hs Hr]. unfold nv_telnet_redraw_line. destruct (terminate _ Hs) as (-> & H2 & H3 & H4).
  cbn [mbind outcome_bind]. rewrite H3. cbn [mbind outcome_bind]. eexists. split; [done|].
  split; [|by split_and!]. split; [|done]. split; [|done]. apply (ok_set_line (ses w)); [done|done|apply Hs|].
  rewrite H4. apply Hs.
Qed.

Lemma show_line_ok t w : wok w -> text_ok t -> exists w', show_line t w = Ret w' /\ edited w w' /\ cur (ses w') = t.
Proof.
  intros [Hs Hr] Ht. unfold show_line. destruct (str_copy_array (line (ses w)) t (so_line _ Hs) Ht) as (H1 & H2 & H3).
  rewrite (field_string_at _ t H2 (proj1 Ht) H3). cbn [mbind outcome_bind].
  set (w1 := on_ses _ w). assert (wok w1) as Hw1.
  { split; [|done]. cbn. apply ok_set_line; [done|done|apply Ht|]. rewrite H2. apply Ht. }
  destruct (redraw_ok w1 Hw1) as (w' & E & He & Hc & _). exists w'. split; [done|]. split; [done|]. by rewrite Hc.
Qed.

Lemma lookup_history s i : sess_ok s -> 0 <= i < Z.of_nat (length (history s)) ->
  exists h, history s !! Z.to_nat i = Some h /\ text_ok h.
Proof.
  intros Hs Hi. destruct (lookup_lt_is_Some_2 (history s) (Z.to_nat i)) as [h Hh]; [lia|].
  exists h. split; [done|]. eapply Forall_lookup_1; [apply Hs|done].
Qed.

Lemma edited_on w f : wok w -> sess_ok (f (ses w)) -> state (f (ses w)) = state (ses w) -> user (f (ses w)) = user (ses w) ->
  edited w (on_ses f w).
Proof. intros [_ Hr] H1 H2 H3. by split_and!. Qed.

Lemma edited_refl w : wok w -> edited w w.
Proof. intros. by split_and!. Qed.

Lemma history_up_ok w : wok w -> exists w', nv_telnet_history_up w = Ret w' /\ edited w w'.
Proof.
  intros Hw. pose proof Hw as [Hs Hr]. unfold nv_telnet_history_up. pose proof (so_pos _ Hs) as Hp.
  destruct (negb _ || _) eqn:Eg; [eauto using edited_refl|]. apply orb_false_iff in Eg as [_ Hc%Z.leb_gt].
  destruct (Z.ltb_spec (history_pos (ses w)) 0).
  - destruct (field_string_array _ (so_line _ Hs)) as (t & -> & Ht). cbn [mbind outcome_bind].
    destruct (lookup_history _ (Z.of_nat (length (history (ses w))) - 1) Hs) as (h & -> & Hh); [lia|].
    cbn [deref mbind outcome_bind]. set (w1 := on_ses _ w).
    assert (edited w w1) as He.
    { apply edited_on; [done| |done|done]. apply ok_set_pos; [|cbn; lia]. apply ok_set_draft; [done|].
      split; [apply Forall_take, Ht|]. unfold str_trunc. rewrite length_take. destruct Ht. lia. }
    destruct (show_line_ok h w1 (proj1 He) Hh) as (w' & -> & He' & _). eauto using edited_trans.
  - destruct (Z.ltb_spec 0 (history_pos (ses w))); [|eauto using edited_refl].
    destruct (lookup_history _ (history_pos (ses w) - 1) Hs) as (h & -> & Hh); [lia|].
    cbn [deref mbind outcome_bind]. set (w1 := on_ses _ w).
    assert (edited w w1) as He by (apply edited_on; [done|apply ok_set_pos; [done|lia]|done|done]).
    destruct (show_line_ok h w1 (proj1 He) Hh) as (w' & -> & He' & _). eauto using edited_trans.
Qed.

Lemma history_down_ok w : wok w -> exists w', nv_telnet_history_down w = Ret w' /\ edited w w'.
Proof.
  intros Hw. pose proof Hw as [Hs Hr]. unfold nv_telnet_history_down. pose proof (so_pos _ Hs) as Hp.
  destruct (negb _ || _) eqn:Eg; [eauto using edited_refl|]. apply orb_false_iff in Eg as [_ Hc%Z.ltb_ge].
  destruct (Z.leb_spec (Z.of_nat (length (history (ses w))) - 1) (history_pos (ses w))).
  - set (w1 := on_ses _ w).
    assert (edited w w1) as He by (apply edited_on; [done|apply ok_set_pos; [done|lia]|done|done]).
    destruct (show_line_ok (history_draft (ses w)) w1 (proj1 He) (so_draft _ Hs)) as (w' & -> & He' & _).
    eauto using edited_trans.
  - destruct (lookup_history _ (history_pos (ses w) + 1) Hs) as (h & -> & Hh); [lia|].
    cbn [deref mbind outcome_bind]. set (w1 := on_ses _ w).
    assert (edited w w1) as He by (apply edited_on; [done|apply ok_set_pos; [done|lia]|done|done]).
    destruct (show_line_ok h w1 (proj1 He) Hh) as (w' & -> & He' & _). eauto using edited_trans.
Qed.

Lemma escape_ok w c : wok w -> exists w', nv_telnet_escape_feed w c = Ret w' /\ edited w w'.
Proof.
  intros Hw. pose proof Hw as [Hs Hr]. unfold nv_telnet_escape_feed. 
  set (e := if (length (esc_buf (ses w)) <? NV_TELNET_ESC_BUF_MAX - 1)%nat then esc_buf (ses w) ++ [c] else esc_buf (ses w)).
  assert (length e <= 3)%nat as Hl.
  { unfold e. pose proof (so_esc _ Hs). case_match; rewrite ?length_app; simpl; lia. }
  (* the buffer has three bytes at most while the history is consulted, and is emptied after *)
  assert (forall w1, edited w w1 -> exists w2, Ret (on_ses (set_esc []) w1) = Ret w2 /\ edited w w2) as Hdone.
  { intros w1 He. eexists. split; [done|]. eapply edited_trans; [done|]. destruct He as [H1 _].
    apply edited_on; auto with telnet. apply ok_set_esc; [apply H1|simpl; lia]. }
  assert (forall f, (forall x, wok x -> exists w', f x = Ret w' /\ edited x w') ->
    (forall x e, f (on_ses (set_esc e) x) = (y ← f x; Ret (on_ses (set_esc e) y))) ->
    exists w', (w0 ← f (on_ses (set_esc e) w); Ret (on_ses (set_esc []) w0)) = Ret w' /\ edited w w') as Hhist.
  { intros f Hf Hcomm. rewrite Hcomm. destruct (Hf w Hw) as (w1 & -> & He). cbn [mbind outcome_bind].
    change (on_ses (set_esc []) (on_ses (set_esc e) w1)) with (on_ses (set_esc []) w1). by apply Hdone. }
  assert (forall t x e', show_line t (on_ses (set_esc e') x) = (y ← show_line t x; Ret (on_ses (set_esc e') y))) as Hshow.
  { intros t x e'. unfold show_line, nv_telnet_redraw_line. cbn [on_ses ses line set_esc line_len set_line].
    destruct (field_string _) as [t'| |]; [|done..]. cbn [mbind outcome_bind on_ses ses line set_esc line_len set_line].
    destruct (poke _ _ _) as [l'| |]; [|done..]. cbn [mbind outcome_bind]. by destruct (field_string l'). }
  case_match; [apply Hhist; [apply history_up_ok|]|case_match; [apply Hhist; [apply history_down_ok|]|]].
  - intros x e'. unfold nv_telnet_history_up. cbn [on_ses ses history state history_pos line set_esc].
    case_match; [done|]. case_match.
    + destruct (field_string (line (ses x))); [|done..]. cbn [mbind outcome_bind].
      destruct (history (ses x) !! _); [|done]. cbn [deref mbind outcome_bind]. by rewrite <- Hshow.
    + case_match; [|done]. destruct (history (ses x) !! _); [|done]. cbn [deref mbind outcome_bind]. by rewrite <- Hshow.
  - intros x e'. unfold nv_telnet_history_down. cbn [on_ses ses history state history_pos history_draft set_esc].
    case_match; [done|]. case_match; [by rewrite <- Hshow|].
    destruct (history (ses x) !! _); [|done]. cbn [deref mbind outcome_bind]. by rewrite <- Hshow.
  - case_match eqn:E3; [apply (Hdone w), edited_refl; done|]. eexists. split; [done|].
    apply edited_on; [done| |done|done]. apply ok_set_esc; [done|].
    apply orb_false_iff in E3 as [E3%Nat.leb_gt _]. lia.
Qed.

(** The completion puts well-formed text in the line. *)
Lemma collect_ok cmds l n ms : Forall (fun c => cstr_ok (name c)) cmds -> Forall cstr_ok ms -> Forall cstr_ok (collect cmds l n ms).
Proof.
  intros Hc Hm. apply Forall_forall. rewrite Forall_forall in Hc. rewrite Forall_forall in Hm.
  intros m [Hin|(c & Hin & <-)]%collect_names; [by apply Hm|by apply Hc].
Qed.
Lemma trunc_text t : cstr_ok t -> text_ok (str_trunc 512 t).
Proof. intros Ht. split; [by apply Forall_take|]. unfold str_trunc. rewrite length_take. lia. Qed.

Lemma complete_ok st fd t rc st' new o :
  cstr_ok t -> reg_ok st -> nv_core_cli_tab_complete st fd t 512 = (rc, st', new, o) ->
  reg_ok st' /\ forall t', new = Some t' -> text_ok t'.
Proof.
  intros Ht Hr. unfold nv_core_cli_tab_complete. case_match; [by intros [= <- <- <- <-]|].
  pose proof (collect_ok _ t (nv_cli_first_word_len t) [] Hr ltac:(constructor)) as Hc.
  set (tl := if (nv_cli_first_word_len t <? length t)%nat then str_trunc _ _ else []). assert (cstr_ok tl) as Htl.
  { unfold tl. case_match; [by apply Forall_take, Forall_drop|constructor]. }
  assert (reg_ok (nv_core_cli_init st)) as Hr'.
  { unfold reg_ok in *. unfold nv_core_cli_init at 1. unfold nv_core_cli_init in Hr |- *. destruct (g_cli_inited st) eqn:E; [|done].
    by rewrite E. }
  destruct (collect _ _ _ _) as [|m [|m' ms]].
  - by intros [= <- <- <- <-].
  - intros [= <- <- <- <-]. split; [done|]. intros t' [= <-]. apply trunc_text. apply Forall_inv in Hc.
    assert (cstr_ok (m ++ str " " ++ tl)) as H1 by (apply Forall_app; split; [done|constructor; [vm_compute; intuition discriminate|done]]).
    assert (cstr_ok (m ++ str " ")) as H2 by (apply Forall_app; split; [done|by repeat constructor]).
    unfold nv_cli_build_completed_line. destruct tl as [|c r]; [by apply Forall_take|].
    case_match; apply Forall_take; [by apply Forall_app|done].
  - intros [= <- <- <- <-]. split; [done|]. intros t'. case_match; [|done]. intros [= <-]. apply trunc_text, Forall_take.
    apply Forall_app. split; [|done]. by apply Forall_take, (Forall_inv Hc).
Qed.

Lemma tab_ok fd w : wok w -> exists w', nv_telnet_tab_complete fd w = Ret w' /\ edited w w'.
Proof.
  intros Hw. unfold nv_telnet_tab_complete. case_match; [eauto using edited_refl|].
  set (w1 := on_ses _ w). assert (edited w w1) as He1.
  { apply edited_on; [done| |by case_match|by case_match]. destruct Hw as [Hs _]. case_match; [|done]. apply ok_set_pos; auto. }
  pose proof He1 as [[Hs1 Hr1] _]. destruct (terminate _ Hs1) as (-> & H2 & H3 & H4). cbn [mbind outcome_bind].
  rewrite H3. cbn [mbind outcome_bind]. unfold NV_TELNET_LINE_MAX.
  destruct (nv_core_cli_tab_complete (reg w1) fd (cur (ses w1)) 512) as [[[rc st'] new] o] eqn:Ec.
  apply complete_ok in Ec as [Hr' Hn]; [|apply Hs1|done]. cbn zeta.
  set (s2 := match new with Some t' => set_line (zeroed 512 t') _ _ | None => _ end).
  assert (sess_ok s2 /\ state s2 = state (ses w1) /\ user s2 = user (ses w1)) as (Hs2 & E1 & E2).
  { unfold s2. destruct new as [t'|].
    - specialize (Hn t' eq_refl). destruct (zeroed_array t' Hn) as (Hz1 & Hz2 & _). split_and!; try done.
      apply ok_set_line; [done|done|apply Hn|]. rewrite Hz2. apply Hn.
    - split_and!; try done. apply ok_set_line; [done|done|apply Hs1|]. rewrite H4. apply Hs1. }
  destruct (redraw_ok (mkW s2 st' (out w1 ++ o) (log w1))) as (w' & -> & He & _); [done|].
  eexists. split; [done|]. destruct He1 as (_ & H5 & H6 & H7), He as (H8 & H9 & H10 & H11). cbn in *.
  split_and!; try done; congruence.
Qed.

(** Typing a byte at the end of the line. *)
Lemma append_char w c : wok w -> (line_len (ses w) < 511)%nat -> char_ok c ->
  exists l, poke (line (ses w)) (line_len (ses w)) c = Ret l /\
    edited w (on_ses (set_line l (S (line_len (ses w)))) w) /\ take (S (line_len (ses w))) l = cur (ses w) ++ [c].
Proof.
  intros Hw Hl Hc. pose proof Hw as [Hs _]. unfold char_ok in Hc.
  destruct (poke_array (line (ses w)) (line_len (ses w)) c (so_line _ Hs)) as [H1 H2]; [by left|lia|lia|].
  exists (<[line_len (ses w) := c]> (line (ses w))). split; [done|].
  assert (take (S (line_len (ses w))) (<[line_len (ses w):=c]> (line (ses w))) = cur (ses w) ++ [c]) as Ht.
  { rewrite (take_S_r _ _ c); [|apply list_lookup_insert_eq; rewrite (ao_len _ (so_line _ Hs)); lia].
    by rewrite take_insert_ge by lia. }
  split; [|done]. apply edited_on; [done| |done|done]. apply ok_set_line; [done|done|lia|]. rewrite Ht.
  apply Forall_app. split; [apply Hs|]. constructor; [done|constructor].
Qed.

Lemma type_char_ok w c : wok w -> char_ok c -> exists w', type_char w c = Ret w' /\ edited w w'.
Proof.
  intros Hw Hc. unfold type_char. change (NV_TELNET_LINE_MAX - 1)%nat with 511%nat.
  destruct (Nat.ltb_spec (line_len (ses w)) 511); [|eauto using edited_refl].
  assert (exists w1, (if bool_decide (state (ses w) = NV_TELNET_ST_SHELL) && (0 <=? history_pos (ses w)) then
      l ← poke (line (ses w)) 0 0; Ret (on_ses (fun s => set_line l 0 (set_pos (-1) s)) w) else Ret w) = Ret w1 /\
    edited w w1 /\ (line_len (ses w1) < 511)%nat) as (w1 & -> & He & Hl).
  { case_match; [|eauto using edited_refl]. destruct Hw as [Hs Hr].
    destruct (poke_array (line (ses w)) 0 0 (so_line _ Hs)) as [-> H2]; [by right|lia|lia|]. cbn [mbind outcome_bind].
    eexists. split; [done|]. split; [|simpl; lia]. apply edited_on; [by split| |done|done].
    apply ok_set_line; [apply ok_set_pos; auto|done|lia|constructor]. }
  cbn [mbind outcome_bind]. destruct (append_char w1 c (proj1 He) Hl Hc) as (l & -> & He1 & _). cbn [mbind outcome_bind].
  eexists. split; [done|]. eapply edited_trans; [done|]. done.
Qed.

Lemma init_again st b : nv_core_cli_init (set_interactive (nv_core_cli_init st) b) = set_interactive (nv_core_cli_init st) b.
Proof. unfold nv_core_cli_init. destruct (g_cli_inited st) eqn:E; cbn [g_cli_inited set_interactive]; by rewrite ?E. Qed.

Lemma exec_reg report pid st fd t i rc st' o :
  reg_ok st -> nv_core_cli_execute_line report pid st fd t i = (rc, st', o) -> reg_ok st'.
Proof.
  intros Hr. unfold nv_core_cli_execute_line.
  assert (forall b, reg_ok (set_interactive (nv_core_cli_init st) b)) as Hi by (intros b; unfold reg_ok; by rewrite init_again).
  destruct t as [t|]; [|by intros [= <- <- <-]]. case_match; [by intros [= <- <- <-]|].
  pose proof (Hi false) as Hf. specialize (Hi i). set (st1 := set_interactive (nv_core_cli_init st) i) in *.
  change (reg_ok (set_interactive st1 false)) in Hf. clearbody st1.
  repeat case_match; intros; simplify_eq; done.
Qed.

Lemma history_add_ok s t : sess_ok s -> text_ok t ->
  sess_ok (nv_telnet_history_add s t) /\ state (nv_telnet_history_add s t) = state s /\
  user (nv_telnet_history_add s t) = user s.
Proof.
  intros Hs Ht. unfold nv_telnet_history_add. repeat case_match; try done.
  all: (split; [|done]); destruct Hs as [? ? ? ? [Hh Hl] ? ? ?]; split; cbn; auto.
  - split; [apply Forall_app; split; [done|apply Forall_singleton, trunc_text, Ht]|].
    rewrite length_app. simpl. apply Nat.ltb_lt in H1. unfold NV_TELNET_HISTORY_MAX in H1. lia.
  - split; [apply Forall_app; split; [by apply Forall_drop|apply Forall_singleton, trunc_text, Ht]|].
    rewrite length_app, length_drop. simpl. lia.
Qed.

Section sessions.
Context (cli_username cli_password : option cstr).
Context (report : handler -> list cstr -> Z * list cstr) (pid : Z) (banner : cstr) (quit : bool) (fd : Z).
Abbreviation process_line := (nv_telnet_process_line cli_username cli_password report pid banner quit fd).
Abbreviation feed := (nv_telnet_feed cli_username cli_password report pid banner quit fd).
Abbreviation auth := (nv_telnet_auth cli_username cli_password).

(** What submitting a line does to the state, the user and the log. *)
Definition submitted (w : world) (r : option world) : Prop :=
  match r with
  | None => state (ses w) = NV_TELNET_ST_SHELL
  | Some w' =>
      wok w' /\ log w' = log w ++ [(state (ses w), cur (ses w))] /\
      match state (ses w) with
      | NV_TELNET_ST_USER => state (ses w') = NV_TELNET_ST_PASS /\ user (ses w') = str_trunc NV_TELNET_USER_MAX (cur (ses w))
      | NV_TELNET_ST_PASS =>
          state (ses w') = if auth (user (ses w)) (cur (ses w)) then NV_TELNET_ST_SHELL else NV_TELNET_ST_USER
      | NV_TELNET_ST_SHELL => state (ses w') = NV_TELNET_ST_SHELL
      end
  end.

Lemma process_line_ok w : wok w -> exists r, process_line w = Ret r /\ submitted w r.
Proof.
  intros [Hs Hr]. unfold nv_telnet_process_line. destruct (terminate _ Hs) as (-> & H2 & H3 & H4).
  cbn [mbind outcome_bind]. rewrite H3. cbn [mbind outcome_bind ses state set_line].
  set (s1 := set_line _ _ (ses w)). assert (sess_ok s1) as Hs1.
  { apply ok_set_line; [done|done|apply Hs|]. rewrite H4. apply Hs. }
  destruct (state (ses w)) eqn:Est.
  - eexists. split; [done|]. unfold submitted. rewrite Est. split_and!; try done. split; [|done].
    set (s2 := set_user (str_trunc NV_TELNET_USER_MAX (cur (ses w))) s1).
    change (sess_ok (set_state NV_TELNET_ST_PASS (set_line (line s2) 0 s2))).
    apply ok_set_state, ok_clear, ok_set_user; [done|]. apply Forall_take, Hs.
  - cbn [ses user set_line]. change (user s1) with (user (ses w)).
    destruct (auth (user (ses w)) (cur (ses w))) eqn:Ea; eexists; (split; [done|]); unfold submitted; rewrite Est, Ea;
      split_and!; try done; (split; [|done]).
    + pose proof (ok_clear _ Hs1) as [? ? ? ? ? ? ? ?]. split; cbn; auto; try lia. split; [constructor|simpl; lia].
    + by apply ok_set_state, ok_clear.
  - cbn [put on_ses ses reg out log]. destruct (history_add_ok s1 (cur (ses w)) Hs1 (cur_ok _ Hs)) as (Hh & Eh & _).
    destruct (nv_core_cli_execute_line _ _ _ _ _ _) as [[rc reg'] o] eqn:Ee. apply exec_reg in Ee; [|done].
    destruct (rc =? NV_CLI_CLOSE_SESSION); [by exists None|]. eexists. split; [done|].
    assert (wok (mkW (set_esc [] (set_pos (-1) (set_line (line (nv_telnet_history_add s1 (cur (ses w)))) 0
      (nv_telnet_history_add s1 (cur (ses w)))))) reg' ((out w ++ [crlf]) ++ o) (log w ++ [(NV_TELNET_ST_SHELL, cur (ses w))]))) as Hw'.
    { split; [|done]. apply ok_set_esc; [|simpl; lia]. apply ok_set_pos; [|by right]. by apply ok_clear. }
    unfold submitted. rewrite Est. assert (state s1 = NV_TELNET_ST_SHELL) as Es1 by done.
    destruct quit; split_and!; try done; cbn; by rewrite Eh.
Qed.

(** One turn of the loop of [nv_telnet_feed]: the bytes it consumes are edited into the
    line or submit it; only a line submitted in the shell can end the session. *)
Definition ends (w : world) (c : Z) : Prop :=
  (c = 13 \/ c = 10) /\ wok w /\ state (ses w) = NV_TELNET_ST_SHELL /\ process_line w = Ret None.

Definition byte_ok (c : Z) : Prop := 0 <= c < 256.

Lemma submit_step w rest : wok w -> forall c, c = 13 \/ c = 10 ->
  let go := (r ← process_line w;
    match r with Some w => feed w rest | None => match rest with [] => Ret None | _ => UB end end) in
  (exists w', submitted w (Some w') /\ go = feed w' rest) \/
  (ends w c /\ go = match rest with [] => Ret None | _ => UB end).
Proof.
  intros Hw c Hc. destruct (process_line_ok w Hw) as ([w'|] & E & Hsub); cbn zeta; rewrite E; cbn [mbind outcome_bind].
  - left. eauto.
  - right. done.
Qed.

Lemma feed_step w c rest : wok w -> byte_ok c ->
  (exists w' skip rest', rest = skip ++ rest' /\ feed w (c :: rest) = feed w' rest' /\
     (edited w w' \/ submitted w (Some w'))) \/
  (ends w c /\ feed w (c :: rest) = match rest with [] => Ret None | _ => UB end).
Proof.
  intros Hw Hc. assert (forall o, (exists w', o = Ret w' /\ edited w w') ->
    exists w' skip rest', rest = skip ++ rest' /\ (w1 ← o; feed w1 rest) = feed w' rest' /\ (edited w w' \/ submitted w (Some w'))) as Hone.
  { intros o (w' & -> & He). exists w', [], rest. by split_and!; [| |left]. }
  assert (forall w', edited w w' -> exists w1 skip rest', rest = skip ++ rest' /\ feed w' rest = feed w1 rest' /\
    (edited w w1 \/ submitted w (Some w1))) as Hret.
  { intros w' He. exists w', [], rest. by split_and!; [| |left]. }
  assert (forall skip rest', rest = skip ++ rest' -> exists w1 skip rest1, rest = skip ++ rest1 /\
    feed w rest' = feed w1 rest1 /\ (edited w w1 \/ submitted w (Some w1))) as Hskip.
  { intros skip rest' E. exists w, skip, rest'. split_and!; [done|done|left; by apply edited_refl]. }
  cbn [nv_telnet_feed]. case_match; [left; by apply Hone, escape_ok|]. destruct (Z.eqb_spec c 255).
  { left. destruct rest as [|cmd rest]; [by apply (Hskip [])|]. case_match; [|by apply (Hskip [cmd])].
    destruct rest as [|x rest]; [by apply (Hskip [cmd])|by apply (Hskip [cmd; x])]. }
  assert (forall c, c = 13 \/ c = 10 ->
    let go := (r ← process_line w; match r with Some w => feed w rest | None => match rest with [] => Ret None | _ => UB end end) in
    (exists w' skip rest', rest = skip ++ rest' /\ go = feed w' rest' /\ (edited w w' \/ submitted w (Some w'))) \/
    (ends w c /\ go = match rest with [] => Ret None | _ => UB end)) as Hsubmit.
  { intros d Hd. destruct (submit_step w rest Hw d Hd) as [(w' & H1 & H2)|H1]; [left|by right].
    exists w', [], rest. by split_and!; [| |right]. }
  destruct (Z.eqb_spec c 13); [apply Hsubmit; auto|]. destruct (Z.eqb_spec c 10).
  { destruct (0 <? line_len (ses w))%nat; [apply Hsubmit; auto|left; by apply (Hskip [])]. }
  clear Hsubmit. left. case_match.
  { case_match; [|by apply (Hskip [])]. apply Hret, (edited_on w (fun s => set_line (line s) (line_len s - 1) s)); [done| |done|done].
    destruct Hw as [Hs _]. apply ok_set_line; [done|apply Hs|pose proof (so_len _ Hs); lia|].
    replace (take (line_len (ses w) - 1) (line (ses w))) with (take (line_len (ses w) - 1) (take (line_len (ses w)) (line (ses w))))
      by (rewrite take_take; f_equal; lia).
    apply Forall_take, Hs. }
  case_match; [by apply Hone, tab_ok|]. destruct (Z.ltb_spec c 32); [by apply (Hskip [])|].
  apply Hone, type_char_ok; [done|]. unfold char_ok, byte_ok in *. lia.
Qed.

(** What any input does to a session: an invariant kept by editing and by submitting a
    line holds at the end, or a line ended the session. *)
Lemma feed_ind (P : world -> Prop) :
  (forall w w', P w -> wok w -> edited w w' -> P w') ->
  (forall w w', P w -> wok w -> submitted w (Some w') -> P w') ->
  forall data w, Forall byte_ok data -> wok w -> P w ->
  (exists w', feed w data = Ret (Some w') /\ wok w' /\ P w') \/
  (exists before c rest w', data = before ++ c :: rest /\ P w' /\ ends w' c /\
     feed w data = match rest with [] => Ret None | _ => UB end).
Proof.
  intros Hedit Hsub data. remember (length data) as n eqn:En. revert data En. induction (lt_wf n) as [n _ IH].
  intros data -> w Hd Hw HP. destruct data as [|c rest]; [left; by exists w|].
  apply Forall_cons in Hd as [Hc Hd].
  destruct (feed_step w c rest Hw Hc) as [(w' & skip & rest' & -> & -> & He)|[He E]].
  - assert (wok w' /\ P w') as [Hw' HP'] by (destruct He as [He|He]; [split; [apply He|by eapply Hedit]|split; [apply He|by eapply Hsub]]).
    apply Forall_app in Hd as [_ Hd].
    destruct (IH (length rest')) with (data := rest') (w := w') as [H|(before & c' & rest1 & w1 & -> & H)]; auto.
    { rewrite length_cons, length_app. lia. }
    right. exists (c :: skip ++ before), c', rest1, w1. split; [|done]. by rewrite <- app_comm_cons, <- app_assoc.
  - right. by exists [], c, rest, w.
Qed.

(** ** Logins *)

Definition expected_user : cstr := default (str "admin") cli_username.
Definition expected_password : cstr := default (str "nvadmin") cli_password.

(** The configured user and password were submitted, one after the other. *)
Definition logged_in (lg : list (nv_telnet_state_t * cstr)) : Prop :=
  exists before u after, lg = before ++ (NV_TELNET_ST_USER, u) :: (NV_TELNET_ST_PASS, expected_password) :: after /\
    str_trunc NV_TELNET_USER_MAX u = expected_user.

(** Each command submitted has a login before it, and so has the shell. *)
Record login_inv (w : world) : Prop := {
  li_pass : state (ses w) = NV_TELNET_ST_PASS ->
    exists before u, log w = before ++ [(NV_TELNET_ST_USER, u)] /\ user (ses w) = str_trunc NV_TELNET_USER_MAX u;
  li_shell : state (ses w) = NV_TELNET_ST_SHELL -> logged_in (log w);
  li_log : forall before l after, log w = before ++ (NV_TELNET_ST_SHELL, l) :: after -> logged_in before;
}.

Lemma logged_in_app lg l : logged_in lg -> logged_in (lg ++ l).
Proof. intros (b & u & a & -> & H). exists b, u, (a ++ l). by rewrite <- app_assoc. Qed.

Lemma login_edited w w' : login_inv w -> wok w -> edited w w' -> login_inv w'.
Proof. intros [H1 H2 H3] _ (_ & E1 & E2 & E3). split; rewrite ?E1, ?E2, ?E3; auto. Qed.

Context (Huser : cstr_ok expected_user) (Hpass : cstr_ok expected_password).

Lemma auth_spec u p : cstr_ok u -> cstr_ok p -> auth u p = true <-> u = expected_user /\ p = expected_password.
Proof.
  intros Hu Hp. unfold nv_telnet_auth. fold expected_user expected_password.
  rewrite andb_true_iff, !str_equal_iff by done. done.
Qed.

Lemma login_submitted w w' : login_inv w -> wok w -> submitted w (Some w') -> login_inv w'.
Proof.
  intros [H1 H2 H3] [Hs _] (Hw' & El & Hst).
  assert (forall before l after, log w' = before ++ (NV_TELNET_ST_SHELL, l) :: after -> logged_in before) as Hlog.
  { intros before l after. rewrite El. destruct after as [|a after _] using rev_ind; intros E.
    - apply app_inj_tail in E as [<- [= E _]]. auto.
    - rewrite app_comm_cons, app_assoc in E. apply app_inj_tail in E as [E _]. by eapply H3. }
  destruct (state (ses w)) eqn:Est.
  - destruct Hst as [E1 E2]. split; [|congruence|done]. intros _. rewrite El, E2. eauto.
  - split; [rewrite Hst; by case_match| |done]. rewrite Hst. case_match eqn:Ea; [intros _|done].
    apply auth_spec in Ea as [Eu Ep]; [|apply Hs|apply cur_ok, Hs]. destruct (H1 eq_refl) as (before & u & E & Eu').
    exists before, u, []. rewrite El, E, Ep, <- app_assoc. split; [done|congruence].
  - split; [congruence| |done]. intros _. rewrite El. by apply logged_in_app, H2.
Qed.

Lemma start_ok st : reg_ok st -> wok (nv_telnet_sess_start banner st) /\ login_inv (nv_telnet_sess_start banner st).
Proof.
  intros Hr. split.
  - assert (text_ok []) as Ht by (split; [constructor|simpl; lia]). destruct (zeroed_array [] Ht) as (Ha & _).
    split; [|done]. split; [exact Ha|apply Nat.le_0_l|apply Forall_nil_2|apply Forall_nil_2|
      split; [apply Forall_nil_2|apply Nat.le_0_l]|by right|exact Ht|apply Nat.le_0_l].
  - split; [done|done|]. intros [|? ?] x after; done.
Qed.

Abbreviation reads := (reads cli_username cli_password report pid banner quit fd).

(** Any number of reads: the invariants hold while the session lives. *)
Lemma reads_ok chunks w : Forall (fun d => d <> [] /\ Forall byte_ok d) chunks -> wok w -> login_inv w ->
  (exists w', reads w chunks = Ret (Some w') /\ wok w' /\ login_inv w') \/
  (quit = true /\ reads w chunks = Ret None) \/
  (exists w' c, login_inv w' /\ ends w' c /\ reads w chunks = UB).
Proof.
  revert w. induction chunks as [|d ds IH]; intros w Hd Hw HP; [left; by exists w|].
  apply Forall_cons in Hd as [[Hne Hd] Hds]. cbn [Telnet.reads]. unfold nv_telnet_client_handler.
  destruct d as [|c0 d]; [done|]. set (data := c0 :: d) in *. clearbody data.
  destruct (feed_ind login_inv login_edited login_submitted data w Hd Hw HP)
    as [(w' & -> & Hw' & HP')|(before & c & rest & w' & _ & HP' & He & ->)].
  - cbn [mbind outcome_bind]. destruct quit; cbn [mbind outcome_bind]; [auto|]. by apply IH.
  - right. right. exists w', c. split_and!; try done. by destruct rest.
Qed.

End sessions.

(** ** Typing *)

(** A byte that is typed into the line and not interpreted. *)
Definition printable (c : Z) : Prop := 32 <= c < 255 /\ c <> 127.
Definition echo (st : nv_telnet_state_t) (c : Z) : cstr := if bool_decide (st = NV_TELNET_ST_PASS) then str "*" else [c].

(** No escape sequence and no history entry is under way. *)
Definition at_rest (w : world) : Prop := esc_buf (ses w) = [] /\ (state (ses w) = NV_TELNET_ST_SHELL -> history_pos (ses w) < 0).

Lemma type_char_spec w c : wok w -> at_rest w -> printable c -> (line_len (ses w) < 511)%nat ->
  exists w', type_char w c = Ret w' /\ edited w w' /\ at_rest w' /\ cur (ses w') = cur (ses w) ++ [c] /\
    line_len (ses w') = S (line_len (ses w)) /\ out w' = out w ++ [echo (state (ses w)) c].
Proof.
  intros Hw [He Hp] Hc Hl. unfold type_char. change (NV_TELNET_LINE_MAX - 1)%nat with 511%nat.
  destruct (Nat.ltb_spec (line_len (ses w)) 511); [|lia].
  assert (bool_decide (state (ses w) = NV_TELNET_ST_SHELL) && (0 <=? history_pos (ses w)) = false) as ->.
  { case_bool_decide; [|done]. apply Z.leb_gt. auto. }
  cbn [mbind outcome_bind]. destruct (append_char w c Hw Hl) as (l & -> & He1 & Ht); [unfold char_ok, printable in *; lia|].
  cbn [mbind outcome_bind]. by eexists.
Qed.

Lemma feed_printable cu cp report pid banner quit fd w c rest : at_rest w -> printable c ->
  let feed := nv_telnet_feed cu cp report pid banner quit fd in
  feed w (c :: rest) = (w' ← type_char w c; feed w' rest).
Proof.
  intros [He _] [H1 H2] feed. unfold feed. cbn [nv_telnet_feed]. rewrite He.
  repeat match goal with |- context [?a =? ?b] => destruct (Z.eqb_spec a b); [lia|] end.
  destruct (Z.ltb_spec c 32); [lia|done].
Qed.

Lemma feed_typed cu cp report pid banner quit fd t rest w :
  let feed := nv_telnet_feed cu cp report pid banner quit fd in
  wok w -> at_rest w -> Forall printable t -> (line_len (ses w) + length t <= 511)%nat ->
  exists w', feed w (t ++ rest) = feed w' rest /\ edited w w' /\ at_rest w' /\ cur (ses w') = cur (ses w) ++ t /\
    out w' = out w ++ map (echo (state (ses w))) t.
Proof.
  intros feed. revert w. induction t as [|c t IH]; intros w Hw Hr Ht Hl.
  { exists w. rewrite !app_nil_r. split_and!; try done. }
  apply Forall_cons in Ht as [Hc Ht]. simpl in Hl.
  destruct (type_char_spec w c Hw Hr Hc) as (w1 & E1 & He1 & Hr1 & Hcur1 & Hlen1 & Ho1); [lia|].
  destruct (IH w1) as (w' & E & He & Hr' & Hcur & Ho); [apply He1|done|done|lia|].
  exists w'. unfold feed in *. rewrite <- app_comm_cons, feed_printable by done. rewrite E1. cbn [mbind outcome_bind].
  split; [done|]. split; [by eapply edited_trans|]. split; [done|].
  rewrite Hcur, Hcur1, Ho, Ho1, <- !app_assoc. destruct He1 as (_ & -> & _). done.
Qed.

Lemma feed_submit cu cp report pid banner quit fd w rest : at_rest w ->
  nv_telnet_feed cu cp report pid banner quit fd w (13 :: rest) =
  (r ← nv_telnet_process_line cu cp report pid banner quit fd w;
   match r with
   | Some w => nv_telnet_feed cu cp report pid banner quit fd w rest
   | None => match rest with [] => Ret None | _ => UB end
   end).
Proof. intros [He _]. cbn [nv_telnet_feed]. by rewrite He. Qed.

(** The lines of a login. *)
Lemma process_user cu cp report pid banner quit fd w : wok w -> state (ses w) = NV_TELNET_ST_USER ->
  exists w', nv_telnet_process_line cu cp report pid banner quit fd w = Ret (Some w') /\
    submitted cu cp w (Some w') /\ out w' = out w ++ [crlf ++ str "password: "] /\
    line_len (ses w') = O /\ esc_buf (ses w') = esc_buf (ses w).
Proof.
  intros Hw Est. destruct (process_line_ok cu cp report pid banner quit fd w Hw) as (r & E & Hsub). revert E.
  unfold nv_telnet_process_line. destruct (terminate _ (proj1 Hw)) as (-> & _ & Et & _).
  cbn [mbind outcome_bind]. rewrite Et. cbn [mbind outcome_bind ses state set_line]. rewrite Est. intros [= <-]. eexists. split; [done|]. split; [exact Hsub|done].
Qed.

Definition verdict (banner : cstr) (ok : bool) : list cstr :=
  if ok then [crlf ++ str "OK login successful" ++ crlf; prompt] else [crlf ++ str "login incorrect" ++ crlf; banner; str "login: "].

Lemma process_pass cu cp report pid banner quit fd w : wok w -> state (ses w) = NV_TELNET_ST_PASS ->
  exists w', nv_telnet_process_line cu cp report pid banner quit fd w = Ret (Some w') /\ submitted cu cp w (Some w') /\
    out w' = out w ++ verdict banner (nv_telnet_auth cu cp (user (ses w)) (cur (ses w))).
Proof.
  intros Hw Est. destruct (process_line_ok cu cp report pid banner quit fd w Hw) as (r & E & Hsub). revert E.
  unfold nv_telnet_process_line. destruct (terminate _ (proj1 Hw)) as (-> & _ & Et & _).
  cbn [mbind outcome_bind]. rewrite Et. cbn [mbind outcome_bind ses state set_line user]. rewrite Est.
  destruct (nv_telnet_auth cu cp _ _); intros [= <-]; (eexists; split; [done|]; split; [exact Hsub|]).
  - cbn [out nv_telnet_send_shell on_ses put verdict]. by rewrite <- app_assoc.
  - cbn [out nv_telnet_send_login_user on_ses put verdict]. by rewrite <- !app_assoc.
Qed.

(** C13: whatever bytes a session receives, its line, history, draft and escape buffers stay
    within their arrays and the function returns, with a well-formed session; the only other
    end is a line submitted in the shell whose command closed the session, after which the
    remaining bytes of the same read are handled on freed memory. *)
Theorem nv_telnet_feed_well_formed cu cp report pid banner quit fd (data : list Z) (w : world) :
  Forall byte_ok data -> wok w ->
  let feed := nv_telnet_feed cu cp report pid banner quit fd in
  (exists w', feed w data = Ret (Some w') /\ wok w') \/
  (exists before c rest w', data = before ++ c :: rest /\ ends cu cp report pid banner quit fd w' c /\
     feed w data = match rest with [] => Ret None | _ => UB end).
Proof.
  intros Hd Hw feed. destruct (feed_ind cu cp report pid banner quit fd (fun _ => True)) with (data := data) (w := w)
    as [(w' & H1 & H2 & _)|(before & c & rest & w' & H1 & _ & H2 & H3)]; auto.
  - left. by exists w'.
  - right. by exists before, c, rest, w'.
Qed.

(** C10: from a session just accepted, through any number of reads, every command line
    executed was preceded by the configured user name and the configured password
    submitted one after the other, and so is a shell waiting for one; this is so also of a
    line that closes the session. *)
Theorem nv_telnet_no_command_before_login cu cp report pid banner quit fd st (chunks : list (list Z)) :
  cstr_ok (expected_user cu) -> cstr_ok (expected_password cp) -> reg_ok st ->
  Forall (fun d => d <> [] /\ Forall byte_ok d) chunks ->
  let run := reads cu cp report pid banner quit fd (nv_telnet_sess_start banner st) chunks in
  let guarded w :=
    (state (ses w) = NV_TELNET_ST_SHELL -> logged_in cu cp (log w)) /\
    (forall before l after, log w = before ++ (NV_TELNET_ST_SHELL, l) :: after -> logged_in cu cp before) in
  (exists w, run = Ret (Some w) /\ wok w /\ guarded w) \/
  (quit = true /\ run = Ret None) \/
  (exists w c, guarded w /\ ends cu cp report pid banner quit fd w c /\ run = UB).
Proof.
  intros Hu Hp Hr Hc run guarded. destruct (start_ok cu cp banner st Hr) as [Hw HP].
  destruct (reads_ok cu cp report pid banner quit fd Hu Hp chunks _ Hc Hw HP) as [(w & H1 & H2 & [])|[H|(w & c & [] & H)]].
  - left. by exists w.
  - by right; left.
  - right. right. by exists w, c.
Qed.

(** A user name and a password typed into a new session, each ended by a carriage
    return, open the shell exactly when they are the configured ones, and otherwise lead
    back to the login prompt; the user name is echoed as typed and the password as stars. *)
Theorem nv_telnet_login cu cp report pid banner quit fd st (u p : cstr) :
  cstr_ok (expected_user cu) -> cstr_ok (expected_password cp) -> reg_ok st ->
  Forall printable u -> Forall printable p -> (length u <= 63)%nat -> (length p <= 511)%nat ->
  let w0 := nv_telnet_sess_start banner st in
  let ok := bool_decide (u = expected_user cu /\ p = expected_password cp) in
  exists w, nv_telnet_feed cu cp report pid banner quit fd w0 (u ++ 13 :: p ++ [13]) = Ret (Some w) /\
    state (ses w) = (if ok then NV_TELNET_ST_SHELL else NV_TELNET_ST_USER) /\
    log w = [(NV_TELNET_ST_USER, u); (NV_TELNET_ST_PASS, p)] /\
    out w = out w0 ++ map (fun c => [c]) u ++ [crlf ++ str "password: "] ++ map (fun _ => str "*") p ++ verdict banner ok.
Proof.
  intros Heu Hep Hr Hu Hp Hlu Hlp w0 ok. destruct (start_ok cu cp banner st Hr) as [Hw0 _]. fold w0 in Hw0.
  destruct (feed_typed cu cp report pid banner quit fd u (13 :: p ++ [13]) w0 Hw0) as (w1 & E1 & He1 & Hr1 & Hc1 & Ho1);
    [by split|done|simpl; lia|].
  pose proof He1 as (Hw1 & Es1 & _ & El1). destruct (process_user cu cp report pid banner quit fd w1 Hw1 Es1)
    as (w2 & E2 & (Hw2 & El2 & Hs2) & Ho2 & Hl2 & Hx2). rewrite Es1 in El2, Hs2. destruct Hs2 as [Hs2 Hu2].
  destruct (feed_typed cu cp report pid banner quit fd p [13] w2 Hw2) as (w3 & E3 & He3 & Hr3 & Hc3 & Ho3);
    [split; [by rewrite Hx2; apply Hr1|by rewrite Hs2]|done|lia|].
  pose proof He3 as (Hw3 & Es3 & Eu3 & El3). rewrite Hs2 in Es3.
  destruct (process_pass cu cp report pid banner quit fd w3 Hw3 Es3) as (w4 & E4 & (_ & El4 & Hs4) & Ho4).
  rewrite Es3 in El4, Hs4.
  assert (cur (ses w2) = []) as Hz by (unfold cur; by rewrite Hl2). rewrite Hz, app_nil_l in Hc3.
  assert (user (ses w3) = u) as Hu3.
  { rewrite Eu3, Hu2, Hc1. apply take_ge. change (take 0 (line (ses w0)) ++ u) with u. unfold NV_TELNET_USER_MAX. lia. }
  assert (nv_telnet_auth cu cp (user (ses w3)) (cur (ses w3)) = ok) as Ha.
  { apply eq_bool_prop_intro. unfold ok. rewrite bool_decide_spec, Is_true_true.
    rewrite auth_spec by (try apply cur_ok; try apply Hw3; done). by rewrite Hu3, Hc3. }
  exists w4. rewrite E1, feed_submit, E2 by done. cbn [mbind outcome_bind]. rewrite E3, feed_submit, E4 by done. split; [done|].
  split; [by rewrite Hs4, Ha|]. split.
  - rewrite El4, El3, El2, El1, Hc1, Hc3. done.
  - rewrite Ho4, Ha, Ho3, Ho2, Ho1, <- !app_assoc, Hs2. done.
Qed.

(** ** Concrete sessions: the default credentials and the built-in commands *)

Definition quiet : handler -> list cstr -> Z * list cstr := fun _ _ => (0, []).
Definition console_reads : list (list Z) -> outcome (option world) :=
  reads None None quiet 1 (str "nv") false 5 (nv_telnet_sess_start (str "nv") started).
Definition login : list (list Z) := [str "admin" ++ [13]; str "nvadmin" ++ [13]].
Definition line_after (chunks : list (list Z)) : option cstr :=
  match console_reads chunks with Ret (Some w) => Some (cur (ses w)) | _ => None end.

Lemma started_reg_ok : reg_ok started.
Proof.
  assert (forallb (fun n => forallb (fun c => (1 <=? c) && (c <? 256)) (name n)) (g_cli_cmds (nv_core_cli_init started)) = true) as H
    by (by vm_compute).
  rewrite forallb_forall in H. apply Forall_forall. intros n Hn%list_elem_of_In%H. by apply cstr_ok_check.
Qed.

Lemma printable_check t : forallb (fun c => (32 <=? c) && (c <? 127)) t = true -> Forall printable t.
Proof. intros H%Forall_range. eapply Forall_impl; [exact H|]. unfold printable. intros; lia. Qed.

Lemma nv_telnet_feed_well_formed_witness :
  exists w', nv_telnet_feed None None quiet 1 (str "nv") false 5 (nv_telnet_sess_start (str "nv") started)
    [97; 27; 91; 65; 255; 253; 34; 8; 9] = Ret (Some w') /\ wok w'.
Proof.
  destruct (nv_telnet_feed_well_formed None None quiet 1 (str "nv") false 5 [97; 27; 91; 65; 255; 253; 34; 8; 9]
    (nv_telnet_sess_start (str "nv") started)) as [H|(before & c & rest & w' & E & (Hc & _) & _)].
  - by apply Forall_range.
  - exact (proj1 (start_ok None None (str "nv") started started_reg_ok)).
  - exact H.
  - exfalso. assert (In c [97; 27; 91; 65; 255; 253; 34; 8; 9]) as Hin by (rewrite E; apply in_elt).
    simpl in Hin. lia.
Defined.

Lemma nv_telnet_no_command_before_login_witness :
  exists w, console_reads (login ++ [str "ping" ++ [13]]) = Ret (Some w) /\
    exists before after, log w = before ++ (NV_TELNET_ST_SHELL, str "ping") :: after /\ logged_in None None before.
Proof.
  destruct (nv_telnet_no_command_before_login None None quiet 1 (str "nv") false 5 started (login ++ [str "ping" ++ [13]]))
    as [(w & E & _ & _ & Hg)|[[[=] _]|(w & c & _ & _ & E)]].
  - by apply cstr_ok_check.
  - by apply cstr_ok_check.
  - exact started_reg_ok.
  - repeat (constructor; [split; [discriminate|by apply Forall_range]|]). constructor.
  - exists w. split; [exact E|].
    set (before := [(NV_TELNET_ST_USER, str "admin"); (NV_TELNET_ST_PASS, str "nvadmin")]).
    assert (log w = before ++ (NV_TELNET_ST_SHELL, str "ping") :: []) as El.
    { apply (f_equal (fun o => match o with Ret (Some w) => log w | _ => [] end)) in E. rewrite <- E. by vm_compute. }
    exists before, []. split; [exact El|]. exact (Hg before (str "ping") [] El).
  - exfalso. apply (f_equal (fun o : outcome (option world) => if o is UB then true else false)) in E.
    revert E. by vm_compute.
Defined.

Lemma nv_telnet_login_witness :
  exists w, nv_telnet_feed None None quiet 1 (str "nv") false 5 (nv_telnet_sess_start (str "nv") started)
    (str "admin" ++ 13 :: str "nvadmin" ++ [13]) = Ret (Some w) /\ state (ses w) = NV_TELNET_ST_SHELL.
Proof.
  destruct (nv_telnet_login None None quiet 1 (str "nv") false 5 started (str "admin") (str "nvadmin")) as (w & E & Hs & _).
  1,2: by apply cstr_ok_check.
  - exact started_reg_ok.
  - by apply printable_check.
  - by apply printable_check.
  - by vm_compute; lia.
  - by vm_compute; lia.
  - exists w. split; [exact E|exact Hs].
Defined.

(** Leaving the shell with [exit] uses the session after it was freed: the handler
    looks at its context once the bytes were fed, also when they closed the session. *)
Theorem nv_telnet_exit_uses_freed_session : console_reads (login ++ [str "exit" ++ [13]]) = UB.
Proof. by vm_compute. Qed.

(** Up saves the draft without ending it, so Down brings back bytes of an earlier
    line: after [status] was run, [pi] becomes [piatus]. *)
Theorem nv_telnet_draft_has_stale_bytes :
  line_after (login ++ [str "status" ++ [13]; str "pi"; [27] ++ str "[A"; [27] ++ str "[B"]) = Some (str "piatus").
Proof. by vm_compute. Qed.

(** An option negotiation in one read is skipped, and when its last byte comes with
    the next read that byte is typed into the line. *)
Theorem nv_telnet_split_option_is_typed :
  line_after [[255; 253; 34]] = Some [] /\ line_after [[255; 253]; [34]] = Some [34].
Proof. by vm_compute. Qed.

End Telnet.
