(* ===== verification/LoadLib.v ===== *)
(** * The plugin loader (core/loadlib/nv_core_loadlib.c)

    The loadlib directives of the configuration file, the resolution of plugin paths,
    and the life of the plugins: opening, one thread each, closing in reverse order,
    unloading.  Theorems: printed directives are parsed back; a resolved path stays in the
    plugin directory unless absolute paths are allowed; waiting for a thread is bounded; a
    failed load closes what it opened; a thread that outlives the wait writes to its freed
    record. *)
From S2P Require Import Prelude Ini.
Import Ini.

Module LoadLib.

Definition NV_OK : Z := 0.
Definition NV_ERROR : Z := -1.
Definition NV_BUSY : Z := -3.
Definition NV_DECLINED : Z := -5.
Definition QUOTE : Z := 34.
Definition BACKSLASH : Z := 92.

(** ** Lines and tokens *)

(** The string at the returned pointer. *)
Definition nv_loadlib_trim (s : cstr) : cstr := rtrim (drop_while isspace s).

Fixpoint strip_loop (line : cstr) (in_quote escape : bool) : cstr :=
  match line with
  | [] => []
  | c :: line' =>
      if escape then c :: strip_loop line' in_quote false
      else if (c =? BACKSLASH) && in_quote then c :: strip_loop line' in_quote true
      else if c =? QUOTE then c :: strip_loop line' (negb in_quote) false
      else if (c =? ch ";") && negb in_quote then []
      else c :: strip_loop line' in_quote false
  end.
Definition nv_loadlib_strip_comment (line : cstr) : cstr := strip_loop line false false.

(** The bytes up to the closing quote and what follows it; [n] bytes are stored already. *)
Fixpoint quoted_loop (p : cstr) (n size : nat) : option (cstr * cstr) :=
  match p with
  | [] => None
  | c :: p' =>
      if c =? QUOTE then Some ([], p')
      else
        match p' with
        | d :: p'' =>
            if c =? BACKSLASH then
              if (size <=? n + 1)%nat then None
              else '(t, rest) ← quoted_loop p'' (S n) size; Some (d :: t, rest)
            else
              if (size <=? n + 1)%nat then None
              else '(t, rest) ← quoted_loop p' (S n) size; Some (c :: t, rest)
        | [] => None     (* the string ends before a closing quote *)
        end
  end.
Fixpoint bare_loop (p : cstr) (n size : nat) : option (cstr * cstr) :=
  match p with
  | [] => Some ([], [])
  | c :: p' =>
      if isspace c then Some ([], p)
      else if (size <=? n + 1)%nat then None
      else '(t, rest) ← bare_loop p' (S n) size; Some (c :: t, rest)
  end.

(** The return code with the token in [buf] and the advanced pointer. *)
Definition nv_loadlib_parse_token (src : cstr) (size : nat) : Z * option (cstr * cstr) :=
  if (size =? 0)%nat then (NV_ERROR, None)
  else
    match drop_while isspace src with
    | [] => (NV_DECLINED, None)
    | c :: p =>
        match (if c =? QUOTE then quoted_loop p 0 size else bare_loop (c :: p) 0 size) with
        | Some r => (NV_OK, Some r)
        | None => (NV_ERROR, None)
        end
    end.

(** ** Paths *)

(** [path[len]] is read only when the first [len] bytes agree. *)
Definition nv_loadlib_path_is_under_dir (path dir : cstr) : bool :=
  match dir with
  | [] => false
  | _ =>
      strncmp_eq path dir (length dir) &&
      (let c := default 0 (path !! length dir) in (c =? 0) || (c =? ch "/"))
  end.

Definition PATH_MAX : nat := 4096.

(** Memory for the copies is taken to be available. *)
Definition nv_core_loadlib_resolve_path (loadlib_dir : option cstr) (allow_absolute : bool) (path : cstr) : option cstr :=
  match path with
  | [] => None
  | c :: _ =>
      if strstr path (str "..") then None
      else if c =? ch "/" then
        if negb allow_absolute then None
        else
          match loadlib_dir with
          | Some ((_ :: _) as dir) => if nv_loadlib_path_is_under_dir path dir then Some path else None
          | _ => Some path
          end
      else if strchr path (ch "/") is Some _ then
        if negb allow_absolute then None else Some path
      else
        match loadlib_dir with
        | Some ((_ :: _) as dir) => Some (str_trunc PATH_MAX (dir ++ ch "/" :: path))
        | _ => Some path
        end
  end.

(** ** Directives *)

Record nv_core_loadlib_t := mkLib {
  path : cstr;
  args : cstr;
  handle : option Z;
  init : bool;              (* the symbols found *)
  cleanup : bool;
  thread_started : bool;
  thread_exited : bool;
  init_rc : Z;
}.
Definition new_lib (path args : cstr) : nv_core_loadlib_t := mkLib path args None false false false false 0.

Section config.
Context (loadlib_dir : option cstr) (allow_absolute : bool).

Definition nv_core_loadlibs_append (libs : list nv_core_loadlib_t) (path args : cstr) : Z * list nv_core_loadlib_t :=
  match nv_core_loadlib_resolve_path loadlib_dir allow_absolute path with
  | None => (NV_ERROR, libs)
  | Some resolved => (NV_OK, libs ++ [new_lib resolved args])
  end.

Definition is_directive (trimmed : cstr) : bool :=
  strncmp_eq trimmed (str "loadlib") 7 &&
  (let c := default 0 (trimmed !! 7%nat) in (c =? 0) || isspace c).

(** One line of the file: the body of the loop. *)
Definition config_line (libs : list nv_core_loadlib_t) (line : cstr) : Z * list nv_core_loadlib_t :=
  let trimmed := nv_loadlib_trim (nv_loadlib_strip_comment line) in
  if negb (is_directive trimmed) then (NV_OK, libs)
  else
    match nv_loadlib_parse_token (drop 7 trimmed) 512 with
    | (_, Some ((_ :: _) as path, p)) =>
        match nv_loadlib_parse_token p 512 with
        | (rc, None) =>
            if rc =? NV_DECLINED then
              match nv_loadlib_trim p with [] => nv_core_loadlibs_append libs path [] | _ => (NV_ERROR, libs) end
            else (NV_ERROR, libs)
        | (_, Some (args, p)) =>
            match nv_loadlib_trim p with [] => nv_core_loadlibs_append libs path args | _ => (NV_ERROR, libs) end
        end
    | _ => (NV_ERROR, libs)
    end.

(** Every call of [fgets] reads at least one byte, so [length content] calls do. *)
Fixpoint config_loop (fuel : nat) (content : list Z) (libs : list nv_core_loadlib_t) : Z * list nv_core_loadlib_t :=
  match fuel, content with
  | S fuel', _ :: _ =>
      let '(line, rest) := fgets 1023 content in
      let '(rc, libs) := config_line libs (c_string line) in
      if rc =? NV_OK then config_loop fuel' rest libs else (NV_ERROR, libs)
  | _, _ => (NV_OK, libs)
  end.

(** [file]: NULL, or the configuration file it names: missing, or its content. *)
Definition nv_core_loadlibs_parse_config (libs : list nv_core_loadlib_t) (loaded : bool) (file : option (option (list Z)))
  : Z * list nv_core_loadlib_t :=
  match file with
  | None => (NV_ERROR, libs)
  | Some file =>
      if loaded then (NV_OK, libs)
      else match file with
           | None => (NV_OK, [])
           | Some content => config_loop (length content) content []
           end
  end.

End config.

(** ** The life of a plugin

    A record is named by its position in the list, which only grows until the whole list
    is freed. *)

(** What the loader does to the outside, in order. *)
Inductive event :=
  | Dlopen (h : Z) | Start (i : nat) | Cleanup (i : nat) | Join (i : nat) (rc : Z) | Detach (i : nat) | Dlclose (h : Z).
#[export] Instance event_eq_dec : EqDecision event.
Proof. solve_decision. Defined.

Definition set_handle (h : option Z) (l : nv_core_loadlib_t) : nv_core_loadlib_t :=
  mkLib (path l) (args l) h (init l) (cleanup l) (thread_started l) (thread_exited l) (init_rc l).
Definition set_started (b : bool) (l : nv_core_loadlib_t) : nv_core_loadlib_t :=
  mkLib (path l) (args l) (handle l) (init l) (cleanup l) b (thread_exited l) (init_rc l).
Definition set_symbols (i c : bool) (l : nv_core_loadlib_t) : nv_core_loadlib_t :=
  mkLib (path l) (args l) (handle l) i c (thread_started l) (thread_exited l) (init_rc l).
Definition set_result (rc : Z) (e : bool) (l : nv_core_loadlib_t) : nv_core_loadlib_t :=
  mkLib (path l) (args l) (handle l) (init l) (cleanup l) (thread_started l) e rc.

Definition EBUSY : Z := 16.

Section loader.
(** The dynamic linker, [pthread_create] for the i-th plugin, and the k-th
    [pthread_tryjoin_np] on its thread. *)
Context (dlopen : cstr -> option Z) (has_init has_cleanup : Z -> bool).
Context (create_ok : nat -> bool) (tryjoin : nat -> nat -> Z).

Fixpoint join_loop (fuel k i : nat) (waited_ms timeout_ms : Z) : option Z :=
  match fuel with
  | O => None
  | S fuel' =>
      let rc := tryjoin i k in
      if rc =? 0 then Some NV_OK
      else if negb (rc =? EBUSY) then Some NV_ERROR
      else if timeout_ms <=? waited_ms then Some NV_BUSY
      else join_loop fuel' (S k) i (waited_ms + 100) timeout_ms
  end.

(** The fuel is never used up ([join_spec] below). *)
Definition nv_core_loadlib_join (i : nat) (lib : nv_core_loadlib_t) (timeout_ms : Z)
  : Z * nv_core_loadlib_t * list event :=
  if negb (thread_started lib) then (NV_OK, lib, [])
  else
    let timeout_ms := if timeout_ms <=? 0 then 3000 else timeout_ms in
    let rc := default NV_BUSY (join_loop (Z.to_nat (timeout_ms / 100) + 2) 0 i 0 timeout_ms) in
    (rc, set_started false lib, Join i rc :: (if rc =? NV_BUSY then [Detach i] else [])).

Definition close_one (timeout_ms : Z) (i : nat) (lib : nv_core_loadlib_t) : nv_core_loadlib_t * list event :=
  match handle lib with
  | None => (lib, [])
  | Some h =>
      let '(joined, lib, ev) := nv_core_loadlib_join i lib timeout_ms in
      let ev := (if cleanup lib then [Cleanup i] else []) ++ ev in
      if (joined =? NV_OK) || (joined =? NV_ERROR) then (set_handle None lib, ev ++ [Dlclose h]) else (lib, ev)
  end.

(** [libs] is the list from the i-th record on. *)
Fixpoint nv_core_loadlibs_close_loaded (timeout_ms : Z) (i : nat) (libs : list nv_core_loadlib_t)
  : list nv_core_loadlib_t * list event :=
  match libs with
  | [] => ([], [])
  | lib :: next =>
      let '(next', ev) := nv_core_loadlibs_close_loaded timeout_ms (S i) next in
      let '(lib', ev') := close_one timeout_ms i lib in
      (lib' :: next', ev ++ ev')
  end.

(** [shutdown_timeout_sec * 1000] is an [int]. *)
Definition load_failed (sec : Z) (libs : list nv_core_loadlib_t) : outcome (Z * list nv_core_loadlib_t * list event) :=
  t ← int_chk (sec * 1000);
  let '(libs, ev) := nv_core_loadlibs_close_loaded t 0 libs in Ret (NV_ERROR, libs, ev).

Definition after (ev : list event) (r : outcome (Z * list nv_core_loadlib_t * list event))
  : outcome (Z * list nv_core_loadlib_t * list event) :=
  '(rc, libs, ev') ← r; Ret (rc, libs, ev ++ ev').

Fixpoint load_each (sec : Z) (before todo : list nv_core_loadlib_t) : outcome (Z * list nv_core_loadlib_t * list event) :=
  match todo with
  | [] => Ret (NV_OK, before, [])
  | lib :: next =>
      match dlopen (path lib) with
      | None => load_failed sec (before ++ set_handle None lib :: next)
      | Some h =>
          let lib := set_handle (Some h) lib in
          if negb (has_init h) then
            after [Dlopen h] (load_failed sec (before ++ set_symbols false (cleanup lib) lib :: next))
          else
            let lib := set_result NV_OK false (set_symbols true (has_cleanup h) lib) in
            if negb (create_ok (length before)) then after [Dlopen h] (load_failed sec (before ++ lib :: next))
            else after [Dlopen h; Start (length before)] (load_each sec (before ++ [set_started true lib]) next)
      end
  end.

(** The return code, the list, [loadlibs_loaded] and the events. *)
Definition nv_core_loadlibs_load (sec : Z) (libs : list nv_core_loadlib_t) (loaded : bool)
  : outcome (Z * list nv_core_loadlib_t * bool * list event) :=
  if loaded then Ret (NV_OK, libs, true, [])
  else '(rc, libs, ev) ← load_each sec [] libs; Ret (rc, libs, rc =? NV_OK, ev).

Definition nv_core_loadlibs_unload (sec : Z) (libs : list nv_core_loadlib_t)
  : outcome (list nv_core_loadlib_t * bool * list event) :=
  t ← int_chk (sec * 1000);
  let '(_, ev) := nv_core_loadlibs_close_loaded t 0 libs in
  Ret ([], false, ev).

(** The end of the i-th plugin's thread, its [init] having returned [rc]. *)
Definition nv_core_loadlib_thread_main (libs : list nv_core_loadlib_t) (i : nat) (rc : Z) : outcome (list nv_core_loadlib_t) :=
  lib ← deref (libs !! i);
  Ret (<[i := set_result rc true lib]> libs).

End loader.

(** ** Printing directives *)

Definition escape (s : cstr) : cstr :=
  concat (map (fun c => if (c =? QUOTE) || (c =? BACKSLASH) then [BACKSLASH; c] else [c]) s).
Definition quote (s : cstr) : cstr := QUOTE :: escape s ++ [QUOTE].

(** A line of a configuration file: a directive, or anything that is not one. *)
Inductive item := Directive (path args : cstr) | Other (line : cstr).
Definition print_text (i : item) : cstr :=
  match i with
  | Directive path args => str "loadlib " ++ quote path ++ 32 :: quote args
  | Other line => line
  end.
Definition print_config (doc : list item) : list Z := concat (map (fun i => print_text i ++ [10]) doc).

Definition plain (c : Z) : Prop := char_ok c /\ c <> 10.
Definition config_item_ok (i : item) : Prop :=
  (length (print_text i) < 1023)%nat /\
  match i with
  | Directive path args =>
      Forall plain path /\ Forall plain args /\ path <> [] /\ (length path < 512)%nat /\ (length args < 512)%nat
  | Other line => Forall plain line /\ is_directive (nv_loadlib_trim (nv_loadlib_strip_comment (line ++ [10]))) = false
  end.

(** Adding the directives one by one, as long as their paths resolve. *)
Fixpoint read_items (dir : option cstr) (abs : bool) (doc : list item) (libs : list nv_core_loadlib_t)
  : Z * list nv_core_loadlib_t :=
  match doc with
  | [] => (NV_OK, libs)
  | Other _ :: doc' => read_items dir abs doc' libs
  | Directive path args :: doc' =>
      match nv_core_loadlib_resolve_path dir abs path with
      | Some r => read_items dir abs doc' (libs ++ [new_lib r args])
      | None => (NV_ERROR, libs)
      end
  end.

Lemma escape_cons c s : escape (c :: s) = (if (c =? QUOTE) || (c =? BACKSLASH) then [BACKSLASH; c] else [c]) ++ escape s.
Proof. done. Qed.

(** A quoted string is left alone by the comment stripper ... *)
Lemma strip_escaped s r : strip_loop (escape s ++ QUOTE :: r) true false = escape s ++ QUOTE :: strip_loop r false false.
Proof.
  induction s as [|c s IH]; [done|]. rewrite escape_cons, <- !app_assoc.
  destruct (Z.eqb_spec c QUOTE) as [->|Hq]; [cbn; by rewrite IH|].
  destruct (Z.eqb_spec c BACKSLASH) as [->|Hb]; [cbn; by rewrite IH|].
  cbn [orb app strip_loop]. destruct (Z.eqb_spec c BACKSLASH); [done|]. destruct (Z.eqb_spec c QUOTE); [done|].
  cbn [andb negb]. rewrite andb_false_r. by rewrite IH.
Qed.
Lemma strip_quote s r : strip_loop (quote s ++ r) false false = quote s ++ strip_loop r false false.
Proof. unfold quote. cbn [app]. rewrite <- !app_assoc. cbn [app]. change (strip_loop (QUOTE :: ?X) false false) with (QUOTE :: strip_loop X true false). by rewrite strip_escaped. Qed.
(** ... and read back by the tokenizer. *)
Lemma quoted_escaped s r n size : (n + length s < size)%nat -> quoted_loop (escape s ++ QUOTE :: r) n size = Some (s, r).
Proof.
  revert n. induction s as [|c s IH]; intros n Hn; [done|]. simpl in Hn. rewrite escape_cons, <- app_assoc.
  assert (forall c, (size <=? n + 1)%nat = false /\ ('(t, rest) ← quoted_loop (escape s ++ QUOTE :: r) (S n) size; Some (c :: t, rest))
    = Some (c :: s, r)) as Hstep.
  { intros d. split; [apply Nat.leb_gt; lia|]. rewrite IH by lia. done. }
  destruct (Hstep c) as [H1 H2].
  destruct ((c =? QUOTE) || (c =? BACKSLASH)) eqn:E.
  - cbn [app quoted_loop]. change (BACKSLASH =? QUOTE) with false. change (BACKSLASH =? BACKSLASH) with true.
    cbv iota. by rewrite H1.
  - apply orb_false_iff in E as [E1 E2]. cbn [app quoted_loop]. rewrite E1, E2.
    assert (exists d q, escape s ++ QUOTE :: r = d :: q) as (d & q & Eq) by (destruct (escape s); simpl; eauto).
    rewrite Eq. cbv iota. rewrite H1. by rewrite <- Eq.
Qed.

Lemma trim_loadlib s : trimmed s -> nv_loadlib_trim (s ++ [10]) = s.
Proof. intros Hs. apply (trim_trailing s [10] Hs). by repeat constructor. Qed.

Lemma quote_trimmed p s : (forall c q, p = c :: q -> isspace c = false) -> p <> [] -> trimmed (p ++ quote s).
Proof.
  intros Hp Hne. split.
  - intros c q E. destruct p as [|x p]; [done|]. injection E as <- _. by eapply Hp.
  - intros c. unfold quote. rewrite app_comm_cons, app_assoc, last_snoc. by intros [= <-].
Qed.

Lemma token_quoted s r w : (length s < 512)%nat -> Forall (fun c => isspace c = true) w ->
  nv_loadlib_parse_token (w ++ quote s ++ r) 512 = (NV_OK, Some (s, r)).
Proof.
  intros Hs Hw. unfold nv_loadlib_parse_token. change (512 =? 0)%nat with false. cbv iota.
  rewrite drop_while_spaces by done. unfold quote. cbn [app drop_while]. change (isspace QUOTE) with false. cbv iota.
  change (QUOTE =? QUOTE) with true. cbv iota. rewrite <- app_assoc. cbn [app]. by rewrite quoted_escaped.
Qed.

Lemma config_directive dir abs libs path args :
  config_item_ok (Directive path args) ->
  config_line dir abs libs (print_text (Directive path args) ++ [10]) = nv_core_loadlibs_append dir abs libs path args.
Proof.
  intros (_ & _ & _ & Hne & Hp & Ha). unfold config_line, nv_loadlib_strip_comment.
  assert (strip_loop (print_text (Directive path args) ++ [10]) false false = print_text (Directive path args) ++ [10]) as ->.
  { unfold print_text. rewrite <- !app_assoc.
    change (strip_loop (str "loadlib " ++ ?X) false false) with (str "loadlib " ++ strip_loop X false false).
    rewrite strip_quote. cbn [app]. change (strip_loop (32 :: ?X) false false) with (32 :: strip_loop X false false).
    by rewrite strip_quote. }
  assert (print_text (Directive path args) = (str "loadlib " ++ quote path ++ [32]) ++ quote args) as ->
    by (by rewrite <- !app_assoc).
  rewrite trim_loadlib.
  2: { apply quote_trimmed; [|done]. by intros c q [= <- _]. }
  rewrite <- !app_assoc.
  assert (is_directive (str "loadlib " ++ quote path ++ [32] ++ quote args) = true) as -> by done.
  cbn [negb]. change (drop 7 (str "loadlib " ++ quote path ++ [32] ++ quote args)) with ([32] ++ quote path ++ [32] ++ quote args).
  rewrite token_quoted by (done || by repeat constructor). destruct path as [|c path]; [done|].
  rewrite <- (app_nil_r (quote args)), token_quoted by (done || by repeat constructor). done.
Qed.

Lemma escape_plain s : Forall plain s -> Forall plain (escape s).
Proof.
  induction 1 as [|c s Hc _ IH]; [constructor|]. rewrite escape_cons. apply Forall_app. split; [|done].
  assert (plain BACKSLASH) by (split; [split; done|done]). case_match; repeat (apply Forall_cons; split; [done|]); apply Forall_nil_2.
Qed.
Lemma quote_plain s : Forall plain s -> Forall plain (quote s).
Proof.
  intros Hs. assert (plain QUOTE) by (split; [split; done|done]).
  constructor; [done|]. apply Forall_app. split; [by apply escape_plain|].
  apply Forall_cons; split; [done|apply Forall_nil_2].
Qed.
Lemma print_plain i : config_item_ok i -> Forall plain (print_text i).
Proof.
  intros [_ Hi]. destruct i as [path args|line]; [|apply Hi]. destruct Hi as (Hp & Ha & _). unfold print_text.
  assert (forall c, 11 <= c < 256 -> plain c) as Hc by (intros c Hc; split; [split; lia|lia]).
  apply Forall_app. split; [repeat (constructor; [apply Hc; vm_compute; intuition discriminate|]); constructor|].
  apply Forall_app. split; [by apply quote_plain|]. constructor; [apply Hc; lia|by apply quote_plain].
Qed.

Lemma config_print dir abs doc libs fuel :
  Forall config_item_ok doc -> (length (print_config doc) <= fuel)%nat ->
  config_loop dir abs fuel (print_config doc) libs = read_items dir abs doc libs.
Proof.
  intros Hd. revert libs fuel. induction Hd as [|i doc Hi Hd IH]; intros libs fuel Hf; [by destruct fuel|].
  change (print_config (i :: doc)) with ((print_text i ++ [10]) ++ print_config doc) in *.
  rewrite <- app_assoc in *. cbn [app] in *. rewrite length_app in Hf. simpl in Hf. destruct fuel as [|fuel]; [lia|].
  pose proof (print_plain i Hi) as Hp. set (t := print_text i) in *.
  assert (exists c r, t ++ 10 :: print_config doc = c :: r) as (c & r & Ec) by (destruct t; simpl; eauto).
  cbn [config_loop]. rewrite Ec. rewrite <- Ec.
  rewrite fgets_line; [|eapply Forall_impl; [exact Hp|]; by intros x []|exact (proj1 Hi)].
  rewrite c_string_ok.
  2: { apply Forall_app. split; [|by repeat constructor]. eapply Forall_impl; [exact Hp|]. intros x [[? ?] _]. lia. }
  destruct i as [path args|line].
  - unfold t. rewrite config_directive by done. unfold nv_core_loadlibs_append. cbn [read_items].
    destruct (nv_core_loadlib_resolve_path dir abs path); [|done]. cbn [Z.eqb]. apply IH. lia.
  - destruct Hi as (_ & _ & Hi). unfold config_line. unfold t, print_text. rewrite Hi. cbn [negb read_items].
    apply IH. lia.
Qed.

(** Directives printed with quoted, escaped paths and arguments, between any other
    lines, are read back in order: each resolved path with its arguments, up to the first
    path that is refused; other lines of the file are passed over. *)
Theorem nv_core_loadlibs_config_roundtrip dir abs (doc : list item) libs :
  Forall config_item_ok doc ->
  nv_core_loadlibs_parse_config dir abs libs false (Some (Some (print_config doc))) = read_items dir abs doc [].
Proof. intros Hd. by apply config_print. Qed.

Lemma nv_core_loadlibs_config_roundtrip_witness :
  nv_core_loadlibs_parse_config (Some (str "/usr/lib/nv")) false [] false
    (Some (Some (print_config [Other (str "; plugins"); Directive (str "al;pha.so") [QUOTE; 92; 32; 59]; Other (str "[main]")]))) =
  (NV_OK, [new_lib (str "/usr/lib/nv/al;pha.so") [QUOTE; 92; 32; 59]]).
Proof.
  rewrite (nv_core_loadlibs_config_roundtrip (Some (str "/usr/lib/nv")) false
    [Other (str "; plugins"); Directive (str "al;pha.so") [QUOTE; 92; 32; 59]; Other (str "[main]")] []); [by vm_compute|].
  assert (forall l, forallb (fun c => (11 <=? c) && (c <? 256)) l = true -> Forall plain l) as Hp.
  { intros l Hl%Forall_range. eapply Forall_impl; [exact Hl|]. intros c Hc. cbv beta in Hc. split; [split; lia|lia]. }
  repeat (apply Forall_cons; split); try apply Forall_nil_2.
  - split; [by vm_compute; lia|split; [by apply Hp|by vm_compute]].
  - split; [by vm_compute; lia|]. split_and!; [by apply Hp|by apply Hp|done|by vm_compute; lia|by vm_compute; lia].
  - split; [by vm_compute; lia|split; [by apply Hp|by vm_compute]].
Defined.

(** The codes of the function. *)
Lemma config_rc dir abs libs loaded file :
  (nv_core_loadlibs_parse_config dir abs libs loaded file).1 = NV_OK \/ (nv_core_loadlibs_parse_config dir abs libs loaded file).1 = NV_ERROR.
Proof.
  unfold nv_core_loadlibs_parse_config. destruct file as [[content|]|]; [|by destruct loaded; auto|by auto].
  destruct loaded; [by auto|]. generalize (@nil nv_core_loadlib_t) as ls. generalize (length content) as fuel.
  intros fuel. revert content. induction fuel as [|fuel IH]; intros content ls; cbn [config_loop]; [by auto|].
  destruct content; [by auto|]. destruct (fgets _ _). destruct (config_line _ _ _ _) as [rc' ls'].
  destruct (rc' =? NV_OK); [apply IH|]. auto.
Qed.

(** ** Where a plugin may come from *)

Lemma strstr_spec s p : strstr s p = true <-> exists a b, s = a ++ p ++ b.
Proof.
  split.
  - induction s as [|c s IH]; simpl; rewrite orb_true_iff, bool_decide_eq_true.
    + intros [H|[=]]. exists [], []. rewrite take_nil in H. by subst.
    + intros [H|H]; [|destruct (IH H) as (a & b & ->); by exists (c :: a), b].
      exists [], (drop (length p) (c :: s)). rewrite <- H at 1. cbn [app]. by rewrite take_drop.
  - intros (a & b & ->). induction a as [|c a IH]; simpl.
    + assert (bool_decide (take (length p) (p ++ b) = p) = true) as H
        by (apply bool_decide_eq_true, take_app_length).
      destruct (p ++ b) eqn:E; simpl; by rewrite H.
    + rewrite IH. apply orb_true_r.
Qed.

(** [p] is [dir] itself or lies below it. *)
Definition below (p dir : cstr) : Prop := p = dir \/ exists rest, p = dir ++ ch "/" :: rest.

Lemma under_dir_spec p dir : cstr_ok p -> cstr_ok dir -> dir <> [] ->
  nv_loadlib_path_is_under_dir p dir = true <-> below p dir.
Proof.
  intros Hp Hd Hne. unfold nv_loadlib_path_is_under_dir. destruct dir as [|d0 dir']; [done|]. set (dir := d0 :: dir') in *. clearbody dir.
  rewrite andb_true_iff, orb_true_iff, !Z.eqb_eq. unfold strncmp_eq. rewrite bool_decide_eq_true, take_app_length. split.
  - intros [H1 H2]. assert (length dir <= length p)%nat as Hl.
    { apply (f_equal length) in H1 as H3. rewrite length_take, length_app in H3. simpl length in H3.
      destruct (decide (length dir = S (length p))) as [E|]; [|lia]. exfalso.
      rewrite take_ge in H1 by (rewrite length_app; simpl; lia). unfold cstr_ok in Hd. rewrite <- H1 in Hd.
      apply Forall_app in Hd as [_ Hd]. apply Forall_inv in Hd. unfold char_ok in Hd. lia. }
    rewrite take_app_le in H1 by done. destruct (p !! length dir) as [c|] eqn:E; simpl in H2.
    + right. exists (drop (S (length dir)) p). rewrite <- H1 at 1. destruct H2 as [->| ->].
      { apply (Forall_lookup_1 _ _ _ _ Hp) in E. unfold char_ok in E. lia. }
      rewrite <- (take_drop (length dir) p) at 1. f_equal. by apply drop_S.
    + left. apply lookup_ge_None in E. rewrite <- H1. symmetry. by apply take_ge.
  - intros [->|(rest & ->)].
    + rewrite take_app_length. split; [done|]. left. by rewrite lookup_ge_None_2.
    + rewrite <- app_assoc, take_app_length. split; [done|]. right. by rewrite list_lookup_middle.
Qed.

(** A double dot in a string. *)
Definition has_dots (s : cstr) : Prop := exists a b, s = a ++ str ".." ++ b.

Lemma has_dots_lookup s : has_dots s <-> exists i, s !! i = Some (ch ".") /\ s !! S i = Some (ch ".").
Proof.
  split.
  - intros (a & b & ->). exists (length a). split; rewrite lookup_app_r by lia; [by rewrite Nat.sub_diag|].
    by replace (S (length a) - length a)%nat with 1%nat by lia.
  - intros (i & H1 & H2). exists (take i s), (drop (S (S i)) s). change (s = take i s ++ ch "." :: ch "." :: drop (S (S i)) s).
    by rewrite <- (drop_S _ _ _ H2), <- (drop_S _ _ _ H1), take_drop.
Qed.

(** Cutting a string makes no double dot, and one in a path below a directory is in the
    directory or in the rest. *)
Lemma has_dots_trunc n s : has_dots (str_trunc n s) -> has_dots s.
Proof.
  rewrite !has_dots_lookup. intros (i & H1 & H2). unfold str_trunc in *. exists i.
  apply lookup_take_Some in H1 as [? _], H2 as [? _]. done.
Qed.
Lemma has_dots_join dir p : has_dots (dir ++ ch "/" :: p) -> has_dots dir \/ has_dots p.
Proof.
  rewrite !has_dots_lookup. intros (i & H1 & H2). destruct (lt_eq_lt_dec i (length dir)) as [[Hi|Hi]|Hi].
  - rewrite lookup_app_l in H1 by done. destruct (decide (S i = length dir)) as [E|].
    + rewrite E, list_lookup_middle in H2 by done. done.
    + rewrite lookup_app_l in H2 by lia. eauto.
  - rewrite list_lookup_middle in H1 by done. done.
  - right. rewrite lookup_app_r in H1, H2 by lia. exists (i - length dir - 1)%nat.
    replace (i - length dir)%nat with (S (i - length dir - 1)) in H1 by lia.
    replace (S i - length dir)%nat with (S (S (i - length dir - 1))) in H2 by lia. done.
Qed.

(** C29: the path a plugin is opened with.  It has a double dot only if the configured plugin
    directory has one.  With a plugin directory configured it is either a name without slash
    in that directory (the join cut to 4095 bytes), or, only with absolute paths allowed, the
    requested path itself, which has a slash and, when it is absolute, lies below the
    directory.  Without a plugin directory it is the requested path, which has a slash only
    with absolute paths allowed. *)
Theorem nv_core_loadlib_confined loadlib_dir abs path r :
  cstr_ok path -> cstr_ok (default [] loadlib_dir) -> nv_core_loadlib_resolve_path loadlib_dir abs path = Some r ->
  (has_dots r -> has_dots (default [] loadlib_dir)) /\
  match default [] loadlib_dir with
  | [] => r = path /\ (ch "/" ∈ path -> abs = true)
  | dir =>
      (ch "/" ∉ path) /\ r = str_trunc PATH_MAX (dir ++ ch "/" :: path) \/
      abs = true /\ ch "/" ∈ path /\ r = path /\ (head path = Some (ch "/") -> below path dir)
  end.
Proof.
  intros Hp Hd. unfold nv_core_loadlib_resolve_path. destruct path as [|c path']; [done|]. set (path := c :: path') in *.
  destruct (strstr path (str "..")) eqn:Ed; [done|].
  assert (~ has_dots path) as Hdot by (unfold has_dots; rewrite <- strstr_spec, Ed; done).
  assert (c = ch "/" -> ch "/" ∈ path) as Hhead by (intros ->; apply list_elem_of_here).
  assert (forall p, strchr path (ch "/") = Some p -> ch "/" ∈ path) as Hslash.
  { intros q [Es _]%strchr_Some. by eapply list_elem_of_lookup_2. }
  destruct (Z.eqb_spec c (ch "/")) as [E|Hc].
  - destruct abs; [|done]. cbn [negb]. destruct loadlib_dir as [[|d0 dir]|]; cbn [default from_option id] in *.
    1,3: by intros [= <-].
    destruct (nv_loadlib_path_is_under_dir path (d0 :: dir)) eqn:Eu; [|done]. intros [= <-].
    apply under_dir_spec in Eu; [|done..]. split; [done|]. right. split_and!; auto.
  - destruct (strchr path (ch "/")) as [q|] eqn:Es.
    + specialize (Hslash q eq_refl). destruct abs; [|done]. intros [= <-]. split; [done|].
      destruct (default [] loadlib_dir); [done|]. right. split_and!; auto. by intros [= ?].
    + apply strchr_None in Es. destruct loadlib_dir as [[|d0 dir]|]; cbn [default from_option id] in *; intros [= <-].
      1,3: split; [done|]; by split.
      split; [|by left]. intros H%has_dots_trunc. by destruct (has_dots_join (d0 :: dir) path H).
Qed.

Lemma nv_core_loadlib_confined_witness :
  let r := str "/usr/lib/nv/alpha.so" in
  (has_dots r -> has_dots (str "/usr/lib/nv")) /\
  ((ch "/" ∉ str "alpha.so") /\ r = str_trunc PATH_MAX (str "/usr/lib/nv" ++ ch "/" :: str "alpha.so") \/
   false = true /\ ch "/" ∈ str "alpha.so" /\ r = str "alpha.so" /\
   (head (str "alpha.so") = Some (ch "/") -> below (str "alpha.so") (str "/usr/lib/nv"))).
Proof.
  apply (nv_core_loadlib_confined (Some (str "/usr/lib/nv")) false (str "alpha.so") (str "/usr/lib/nv/alpha.so")).
  - by apply cstr_ok_check.
  - by apply cstr_ok_check.
  - by vm_compute.
Defined.

(** With absolute paths allowed the plugin directory does not bind relative paths, and
    a directory configured with a slash at its end refuses its own plugins. *)
Theorem nv_core_loadlib_directory_gaps :
  nv_core_loadlib_resolve_path (Some (str "/usr/lib/nv")) true (str "tmp/evil.so") = Some (str "tmp/evil.so") /\
  nv_core_loadlib_resolve_path (Some (str "/usr/lib/nv/")) true (str "/usr/lib/nv/alpha.so") = None.
Proof. by vm_compute. Qed.

(** ** Waiting for a thread *)

(** What at most [n] further attempts give. *)
Definition attempts (tryjoin : nat -> nat -> Z) (i k n : nat) : Z :=
  match list_find (fun j => tryjoin i j <> EBUSY) (seq k n) with
  | Some (_, j) => if tryjoin i j =? 0 then NV_OK else NV_ERROR
  | None => NV_BUSY
  end.

Lemma attempts_S tryjoin i k n : attempts tryjoin i k (S n) =
  if tryjoin i k =? EBUSY then attempts tryjoin i (S k) n else if tryjoin i k =? 0 then NV_OK else NV_ERROR.
Proof.
  unfold attempts. cbn [seq list_find]. destruct (Z.eqb_spec (tryjoin i k) EBUSY) as [E|E].
  - rewrite decide_False by naive_solver. destruct (list_find _ _) as [[? ?]|]; done.
  - by rewrite decide_True.
Qed.

Lemma join_loop_spec tryjoin i timeout fuel k n : 0 < timeout ->
  Z.of_nat n = (timeout + 99) / 100 - Z.of_nat k -> (n < fuel)%nat ->
  join_loop tryjoin fuel k i (100 * Z.of_nat k) timeout = Some (attempts tryjoin i k (S n)).
Proof.
  intros Ht. revert k n. induction fuel as [|fuel IH]; intros k n Hn Hf; [lia|]. rewrite attempts_S. cbn [join_loop].
  destruct (Z.eqb_spec (tryjoin i k) 0) as [E|E].
  { rewrite E. done. }
  destruct (Z.eqb_spec (tryjoin i k) EBUSY) as [Eb|Eb]; [|done]. cbn [negb].
  destruct (Z.leb_spec timeout (100 * Z.of_nat k)).
  - assert (n = O) as -> by (Z.div_mod_to_equations; lia). done.
  - destruct n as [|n]; [Z.div_mod_to_equations; lia|].
    replace (100 * Z.of_nat k + 100) with (100 * Z.of_nat (S k)) by lia. apply IH; lia.
Qed.

Lemma join_spec tryjoin i timeout :
  let t := if timeout <=? 0 then 3000 else timeout in
  join_loop tryjoin (Z.to_nat (t / 100) + 2) 0 i 0 t = Some (attempts tryjoin i 0 (S (Z.to_nat ((t + 99) / 100)))).
Proof.
  intros t. assert (0 < t) as Ht by (unfold t; destruct (Z.leb_spec timeout 0); lia).
  apply (join_loop_spec tryjoin i t _ 0 (Z.to_nat ((t + 99) / 100)) Ht).
  - rewrite Z2Nat.id; Z.div_mod_to_equations; lia.
  - Z.div_mod_to_equations. lia.
Qed.

(** Waiting for a plugin's thread ends: with a timeout of [t] milliseconds (3000 when it
    is not positive) at most [t / 100] rounded up, plus one, attempts to join are made; the
    answer is that of the first attempt that is not busy, and busy when all are. *)
Theorem nv_core_loadlib_join_bounded tryjoin i lib timeout :
  let t := if timeout <=? 0 then 3000 else timeout in
  let rc := attempts tryjoin i 0 (S (Z.to_nat ((t + 99) / 100))) in
  nv_core_loadlib_join tryjoin i lib timeout =
  if thread_started lib then (rc, set_started false lib, Join i rc :: (if rc =? NV_BUSY then [Detach i] else []))
  else (NV_OK, lib, []).
Proof. intros t rc. unfold nv_core_loadlib_join. by rewrite join_spec; destruct (thread_started lib). Qed.

(** ** Closing *)

Definition opens (ev : list event) : list Z := omap (fun e => if e is Dlopen h then Some h else None) ev.
Definition closes (ev : list event) : list Z := omap (fun e => if e is Dlclose h then Some h else None) ev.
Definition held (libs : list nv_core_loadlib_t) : list Z := omap handle libs.
Definition detaches (ev : list event) (i : nat) : Prop := Detach i ∈ ev.

Lemma opens_app a b : opens (a ++ b) = opens a ++ opens b.
Proof. apply omap_app. Qed.
Lemma closes_app a b : closes (a ++ b) = closes a ++ closes b.
Proof. apply omap_app. Qed.
Lemma held_app a b : held (a ++ b) = held a ++ held b.
Proof. apply omap_app. Qed.

Lemma join_events tryjoin i lib timeout : let '(rc, lib', ev) := nv_core_loadlib_join tryjoin i lib timeout in
  opens ev = [] /\ closes ev = [] /\ handle lib' = handle lib /\ cleanup lib' = cleanup lib /\ thread_started lib' = false /\
  (rc = NV_OK \/ rc = NV_ERROR \/ rc = NV_BUSY /\ detaches ev i).
Proof.
  unfold nv_core_loadlib_join. destruct (thread_started lib) eqn:E; cbn [negb]; [|by split_and!; auto].
  rewrite join_spec. cbn [default].
  assert (forall k n, attempts tryjoin i k n = NV_OK \/ attempts tryjoin i k n = NV_ERROR \/ attempts tryjoin i k n = NV_BUSY) as H.
  { intros k n. unfold attempts. repeat case_match; auto. }
  match goal with |- context [attempts tryjoin i 0 ?n] => destruct (H O n) as [-> | [-> | ->]] end;
    split_and!; try done; auto. right. right. split; [done|]. unfold detaches. set_solver.
Qed.

Lemma close_one_spec tryjoin t i lib : let '(lib', ev) := close_one tryjoin t i lib in
  opens ev = [] /\ (handle lib = None -> lib' = lib) /\ (handle lib <> None -> thread_started lib' = false) /\
  (handle lib' = None /\ closes ev = option_list (handle lib) \/ handle lib' <> None /\ closes ev = [] /\ detaches ev i).
Proof.
  unfold close_one. destruct (handle lib) as [h|] eqn:Eh; [|by split_and!; auto].
  pose proof (join_events tryjoin i lib t) as Hj.
  destruct (nv_core_loadlib_join tryjoin i lib t) as [[rc lib'] ev]. destruct Hj as (Ho & Hc & Hh & Hcl & Hs & Hrc).
  assert (opens ((if cleanup lib' then [Cleanup i] else []) ++ ev) = [] /\ closes ((if cleanup lib' then [Cleanup i] else []) ++ ev) = [])
    as [Ho' Hc'] by (rewrite opens_app, closes_app, Ho, Hc; by destruct (cleanup lib')).
  destruct ((rc =? NV_OK) || (rc =? NV_ERROR)) eqn:Er.
  - rewrite opens_app, closes_app, Ho', Hc'. split_and!; try done. left. done.
  - split_and!; try done. right. split; [by rewrite Hh, Eh|]. split; [done|].
    destruct Hrc as [-> | [-> | [_ Hd]]]; [done|done|]. unfold detaches in *. set_solver.
Qed.

(** The state after closing, against the handles held before. *)
Record closed (libs libs' : list nv_core_loadlib_t) (i : nat) (ev : list event) : Prop := {
  cl_opens : opens ev = [];
  cl_order : closes ev `sublist_of` rev (held libs);
  cl_left : forall j l, libs' !! j = Some l -> handle l <> None -> detaches ev (i + j);
  cl_all : (forall j, ~ detaches ev j) -> closes ev = rev (held libs);
}.

Lemma close_loaded_spec tryjoin t i libs :
  let '(libs', ev) := nv_core_loadlibs_close_loaded tryjoin t i libs in
  closed libs libs' i ev /\ length libs' = length libs.
Proof.
  revert i. induction libs as [|lib libs IH]; intros i; cbn [nv_core_loadlibs_close_loaded].
  { split; [|done]. split; try done. }
  specialize (IH (S i)). destruct (nv_core_loadlibs_close_loaded tryjoin t (S i) libs) as [libs' ev].
  destruct IH as [[H1 H2 H3 H4] Hl]. pose proof (close_one_spec tryjoin t i lib) as Hone.
  destruct (close_one tryjoin t i lib) as [lib' ev']. destruct Hone as (Ho & _ & _ & Hc).
  assert (held (lib :: libs) = option_list (handle lib) ++ held libs) as Eh by (cbn; by destruct (handle lib)).
  assert (closes ev' `sublist_of` rev (option_list (handle lib))) as Hs.
  { destruct Hc as [[_ ->]|(_ & -> & _)]; [by destruct (handle lib)|apply sublist_nil_l]. }
  split; [|simpl; lia]. split.
  - by rewrite opens_app, H1, Ho.
  - rewrite closes_app, Eh, rev_app_distr. by apply sublist_app.
  - intros [|j] l Hj Hn; unfold detaches in *.
    + injection Hj as <-. rewrite Nat.add_0_r. destruct Hc as [[? _]|(_ & _ & Hd)]; [done|]. set_solver.
    + rewrite Nat.add_succ_r, <- Nat.add_succ_l. apply elem_of_app. left. by apply (H3 j l).
  - intros Hno. unfold detaches in *. rewrite closes_app, Eh, rev_app_distr, H4 by set_solver. f_equal.
    destruct Hc as [[_ ->]|(_ & _ & Hd)]; [by destruct (handle lib)|]. exfalso. apply (Hno i). set_solver.
Qed.

(** ** Loading *)

Definition fresh_lib (l : nv_core_loadlib_t) : Prop := handle l = None /\ thread_started l = false.
Definition running (l : nv_core_loadlib_t) : Prop := handle l <> None /\ thread_started l = true.

Lemma held_fresh libs : Forall fresh_lib libs -> held libs = [].
Proof. induction 1 as [|l libs [Hl _] _ IH]; [done|]. cbn. by rewrite Hl. Qed.

(** The outcome of a load, counting the handles held before it. *)
Definition loaded_ok (held0 : list Z) (libs : list nv_core_loadlib_t) (ev : list event) : Prop :=
  Forall running libs /\ held libs = held0 ++ opens ev /\ closes ev = [].
Definition load_undone (held0 : list Z) (libs : list nv_core_loadlib_t) (ev : list event) : Prop :=
  (closes ev `sublist_of` rev (held0 ++ opens ev)) /\
  (forall j l, libs !! j = Some l -> handle l <> None -> detaches ev j) /\
  ((forall j, ~ detaches ev j) -> closes ev = rev (held0 ++ opens ev)).

Section loading.
Context (dlopen : cstr -> option Z) (has_init has_cleanup : Z -> bool).
Context (create_ok : nat -> bool) (tryjoin : nat -> nat -> Z).
Context (sec : Z) (Hsec : INT_MIN <= sec * 1000 <= INT_MAX).

(** A failure with the handle of the current plugin just opened, or not. *)
Lemma load_failed_spec libs evs : Forall (fun e => closes [e] = [] /\ forall j, e <> Detach j) evs ->
  exists libs' ev, after evs (load_failed tryjoin sec libs) = Ret (NV_ERROR, libs', ev) /\ length libs' = length libs /\
    forall held0, held libs = held0 ++ opens evs -> load_undone held0 libs' ev.
Proof.
  intros Hevs. unfold load_failed, int_chk.
  destruct (Z.leb_spec INT_MIN (sec * 1000)), (Z.leb_spec (sec * 1000) INT_MAX); try lia. cbn [andb mbind outcome_bind after].
  pose proof (close_loaded_spec tryjoin (sec * 1000) 0 libs) as Hc.
  destruct (nv_core_loadlibs_close_loaded tryjoin (sec * 1000) 0 libs) as [libs' ev]. destruct Hc as [[H1 H2 H3 H4] Hl].
  exists libs', (evs ++ ev). split; [done|]. split; [done|]. intros held0 Eh.
  assert (closes evs = [] /\ forall j, ~ detaches evs j) as [Hc Hd].
  { clear -Hevs. unfold detaches. induction Hevs as [|e evs [He Hne] _ [IH1 IH2]]; [split; [done|set_solver]|]. split.
    - change (e :: evs) with ([e] ++ evs). by rewrite closes_app, He.
    - intros j [E|E]%elem_of_cons; [by apply (Hne j)|by apply (IH2 j)]. }
  unfold load_undone. rewrite opens_app, closes_app, H1, Hc, app_nil_r, <- Eh. cbn [app]. split_and!; [done| |].
  - intros j l Hj Hn. unfold detaches. apply elem_of_app. right. by apply (H3 j l).
  - intros Hno. apply H4. intros j Hj. apply (Hno j). unfold detaches. apply elem_of_app. by right.
Qed.

Lemma load_each_spec before todo : Forall running before -> Forall fresh_lib todo ->
  exists rc libs' ev, load_each dlopen has_init has_cleanup create_ok tryjoin sec before todo = Ret (rc, libs', ev) /\
    length libs' = length (before ++ todo) /\
    (rc = NV_OK /\ loaded_ok (held before) libs' ev \/ rc = NV_ERROR /\ load_undone (held before) libs' ev).
Proof.
  intros Hb Ht. revert before Hb. induction Ht as [|lib next Hf Hn IH]; intros before Hb; cbn [load_each].
  { exists NV_OK, before, []. rewrite app_nil_r. split; [done|]. split; [done|]. left. split; [done|].
    split; [done|]. by rewrite app_nil_r. }
  assert (forall evs lib1, Forall (fun e => closes [e] = [] /\ forall j, e <> Detach j) evs ->
    held [lib1] = opens evs -> exists rc libs' ev,
      after evs (load_failed tryjoin sec (before ++ lib1 :: next)) = Ret (rc, libs', ev) /\
      length libs' = length (before ++ lib :: next) /\
      (rc = NV_OK /\ loaded_ok (held before) libs' ev \/ rc = NV_ERROR /\ load_undone (held before) libs' ev)) as Hfail.
  { intros evs lib1 Hevs Eo. destruct (load_failed_spec (before ++ lib1 :: next) evs Hevs) as (libs' & ev & -> & Hl & Hu).
    exists NV_ERROR, libs', ev. split; [done|]. split; [rewrite Hl, !length_app; done|]. right. split; [done|]. apply Hu.
    change (lib1 :: next) with ([lib1] ++ next). by rewrite !held_app, (held_fresh next), app_nil_r, Eo. }
  assert (forall h, Forall (fun e => closes [e] = [] /\ forall j, e <> Detach j) [Dlopen h]) as Hop by (intros; by repeat constructor).
  destruct (dlopen (path lib)) as [h|] eqn:Eo.
  2: { destruct (Hfail [] (set_handle None lib)) as (rc & libs' & ev & E & H); [constructor|done|].
       exists rc, libs', ev. split; [|done]. revert E. by destruct (load_failed tryjoin sec _) as [[[? ?] ?]| |]. }
  destruct (has_init h); cbn [negb]; [|by apply Hfail]. destruct (create_ok (length before)); cbn [negb]; [|by apply Hfail].
  set (lib1 := set_started true _). destruct (IH (before ++ [lib1])) as (rc & libs' & ev & -> & Hl & Hrc).
  { apply Forall_app. split; [done|]. apply Forall_cons. split; [done|apply Forall_nil_2]. }
  exists rc, libs', ([Dlopen h; Start (length before)] ++ ev). split; [done|]. split; [rewrite Hl, !length_app; simpl; lia|].
  assert (held (before ++ [lib1]) = held before ++ [h]) as Eh by (by rewrite held_app). rewrite Eh in Hrc.
  unfold loaded_ok, load_undone, detaches in *. rewrite opens_app, closes_app. cbn [opens closes omap list_omap app].
  rewrite <- app_assoc in Hrc. destruct Hrc as [[-> H]|[-> (H1 & H2 & H3)]]; [by left|right].
  split; [done|]. split; [done|]. split; [set_solver|]. intros Hno. apply H3. set_solver.
Qed.

End loading.

(** C31: loading succeeds with every plugin opened and its thread started, or fails with what
    it opened closed again: each handle at most once and in reverse order of opening, a
    handle left open only where the thread was still running and was detached, and all of
    them closed when no thread was. *)
Theorem nv_core_loadlibs_load_all_or_nothing dlopen has_init has_cleanup create_ok tryjoin sec libs :
  INT_MIN <= sec * 1000 <= INT_MAX -> Forall fresh_lib libs ->
  exists rc libs' ev, nv_core_loadlibs_load dlopen has_init has_cleanup create_ok tryjoin sec libs false =
      Ret (rc, libs', rc =? NV_OK, ev) /\ length libs' = length libs /\
    (rc = NV_OK /\ loaded_ok [] libs' ev \/ rc = NV_ERROR /\ load_undone [] libs' ev).
Proof.
  intros Hs Hf. unfold nv_core_loadlibs_load.
  destruct (load_each_spec dlopen has_init has_cleanup create_ok tryjoin sec Hs [] libs) as (rc & libs' & ev & -> & H); [constructor|done|].
  by exists rc, libs', ev.
Qed.

(** Two plugins: the first starts, the second cannot be opened. *)
Definition demo_dlopen (p : cstr) : option Z := if strcmp_eq p (str "a.so") then Some 7 else None.
Definition demo_libs : list nv_core_loadlib_t := [new_lib (str "a.so") []; new_lib (str "b.so") []].

Lemma nv_core_loadlibs_load_all_or_nothing_witness :
  exists rc libs' ev, nv_core_loadlibs_load demo_dlopen (fun _ => true) (fun _ => true) (fun _ => true) (fun _ _ => 0) 5 demo_libs false =
      Ret (rc, libs', rc =? NV_OK, ev) /\ rc = NV_ERROR /\ closes ev = [7] /\ opens ev = [7].
Proof.
  destruct (nv_core_loadlibs_load_all_or_nothing demo_dlopen (fun _ => true) (fun _ => true) (fun _ => true) (fun _ _ => 0) 5 demo_libs)
    as (rc & libs' & ev & E & _).
  - vm_compute. split; discriminate.
  - by repeat constructor.
  - exists rc, libs', ev. split; [exact E|]. vm_compute in E. by injection E as <- <- _ <-.
Defined.

(** Unloading frees the records of all plugins also when a thread did not end within
    the timeout: that thread is detached, and when its [init] returns it writes to its freed
    record. *)
Theorem nv_core_loadlibs_unload_frees_running tryjoin sec libs i lib h rc :
  INT_MIN <= sec * 1000 <= INT_MAX -> libs !! i = Some lib -> handle lib = Some h -> thread_started lib = true ->
  (forall k, tryjoin i k = EBUSY) ->
  exists ev, nv_core_loadlibs_unload tryjoin sec libs = Ret ([], false, ev) /\ Detach i ∈ ev /\
    nv_core_loadlib_thread_main [] i rc = UB.
Proof.
  intros Hs Hi Hh Hst Hbusy. unfold nv_core_loadlibs_unload, int_chk.
  destruct (Z.leb_spec INT_MIN (sec * 1000)), (Z.leb_spec (sec * 1000) INT_MAX); try lia. cbn [andb mbind outcome_bind].
  assert (forall j, i = (j + (i - j))%nat -> forall libs, libs !! (i - j)%nat = Some lib ->
    Detach i ∈ (nv_core_loadlibs_close_loaded tryjoin (sec * 1000) j libs).2) as Hd.
  { clear Hi libs. intros j Hj libs. revert j Hj. induction libs as [|l libs IH]; intros j Hj Hi; [done|].
    cbn [nv_core_loadlibs_close_loaded].
    destruct (nv_core_loadlibs_close_loaded tryjoin (sec * 1000) (S j) libs) as [libs' ev] eqn:Ec.
    destruct (close_one tryjoin (sec * 1000) j l) as [lib' ev'] eqn:E1. cbn [snd]. apply elem_of_app.
    destruct (decide (i = j)) as [->|Hne].
    - right. rewrite Nat.sub_diag in Hi. injection Hi as ->. unfold close_one in E1. rewrite Hh in E1.
      unfold nv_core_loadlib_join in E1. rewrite Hst, join_spec in E1. cbn [negb default] in E1.
      assert (forall k n, attempts tryjoin j k n = NV_BUSY) as Ha.
      { intros k n. revert k. induction n as [|n IHn]; intros k; [done|]. rewrite attempts_S, Hbusy. apply IHn. }
      rewrite Ha in E1. injection E1 as _ <-. set_solver.
    - left. specialize (IH (S j)). rewrite Ec in IH. apply IH; [lia|].
      replace (i - j)%nat with (S (i - S j)) in Hi by lia. exact Hi. }
  specialize (Hd O ltac:(lia) libs). rewrite Nat.sub_0_r in Hd. specialize (Hd Hi).
  destruct (nv_core_loadlibs_close_loaded tryjoin (sec * 1000) 0 libs) as [libs' ev]. exists ev. split_and!; done.
Qed.

Definition stuck_lib : nv_core_loadlib_t := mkLib (str "a.so") [] (Some 7) true false true false 0.
Lemma nv_core_loadlibs_unload_frees_running_witness :
  exists ev, nv_core_loadlibs_unload (fun _ _ => EBUSY) 1 [stuck_lib] = Ret ([], false, ev) /\ Detach 0 ∈ ev /\
    nv_core_loadlib_thread_main [] 0 NV_OK = UB.
Proof.
  apply (nv_core_loadlibs_unload_frees_running (fun _ _ => EBUSY) 1 [stuck_lib] 0 stuck_lib 7 NV_OK);
    [split; vm_compute; discriminate|reflexivity..].
Defined.

(** When a load fails while a thread does not end, the thread is detached but no longer
    marked as started: the unload that follows the failed start runs its cleanup a second
    time and closes its library without waiting. *)
Theorem nv_core_loadlibs_second_close :
  exists libs ev, nv_core_loadlibs_load demo_dlopen (fun _ => true) (fun _ => true) (fun _ => true) (fun _ _ => EBUSY) 1 demo_libs false =
    Ret (NV_ERROR, libs, false, ev) /\
    ev = [Dlopen 7; Start 0; Cleanup 0; Join 0 NV_BUSY; Detach 0] /\
    nv_core_loadlibs_unload (fun _ _ => EBUSY) 1 libs = Ret ([], false, [Cleanup 0; Dlclose 7]).
Proof. eexists _, _. split; [by vm_compute|]. split; [done|]. by vm_compute. Qed.

End LoadLib.
