(* ===== verification/Config.v ===== *)
(** * Command line and configuration (core/runtime/nv_core_args.c, nv_core_config.c)

    The defaults, the command line, the options read from the INI file (through [Ini],
    [LoadLib] and the settings of [Log]), their validation, and the reload of a running
    process with its rollback.  Theorems: loading gives each option the value its keys name
    and leaves the others; what validation accepts; a reload that succeeds is valid; what a
    rejected reload restores, and that it leaves other options changed. *)
From S2P Require Import Prelude Ini Log LoadLib.

Module Config.

Definition NV_OK : Z := 0.
Definition NV_ERROR : Z := -1.
Definition NV_DECLINED : Z := -5.

(** ** Options *)

(** The fields of [nv_core_opts_t]: numbers and strings.  [prog_name] is only printed. *)
Inductive iopt :=
  | daemon | foreground | use_syslog | log_level | worker_threads | worker_connections | worker_processes
  | worker_respawn | heartbeat_interval_sec | shutdown_timeout_sec | systemd_notify | max_open_files | core_limit
  | telnet_enable | telnet_port | loadlib_allow_absolute | watchdog_enable | log_rotate_max_mb | log_rotate_keep
  | metrics_publish | help | version.
Inductive sopt :=
  | config_file | pid_file | log_file | mq_name | ctl_socket | pubsub_socket | instance_lock | telnet_bind
  | cli_username | cli_password | loadlib_dir | tombstone_file | watchdog_device | watchdog_cmd | metrics_topic.
#[export] Instance iopt_eq_dec : EqDecision iopt.
Proof. solve_decision. Defined.
#[export] Instance sopt_eq_dec : EqDecision sopt.
Proof. solve_decision. Defined.

(** [nv_conf_t], the part handed to the library's own start. *)
Record nv_conf_t := mkConf {
  c_daemon : Z;
  c_worker_processes : Z;
  c_worker_connections : Z;
  c_pid_file : cstr;
  c_log_file : cstr;
  c_log_level : Z;
}.

(** The part of [nv_core_ctx_t] that configuration concerns, with the logger's settings.
    A string option is the string it points to (the copies in the [_dup] fields live as
    long as the context). *)
Record nv_core_ctx_t := mkCtx {
  ints : iopt -> Z;
  strs : sopt -> cstr;
  conf : nv_conf_t;
  ini : option Ini.nv_ini_t;
  loadlibs : list LoadLib.nv_core_loadlib_t;
  loadlibs_loaded : bool;
  logger : Log.settings;
}.

Definition upd {A B} `{EqDecision A} (f : A -> B) (a : A) (b : B) : A -> B := fun x => if decide (x = a) then b else f x.
Definition set_int (o : iopt) (v : Z) (c : nv_core_ctx_t) : nv_core_ctx_t :=
  mkCtx (upd (ints c) o v) (strs c) (conf c) (ini c) (loadlibs c) (loadlibs_loaded c) (logger c).
Definition set_str (o : sopt) (v : cstr) (c : nv_core_ctx_t) : nv_core_ctx_t :=
  mkCtx (ints c) (upd (strs c) o v) (conf c) (ini c) (loadlibs c) (loadlibs_loaded c) (logger c).
Definition set_conf (f : nv_conf_t -> nv_conf_t) (c : nv_core_ctx_t) : nv_core_ctx_t :=
  mkCtx (ints c) (strs c) (f (conf c)) (ini c) (loadlibs c) (loadlibs_loaded c) (logger c).
Definition set_ini (i : option Ini.nv_ini_t) (c : nv_core_ctx_t) : nv_core_ctx_t :=
  mkCtx (ints c) (strs c) (conf c) i (loadlibs c) (loadlibs_loaded c) (logger c).
Definition set_libs (l : list LoadLib.nv_core_loadlib_t) (c : nv_core_ctx_t) : nv_core_ctx_t :=
  mkCtx (ints c) (strs c) (conf c) (ini c) l (loadlibs_loaded c) (logger c).
Definition on_logger (f : Log.settings -> Log.settings) (c : nv_core_ctx_t) : nv_core_ctx_t :=
  mkCtx (ints c) (strs c) (conf c) (ini c) (loadlibs c) (loadlibs_loaded c) (f (logger c)).

Definition default_int (o : iopt) : Z :=
  match o with
  | log_level => Log.NV_LOG_LEVEL_INFO
  | worker_threads => 1
  | worker_connections => 128
  | heartbeat_interval_sec => 60
  | shutdown_timeout_sec => 30
  | systemd_notify => -1
  | worker_respawn => 1
  | core_limit => -1
  | telnet_port => 2323
  | log_rotate_max_mb => 4
  | log_rotate_keep => 3
  | _ => 0
  end.
Definition default_str (o : sopt) : cstr :=
  match o with
  | config_file => str "/etc/nv/nv.conf"
  | pid_file => str "/var/run/nv.pid"
  | log_file => str "/var/log/nv.log"
  | mq_name => str "/nv_core_mq"
  | ctl_socket => str "/var/run/nv.ctl.sock"
  | pubsub_socket => str "/tmp/nv_pubsub.sock"
  | instance_lock => str "libnv"
  | telnet_bind => str "127.0.0.1"
  | cli_username => str "admin"
  | cli_password => []
  | loadlib_dir => str "/usr/lib/nv/plugins"
  | tombstone_file => str "/var/log/nv.tombstone"
  | watchdog_device => str "/dev/watchdog"
  | watchdog_cmd => []
  | metrics_topic => str "nv/metrics"
  end.

Definition nv_core_set_defaults (c : nv_core_ctx_t) : nv_core_ctx_t :=
  mkCtx default_int default_str
    (mkConf 0 (default_int worker_threads) (default_int worker_connections) (default_str pid_file)
       (default_str log_file) (default_int log_level))
    None [] false (logger c).

(** ** The command line *)

(** One answer of [getopt]: an option with its argument, or an error. *)
Inductive opt := Opt (c : Z) (optarg : cstr) | Unknown.

(** The option letters "c:p:l:dfshv". *)
Definition takes_arg (c : Z) : bool := (c =? ch "c") || (c =? ch "p") || (c =? ch "l").
Definition is_flag (c : Z) : bool := (c =? ch "d") || (c =? ch "f") || (c =? ch "s") || (c =? ch "h") || (c =? ch "v").

(** The letters of one argument; the second part is the letter that needs the next one. *)
Fixpoint letters (s : cstr) : list opt * option Z :=
  match s with
  | [] => ([], None)
  | c :: s' =>
      if is_flag c then let '(os, need) := letters s' in (Opt c [] :: os, need)
      else if takes_arg c then match s' with [] => ([], Some c) | _ => ([Opt c s'], None) end
      else ([Unknown], None)     (* the caller stops here *)
  end.

(** [getopt] of the C library over the arguments after the program's name: other arguments
    are passed over, two dashes end the options. *)
Fixpoint getopt (argv : list cstr) : list opt :=
  match argv with
  | [] => []
  | a :: rest =>
      if strcmp_eq a (str "--") then []
      else
        match a with
        | d :: ((_ :: _) as s) =>
            if d =? ch "-" then
              match letters s with
              | (os, None) => os ++ getopt rest
              | (os, Some c) => os ++ match rest with [] => [Unknown] | v :: rest' => Opt c v :: getopt rest' end
              end
            else getopt rest
        | _ => getopt rest
        end
  end.

(** The loop over the options: [None] at the first that is not known. *)
Fixpoint apply_opts (os : list opt) (c : nv_core_ctx_t) : option nv_core_ctx_t :=
  match os with
  | [] => Some c
  | Unknown :: _ => None
  | Opt o v :: os' =>
      apply_opts os'
        (if o =? ch "c" then set_str config_file v c
         else if o =? ch "p" then set_str pid_file v c
         else if o =? ch "l" then set_str log_file v c
         else if o =? ch "d" then set_int daemon 1 c
         else if o =? ch "f" then set_int foreground 1 c
         else if o =? ch "s" then set_int use_syslog 1 c
         else if o =? ch "h" then set_int help 1 c
         else set_int version 1 c)
  end.

(** The return code, with the context where the options were all known. *)
Definition nv_core_parse_args (c : nv_core_ctx_t) (argv : list cstr) : Z * option nv_core_ctx_t :=
  match apply_opts (getopt argv) (nv_core_set_defaults c) with
  | None => (NV_ERROR, None)
  | Some c =>
      if negb (ints c help =? 0) || negb (ints c version =? 0) then (NV_DECLINED, Some c)
      else
        (NV_OK, Some (set_conf (fun k => mkConf (c_daemon k) (c_worker_processes k) (c_worker_connections k)
                                           (strs c pid_file) (strs c log_file) (ints c log_level)) c))
  end.

(** ** The configuration file *)

Definition nv_core_parse_log_level (v : option cstr) : Z :=
  match v with
  | None => Log.NV_LOG_LEVEL_INFO
  | Some _ => default Log.NV_LOG_LEVEL_INFO (Log.nv_log_level_from_string v)
  end.

Section file.
Context (i : Ini.nv_ini_t).

Definition has (sec k : cstr) : bool := Ini.nv_ini_has_key (Some i) (Some sec) (Some k).
Definition get_string (sec k : cstr) : option cstr := Ini.nv_ini_get_string (Some i) (Some sec) (Some k) None.
Definition get_bool (sec k : cstr) (dflt : Z) : Z := Ini.nv_ini_get_bool (Some i) (Some sec) (Some k) dflt.
Definition get_int (sec k : cstr) (dflt : Z) : Z := Ini.nv_ini_get_int (Some i) (Some sec) (Some k) dflt.

(** The blocks the function repeats: a string, a truth value, a number, under its key. *)
Definition read_str (o : sopt) (sec k : cstr) (c : nv_core_ctx_t) : nv_core_ctx_t :=
  if get_string sec k is Some v then set_str o v c else c.
Definition read_bool (o : iopt) (sec k : cstr) (c : nv_core_ctx_t) : nv_core_ctx_t :=
  if has sec k then set_int o (get_bool sec k (ints c o)) c else c.
Definition read_int (o : iopt) (sec k : cstr) (c : nv_core_ctx_t) : nv_core_ctx_t :=
  if has sec k then set_int o (get_int sec k (ints c o)) c else c.

(** From the loadlib section, before the directives are parsed. *)
Definition load_plugin_dir (c : nv_core_ctx_t) : nv_core_ctx_t :=
  let c := match get_string (str "loadlib") (str "plugin_dir") with
           | Some v => set_str loadlib_dir v c
           | None => read_str loadlib_dir (str "loadlib") (str "dir") c
           end in
  read_bool loadlib_allow_absolute (str "loadlib") (str "allow_absolute") c.

Definition read_pid_file (c : nv_core_ctx_t) : nv_core_ctx_t :=
  let v := match get_string (str "main") (str "pid_file") with
           | Some v => Some v
           | None => get_string (str "main") (str "pid")
           end in
  match v with
  | Some v => set_conf (fun k => mkConf (c_daemon k) (c_worker_processes k) (c_worker_connections k) v (c_log_file k) (c_log_level k))
                (set_str pid_file v c)
  | None => c
  end.
Definition load_main (c : nv_core_ctx_t) : nv_core_ctx_t :=
  let c := read_bool daemon (str "main") (str "daemon") c in
  read_pid_file c.

Definition read_log_file (c : nv_core_ctx_t) : nv_core_ctx_t :=
  match get_string (str "log") (str "log_file") with
  | Some v => set_conf (fun k => mkConf (c_daemon k) (c_worker_processes k) (c_worker_connections k)
                                   (c_pid_file k) v (c_log_level k)) (set_str log_file v c)
  | None => c
  end.
Definition read_log_level (c : nv_core_ctx_t) : nv_core_ctx_t :=
  match get_string (str "log") (str "log_level") with
  | Some v =>
      let lvl := nv_core_parse_log_level (Some v) in
      set_conf (fun k => mkConf (c_daemon k) (c_worker_processes k) (c_worker_connections k)
                           (c_pid_file k) (c_log_file k) lvl) (set_int log_level lvl c)
  | None => c
  end.
Definition read_console (c : nv_core_ctx_t) : nv_core_ctx_t :=
  if has (str "log") (str "console")
  then on_logger (fun g => Log.nv_log_set_console g (get_bool (str "log") (str "console") (Log.g_log_console g))) c
  else c.
Definition read_queue_size (c : nv_core_ctx_t) : nv_core_ctx_t :=
  if has (str "log") (str "queue_size")
  then on_logger (fun g => Log.nv_log_set_queue_size g
                             (u64 (get_int (str "log") (str "queue_size") (i32 (Log.g_ring_capacity g))))) c
  else c.
Definition read_overflow (c : nv_core_ctx_t) : nv_core_ctx_t :=
  match Log.nv_log_overflow_from_string (get_string (str "log") (str "overflow")) with
  | Some Log.NV_LOG_OVERFLOW_DROP => on_logger (fun g => Log.nv_log_set_overflow_policy g 0) c
  | Some Log.NV_LOG_OVERFLOW_BLOCK => on_logger (fun g => Log.nv_log_set_overflow_policy g 1) c
  | Some Log.NV_LOG_OVERFLOW_OVERWRITE => on_logger (fun g => Log.nv_log_set_overflow_policy g 2) c
  | None => c
  end.
Definition load_log (c : nv_core_ctx_t) : nv_core_ctx_t :=
  let c := read_log_file c in
  let c := read_log_level c in
  let c := read_bool use_syslog (str "log") (str "syslog") c in
  let c := read_console c in
  let c := read_queue_size c in
  read_overflow c.

(** A number under one of two keys. *)
Definition read_int2 (o : iopt) (sec k k' : cstr) (c : nv_core_ctx_t) : nv_core_ctx_t :=
  if has sec k then read_int o sec k c else read_int o sec k' c.
Definition load_worker (c : nv_core_ctx_t) : nv_core_ctx_t :=
  let c := read_int2 worker_threads (str "worker") (str "threads") (str "worker_threads") c in
  let c := read_int2 worker_connections (str "worker") (str "connections") (str "worker_connections") c in
  let c := read_int worker_processes (str "worker") (str "processes") c in
  read_bool worker_respawn (str "worker") (str "respawn") c.

Definition read_systemd (c : nv_core_ctx_t) : nv_core_ctx_t :=
  if has (str "daemon") (str "systemd_notify")
  then set_int systemd_notify
         (if get_bool (str "daemon") (str "systemd_notify") (if 0 <? ints c systemd_notify then 1 else 0) =? 0 then 0 else 1) c
  else c.
Definition read_core_limit (c : nv_core_ctx_t) : nv_core_ctx_t :=
  if has (str "daemon") (str "core_limit")
  then set_int core_limit (Ini.nv_ini_get_int64 (Some i) (Some (str "daemon")) (Some (str "core_limit")) (ints c core_limit)) c
  else c.
Definition load_daemon (c : nv_core_ctx_t) : nv_core_ctx_t :=
  let c := read_str mq_name (str "ipc") (str "mq_name") c in
  let c := read_int heartbeat_interval_sec (str "daemon") (str "heartbeat_interval") c in
  let c := read_int shutdown_timeout_sec (str "daemon") (str "shutdown_timeout") c in
  let c := read_systemd c in
  let c := read_int max_open_files (str "daemon") (str "max_open_files") c in
  let c := read_core_limit c in
  let c := read_str ctl_socket (str "daemon") (str "ctl_socket") c in
  let c := read_str pubsub_socket (str "ipc") (str "pubsub_socket") c in
  read_str instance_lock (str "daemon") (str "instance_lock") c.

Definition load_cli (c : nv_core_ctx_t) : nv_core_ctx_t :=
  let c := read_bool telnet_enable (str "cli") (str "telnet_enable") c in
  let c := read_int telnet_port (str "cli") (str "telnet_port") c in
  let c := read_str telnet_bind (str "cli") (str "telnet_bind") c in
  let c := read_str cli_username (str "cli") (str "username") c in
  read_str cli_password (str "cli") (str "password") c.

Definition load_watch (c : nv_core_ctx_t) : nv_core_ctx_t :=
  let c := read_str tombstone_file (str "daemon") (str "tombstone_file") c in
  let c := read_bool watchdog_enable (str "watchdog") (str "enable") c in
  let c := read_str watchdog_device (str "watchdog") (str "device") c in
  read_str watchdog_cmd (str "watchdog") (str "cmd") c.

Definition load_rotate (c : nv_core_ctx_t) : nv_core_ctx_t :=
  let c := read_int log_rotate_max_mb (str "log") (str "rotate_max_mb") c in
  let c := read_int log_rotate_keep (str "log") (str "rotate_keep") c in
  let c := if (0 <? ints c log_rotate_max_mb) && (ints c log_rotate_keep <? 1) then set_int log_rotate_keep 1 c else c in
  if 0 <? ints c log_rotate_max_mb
  then on_logger (fun g => Log.nv_log_set_rotate g (u64 (ints c log_rotate_max_mb * 1024 * 1024)) (ints c log_rotate_keep)) c
  else c.

Definition load_metrics (c : nv_core_ctx_t) : nv_core_ctx_t :=
  let c := read_bool metrics_publish (str "metrics") (str "publish") c in
  read_str metrics_topic (str "metrics") (str "topic") c.

Definition finish_conf (c : nv_core_ctx_t) : nv_core_ctx_t :=
  set_conf (fun k => mkConf (ints c daemon)
              (if 0 <? ints c worker_processes then ints c worker_processes else ints c worker_threads)
              (ints c worker_connections) (c_pid_file k) (c_log_file k) (c_log_level k)) c.

(** Everything after the directives were parsed. *)
Definition load_options (c : nv_core_ctx_t) : nv_core_ctx_t :=
  finish_conf (load_metrics (load_rotate (load_watch (load_cli (load_daemon (load_worker (load_log (load_main c)))))))).

End file.

(** [fs]: the content of the files that can be read. *)
Section runtime.
Context (fs : cstr -> option (list Z)).

Definition nv_core_load_config (c : nv_core_ctx_t) : Z * nv_core_ctx_t :=
  match Ini.nv_ini_load (Some (fs (strs c config_file))) with
  | None => (NV_OK, set_ini None c)
  | Some i =>
      let c := load_plugin_dir i (set_ini (Some i) c) in
      let '(rc, libs) := LoadLib.nv_core_loadlibs_parse_config (Some (strs c loadlib_dir)) (negb (ints c loadlib_allow_absolute =? 0))
                           (loadlibs c) (loadlibs_loaded c) (Some (fs (strs c config_file))) in
      let c := set_libs libs c in
      if rc =? NV_OK then (NV_OK, load_options i c) else (NV_ERROR, c)
  end.

(** ** Validation and reload *)

Definition nv_core_config_validate (c : nv_core_ctx_t) : Z :=
  let out_of o lo hi := (ints c o <? lo) || (hi <? ints c o) in
  if out_of log_level Log.NV_LOG_LEVEL_DEBUG Log.NV_LOG_LEVEL_FATAL then NV_ERROR
  else if out_of worker_threads 1 256 then NV_ERROR
  else if out_of worker_connections 8 65536 then NV_ERROR
  else if out_of worker_processes 0 128 then NV_ERROR
  else if out_of shutdown_timeout_sec 0 3600 then NV_ERROR
  else if out_of heartbeat_interval_sec 0 86400 then NV_ERROR
  else if out_of telnet_port 1 65535 then NV_ERROR
  else if ints c max_open_files <? 0 then NV_ERROR
  else NV_OK.

Record nv_core_opts_snapshot_t := mkSnap {
  s_log_level : Z;
  s_worker_threads : Z;
  s_worker_connections : Z;
  s_worker_processes : Z;
  s_heartbeat_interval_sec : Z;
  s_shutdown_timeout_sec : Z;
  s_use_syslog : Z;
  s_console : Z;
}.
Definition nv_core_opts_snapshot_save (c : nv_core_ctx_t) : nv_core_opts_snapshot_t :=
  mkSnap (ints c log_level) (ints c worker_threads) (ints c worker_connections) (ints c worker_processes)
    (ints c heartbeat_interval_sec) (ints c shutdown_timeout_sec) (ints c use_syslog) (Log.g_log_console (logger c)).
Definition nv_core_opts_snapshot_restore (c : nv_core_ctx_t) (s : nv_core_opts_snapshot_t) : nv_core_ctx_t :=
  let c := set_int log_level (s_log_level s) c in
  let c := set_int worker_threads (s_worker_threads s) c in
  let c := set_int worker_connections (s_worker_connections s) c in
  let c := set_int worker_processes (s_worker_processes s) c in
  let c := set_int heartbeat_interval_sec (s_heartbeat_interval_sec s) c in
  let c := set_int shutdown_timeout_sec (s_shutdown_timeout_sec s) c in
  let c := set_int use_syslog (s_use_syslog s) c in
  let c := set_conf (fun k => mkConf (c_daemon k) (s_worker_threads s) (s_worker_connections s)
                                (c_pid_file k) (c_log_file k) (s_log_level s)) c in
  on_logger (fun g => Log.nv_log_set_console (Log.nv_log_set_level g (s_log_level s)) (s_console s)) c.

Definition nv_core_reload_config (c : nv_core_ctx_t) : Z * nv_core_ctx_t :=
  let snap := nv_core_opts_snapshot_save c in
  let '(rc, c') := nv_core_load_config c in
  if negb (rc =? NV_OK) then (NV_ERROR, nv_core_opts_snapshot_restore c' snap)
  else if negb (nv_core_config_validate c' =? NV_OK) then (NV_ERROR, nv_core_opts_snapshot_restore c' snap)
  else (NV_OK, c').

End runtime.

(** ** What the file says of each option *)

Section table.
Context (i : Ini.nv_ini_t).

(** The keys of a string option, the preferred one first. *)
Definition str_keys (o : sopt) : list (cstr * cstr) :=
  match o with
  | config_file => []
  | pid_file => [(str "main", str "pid_file"); (str "main", str "pid")]
  | log_file => [(str "log", str "log_file")]
  | mq_name => [(str "ipc", str "mq_name")]
  | ctl_socket => [(str "daemon", str "ctl_socket")]
  | pubsub_socket => [(str "ipc", str "pubsub_socket")]
  | instance_lock => [(str "daemon", str "instance_lock")]
  | telnet_bind => [(str "cli", str "telnet_bind")]
  | cli_username => [(str "cli", str "username")]
  | cli_password => [(str "cli", str "password")]
  | loadlib_dir => [(str "loadlib", str "plugin_dir"); (str "loadlib", str "dir")]
  | tombstone_file => [(str "daemon", str "tombstone_file")]
  | watchdog_device => [(str "watchdog", str "device")]
  | watchdog_cmd => [(str "watchdog", str "cmd")]
  | metrics_topic => [(str "metrics", str "topic")]
  end.
Definition first_string (keys : list (cstr * cstr)) : option cstr := head (omap (fun '(sec, k) => get_string i sec k) keys).
Definition str_value (old : cstr) (o : sopt) : cstr := default old (first_string (str_keys o)).

(** A number under the first of its keys that is present. *)
Definition first_int (keys : list (cstr * cstr)) (old : Z) : Z :=
  match first_string keys with Some v => i32 (strtol 64 v) | None => old end.

Definition int_value (old : iopt -> Z) (o : iopt) : Z :=
  let bool sec k := get_bool i (str sec) (str k) (old o) in
  let int sec k := get_int i (str sec) (str k) (old o) in
  match o with
  | daemon => bool "main" "daemon"
  | use_syslog => bool "log" "syslog"
  | log_level => match get_string i (str "log") (str "log_level") with
                 | Some v => nv_core_parse_log_level (Some v)
                 | None => old log_level
                 end
  | worker_threads => first_int [(str "worker", str "threads"); (str "worker", str "worker_threads")] (old worker_threads)
  | worker_connections =>
      first_int [(str "worker", str "connections"); (str "worker", str "worker_connections")] (old worker_connections)
  | worker_processes => int "worker" "processes"
  | worker_respawn => bool "worker" "respawn"
  | heartbeat_interval_sec => int "daemon" "heartbeat_interval"
  | shutdown_timeout_sec => int "daemon" "shutdown_timeout"
  | systemd_notify =>
      if has i (str "daemon") (str "systemd_notify")
      then if get_bool i (str "daemon") (str "systemd_notify") (if 0 <? old systemd_notify then 1 else 0) =? 0 then 0 else 1
      else old systemd_notify
  | max_open_files => int "daemon" "max_open_files"
  | core_limit => Ini.nv_ini_get_int64 (Some i) (Some (str "daemon")) (Some (str "core_limit")) (old core_limit)
  | telnet_enable => bool "cli" "telnet_enable"
  | telnet_port => int "cli" "telnet_port"
  | loadlib_allow_absolute => bool "loadlib" "allow_absolute"
  | watchdog_enable => bool "watchdog" "enable"
  | log_rotate_max_mb => int "log" "rotate_max_mb"
  | log_rotate_keep =>
      let keep := int "log" "rotate_keep" in
      if (0 <? get_int i (str "log") (str "rotate_max_mb") (old log_rotate_max_mb)) && (keep <? 1) then 1 else keep
  | metrics_publish => bool "metrics" "publish"
  | foreground | help | version => old o
  end.

Lemma has_get sec k : has i sec k = match get_string i sec k with Some _ => true | None => false end.
Proof. unfold has, Ini.nv_ini_has_key, get_string, Ini.nv_ini_get_string. by destruct (Ini.nv_ini_find _ _ _). Qed.

Lemma get_bool_none sec k d : has i sec k = false -> get_bool i sec k d = d.
Proof. rewrite has_get. unfold get_bool, Ini.nv_ini_get_bool, get_string. by destruct (Ini.nv_ini_get_string _ _ _ _). Qed.
Lemma get_int_none sec k d : has i sec k = false -> get_int i sec k d = d.
Proof. rewrite has_get. unfold get_int, Ini.nv_ini_get_int, get_string. by destruct (Ini.nv_ini_get_string _ _ _ _). Qed.

(** How each block reads back. *)
Lemma ints_read_str o sec k c : ints (read_str i o sec k c) = ints c.
Proof. unfold read_str. by case_match. Qed.
Lemma ints_read_bool o sec k c x :
  ints (read_bool i o sec k c) x = if decide (x = o) then get_bool i sec k (ints c o) else ints c x.
Proof. unfold read_bool. destruct (has i sec k) eqn:E; [done|]. rewrite get_bool_none by done. by case_decide; subst. Qed.
Lemma ints_read_int o sec k c x :
  ints (read_int i o sec k c) x = if decide (x = o) then get_int i sec k (ints c o) else ints c x.
Proof. unfold read_int. destruct (has i sec k) eqn:E; [done|]. rewrite get_int_none by done. by case_decide; subst. Qed.
Lemma strs_read_bool o sec k c : strs (read_bool i o sec k c) = strs c.
Proof. unfold read_bool. by case_match. Qed.
Lemma strs_read_int o sec k c : strs (read_int i o sec k c) = strs c.
Proof. unfold read_int. by case_match. Qed.
Lemma strs_read_str o sec k c x :
  strs (read_str i o sec k c) x = if decide (x = o) then default (strs c o) (get_string i sec k) else strs c x.
Proof. unfold read_str. destruct (get_string i sec k); [done|]. by case_decide; subst. Qed.

Lemma first_int_spec sec k sec' k' d :
  first_int [(sec, k); (sec', k')] d = if has i sec k then get_int i sec k d else get_int i sec' k' d.
Proof.
  rewrite has_get. unfold first_int, first_string. cbn [omap list_omap head].
  unfold get_int, Ini.nv_ini_get_int, get_string.
  destruct (Ini.nv_ini_get_string (Some i) (Some sec) (Some k) None); [done|].
  by destruct (Ini.nv_ini_get_string (Some i) (Some sec') (Some k') None).
Qed.

End table.

Create Rewrite HintDb cfg.
#[export] Hint Rewrite ints_read_str ints_read_bool ints_read_int strs_read_bool strs_read_int strs_read_str : cfg.

(** What each part of the function does: the options of [xs] and [ys] get their values from
    the file, the others stay. *)
Definition reads (i : Ini.nv_ini_t) (f : nv_core_ctx_t -> nv_core_ctx_t) (xs : list iopt) (ys : list sopt) : Prop :=
  forall c, (forall x, ints (f c) x = if bool_decide (x ∈ xs) then int_value i (ints c) x else ints c x) /\
            (forall y, strs (f c) y = if bool_decide (y ∈ ys) then str_value i (strs c y) y else strs c y).

Lemma int_value_ext i old old' x :
  old x = old' x -> (x = log_rotate_keep -> old log_rotate_max_mb = old' log_rotate_max_mb) -> int_value i old x = int_value i old' x.
Proof. intros E Ek. destruct x; cbn; rewrite ?E; try done. by rewrite Ek. Qed.

Lemma reads_compose i f g xs xs' ys ys' :
  reads i f xs ys -> reads i g xs' ys' ->
  Forall (fun x => x ∉ xs) xs' -> Forall (fun y => y ∉ ys) ys' -> (log_rotate_keep ∈ xs' -> log_rotate_max_mb ∉ xs) ->
  reads i (fun c => g (f c)) (xs ++ xs') (ys ++ ys').
Proof.
  intros Hf Hg Hi Hs Hk c. destruct (Hf c) as [F1 F2], (Hg (f c)) as [G1 G2]. rewrite Forall_forall in Hi. rewrite Forall_forall in Hs. split.
  - intros x. rewrite G1, F1. destruct (bool_decide_reflect (x ∈ xs')) as [Hx|Hx].
    + rewrite (bool_decide_true (x ∈ xs ++ xs')) by set_solver. apply int_value_ext.
      * rewrite F1, bool_decide_false; [done|by apply Hi].
      * intros ->. rewrite F1, bool_decide_false; [done|by apply Hk].
    + destruct (bool_decide_reflect (x ∈ xs)) as [Hy|Hy]; [by rewrite bool_decide_true by set_solver|].
      by rewrite bool_decide_false by set_solver.
  - intros y. rewrite G2, F2. destruct (bool_decide_reflect (y ∈ ys')) as [Hx|Hx].
    + rewrite (bool_decide_true (y ∈ ys ++ ys')) by set_solver. rewrite bool_decide_false; [done|by apply Hs].
    + destruct (bool_decide_reflect (y ∈ ys)) as [Hy|Hy]; [by rewrite bool_decide_true by set_solver|].
      by rewrite bool_decide_false by set_solver.
Qed.

(** *** The steps of the function *)

Lemma read_str_reads i o sec k : str_keys o = [(sec, k)] -> reads i (read_str i o sec k) [] [o].
Proof.
  intros E c. split; intros x; autorewrite with cfg; [done|].
  destruct (bool_decide_reflect (x ∈ [o])) as [->%list_elem_of_singleton|Hx].
  - rewrite decide_True by done. unfold str_value, first_string. rewrite E. cbn. by destruct (get_string i sec k).
  - rewrite decide_False; [done|set_solver].
Qed.

(** A step that sets one number. *)
Lemma reads_one i f o : (forall c, strs (f c) = strs c) ->
  (forall c, ints (f c) o = int_value i (ints c) o) -> (forall c x, x <> o -> ints (f c) x = ints c x) -> reads i f [o] [].
Proof.
  intros H1 H2 H3 c. split; intros x; [|by rewrite H1].
  destruct (bool_decide_reflect (x ∈ [o])) as [->%list_elem_of_singleton|Hx]; [done|]. apply H3. set_solver.
Qed.
Lemma read_bool_reads i o sec k : (forall old, int_value i old o = get_bool i sec k (old o)) -> reads i (read_bool i o sec k) [o] [].
Proof.
  intros E. apply reads_one; intros; autorewrite with cfg; [done|by rewrite decide_True, E|by rewrite decide_False].
Qed.
Lemma read_int_reads i o sec k : (forall old, int_value i old o = get_int i sec k (old o)) -> reads i (read_int i o sec k) [o] [].
Proof.
  intros E. apply reads_one; intros; autorewrite with cfg; [done|by rewrite decide_True, E|by rewrite decide_False].
Qed.
Lemma read_int2_reads i o sec k k' : (forall old, int_value i old o = first_int i [(sec, k); (sec, k')] (old o)) ->
  reads i (read_int2 i o sec k k') [o] [].
Proof.
  intros E. unfold read_int2. apply reads_one.
  - intros c. destruct (has i sec k); by autorewrite with cfg.
  - intros c. rewrite E, first_int_spec. destruct (has i sec k); autorewrite with cfg; by rewrite decide_True.
  - intros c x Hx. destruct (has i sec k); autorewrite with cfg; by rewrite decide_False.
Qed.
Lemma reads_nothing i f : (forall c, ints (f c) = ints c /\ strs (f c) = strs c) -> reads i f [] [].
Proof. intros H c. destruct (H c) as [-> ->]. done. Qed.

Record step := mkStep { act : nv_core_ctx_t -> nv_core_ctx_t; sets_i : list iopt; sets_s : list sopt }.
Definition perform (steps : list step) (c : nv_core_ctx_t) : nv_core_ctx_t := foldl (fun c s => act s c) c steps.

Lemma reads_steps i steps :
  Forall (fun s => reads i (act s) (sets_i s) (sets_s s) /\ (log_rotate_keep ∈ sets_i s -> log_rotate_max_mb ∈ sets_i s)) steps ->
  NoDup (concat (map sets_i steps)) -> NoDup (concat (map sets_s steps)) ->
  reads i (perform steps) (concat (map sets_i steps)) (concat (map sets_s steps)).
Proof.
  induction 1 as [|s steps [Hs Hk] Hsteps IH]; intros Hi Hy; [by intros c|]. cbn [map concat] in *.
  apply NoDup_app in Hi as (_ & Hi & Hi'). apply NoDup_app in Hy as (_ & Hy & Hy').
  apply (reads_compose i (act s) (perform steps)); [done|by apply IH| | |].
  - apply Forall_forall. intros x Hx Hx'. by apply (Hi x).
  - apply Forall_forall. intros x Hx Hx'. by apply (Hy x).
  - intros Hkeep Hmax. apply (Hi _ Hmax). clear -Hkeep Hsteps.
    induction Hsteps as [|s steps [_ Hk] _ IH]; [set_solver|]. cbn [map concat] in *. set_solver.
Qed.

(** All of [load_options], before [finish_conf]. *)
Definition option_steps (i : Ini.nv_ini_t) : list step :=
  let bool o sec k := mkStep (read_bool i o (str sec) (str k)) [o] [] in
  let int o sec k := mkStep (read_int i o (str sec) (str k)) [o] [] in
  let string o sec k := mkStep (read_str i o (str sec) (str k)) [] [o] in
  [bool daemon "main" "daemon"; mkStep (read_pid_file i) [] [pid_file]; mkStep (read_log_file i) [] [log_file];
   mkStep (read_log_level i) [log_level] []; bool use_syslog "log" "syslog"; mkStep (read_console i) [] [];
   mkStep (read_queue_size i) [] []; mkStep (read_overflow i) [] [];
   mkStep (read_int2 i worker_threads (str "worker") (str "threads") (str "worker_threads")) [worker_threads] [];
   mkStep (read_int2 i worker_connections (str "worker") (str "connections") (str "worker_connections")) [worker_connections] [];
   int worker_processes "worker" "processes"; bool worker_respawn "worker" "respawn"; string mq_name "ipc" "mq_name";
   int heartbeat_interval_sec "daemon" "heartbeat_interval"; int shutdown_timeout_sec "daemon" "shutdown_timeout";
   mkStep (read_systemd i) [systemd_notify] []; int max_open_files "daemon" "max_open_files";
   mkStep (read_core_limit i) [core_limit] []; string ctl_socket "daemon" "ctl_socket";
   string pubsub_socket "ipc" "pubsub_socket"; string instance_lock "daemon" "instance_lock";
   bool telnet_enable "cli" "telnet_enable"; int telnet_port "cli" "telnet_port"; string telnet_bind "cli" "telnet_bind";
   string cli_username "cli" "username"; string cli_password "cli" "password";
   string tombstone_file "daemon" "tombstone_file"; bool watchdog_enable "watchdog" "enable";
   string watchdog_device "watchdog" "device"; string watchdog_cmd "watchdog" "cmd";
   mkStep (load_rotate i) [log_rotate_max_mb; log_rotate_keep] []; bool metrics_publish "metrics" "publish";
   string metrics_topic "metrics" "topic"].

Lemma load_options_steps i c : load_options i c = finish_conf (perform (option_steps i) c).
Proof.
  unfold load_options, load_main, load_log, load_worker, load_daemon, load_cli, load_watch, load_metrics, perform, option_steps.
  cbv zeta. cbn [foldl act]. reflexivity.
Qed.

(** The steps that are not of a common form. *)
#[local] Arguments str : simpl never.
Lemma pid_file_reads i : reads i (read_pid_file i) [] [pid_file].
Proof.
  intros c. unfold read_pid_file. split; [intros x; by repeat case_match|]. intros y.
  destruct (bool_decide_reflect (y ∈ [pid_file])) as [->%list_elem_of_singleton|Hy].
  - unfold str_value, first_string. cbn. destruct (get_string i (str "main") (str "pid_file")); [done|].
    by destruct (get_string i (str "main") (str "pid")).
  - repeat case_match; cbn; unfold upd; rewrite ?decide_False; set_solver.
Qed.
Lemma log_file_reads i : reads i (read_log_file i) [] [log_file].
Proof.
  intros c. unfold read_log_file. split; [intros x; by repeat case_match|]. intros y.
  destruct (bool_decide_reflect (y ∈ [log_file])) as [->%list_elem_of_singleton|Hy].
  - unfold str_value, first_string. cbn. by destruct (get_string i (str "log") (str "log_file")).
  - case_match; cbn; unfold upd; rewrite ?decide_False; set_solver.
Qed.
Lemma log_level_reads i : reads i (read_log_level i) [log_level] [].
Proof.
  unfold read_log_level. apply reads_one; cbn; destruct (get_string i (str "log") (str "log_level")); try done.
  intros c x Hx. cbn. unfold upd. by rewrite decide_False.
Qed.
Lemma systemd_reads i : reads i (read_systemd i) [systemd_notify] [].
Proof.
  unfold read_systemd. apply reads_one; cbn; destruct (has i (str "daemon") (str "systemd_notify")); try done.
  intros c x Hx. cbn. unfold upd. by rewrite decide_False.
Qed.
Lemma core_limit_reads i : reads i (read_core_limit i) [core_limit] [].
Proof.
  unfold read_core_limit. apply reads_one; cbn; destruct (has i (str "daemon") (str "core_limit")) eqn:E; try done.
  - intros c. revert E. rewrite has_get. unfold Ini.nv_ini_get_int64, get_string.
    by destruct (Ini.nv_ini_get_string _ _ _ _).
  - intros c x Hx. cbn. unfold upd. by rewrite decide_False.
Qed.
Lemma rotate_reads i : reads i (load_rotate i) [log_rotate_max_mb; log_rotate_keep] [].
Proof.
  intros c. unfold load_rotate. set (c1 := read_int i log_rotate_keep _ _ _).
  assert (ints c1 log_rotate_max_mb = int_value i (ints c) log_rotate_max_mb /\
          ints c1 log_rotate_keep = get_int i (str "log") (str "rotate_keep") (ints c log_rotate_keep) /\ strs c1 = strs c /\
          forall x, x <> log_rotate_max_mb -> x <> log_rotate_keep -> ints c1 x = ints c x) as (H1 & H2 & H3 & H4).
  { unfold c1. split_and!; intros; autorewrite with cfg; try done. by rewrite !decide_False. }
  assert (forall c2, ints (if 0 <? ints c2 log_rotate_max_mb
      then on_logger (fun g => Log.nv_log_set_rotate g (u64 (ints c2 log_rotate_max_mb * 1024 * 1024)) (ints c2 log_rotate_keep)) c2
      else c2) = ints c2 /\ strs (if 0 <? ints c2 log_rotate_max_mb
      then on_logger (fun g => Log.nv_log_set_rotate g (u64 (ints c2 log_rotate_max_mb * 1024 * 1024)) (ints c2 log_rotate_keep)) c2
      else c2) = strs c2) as Hl by (intros; by case_match).
  cbv zeta. rewrite (proj1 (Hl _)), (proj2 (Hl _)). clear Hl. split.
  - intros x. destruct (bool_decide_reflect (x ∈ [log_rotate_max_mb; log_rotate_keep])) as [Hx|Hx].
    + apply elem_of_cons in Hx as [-> | ->%list_elem_of_singleton].
      * rewrite <- H1. by case_match.
      * cbn [int_value]. rewrite <- H2. change (get_int i (str "log") (str "rotate_max_mb") (ints c log_rotate_max_mb))
          with (int_value i (ints c) log_rotate_max_mb). rewrite <- H1. by case_match.
    + rewrite <- (H4 x) by set_solver. case_match; [|done]. cbn. unfold upd. rewrite decide_False; set_solver.
  - intros y. rewrite <- H3. by case_match.
Qed.
Lemma plugin_reads i : reads i (load_plugin_dir i) [loadlib_allow_absolute] [loadlib_dir].
Proof.
  apply (reads_compose i (fun c => match get_string i (str "loadlib") (str "plugin_dir") with
           | Some v => set_str loadlib_dir v c | None => read_str i loadlib_dir (str "loadlib") (str "dir") c end)
    (read_bool i loadlib_allow_absolute (str "loadlib") (str "allow_absolute")) [] [loadlib_allow_absolute] [loadlib_dir] []).
  - intros c. split; [intros x; case_match; by autorewrite with cfg|]. intros y.
    destruct (bool_decide_reflect (y ∈ [loadlib_dir])) as [->%list_elem_of_singleton|Hy].
    + unfold str_value, first_string. cbn. destruct (get_string i (str "loadlib") (str "plugin_dir")); [done|].
      autorewrite with cfg. rewrite decide_True by done. by destruct (get_string i (str "loadlib") (str "dir")).
    + destruct (get_string i (str "loadlib") (str "plugin_dir")); [cbn; unfold upd|autorewrite with cfg]; rewrite decide_False; set_solver.
  - by apply read_bool_reads.
  - apply Forall_cons. split; [set_solver|apply Forall_nil_2].
  - apply Forall_nil_2.
  - set_solver.
Qed.

Lemma option_steps_read i :
  Forall (fun s => reads i (act s) (sets_i s) (sets_s s) /\ (log_rotate_keep ∈ sets_i s -> log_rotate_max_mb ∈ sets_i s)) (option_steps i).
Proof.
  unfold option_steps. cbv zeta.
  repeat (apply Forall_cons; split; [split; [|cbn [sets_i]; set_solver]; cbn [act sets_i sets_s]|]); [..|apply Forall_nil_2];
    first [ by apply read_bool_reads | by apply read_int_reads | by apply read_str_reads | by apply read_int2_reads
          | apply pid_file_reads | apply log_file_reads | apply log_level_reads | apply systemd_reads | apply core_limit_reads
          | apply rotate_reads | (apply reads_nothing; intros c; unfold read_console, read_queue_size, read_overflow; by repeat case_match) ].
Qed.

(** Everything the file says, in one list: each option once. *)
Lemma load_options_read i c :
  (forall x, x <> loadlib_allow_absolute -> x <> foreground -> x <> help -> x <> version -> ints (load_options i c) x = int_value i (ints c) x) /\
  (forall x, x = loadlib_allow_absolute \/ x = foreground \/ x = help \/ x = version -> ints (load_options i c) x = ints c x) /\
  (forall y, y <> loadlib_dir -> strs (load_options i c) y = str_value i (strs c y) y) /\
  strs (load_options i c) loadlib_dir = strs c loadlib_dir.
Proof.
  rewrite load_options_steps.
  destruct (reads_steps i (option_steps i) (option_steps_read i)) with (c := c) as [H1 H2]; [by apply (bool_decide_unpack _)..|].
  change (ints (finish_conf ?x)) with (ints x). change (strs (finish_conf ?x)) with (strs x). split_and!.
  - intros x ? ? ? ?. rewrite H1. by destruct x.
  - intros x Hx. rewrite H1. by destruct Hx as [->|[->|[->| ->]]].
  - intros y Hy. rewrite H2. by destruct y.
  - by rewrite H2.
Qed.

(** ** Loading *)

Lemma load_config_read fs c i : Ini.nv_ini_load (Some (fs (strs c config_file))) = Some i ->
  forall c', nv_core_load_config fs c = (NV_OK, c') ->
  (forall x, ints c' x = int_value i (ints c) x) /\ (forall y, strs c' y = str_value i (strs c y) y).
Proof.
  intros Ei c'. unfold nv_core_load_config. rewrite Ei.
  destruct (plugin_reads i (set_ini (Some i) c)) as [P1 P2]. set (c1 := load_plugin_dir i (set_ini (Some i) c)) in *.
  destruct (LoadLib.nv_core_loadlibs_parse_config _ _ _ _ _) as [rc libs]. destruct (rc =? NV_OK); [|done]. intros [= <-].
  destruct (load_options_read i (set_libs libs c1)) as (H1 & H2 & H3 & H4).
  change (ints (set_libs libs c1)) with (ints c1) in *. change (strs (set_libs libs c1)) with (strs c1) in *. split.
  - intros x. assert (x = loadlib_allow_absolute \/ x <> loadlib_allow_absolute) as [->|Hx] by (destruct x; auto).
    { rewrite H2 by auto. by rewrite P1. }
    assert (ints c1 x = ints c x) as E by (rewrite P1, bool_decide_false by set_solver; done).
    assert (ints c1 log_rotate_max_mb = ints c log_rotate_max_mb) as Em by (rewrite P1; done).
    destruct (decide (x = foreground \/ x = help \/ x = version)) as [Hy|Hy].
    + rewrite H2 by tauto. rewrite E. by destruct Hy as [-> | [-> | ->]].
    + rewrite H1 by tauto. by apply int_value_ext.
  - intros y. destruct (decide (y = loadlib_dir)) as [->|Hy]; [by rewrite H4, P2|].
    rewrite H3 by done. by rewrite P2, bool_decide_false by set_solver.
Qed.

Lemma options_keep_ini i c : ini (load_options i c) = ini c.
Proof.
  rewrite load_options_steps. change (ini (finish_conf ?x)) with (ini x). unfold perform.
  assert (Forall (fun s => forall c, ini (act s c) = ini c) (option_steps i)) as H.
  { unfold option_steps. cbv zeta. repeat (apply Forall_cons; split; [cbn [act]; intros x|]); [..|apply Forall_nil_2];
      unfold read_bool, read_int, read_str, read_int2, read_pid_file, read_log_file, read_log_level, read_console, read_queue_size,
        read_overflow, read_systemd, read_core_limit, load_rotate, read_int; by repeat case_match. }
  revert c. induction H as [|s l Hs _ IH]; intros c; [done|]. cbn [foldl]. by rewrite IH.
Qed.

(** C33: loading the configuration: without a file nothing changes; otherwise, when the
    plugin directives are accepted, every option has the value the file gives it under the
    first of its keys present, read as a string, a number or a truth value, and keeps its
    value where the file is silent; refused directives are an error. *)
Theorem nv_core_load_config_options fs c :
  match Ini.nv_ini_load (Some (fs (strs c config_file))) with
  | None => nv_core_load_config fs c = (NV_OK, set_ini None c)
  | Some i =>
      (exists c', nv_core_load_config fs c = (NV_OK, c') /\ ini c' = Some i /\
        (forall x, ints c' x = int_value i (ints c) x) /\ (forall y, strs c' y = str_value i (strs c y) y) /\
        c_daemon (conf c') = ints c' daemon /\ c_worker_connections (conf c') = ints c' worker_connections /\
        c_worker_processes (conf c') = (if 0 <? ints c' worker_processes then ints c' worker_processes else ints c' worker_threads)) \/
      (exists c' libs, nv_core_load_config fs c = (NV_ERROR, c') /\
        LoadLib.nv_core_loadlibs_parse_config (Some (str_value i (strs c loadlib_dir) loadlib_dir))
          (negb (int_value i (ints c) loadlib_allow_absolute =? 0)) (loadlibs c) (loadlibs_loaded c)
          (Some (fs (strs c config_file))) = (NV_ERROR, libs))
  end.
Proof.
  destruct (Ini.nv_ini_load (Some (fs (strs c config_file)))) as [i|] eqn:Ei.
  2: { unfold nv_core_load_config. by rewrite Ei. }
  pose proof (load_config_read fs c i Ei) as Hr. unfold nv_core_load_config in *. rewrite Ei in *.
  destruct (plugin_reads i (set_ini (Some i) c)) as [P1 P2]. set (c1 := load_plugin_dir i (set_ini (Some i) c)) in *.
  assert (loadlibs c1 = loadlibs c /\ loadlibs_loaded c1 = loadlibs_loaded c /\ ini c1 = Some i) as (E1 & E2 & E3).
  { unfold c1, load_plugin_dir, read_bool, read_str. by repeat case_match. }
  assert (strs c1 loadlib_dir = str_value i (strs c loadlib_dir) loadlib_dir) as E4 by (by rewrite P2).
  assert (ints c1 loadlib_allow_absolute = int_value i (ints c) loadlib_allow_absolute) as E5 by (by rewrite P1).
  assert (strs c1 config_file = strs c config_file) as E6 by (by rewrite P2).
  rewrite E1, E2, E4, E5, E6 in *.
  pose proof (LoadLib.config_rc (Some (str_value i (strs c loadlib_dir) loadlib_dir))
    (negb (int_value i (ints c) loadlib_allow_absolute =? 0)) (loadlibs c) (loadlibs_loaded c) (Some (fs (strs c config_file)))) as Hrc.
  destruct (LoadLib.nv_core_loadlibs_parse_config _ _ _ _ _) as [rc libs]. cbn [fst] in Hrc. destruct Hrc as [-> | ->].
  - left. exists (load_options i (set_libs libs c1)). destruct (Hr _ eq_refl) as [H1 H2].
    split_and!; try done. by rewrite options_keep_ini.
  - right. by exists (set_libs libs c1), libs.
Qed.

(** ** Validation and reload *)

Definition valid (c : nv_core_ctx_t) : Prop :=
  0 <= ints c log_level <= 6 /\ 1 <= ints c worker_threads <= 256 /\ 8 <= ints c worker_connections <= 65536 /\
  0 <= ints c worker_processes <= 128 /\ 0 <= ints c shutdown_timeout_sec <= 3600 /\
  0 <= ints c heartbeat_interval_sec <= 86400 /\ 1 <= ints c telnet_port <= 65535 /\ 0 <= ints c max_open_files.

Lemma validate_spec c : nv_core_config_validate c = NV_OK <-> valid c.
Proof.
  unfold nv_core_config_validate, valid, Log.NV_LOG_LEVEL_DEBUG, Log.NV_LOG_LEVEL_FATAL. cbv zeta. split.
  - intros H. repeat (case_match; [done|]). rewrite !orb_false_iff, !Z.ltb_ge in *. lia.
  - intros H. repeat (case_match; [rewrite ?orb_true_iff, ?Z.ltb_lt in *; lia|]). done.
Qed.
Lemma validate_rc c : nv_core_config_validate c = NV_OK \/ nv_core_config_validate c = NV_ERROR.
Proof. unfold nv_core_config_validate. cbv zeta. repeat (case_match; [by auto|]). by auto. Qed.

(** The options a rejected reload puts back. *)
Definition restored : list iopt :=
  [log_level; worker_threads; worker_connections; worker_processes; heartbeat_interval_sec; shutdown_timeout_sec; use_syslog].

Lemma restore_spec c' c x :
  ints (nv_core_opts_snapshot_restore c' (nv_core_opts_snapshot_save c)) x = if bool_decide (x ∈ restored) then ints c x else ints c' x.
Proof. by destruct x. Qed.

(** Reloading the configuration of a running process: it succeeds exactly when the
    file is accepted and all values are in their ranges, and then the new values hold; when
    it is rejected, the log level, the worker settings, the intervals, the syslog switch and
    the console switch are those from before, and every other option keeps the value read from the
    rejected file. *)
Theorem nv_core_reload_config_spec fs c :
  let '(rc, c') := nv_core_reload_config fs c in
  let '(rc1, c1) := nv_core_load_config fs c in
  if bool_decide (rc1 = NV_OK /\ nv_core_config_validate c1 = NV_OK)
  then rc = NV_OK /\ c' = c1 /\ valid c'
  else rc = NV_ERROR /\ (forall x, ints c' x = if bool_decide (x ∈ restored) then ints c x else ints c1 x) /\
       (forall y, strs c' y = strs c1 y) /\ c_log_level (conf c') = ints c log_level /\
       Log.g_log_console (logger c') = (if Log.g_log_console (logger c) =? 0 then 0 else 1).
Proof.
  unfold nv_core_reload_config. destruct (nv_core_load_config fs c) as [rc1 c1].
  destruct (validate_rc c1) as [Ev|Ev]; rewrite Ev; (destruct (Z.eqb_spec rc1 NV_OK) as [->|Hrc]; cbn [negb]).
  - rewrite bool_decide_true by done. split_and!; try done. by apply validate_spec.
  - rewrite bool_decide_false by naive_solver. split_and!; try done. intros x. apply restore_spec.
  - rewrite bool_decide_false by (intros [_ [=]]). cbn. split_and!; try done. intros x. apply restore_spec.
  - rewrite bool_decide_false by naive_solver. split_and!; try done. intros x. apply restore_spec.
Qed.

(** The value of [telnet_port] stays after a rejection, and then a file that does not set it
    is rejected too. *)
Lemma reload_rejected_again fs c i :
  ints c telnet_port < 1 \/ 65535 < ints c telnet_port ->
  Ini.nv_ini_load (Some (fs (strs c config_file))) = Some i -> has i (str "cli") (str "telnet_port") = false ->
  (nv_core_reload_config fs c).1 = NV_ERROR.
Proof.
  intros Hp Ei Hno. unfold nv_core_reload_config. destruct (nv_core_load_config fs c) as [rc c1] eqn:El.
  destruct (Z.eqb_spec rc NV_OK) as [->|]; [|done]. cbn [negb].
  destruct (load_config_read fs c i Ei c1 El) as [H1 _]. specialize (H1 telnet_port). cbn [int_value] in H1.
  rewrite get_int_none in H1 by done.
  destruct (validate_rc c1) as [Ev|Ev]; [|by rewrite Ev]. apply validate_spec in Ev. unfold valid in Ev. lia.
Qed.

(** A rejected reload is not undone: when the file sets a telnet port out of range, the
    port stays in the options, and every later reload from a file that does not mention the port is
    rejected as well, whatever else it contains. *)
Theorem nv_core_reload_rejection_sticks fs fs' c i i' :
  Ini.nv_ini_load (Some (fs (strs c config_file))) = Some i ->
  get_int i (str "cli") (str "telnet_port") (ints c telnet_port) < 1 \/
  65535 < get_int i (str "cli") (str "telnet_port") (ints c telnet_port) ->
  (nv_core_load_config fs c).1 = NV_OK ->
  let c' := (nv_core_reload_config fs c).2 in
  Ini.nv_ini_load (Some (fs' (strs c' config_file))) = Some i' -> has i' (str "cli") (str "telnet_port") = false ->
  (nv_core_reload_config fs c).1 = NV_ERROR /\ (nv_core_reload_config fs' c').1 = NV_ERROR.
Proof.
  intros Ei Hp Hok c' Ei' Hno. assert ((nv_core_reload_config fs c).1 = NV_ERROR /\ ints c' telnet_port =
    get_int i (str "cli") (str "telnet_port") (ints c telnet_port)) as [H1 H2].
  { unfold c', nv_core_reload_config. destruct (nv_core_load_config fs c) as [rc c1] eqn:El. cbn in Hok. subst rc. cbn [Z.eqb negb].
    destruct (load_config_read fs c i Ei c1 El) as [H1 _]. specialize (H1 telnet_port). cbn [int_value] in H1.
    destruct (validate_rc c1) as [Ev|Ev]; rewrite Ev.
    - apply validate_spec in Ev. unfold valid in Ev. rewrite H1 in Ev. lia.
    - split; [done|]. by rewrite <- H1. }
  split; [done|]. apply (reload_rejected_again fs' c' i'); [by rewrite H2|done|done].
Qed.

Definition a_context : nv_core_ctx_t :=
  nv_core_set_defaults (mkCtx default_int default_str (mkConf 0 0 0 [] [] 0) None [] false
    (Log.mkSettings [] 1 1 0 64 Log.NV_LOG_OVERFLOW_DROP false 0 1 [])).
Definition bad_port (_ : cstr) : option (list Z) := Some (str "[cli]" ++ [10] ++ str "telnet_port = 0" ++ [10]).
Definition good_file (_ : cstr) : option (list Z) := Some (str "[worker]" ++ [10] ++ str "threads = 4" ++ [10]).

Lemma nv_core_reload_rejection_sticks_witness :
  (nv_core_reload_config good_file a_context).1 = NV_OK /\
  (nv_core_reload_config bad_port a_context).1 = NV_ERROR /\
  (nv_core_reload_config good_file (nv_core_reload_config bad_port a_context).2).1 = NV_ERROR.
Proof.
  split; [by vm_compute|].
  eapply (nv_core_reload_rejection_sticks bad_port good_file a_context).
  - by vm_compute.
  - left. by vm_compute.
  - by vm_compute.
  - by vm_compute.
  - by vm_compute.
Defined.

(** ** The command line, printed *)

Definition known (o : opt) : Prop :=
  match o with Opt c v => takes_arg c = true \/ is_flag c = true /\ v = [] | Unknown => False end.
Definition print_opt (o : opt) : list cstr :=
  match o with
  | Opt c v => if takes_arg c then [[ch "-"; c]; v] else [[ch "-"; c]]
  | Unknown => []
  end.
Definition print_opts (os : list opt) : list cstr := concat (map print_opt os).

Definition is_opt (c : Z) (o : opt) : bool := match o with Opt c' _ => c =? c' | Unknown => false end.
Definition given (c : Z) (os : list opt) : bool := existsb (is_opt c) os.
(** The argument of the last occurrence. *)
Definition last_arg (c : Z) (os : list opt) (dflt : cstr) : cstr :=
  foldl (fun v o => match o with Opt c' v' => if c =? c' then v' else v | Unknown => v end) dflt os.

Lemma flag_arg c : is_flag c = true -> takes_arg c = false.
Proof. unfold is_flag, takes_arg. rewrite !orb_true_iff, !Z.eqb_eq. by intros [[[[->| ->]| ->]| ->]| ->]. Qed.
Lemma known_not_dash c : takes_arg c = true \/ is_flag c = true -> strcmp_eq [ch "-"; c] (str "--") = false.
Proof. intros H. apply strcmp_eq_false. intros [= ->]. by destruct H. Qed.

Lemma getopt_print os rest : Forall known os -> getopt (print_opts os ++ rest) = os ++ getopt rest.
Proof.
  induction 1 as [|o os Ho _ IH]; [done|]. destruct o as [c v|]; [|done]. unfold print_opts in *. cbn [map concat print_opt].
  assert (takes_arg c = true \/ is_flag c = true) as Hc by (destruct Ho as [?|[? _]]; auto).
  destruct (takes_arg c) eqn:Et.
  - cbn [app getopt]. rewrite known_not_dash by auto. change (ch "-" =? ch "-") with true. cbv iota. cbn [letters]. rewrite Et.
    destruct (is_flag c) eqn:Ef; [by rewrite flag_arg in Et|]. cbn [app]. by rewrite IH.
  - destruct Ho as [?|[Hf ->]]; [congruence|]. cbn [app getopt]. rewrite known_not_dash by auto.
    change (ch "-" =? ch "-") with true. cbv iota. cbn [letters]. rewrite Hf. cbn [app]. by rewrite IH.
Qed.

(** What the options do to the context. *)
Definition after_opts (os : list opt) (c c' : nv_core_ctx_t) : Prop :=
  (forall y, strs c' y = match y with
     | config_file => last_arg (ch "c") os (strs c y)
     | pid_file => last_arg (ch "p") os (strs c y)
     | log_file => last_arg (ch "l") os (strs c y)
     | _ => strs c y
     end) /\
  (forall x, ints c' x = match x with
     | daemon => if given (ch "d") os then 1 else ints c x
     | foreground => if given (ch "f") os then 1 else ints c x
     | use_syslog => if given (ch "s") os then 1 else ints c x
     | help => if given (ch "h") os then 1 else ints c x
     | version => if given (ch "v") os then 1 else ints c x
     | _ => ints c x
     end).

Lemma apply_opts_spec os c : Forall known os -> exists c', apply_opts os c = Some c' /\ after_opts os c c'.
Proof.
  intros Hos. revert c. induction Hos as [|o os Ho _ IH]; intros c; [exists c; split; [done|]; split; by intros []|].
  destruct o as [l v|]; [|done]. cbn [apply_opts].
  match goal with |- exists c', apply_opts os ?c1 = _ /\ _ => destruct (IH c1) as (c' & -> & Hs & Hi) end.
  exists c'. split; [done|].
  assert (l = ch "c" \/ l = ch "p" \/ l = ch "l" \/ l = ch "d" \/ l = ch "f" \/ l = ch "s" \/ l = ch "h" \/ l = ch "v") as Hl.
  { cbn in Ho. unfold takes_arg, is_flag in Ho. rewrite !orb_true_iff, !Z.eqb_eq in Ho. tauto. }
  split.
  - intros y. rewrite Hs. destruct Hl as [-> | [-> | [-> | [-> | [-> | [-> | [-> | ->]]]]]]]; destruct y; reflexivity.
  - intros x. rewrite Hi. destruct Hl as [-> | [-> | [-> | [-> | [-> | [-> | [-> | ->]]]]]]]; destruct x; try reflexivity;
      unfold given; cbn; by destruct (existsb _ os).
Qed.

(** The command line: the last -c, -p and -l name the files, each of the other letters
    switches its option on, everything else has its default; asking for help or the version
    ends the start, and an unknown letter is an error whatever else is given. *)
Theorem nv_core_parse_args_spec c os bad rest :
  Forall known os -> takes_arg bad = false -> is_flag bad = false -> bad <> ch "-" ->
  (exists c', nv_core_parse_args c (print_opts os) =
      (if given (ch "h") os || given (ch "v") os then NV_DECLINED else NV_OK, Some c') /\
    (forall x, ints c' x = match x with
       | daemon => if given (ch "d") os then 1 else 0
       | foreground => if given (ch "f") os then 1 else 0
       | use_syslog => if given (ch "s") os then 1 else 0
       | help => if given (ch "h") os then 1 else 0
       | version => if given (ch "v") os then 1 else 0
       | _ => default_int x
       end) /\
    strs c' config_file = last_arg (ch "c") os (str "/etc/nv/nv.conf") /\
    strs c' pid_file = last_arg (ch "p") os (str "/var/run/nv.pid") /\
    strs c' log_file = last_arg (ch "l") os (str "/var/log/nv.log")) /\
  nv_core_parse_args c (print_opts os ++ [ch "-"; bad] :: rest) = (NV_ERROR, None).
Proof.
  intros Hos Ht Hf Hd. unfold nv_core_parse_args. split.
  - rewrite <- (app_nil_r (print_opts os)), getopt_print, app_nil_r by done.
    destruct (apply_opts_spec os (nv_core_set_defaults c) Hos) as (c1 & -> & Hs & Hi).
    assert (negb (ints c1 help =? 0) || negb (ints c1 version =? 0) = given (ch "h") os || given (ch "v") os) as ->.
    { rewrite (Hi help), (Hi version). by destruct (given (ch "h") os), (given (ch "v") os). }
    destruct (given (ch "h") os || given (ch "v") os); (eexists; split; [done|]; split_and!; [intros x|..]);
      try (rewrite Hi; by destruct x); try (change (ints (set_conf ?f c1) x) with (ints c1 x); rewrite Hi; by destruct x); apply Hs.
  - rewrite getopt_print by done. assert (getopt ([ch "-"; bad] :: rest) = Unknown :: getopt rest) as ->.
    { cbn [getopt]. assert (strcmp_eq [ch "-"; bad] (str "--") = false) as -> by (apply strcmp_eq_false; by intros [= ->]).
      change (ch "-" =? ch "-") with true. cbv iota. cbn [letters]. by rewrite Hf, Ht. }
    assert (forall os c, Forall known os -> apply_opts (os ++ Unknown :: getopt rest) c = None) as ->; [|done|done].
    clear. intros os c Hos. revert c. induction Hos as [|o os Ho _ IH]; intros c; [done|]. destruct o; [apply IH|done].
Qed.

Lemma nv_core_parse_args_spec_witness :
  exists c', nv_core_parse_args a_context [str "-c"; str "a.conf"; str "-d"; str "-c"; str "b.conf"] = (NV_OK, Some c') /\
    strs c' config_file = str "b.conf".
Proof.
  destruct (nv_core_parse_args_spec a_context [Opt (ch "c") (str "a.conf"); Opt (ch "d") []; Opt (ch "c") (str "b.conf")] (ch "x") [])
    as [(c' & E & _ & H & _) _].
  - repeat (apply Forall_cons; split); [by left|by right|by left|apply Forall_nil_2].
  - reflexivity.
  - reflexivity.
  - discriminate.
  - exists c'. split; [exact E|exact H].
Defined.

End Config.
