(* ===== verification/Socket.v ===== *)
(** * Sockets (base/net/nv_socket.c)

    The descriptors of the process are a map from numbers to sockets.  How the kernel
    answers a call is an argument ([env]): a negative number for a failure, and for
    [socket] and [accept] the new descriptor.  A call on a descriptor that is not open
    fails.  Error messages are left out.  Theorems: what the creation functions leave open,
    and the echo server of the file, which answers what it receives and writes one byte
    past its buffer when a full buffer arrives. *)
From S2P Require Import Prelude.

Module Socket.

Definition AF_INET : Z := 2.
Definition AF_INET6 : Z := 10.
Definition SOCK_STREAM : Z := 1.
Definition SOCK_DGRAM : Z := 2.
Definition SOL_SOCKET : Z := 1.
Definition IPPROTO_IP : Z := 0.
Definition IPPROTO_TCP : Z := 6.
Definition IPPROTO_IPV6 : Z := 41.
Definition SO_REUSEADDR : Z := 2.
Definition SO_BROADCAST : Z := 6.
Definition SO_SNDBUF : Z := 7.
Definition SO_RCVBUF : Z := 8.
Definition SO_KEEPALIVE : Z := 9.
Definition SO_LINGER : Z := 13.
Definition SO_REUSEPORT : Z := 15.
Definition TCP_NODELAY : Z := 1.
Definition TCP_KEEPIDLE : Z := 4.
Definition TCP_KEEPINTVL : Z := 5.
Definition TCP_KEEPCNT : Z := 6.
Definition IP_MULTICAST_IF : Z := 32.
Definition IP_MULTICAST_TTL : Z := 33.
Definition IP_MULTICAST_LOOP : Z := 34.
Definition IP_ADD_MEMBERSHIP : Z := 35.
Definition IP_DROP_MEMBERSHIP : Z := 36.
Definition IPV6_UNICAST_HOPS : Z := 16.
Definition IPV6_MULTICAST_IF : Z := 17.
Definition IPV6_MULTICAST_HOPS : Z := 18.
Definition IPV6_JOIN_GROUP : Z := 20.
Definition IPV6_LEAVE_GROUP : Z := 21.
Definition INADDR_ANY : Z := 0.
Definition INADDR_BROADCAST : Z := 4294967295.
Definition INADDR_NONE : Z := 4294967295.
Definition O_NONBLOCK : Z := 2048.
Definition MSG_NOSIGNAL : Z := 16384.

(** The value of an option: a number, or a structure of numbers. *)
Abbreviation optval := (list Z).
(** An address and a port. *)
Abbreviation sockaddr := (Z * Z)%type.

(** An open socket; [sent] is what left it, with the destination of a datagram. *)
Record sock := mkSock {
  domain : Z; stype : Z; bound : option sockaddr; backlog : option Z; peer : option sockaddr;
  flags : Z; opts : gmap (Z * Z) optval; sent : list (option sockaddr * list Z)
}.
Definition new_sock (d t : Z) : sock := mkSock d t None None None 0 ∅ [].
Definition set_bound (a : sockaddr) (s : sock) := mkSock (domain s) (stype s) (Some a) (backlog s) (peer s) (flags s) (opts s) (sent s).
Definition set_backlog (n : Z) (s : sock) := mkSock (domain s) (stype s) (bound s) (Some n) (peer s) (flags s) (opts s) (sent s).
Definition set_peer (a : sockaddr) (s : sock) := mkSock (domain s) (stype s) (bound s) (backlog s) (Some a) (flags s) (opts s) (sent s).
Definition set_flags (v : Z) (s : sock) := mkSock (domain s) (stype s) (bound s) (backlog s) (peer s) v (opts s) (sent s).
Definition set_opt (k : Z * Z) (v : optval) (s : sock) := mkSock (domain s) (stype s) (bound s) (backlog s) (peer s) (flags s) (<[k := v]> (opts s)) (sent s).
Definition add_sent (d : option sockaddr) (b : list Z) (s : sock) := mkSock (domain s) (stype s) (bound s) (backlog s) (peer s) (flags s) (opts s) (sent s ++ [(d, b)]).

Abbreviation fds := (gmap Z sock).
Inductive syscall :=
  | Socket (d t : Z) | Accept (fd : Z) | Bind (fd : Z) (a : sockaddr) | Listen (fd n : Z) | Connect (fd : Z) (a : sockaddr)
  | Setsockopt (fd level name : Z) (v : optval) | Getfl (fd : Z) | Setfl (fd v : Z)
  | Send (fd : Z) (b : list Z) (fl : Z) (d : option sockaddr) | EpollAdd (fd : Z).
(** The kernel and the C library: answers, the bytes that wait on a descriptor and their
    sender, text addresses, interface names, and the bytes of memory that was never
    written. *)
Record env := mkEnv {
  answer : fds -> syscall -> Z;
  incoming : fds -> Z -> option (sockaddr * list Z);
  inet_pton : Z -> cstr -> option Z;
  if_nametoindex : cstr -> Z;
  garbage : Z
}.

(** What the callers rely on: new descriptors are not open already, and a count is of the
    bytes given. *)
Record env_ok (e : env) : Prop := {
  fresh_socket k d t : k !! answer e k (Socket d t) = None;
  fresh_accept k fd : k !! answer e k (Accept fd) = None;
  send_count k fd b fl d : answer e k (Send fd b fl d) <= Z.of_nat (length b);
}.

(** ** System calls *)

Definition open_with (r : Z) (s : sock) (k : fds) : Z * fds := if r <? 0 then (-1, k) else (r, <[r := s]> k).
Definition socket (e : env) (k : fds) (d t : Z) : Z * fds := open_with (answer e k (Socket d t)) (new_sock d t) k.
Definition close (k : fds) (fd : Z) : Z * fds := if k !! fd is Some _ then (0, delete fd k) else (-1, k).
(** A call on the descriptor [fd] that changes its socket by [f] when it succeeds. *)
Definition on_fd (e : env) (k : fds) (fd : Z) (c : syscall) (f : sock -> sock) : Z * fds :=
  match k !! fd with
  | None => (-1, k)
  | Some s => if answer e k c <? 0 then (-1, k) else (0, <[fd := f s]> k)
  end.
Definition bind (e : env) (k : fds) (fd : Z) (a : sockaddr) := on_fd e k fd (Bind fd a) (set_bound a).
Definition listen (e : env) (k : fds) (fd n : Z) := on_fd e k fd (Listen fd n) (set_backlog n).
Definition connect (e : env) (k : fds) (fd : Z) (a : sockaddr) := on_fd e k fd (Connect fd a) (set_peer a).
Definition setsockopt (e : env) (k : fds) (fd level name : Z) (v : optval) :=
  on_fd e k fd (Setsockopt fd level name v) (set_opt (level, name) v).
Definition accept (e : env) (k : fds) (fd : Z) : Z * fds :=
  match k !! fd with
  | None => (-1, k)
  | Some s => open_with (answer e k (Accept fd)) (new_sock (domain s) (stype s)) k
  end.
Definition getfl (e : env) (k : fds) (fd : Z) : Z :=
  match k !! fd with None => -1 | Some s => if answer e k (Getfl fd) <? 0 then -1 else flags s end.
Definition setfl (e : env) (k : fds) (fd v : Z) := on_fd e k fd (Setfl fd v) (set_flags v).
(** The kernel takes as many bytes as it answers. *)
Definition send (e : env) (k : fds) (fd : Z) (b : list Z) (fl : Z) (d : option sockaddr) : Z * fds :=
  match k !! fd with
  | None => (-1, k)
  | Some s => let r := answer e k (Send fd b fl d) in
              if r <? 0 then (-1, k) else (r, <[fd := add_sent d (take (Z.to_nat r) b) s]> k)
  end.
(** The bytes that arrive, at most [n]: their number, the sender and the bytes. *)
Definition recv (e : env) (k : fds) (fd n : Z) : Z * option (sockaddr * list Z) :=
  match k !! fd, incoming e k fd with
  | Some _, Some (a, b) => let b := take (Z.to_nat n) b in (Z.of_nat (length b), Some (a, b))
  | _, _ => (-1, None)
  end.

(** ** nv_socket.c *)

Definition nv_tcp_socket_create (e : env) (k : fds) : Z * fds :=
  let '(fd, k) := socket e k AF_INET SOCK_STREAM in
  let '(_, k) := setsockopt e k fd SOL_SOCKET SO_REUSEADDR [1] in
  (fd, k).
Definition nv_setsockopt (e : env) (k : fds) (fd level name : Z) (v : optval) : Z * fds := setsockopt e k fd level name v.
Definition nv_udp_socket_create (e : env) (k : fds) : Z * fds :=
  let '(fd, k) := socket e k AF_INET SOCK_DGRAM in
  let '(_, k) := nv_setsockopt e k fd SOL_SOCKET SO_BROADCAST [1] in
  (fd, k).
(** [htons] keeps the low 16 bits of the port. *)
Definition nv_socket_bind (e : env) (k : fds) (fd port : Z) : Z * fds := bind e k fd (INADDR_ANY, u16 port).
Definition nv_tcp_socket_listen (e : env) (k : fds) (fd n : Z) : Z * fds := listen e k fd n.
Definition nv_tcp_socket_accept (e : env) (k : fds) (fd : Z) : Z * fds := accept e k fd.
(** The result of [inet_pton] is ignored: [sin_addr] then was never written. *)
Definition text_or_garbage (e : env) (ip : cstr) : Z := default (garbage e) (inet_pton e AF_INET ip).
Definition nv_tcp_socket_connect (e : env) (k : fds) (fd : Z) (ip : cstr) (port : Z) : Z * fds :=
  connect e k fd (text_or_garbage e ip, u16 port).
Definition nv_socket_send (e : env) (k : fds) (fd : Z) (b : list Z) (fl : Z) : Z * fds :=
  send e k fd b (Z.lor fl MSG_NOSIGNAL) None.
Definition nv_socket_recv (e : env) (k : fds) (fd n : Z) : Z * option (sockaddr * list Z) := recv e k fd n.
Definition nv_socket_close (k : fds) (fd : Z) : Z * fds := close k fd.
Definition nv_udp_socket_sendto (e : env) (k : fds) (fd : Z) (b : list Z) (d : sockaddr) : Z * fds := send e k fd b 0 (Some d).
Definition nv_udp_socket_recvfrom (e : env) (k : fds) (fd n : Z) : Z * option (sockaddr * list Z) := recv e k fd n.

(** A call that reports every failure as -1 and success as 0. *)
Definition checked (r : Z * fds) : Z * fds := (if fst r <? 0 then -1 else 0, snd r).
Definition inet_addr (e : env) (ip : cstr) : Z := default INADDR_NONE (inet_pton e AF_INET ip).
Definition nv_join_multicast_group (e : env) (k : fds) (fd : Z) (group iface : cstr) : Z * fds :=
  checked (setsockopt e k fd IPPROTO_IP IP_ADD_MEMBERSHIP [inet_addr e group; inet_addr e iface]).
Definition nv_leave_multicast_group (e : env) (k : fds) (fd : Z) (group iface : cstr) : Z * fds :=
  checked (setsockopt e k fd IPPROTO_IP IP_DROP_MEMBERSHIP [inet_addr e group; inet_addr e iface]).
Definition nv_set_multicast_ttl (e : env) (k : fds) (fd ttl : Z) : Z * fds :=
  checked (setsockopt e k fd IPPROTO_IP IP_MULTICAST_TTL [ttl]).
Definition nv_set_multicast_interface (e : env) (k : fds) (fd : Z) (iface : cstr) : Z * fds :=
  checked (setsockopt e k fd IPPROTO_IP IP_MULTICAST_IF [inet_addr e iface]).

(** *** IPv6 *)
Definition in6addr_any : Z := 0.
Definition nv_tcp_socket_create_ipv6 (e : env) (k : fds) : Z * fds :=
  let '(fd, k) := socket e k AF_INET6 SOCK_STREAM in
  let '(_, k) := nv_setsockopt e k fd SOL_SOCKET SO_REUSEADDR [1] in
  let '(_, k) := nv_setsockopt e k fd SOL_SOCKET SO_KEEPALIVE [1] in
  let '(_, k) := nv_setsockopt e k fd SOL_SOCKET SO_RCVBUF [1024 * 1024] in
  let '(_, k) := nv_setsockopt e k fd SOL_SOCKET SO_SNDBUF [1024 * 1024] in
  let '(_, k) := nv_setsockopt e k fd SOL_SOCKET SO_LINGER [1; 5] in
  let '(_, k) := nv_setsockopt e k fd IPPROTO_TCP TCP_NODELAY [1] in
  let '(_, k) := nv_setsockopt e k fd IPPROTO_IPV6 IPV6_UNICAST_HOPS [64] in
  (fd, k).
Definition nv_socket_bind_ipv6 (e : env) (k : fds) (fd port : Z) : Z * fds := bind e k fd (in6addr_any, u16 port).
Definition nv_tcp_socket_connect_ipv6 (e : env) (k : fds) (fd : Z) (ip : cstr) (port : Z) : Z * fds :=
  match inet_pton e AF_INET6 ip with
  | None => (-1, k)
  | Some a => checked (connect e k fd (a, u16 port))
  end.
Definition nv_udp_socket_create_ipv6 (e : env) (k : fds) : Z * fds :=
  let '(fd, k) := socket e k AF_INET6 SOCK_DGRAM in
  let '(_, k) := nv_setsockopt e k fd SOL_SOCKET SO_BROADCAST [1] in
  (fd, k).
Definition nv_udp_socket_sendto_ipv6 (e : env) (k : fds) (fd : Z) (b : list Z) (d : sockaddr) : Z * fds := send e k fd b 0 (Some d).
Definition nv_udp_socket_recvfrom_ipv6 (e : env) (k : fds) (fd n : Z) : Z * option (sockaddr * list Z) := recv e k fd n.
Definition group_ipv6 (name : Z) (e : env) (k : fds) (fd : Z) (group iface : cstr) : Z * fds :=
  match inet_pton e AF_INET6 group with
  | None => (-1, k)
  | Some a => if if_nametoindex e iface =? 0 then (-1, k)
              else checked (setsockopt e k fd IPPROTO_IPV6 name [a; if_nametoindex e iface])
  end.
Definition nv_join_multicast_group_ipv6 := group_ipv6 IPV6_JOIN_GROUP.
Definition nv_leave_multicast_group_ipv6 := group_ipv6 IPV6_LEAVE_GROUP.
Definition nv_set_multicast_ttl_ipv6 (e : env) (k : fds) (fd ttl : Z) : Z * fds :=
  checked (setsockopt e k fd IPPROTO_IPV6 IPV6_MULTICAST_HOPS [ttl]).
Definition nv_set_multicast_interface_ipv6 (e : env) (k : fds) (fd : Z) (iface : cstr) : Z * fds :=
  if if_nametoindex e iface =? 0 then (-1, k)
  else checked (setsockopt e k fd IPPROTO_IPV6 IPV6_MULTICAST_IF [if_nametoindex e iface]).

(** *** The echo server and the client

    The bytes printed and the descriptors; [exit(EXIT_FAILURE)] is [Exit 1].  [arrivals]
    are the chunks [recv] delivers one after the other, until the peer closes. *)
Definition BUFFER_SIZE : Z := 1024.
(** [buffer[bytes_received] = 0] *)
Definition terminate (n : Z) : outcome unit := if n <? BUFFER_SIZE then Ret tt else UB.
(** [printf] with percent s stops at the first NUL. *)
Definition printed (b : list Z) : list Z := take_while (fun c => negb (c =? 0)) b.
Fixpoint echo_loop (e : env) (k : fds) (fd : Z) (arrivals : list (list Z)) : outcome (fds * list (list Z)) :=
  match arrivals with
  | [] => Ret (k, [])
  | b :: arrivals' =>
      if (length b =? 0)%nat then Ret (k, []) else
      _ ← terminate (Z.of_nat (length b));
      let '(_, k) := nv_socket_send e k fd b 0 in
      '(k, out) ← echo_loop e k fd arrivals';
      Ret (k, printed b :: out)
  end.
Definition run_tcp_server (e : env) (k : fds) (port : Z) (arrivals : list (list Z)) : outcome (fds * list (list Z)) :=
  let '(server_fd, k) := nv_tcp_socket_create e k in
  if server_fd <? 0 then Exit 1 else
  let '(r, k) := nv_socket_bind e k server_fd port in
  if r <? 0 then Exit 1 else
  let '(r, k) := nv_tcp_socket_listen e k server_fd 5 in
  if r <? 0 then Exit 1 else
  let '(client_fd, k) := nv_tcp_socket_accept e k server_fd in
  if client_fd <? 0 then Exit 1 else
  '(k, out) ← echo_loop e k client_fd arrivals;
  let '(_, k) := nv_socket_close k client_fd in
  let '(_, k) := nv_socket_close k server_fd in
  Ret (k, out).
Definition run_tcp_client (e : env) (k : fds) (ip : cstr) (port : Z) : outcome (fds * list (list Z)) :=
  let '(fd, k) := nv_tcp_socket_create e k in
  if fd <? 0 then Exit 1 else
  let '(r, k) := nv_tcp_socket_connect e k fd ip port in
  if r <? 0 then Exit 1 else
  let '(_, k) := nv_socket_send e k fd (str "Hello, Server!") 0 in
  let '(n, got) := nv_socket_recv e k fd BUFFER_SIZE in
  out ← (if 0 <? n then _ ← terminate n; Ret [printed (default [] (snd <$> got))] else Ret []);
  let '(_, k) := nv_socket_close k fd in
  Ret (k, out).

(** ** Properties *)

Lemma on_fd_dom e k fd c f : dom (snd (on_fd e k fd c f)) = dom k.
Proof.
  unfold on_fd. destruct (k !! fd) eqn:E; [|done]. destruct (answer e k c <? 0); [done|]. simpl.
  rewrite dom_insert_L. apply elem_of_dom_2 in E. set_solver.
Qed.
Lemma on_fd_other e k fd c f fd' : fd' <> fd -> snd (on_fd e k fd c f) !! fd' = k !! fd'.
Proof. intros. unfold on_fd. repeat case_match; simpl; [done|by rewrite lookup_insert_ne|done]. Qed.
Lemma on_fd_ok e k fd c f : 0 <= fst (on_fd e k fd c f) <-> is_Some (k !! fd) /\ 0 <= answer e k c.
Proof.
  unfold on_fd. destruct (k !! fd) as [s|]; [|split; [simpl; lia|by intros [[? ?] ?]]].
  destruct (Z.ltb_spec (answer e k c) 0); simpl; [split; [lia|intros [_ ?]; lia]|]. split; [by eauto|lia].
Qed.

Lemma on_fd_granted e k fd c f s : k !! fd = Some s -> 0 <= answer e k c -> on_fd e k fd c f = (0, <[fd := f s]> k).
Proof. unfold on_fd. intros -> H. by destruct (Z.ltb_spec (answer e k c) 0); [lia|]. Qed.
Lemma open_granted e k c s : 0 <= answer e k c -> open_with (answer e k c) s k = (answer e k c, <[answer e k c := s]> k).
Proof. unfold open_with. intros H. by destruct (Z.ltb_spec (answer e k c) 0); [lia|]. Qed.

(** Every byte of every chunk is sent. *)
Definition sends_all (e : env) : Prop := forall k fd b fl d, answer e k (Send fd b fl d) = Z.of_nat (length b).

Lemma echo_spec e k fd s arrivals : sends_all e -> k !! fd = Some s ->
  Forall (fun b => 0 < Z.of_nat (length b) < BUFFER_SIZE) arrivals ->
  exists s', echo_loop e k fd arrivals = Ret (<[fd := s']> k, map printed arrivals) /\
    sent s' = sent s ++ map (pair None) arrivals.
Proof.
  intros He. revert k s. induction arrivals as [|b bs IH]; intros k s Es Hb.
  { exists s. simpl. rewrite insert_id by done. by rewrite app_nil_r. }
  apply Forall_cons in Hb as [Hb Hbs]. cbn [echo_loop]. destruct (Nat.eqb_spec (length b) 0); [lia|].
  unfold terminate. destruct (Z.ltb_spec (Z.of_nat (length b)) BUFFER_SIZE); [|lia]. cbn [mbind outcome_bind].
  unfold nv_socket_send, send. rewrite Es, He. destruct (Z.ltb_spec (Z.of_nat (length b)) 0); [lia|].
  rewrite Nat2Z.id, firstn_all.
  destruct (IH (<[fd := add_sent None b s]> k) (add_sent None b s)) as (s' & -> & E'); [by rewrite lookup_insert_eq|done|].
  cbn [mbind outcome_bind]. exists s'. rewrite insert_insert_eq. split; [done|]. rewrite E'. simpl. by rewrite <- app_assoc.
Qed.

(** The echo server sends back every chunk it receives, in order, prints each up to
    its first NUL, and leaves no descriptor of its own open: when the kernel grants its
    calls, sends take every byte and no chunk fills the buffer. *)
Theorem run_tcp_server_echoes e k port arrivals :
  env_ok e -> sends_all e -> (forall k c, 0 <= answer e k c) ->
  Forall (fun b => 0 < Z.of_nat (length b) < BUFFER_SIZE) arrivals ->
  run_tcp_server e k port arrivals = Ret (k, map printed arrivals) /\
  forall k fd s, k !! fd = Some s -> exists k' s', echo_loop e k fd arrivals = Ret (k', map printed arrivals) /\
    k' !! fd = Some s' /\ sent s' = sent s ++ map (pair None) arrivals.
Proof.
  intros Hok Hs Ha Hb. split; last first.
  { intros k' fd s Es. destruct (echo_spec e k' fd s arrivals Hs Es Hb) as (s' & -> & E'). eexists _, _. split; [done|].
    by rewrite lookup_insert_eq. }
  unfold run_tcp_server, nv_tcp_socket_create, socket. rewrite (open_granted e k) by done.
  unfold setsockopt, nv_socket_bind, bind, nv_tcp_socket_listen, listen.
  set (fd := answer e k _). assert (k !! fd = None) as Hfd by apply Hok. assert (0 <= fd) as Hfd0 by apply Ha. clearbody fd.
  do 3 (rewrite (on_fd_granted e _ fd) with (s := _) by (apply lookup_insert_eq || done); rewrite insert_insert_eq;
        try (destruct (Z.ltb_spec fd 0); [lia|])).
  change (0 <? 0) with false. cbv iota. unfold nv_tcp_socket_accept, accept. rewrite lookup_insert_eq.
  set (k1 := <[fd := _]> k). rewrite (open_granted e k1) by done.
  assert (k1 !! answer e k1 (Accept fd) = None) as Hc by apply Hok. assert (0 <= answer e k1 (Accept fd)) as Hc0 by apply Ha.
  set (cfd := answer e k1 (Accept fd)) in *. clearbody cfd. destruct (Z.ltb_spec cfd 0); [lia|].
  set (s0 := new_sock (domain _) _). destruct (echo_spec e (<[cfd := s0]> k1) cfd s0 arrivals Hs) as (s' & -> & _);
    [by rewrite lookup_insert_eq|done|]. cbn [mbind outcome_bind].
  assert (cfd <> fd) as Hne by (intros ->; unfold k1 in Hc; by rewrite lookup_insert_eq in Hc).
  unfold nv_socket_close, close. rewrite insert_insert_eq, lookup_insert_eq, delete_insert_id by done.
  unfold k1. by rewrite lookup_insert_eq, delete_insert_id.
Qed.

(** A kernel that grants everything: the number of a new descriptor is above all others. *)
Definition generous : env :=
  mkEnv (fun k c => match c with
                    | Socket _ _ | Accept _ => next_key 3 k
                    | Send _ b _ _ => Z.of_nat (length b)
                    | _ => 0
                    end) (fun _ _ => None) (fun _ _ => Some 0) (fun _ => 1) 0.
Lemma generous_ok : env_ok generous /\ sends_all generous /\ forall k c, 0 <= answer generous k c.
Proof.
  split_and!; [split; intros; simpl; [apply next_key_fresh..|lia]|done|].
  intros k []; simpl; try lia; pose proof (next_key_low 3 k); lia.
Qed.
Lemma run_tcp_server_echoes_witness :
  run_tcp_server generous ∅ 80 [str "hi"] = Ret (∅, [str "hi"]) /\
  forall k fd s, k !! fd = Some s -> exists k' s', echo_loop generous k fd [str "hi"] = Ret (k', [str "hi"]) /\
    k' !! fd = Some s' /\ sent s' = sent s ++ [(None, str "hi")].
Proof.
  destruct generous_ok as (H1 & H2 & H3).
  apply (run_tcp_server_echoes generous ∅ 80 [str "hi"] H1 H2 H3). constructor; [vm_compute; done|constructor].
Defined.

(** A chunk that fills the whole buffer makes the echo server write its terminating NUL
    past the end of the buffer. *)
Theorem run_tcp_server_full_buffer e k fd b arrivals : Z.of_nat (length b) = BUFFER_SIZE -> echo_loop e k fd (b :: arrivals) = UB.
Proof.
  intros Hb. cbn [echo_loop]. destruct (Nat.eqb_spec (length b) 0) as [E|_]; [rewrite E in Hb; done|].
  unfold terminate. by rewrite Hb, Z.ltb_irrefl.
Qed.
Lemma run_tcp_server_full_buffer_witness : echo_loop generous ∅ 4 [replicate 1024 65] = UB.
Proof. apply (run_tcp_server_full_buffer generous ∅ 4 (replicate 1024 65) []). reflexivity. Defined.

End Socket.
