(* ===== verification/Endpoint.v ===== *)
(** * TCP and UDP endpoints (event/nv_tcp.c, event/nv_udp.c)

    Endpoints, servers and clients over the sockets of [Socket] and the event loop of
    [EventLoop], and the byte buffers.  An endpoint lives in the heap [eps]; its
    [read_event] is the event of the loop's heap at the same address, and the two are
    allocated and freed together.  The two files have the same text but for the state
    names and a few calls: what they share is written once, over the type of the states.
    Theorems: a buffer is a queue of bytes; a server and a client give back every
    descriptor and all memory; the error paths that do not. *)
From S2P Require Import Prelude DLinks EventLoop Socket.
Import EventLoop Socket.

Module Endpoint.

Inductive nv_tcp_state_t := NV_TCP_CLOSED | NV_TCP_LISTENING | NV_TCP_CONNECTING | NV_TCP_CONNECTED | NV_TCP_CLOSING.
Inductive nv_udp_state_t := NV_UDP_CLOSED | NV_UDP_BOUND | NV_UDP_CONNECTED | NV_UDP_MULTICAST.

(** What a file calls its states: 0 is the closed one. *)
Class EpState (S : Type) := { closed : S; ready : S; connected : S; kind : Z }.
#[export] Instance tcp_state : EpState nv_tcp_state_t := {| closed := NV_TCP_CLOSED; ready := NV_TCP_LISTENING; connected := NV_TCP_CONNECTED; kind := SOCK_STREAM |}.
#[export] Instance udp_state : EpState nv_udp_state_t := {| closed := NV_UDP_CLOSED; ready := NV_UDP_BOUND; connected := NV_UDP_CONNECTED; kind := SOCK_DGRAM |}.

Record ep (S : Type) := mkEp { socketfd : Z; port : Z; st : S; ep_loop : Z; dest_addr : sockaddr }.
Arguments mkEp {S}. Arguments socketfd {S}. Arguments port {S}. Arguments st {S}. Arguments ep_loop {S}. Arguments dest_addr {S}.
Abbreviation nv_tcp_t := (ep nv_tcp_state_t).
Abbreviation nv_udp_t := (ep nv_udp_state_t).
Record server_t := mkServer { listener : Z; sv_loop : Z; sv_port : Z; sv_backlog : Z; sv_max : Z }.
Record client_t := mkClient { connection : Z; cl_loop : Z; server_ip : Z; server_port : Z; timeout_ms : Z }.

(** The loop and its events, the endpoints and strings on the heap, the descriptors. *)
Record net (S : Type) := mkNet { lw : world; eps : gmap Z (ep S); strs : gmap Z cstr; ks : fds }.
Arguments mkNet {S}. Arguments lw {S}. Arguments eps {S}. Arguments strs {S}. Arguments ks {S}.

Section common.
Context {S : Type} `{EpState S}.
Implicit Types (n : net S) (e : env).

Definition with_lw (w : world) n : net S := mkNet w (eps n) (strs n) (ks n).
Definition with_eps (m : gmap Z (ep S)) n : net S := mkNet (lw n) m (strs n) (ks n).
Definition with_strs (m : gmap Z cstr) n : net S := mkNet (lw n) (eps n) m (ks n).
Definition with_ks (k : fds) n : net S := mkNet (lw n) (eps n) (strs n) k.
Definition set_fd (fd : Z) (x : ep S) : ep S := mkEp fd (port x) (st x) (ep_loop x) (dest_addr x).
Definition set_st (v : S) (x : ep S) : ep S := mkEp (socketfd x) (port x) v (ep_loop x) (dest_addr x).
Definition set_port (v : Z) (x : ep S) : ep S := mkEp (socketfd x) v (st x) (ep_loop x) (dest_addr x).
Definition set_ep_loop (v : Z) (x : ep S) : ep S := mkEp (socketfd x) (port x) (st x) v (dest_addr x).
Definition set_dest (v : sockaddr) (x : ep S) : ep S := mkEp (socketfd x) (port x) (st x) (ep_loop x) v.

(** A write through a pointer to an endpoint. *)
Definition upd_ep (a : Z) (f : ep S -> ep S) n : outcome (net S) :=
  if eps n !! a is Some x then Ret (with_eps (<[a := f x]> (eps n)) n) else UB.
(** [malloc(sizeof(nv_tcp_t))] gave [a]; [memset] to zero.  [free]. *)
Definition alloc_ep (a : Z) n : net S :=
  with_lw (on_evs (<[a := zero_ev]> (evs (lw n))) (lw n)) (with_eps (<[a := mkEp 0 0 closed 0 (0, 0)]> (eps n)) n).
Definition free_ep (a : Z) n : outcome (net S) :=
  if eps n !! a is Some _ then Ret (with_lw (on_evs (delete a (evs (lw n))) (lw n)) (with_eps (delete a (eps n)) n)) else UB.
(** A call that changes the descriptors only. *)
Definition sys n (r : Z * fds) : Z * net S := (fst r, with_ks (snd r) n).
Definition close_fd (fd : Z) n : net S := snd (sys n (close (ks n) fd)).

(** ** Servers

    [mem] is the result of [malloc]. *)
Definition server_create (bl mx : Z) e n (mem loop p : Z) (s : server_t) : outcome (Z * server_t * net S) :=
  if loop =? NULL then Ret (-1, s, n) else
  let s := mkServer mem loop p bl mx in
  if mem =? NULL then Ret (-1, s, n) else
  let n := alloc_ep mem n in
  let '(fd, n) := sys n (socket e (ks n) AF_INET kind) in
  n ← upd_ep mem (set_fd fd) n;
  if fd =? -1 then n ← free_ep mem n; Ret (-1, s, n) else
  let '(_, n) := sys n (setsockopt e (ks n) fd SOL_SOCKET SO_REUSEADDR [1]) in
  let '(r, n) := sys n (bind e (ks n) fd (INADDR_ANY, u16 p)) in
  if r =? -1 then n ← free_ep mem (close_fd fd n); Ret (-1, s, n)
  else Ret (0, s, n).

(** The listener's event is cleared, filled in and handed to the loop: its handler stays
    NULL.  [self] is the address of the server. *)
Definition register_listener e n (self : Z) (s : server_t) (fd : Z) : outcome (Z * net S) :=
  w ← upd (listener s) (fun _ => set_prio NV_EVENT_PRIO_NORMAL (set_type NV_EVENT_TYPE_IO
        (mkEv fd 0 0 false 0 self 0 0 0 0 0 0 0 0 0))) (lw n);
  if sv_loop s =? NULL then Ret (-1, with_lw w n) else
  '(r, w) ← nv_loop_add_event w (listener s) EPOLLIN (if answer e (ks n) (EpollAdd fd) <? 0 then -1 else 0);
  Ret (if r =? 0 then 0 else -1, with_lw w n).

Definition server_start (must_listen : bool) e n (self : Z) (s : server_t) : outcome (Z * net S) :=
  if listener s =? NULL then Ret (-1, n) else
  x ← deref (eps n !! listener s);
  if socketfd x =? -1 then Ret (-1, n) else
  let '(r, n) := if must_listen then sys n (listen e (ks n) (socketfd x) (sv_backlog s)) else (0, n) in
  if r =? -1 then Ret (-1, n) else
  n ← upd_ep (listener s) (set_st ready) n;
  register_listener e n self s (socketfd x).

Definition server_stop n (s : server_t) : outcome (Z * server_t * net S) :=
  n ← (if (listener s =? NULL) || (sv_loop s =? NULL) then Ret n else
       ev ← deref (evs (lw n) !! listener s);
       if active ev then
         '(_, w) ← nv_loop_del_event (lw n) (listener s);
         w ← nv_event_cleanup w (listener s);
         Ret (with_lw w n)
       else Ret n);
  if listener s =? NULL then Ret (0, s, n) else
  x ← deref (eps n !! listener s);
  n ← (if socketfd x =? -1 then Ret n
       else upd_ep (listener s) (fun x => set_st closed (set_fd (-1) x)) (close_fd (socketfd x) n));
  n ← free_ep (listener s) n;
  Ret (0, mkServer NULL (sv_loop s) (sv_port s) (sv_backlog s) (sv_max s), n).

Definition server_destroy n (s : server_t) : outcome (server_t * net S) :=
  '(_, _, n) ← server_stop n s;
  Ret (mkServer NULL NULL 0 0 0, n).

(** ** Clients *)

Definition client_create (loop : Z) (c : client_t) : Z * client_t :=
  if loop =? NULL then (-1, c) else (0, mkClient NULL loop NULL 0 5000).

(** [mem] and [dup] are the results of [malloc] and [strdup]; TCP connects the socket, UDP
    only notes the address. *)
Definition client_connect (must_connect : bool) e n (mem dup : Z) (ip : cstr) (p : Z) (c : client_t) : outcome (Z * client_t * net S) :=
  let c := mkClient mem (cl_loop c) (server_ip c) (server_port c) (timeout_ms c) in
  if mem =? NULL then Ret (-1, c, n) else
  let n := alloc_ep mem n in
  let '(fd, n) := sys n (socket e (ks n) AF_INET kind) in
  n ← upd_ep mem (set_fd fd) n;
  if fd =? -1 then n ← free_ep mem n; Ret (-1, c, n) else
  match inet_pton e AF_INET ip with
  | None => n ← free_ep mem (close_fd fd n); Ret (-1, c, n)
  | Some a =>
      let '(r, n) := if must_connect then sys n (connect e (ks n) fd (a, u16 p)) else (0, n) in
      if r =? -1 then n ← free_ep mem (close_fd fd n); Ret (-1, c, n) else
      n ← upd_ep mem (fun x => set_st connected (if must_connect then x else set_dest (a, u16 p) x)) n;
      let n := if dup =? NULL then n else with_strs (<[dup := ip]> (strs n)) n in
      Ret (0, mkClient mem (cl_loop c) dup p (timeout_ms c), n)
  end.

Definition free_str (a : Z) n : outcome (net S) :=
  if a =? NULL then Ret n else if strs n !! a is Some _ then Ret (with_strs (delete a (strs n)) n) else UB.
Definition client_disconnect n (c : client_t) : outcome (Z * client_t * net S) :=
  n ← (if connection c =? NULL then Ret n else
       x ← deref (eps n !! connection c);
       n ← (if socketfd x =? -1 then Ret n else upd_ep (connection c) (set_fd (-1)) (close_fd (socketfd x) n));
       n ← upd_ep (connection c) (set_st closed) n;
       free_ep (connection c) n);
  n ← free_str (server_ip c) n;
  Ret (0, mkClient NULL (cl_loop c) NULL (server_port c) (timeout_ms c), n).

(** ** Single endpoints: [udp] or [tcp] is the address, not NULL *)

(** [nv_tcp_bind] and [nv_udp_bind] close the socket when binding fails; the number stays
    in the structure. *)
Definition ep_bind (record_port : bool) e n (a p : Z) : outcome (Z * net S) :=
  x ← deref (eps n !! a);
  let '(r, n) := sys n (nv_socket_bind e (ks n) (socketfd x) p) in
  if r <? 0 then Ret (-1, snd (sys n (nv_socket_close (ks n) (socketfd x)))) else
  if record_port then n ← upd_ep a (set_port (i32 p)) n; Ret (0, n) else Ret (0, n).
Definition ep_close n (a : Z) : outcome (Z * net S) :=
  if a =? NULL then Ret (-1, n) else
  x ← deref (eps n !! a);
  n ← (if socketfd x =? -1 then Ret n else upd_ep a (set_fd (-1)) (close_fd (socketfd x) n));
  n ← upd_ep a (set_st closed) n;
  Ret (0, n).
(** An option of the socket; a structure without a socket is refused. *)
Definition with_socket n (a : Z) (f : Z -> net S -> Z * net S) : outcome (Z * net S) :=
  if a =? NULL then Ret (-1, n) else
  x ← deref (eps n !! a);
  if socketfd x =? -1 then Ret (-1, n) else Ret (f (socketfd x) n).
Definition ep_setopt e n (a level name : Z) (v : optval) : outcome (Z * net S) :=
  with_socket n a (fun fd n => sys n (setsockopt e (ks n) fd level name v)).
Definition ep_set_nonblocking e n (a : Z) : outcome (Z * net S) :=
  with_socket n a (fun fd n => let fl := getfl e (ks n) fd in
                     if fl =? -1 then (-1, n) else sys n (setfl e (ks n) fd (Z.lor fl O_NONBLOCK))).
End common.

(** ** event/nv_tcp.c *)
Module Tcp.
Implicit Types (n : net nv_tcp_state_t) (e : env).
Definition SOMAXCONN : Z := 4096.

Definition nv_tcp_init e n (loop a : Z) : outcome (Z * net nv_tcp_state_t) :=
  let '(fd, n) := sys n (nv_tcp_socket_create e (ks n)) in
  n ← upd_ep a (set_fd fd) n;
  if fd <? 0 then Ret (-1, n) else
  n ← upd_ep a (fun x => set_ep_loop loop (set_st NV_TCP_CLOSED x)) n;
  Ret (0, n).
Definition nv_tcp_bind := ep_bind (S := nv_tcp_state_t) true.
Definition nv_tcp_listen e n (a bl : Z) : outcome (Z * net nv_tcp_state_t) :=
  x ← deref (eps n !! a);
  let '(r, n) := sys n (nv_tcp_socket_listen e (ks n) (socketfd x) bl) in
  if r <? 0 then Ret (-1, snd (sys n (nv_socket_close (ks n) (socketfd x)))) else
  n ← upd_ep a (set_st NV_TCP_LISTENING) n;
  Ret (0, n).
(** [mem] is the result of [nv_malloc], [raw] and [rawev] what the memory holds. *)
Definition nv_tcp_accept e n (mem : Z) (raw : nv_tcp_t) (rawev : nv_event_ext_t) (a : Z) : outcome (Z * net nv_tcp_state_t) :=
  if mem =? NULL then Ret (NULL, n) else
  let n := with_lw (on_evs (<[mem := rawev]> (evs (lw n))) (lw n)) (with_eps (<[mem := raw]> (eps n)) n) in
  x ← deref (eps n !! a);
  let '(fd, n) := sys n (nv_tcp_socket_accept e (ks n) (socketfd x)) in
  n ← upd_ep mem (set_fd fd) n;
  if fd <? 0 then n ← free_ep mem n; Ret (NULL, n) else
  n ← upd_ep mem (fun y => set_ep_loop (ep_loop x) (set_st NV_TCP_CONNECTED y)) n;
  Ret (mem, n).
Definition nv_tcp_connect e n (a : Z) (ip : cstr) (p : Z) : outcome (Z * net nv_tcp_state_t) :=
  n ← upd_ep a (set_st NV_TCP_CONNECTING) n;
  x ← deref (eps n !! a);
  let '(r, n) := sys n (nv_tcp_socket_connect e (ks n) (socketfd x) ip p) in
  if r <? 0 then
    let '(_, n) := sys n (nv_socket_close (ks n) (socketfd x)) in
    n ← upd_ep a (set_st NV_TCP_CLOSED) n;
    Ret (-1, n)
  else n ← upd_ep a (set_st NV_TCP_CONNECTED) n; Ret (0, n).
Definition nv_tcp_read e n (a size : Z) : outcome (Z * option (sockaddr * list Z)) :=
  x ← deref (eps n !! a);
  let '(r, b) := nv_socket_recv e (ks n) (socketfd x) size in
  Ret (i32 r, b).
Definition nv_tcp_write e n (a : Z) (buff : list Z) : outcome (Z * net nv_tcp_state_t) :=
  x ← deref (eps n !! a);
  let '(r, n) := sys n (nv_socket_send e (ks n) (socketfd x) buff 0) in
  Ret (i32 r, n).
Definition nv_tcp_close := ep_close (S := nv_tcp_state_t).

Definition nv_tcp_server_create := server_create (S := nv_tcp_state_t) SOMAXCONN 1000.
Definition nv_tcp_server_start := server_start (S := nv_tcp_state_t) true.
Definition nv_tcp_server_stop := server_stop (S := nv_tcp_state_t).
Definition nv_tcp_server_destroy := server_destroy (S := nv_tcp_state_t).
Definition nv_tcp_client_create := client_create.
Definition nv_tcp_client_connect := client_connect (S := nv_tcp_state_t) true.
Definition nv_tcp_client_disconnect := client_disconnect (S := nv_tcp_state_t).

Definition nv_tcp_set_nonblocking := ep_set_nonblocking (S := nv_tcp_state_t).
Definition nv_tcp_set_keepalive e n (a enable idle interval count : Z) : outcome (Z * net nv_tcp_state_t) :=
  with_socket n a (fun fd n =>
    let '(r, n) := sys n (setsockopt e (ks n) fd SOL_SOCKET SO_KEEPALIVE [enable]) in
    if r =? -1 then (-1, n) else
    if enable =? 0 then (0, n) else
    let '(_, n) := sys n (setsockopt e (ks n) fd IPPROTO_TCP TCP_KEEPIDLE [idle]) in
    let '(_, n) := sys n (setsockopt e (ks n) fd IPPROTO_TCP TCP_KEEPINTVL [interval]) in
    let '(_, n) := sys n (setsockopt e (ks n) fd IPPROTO_TCP TCP_KEEPCNT [count]) in
    (0, n)).
Definition nv_tcp_set_nodelay e n (a enable : Z) := ep_setopt e n a IPPROTO_TCP TCP_NODELAY [enable].
Definition nv_tcp_set_reuseaddr e n (a enable : Z) := ep_setopt e n a SOL_SOCKET SO_REUSEADDR [enable].
End Tcp.

(** ** event/nv_udp.c *)
Module Udp.
Implicit Types (n : net nv_udp_state_t) (e : env).

Definition nv_udp_init e n (a : Z) : outcome (Z * net nv_udp_state_t) :=
  let '(fd, n) := sys n (nv_udp_socket_create e (ks n)) in
  n ← upd_ep a (set_fd fd) n;
  Ret (if fd <? 0 then -1 else 0, n).
Definition nv_udp_bind := ep_bind (S := nv_udp_state_t) false.
(** [inet_pton] is not checked: the address may never have been written. *)
Definition nv_udp_connect e n (a : Z) (ip : cstr) (p : Z) : outcome (Z * net nv_udp_state_t) :=
  x ← deref (eps n !! a);
  let d := (text_or_garbage e ip, u16 p) in
  let '(r, n) := sys n (connect e (ks n) (socketfd x) d) in
  if r <? 0 then Ret (-1, n) else
  n ← upd_ep a (fun x => set_st NV_UDP_CONNECTED (set_dest d x)) n;
  Ret (0, n).
Definition is_connected (x : nv_udp_t) : bool := match st x with NV_UDP_CONNECTED => true | _ => false end.
Definition nv_udp_send e n (a : Z) (buff : list Z) : outcome (Z * net nv_udp_state_t) :=
  x ← deref (eps n !! a);
  if is_connected x then let '(r, n) := sys n (send e (ks n) (socketfd x) buff 0 None) in Ret (i32 r, n) else Ret (-1, n).
Definition nv_udp_sendto e n (a : Z) (buff : list Z) (d : sockaddr) : outcome (Z * net nv_udp_state_t) :=
  x ← deref (eps n !! a);
  let '(r, n) := sys n (nv_udp_socket_sendto e (ks n) (socketfd x) buff d) in
  Ret (i32 r, n).
Definition nv_udp_recv e n (a size : Z) : outcome (Z * option (sockaddr * list Z)) :=
  x ← deref (eps n !! a);
  if is_connected x then let '(r, b) := recv e (ks n) (socketfd x) size in Ret (i32 r, b) else Ret (-1, None).
Definition nv_udp_recvfrom e n (a size : Z) : outcome (Z * option (sockaddr * list Z)) :=
  x ← deref (eps n !! a);
  let '(r, b) := nv_udp_socket_recvfrom e (ks n) (socketfd x) size in
  Ret (i32 r, b).
Definition nv_udp_close := ep_close (S := nv_udp_state_t).

(** A UDP server has no backlog. *)
Definition nv_udp_server_create := server_create (S := nv_udp_state_t) 0 1000.
Definition nv_udp_server_start := server_start (S := nv_udp_state_t) false.
Definition nv_udp_server_stop := server_stop (S := nv_udp_state_t).
Definition nv_udp_server_destroy := server_destroy (S := nv_udp_state_t).
Definition nv_udp_client_create := client_create.
Definition nv_udp_client_connect := client_connect (S := nv_udp_state_t) false.
Definition nv_udp_client_disconnect := client_disconnect (S := nv_udp_state_t).

Definition membership e (group : cstr) (iface : option cstr) : optval :=
  [inet_addr e group; match iface with Some i => inet_addr e i | None => INADDR_ANY end].
Definition nv_udp_join_multicast e n (a : Z) (group : cstr) (iface : option cstr) :=
  ep_setopt e n a IPPROTO_IP IP_ADD_MEMBERSHIP (membership e group iface).
Definition nv_udp_leave_multicast e n (a : Z) (group : cstr) (iface : option cstr) :=
  ep_setopt e n a IPPROTO_IP IP_DROP_MEMBERSHIP (membership e group iface).
Definition nv_udp_set_multicast_ttl e n (a ttl : Z) := ep_setopt e n a IPPROTO_IP IP_MULTICAST_TTL [ttl].
Definition nv_udp_set_multicast_loopback e n (a enable : Z) := ep_setopt e n a IPPROTO_IP IP_MULTICAST_LOOP [enable].
Definition nv_udp_set_broadcast e n (a enable : Z) := ep_setopt e n a SOL_SOCKET SO_BROADCAST [enable].
Definition nv_udp_send_broadcast e n (a : Z) (buff : list Z) (p : Z) : outcome (Z * net nv_udp_state_t) :=
  with_socket n a (fun fd n => let '(r, n) := sys n (send e (ks n) fd buff 0 (Some (INADDR_BROADCAST, u16 p))) in (i32 r, n)).
Definition nv_udp_set_nonblocking := ep_set_nonblocking (S := nv_udp_state_t).
Definition nv_udp_set_reuseaddr e n (a enable : Z) := ep_setopt e n a SOL_SOCKET SO_REUSEADDR [enable].
Definition nv_udp_set_reuseport e n (a enable : Z) := ep_setopt e n a SOL_SOCKET SO_REUSEPORT [enable].
End Udp.

(** ** Life cycles *)

Section life.
Context {S : Type} `{EpState S}.
Implicit Types (n : net S) (e : env).

(** The network [n] with one more endpoint, its event and its socket. *)
Definition opened n (a : Z) (x : ep S) (ev : nv_event_ext_t) (fd : Z) (k : sock) : net S :=
  mkNet (on_evs (<[a := ev]> (evs (lw n))) (lw n)) (<[a := x]> (eps n)) (strs n) (<[fd := k]> (ks n)).
(** The address is not in use. *)
Definition unused n (a : Z) : Prop := a <> NULL /\ eps n !! a = None /\ evs (lw n) !! a = None.

Lemma opened_ep n a x ev fd k : eps (opened n a x ev fd k) !! a = Some x.
Proof. apply lookup_insert_eq. Qed.
Lemma opened_ev n a x ev fd k : evs (lw (opened n a x ev fd k)) !! a = Some ev.
Proof. apply lookup_insert_eq. Qed.
Lemma opened_upd_ep n a x ev fd k f : upd_ep a f (opened n a x ev fd k) = Ret (opened n a (f x) ev fd k).
Proof. unfold upd_ep. rewrite opened_ep. unfold with_eps, opened. simpl. by rewrite insert_insert_eq. Qed.
Lemma opened_upd n a x ev fd k f :
  upd a f (lw (opened n a x ev fd k)) = Ret (lw (opened n a x (f ev) fd k)).
Proof. unfold upd, store. rewrite opened_ev. cbn [deref mbind outcome_bind]. unfold on_evs, opened. simpl. by rewrite insert_insert_eq. Qed.
Lemma opened_with_lw n a x ev ev' fd k : with_lw (lw (opened n a x ev' fd k)) (opened n a x ev fd k) = opened n a x ev' fd k.
Proof. done. Qed.
Lemma opened_on_fd e n a x ev fd k c f :
  exists r k', sys (opened n a x ev fd k) (on_fd e (ks (opened n a x ev fd k)) fd c f) = (r, opened n a x ev fd k') /\ (r = 0 \/ r = -1).
Proof.
  unfold sys, on_fd. cbn [ks opened]. rewrite lookup_insert_eq. unfold opened.
  destruct (answer e _ c <? 0); simpl; [exists (-1), k; by eauto|]. exists 0, (f k). unfold with_ks. simpl. rewrite insert_insert_eq. by eauto.
Qed.

(** Giving everything back. *)
Lemma opened_release n a x ev fd k : unused n a -> ks n !! fd = None -> free_ep a (close_fd fd (opened n a x ev fd k)) = Ret n.
Proof.
  intros (_ & Ha & Hev) Hf. unfold close_fd, sys, close. cbn [ks opened]. rewrite lookup_insert_eq. simpl.
  unfold free_ep, opened, with_ks. simpl. rewrite lookup_insert_eq. unfold with_lw, with_eps, on_evs. simpl.
  rewrite !delete_insert_id by done. by destruct n as [[]].
Qed.
Lemma free_alloc n a : unused n a -> free_ep a (alloc_ep a n) = Ret n.
Proof.
  intros (_ & Ha & Hev). unfold free_ep, alloc_ep, with_lw, with_eps, on_evs. simpl. rewrite lookup_insert_eq. simpl.
  rewrite !delete_insert_id by done. by destruct n as [[]].
Qed.

(** Allocating an endpoint and opening its socket. *)
Lemma open_spec e n a : env_ok e -> unused n a ->
  let '(fd, n1) := sys (alloc_ep a n) (socket e (ks (alloc_ep a n)) AF_INET kind) in
  fd = -1 /\ (n2 ← upd_ep a (set_fd fd) n1; free_ep a n2) = Ret n \/
  0 <= fd /\ ks n !! fd = None /\
    upd_ep a (set_fd fd) n1 = Ret (opened n a (mkEp fd 0 closed 0 (0, 0)) zero_ev fd (new_sock AF_INET kind)).
Proof.
  intros He Ha. pose proof Ha as (Hn & Hep & Hev). unfold sys, socket, open_with.
  destruct (Z.ltb_spec (answer e (ks (alloc_ep a n)) (Socket AF_INET kind)) 0) as [Hr|Hr]; simpl.
  - left. split; [done|]. unfold upd_ep, alloc_ep. simpl. rewrite lookup_insert_eq. cbn [mbind outcome_bind].
    unfold free_ep, with_eps, with_lw, with_ks, on_evs. simpl. rewrite lookup_insert_eq. simpl. rewrite insert_insert_eq.
    rewrite !delete_insert_id by done. by destruct n as [[]].
  - right. split_and!; [done|apply (fresh_socket e He)|]. unfold upd_ep, alloc_ep. simpl. rewrite lookup_insert_eq.
    unfold with_eps, opened. simpl. by rewrite insert_insert_eq.
Qed.

(** A server that is ready to start or to stop: its listener holds an open socket. *)
Definition serving n (s : server_t) (n1 : net S) : Prop :=
  exists x ev fd k, n1 = opened n (listener s) x ev fd k /\ socketfd x = fd /\ 0 <= fd /\ ks n !! fd = None /\
    unused n (listener s) /\ sv_loop s <> NULL /\ e_next ev = NULL /\ e_prev ev = NULL /\ handler ev = 0.

Lemma server_create_spec bl mx e n mem loop p s0 : env_ok e -> loop <> NULL -> unused n mem ->
  exists s, listener s = mem /\ sv_loop s = loop /\
    (server_create bl mx e n mem loop p s0 = Ret (-1, s, n) \/
     exists n1, server_create bl mx e n mem loop p s0 = Ret (0, s, n1) /\ serving n s n1).
Proof.
  intros He Hl Ha. exists (mkServer mem loop p bl mx). split_and!; [done..|]. unfold server_create.
  destruct (Z.eqb_spec loop NULL) as [|_]; [done|]. pose proof Ha as (Hm & _). destruct (Z.eqb_spec mem NULL) as [|_]; [done|].
  pose proof (open_spec e n mem He Ha) as Ho. destruct (sys (alloc_ep mem n) _) as [fd n1]. destruct Ho as [[-> Ho]|(Hfd & Hf & ->)].
  - left. apply bind_inv in Ho as (n2 & -> & Ho). cbn [mbind outcome_bind]. change (-1 =? -1) with true. cbv iota. by rewrite Ho.
  - cbn [mbind outcome_bind]. destruct (Z.eqb_spec fd (-1)); [lia|]. unfold setsockopt, bind.
    destruct (opened_on_fd e n mem (mkEp fd 0 closed 0 (0, 0)) zero_ev fd (new_sock AF_INET kind) (Setsockopt fd SOL_SOCKET SO_REUSEADDR [1])
      (set_opt (SOL_SOCKET, SO_REUSEADDR) [1])) as (r1 & k1 & -> & _).
    destruct (opened_on_fd e n mem (mkEp fd 0 closed 0 (0, 0)) zero_ev fd k1 (Bind fd (INADDR_ANY, u16 p)) (set_bound (INADDR_ANY, u16 p)))
      as (r2 & k2 & -> & [-> | ->]).
    + right. eexists. split; [done|]. exists (mkEp fd 0 closed 0 (0, 0)), zero_ev, fd, k2. done.
    + left. change (-1 =? -1) with true. cbv iota. by rewrite opened_release.
Qed.

Lemma server_start_spec b e n self s n1 : serving n s n1 ->
  exists r n2, server_start b e n1 self s = Ret (r, n2) /\ serving n s n2.
Proof.
  intros (x & ev & fd & k & -> & Hx & Hfd & Hf & Ha & Hl & Hnx & Hpv & Hh). unfold server_start. pose proof Ha as (Hm & _).
  assert (forall x' ev' k', socketfd x' = fd -> e_next ev' = NULL -> e_prev ev' = NULL -> handler ev' = 0 ->
    serving n s (opened n (listener s) x' ev' fd k')) as Hserv.
  { intros x' ev' k' ????. exists x', ev', fd, k'. done. }
  destruct (Z.eqb_spec (listener s) NULL); [done|]. rewrite opened_ep. cbn [deref mbind outcome_bind].
  rewrite Hx. destruct (Z.eqb_spec fd (-1)); [lia|].
  assert (exists r k', (if b then sys (opened n (listener s) x ev fd k) (listen e (ks (opened n (listener s) x ev fd k)) fd (sv_backlog s))
    else (0, opened n (listener s) x ev fd k)) = (r, opened n (listener s) x ev fd k') /\ (r = 0 \/ r = -1)) as (r & k' & -> & Hr).
  { destruct b; [apply opened_on_fd|]. exists 0, k. by eauto. }
  destruct (Z.eqb_spec r (-1)); [by eauto|]. rewrite opened_upd_ep. cbn [mbind outcome_bind].
  unfold register_listener. rewrite opened_upd. cbn [mbind outcome_bind]. destruct (Z.eqb_spec (sv_loop s) NULL); [done|].
  unfold nv_loop_add_event. destruct ((listener s =? NULL) || _).
  - cbn [mbind outcome_bind]. eexists _, _. split; [done|]. rewrite opened_with_lw. by apply Hserv.
  - rewrite opened_upd. cbn [mbind outcome_bind]. eexists _, _. split; [done|]. rewrite opened_with_lw. by apply Hserv.
Qed.

(** Unregistering the listener's event changes nothing but that event. *)
Lemma del_event_spec n a x ev fd k : a <> NULL -> e_next ev = NULL -> e_prev ev = NULL ->
  exists r ev', nv_loop_del_event (lw (opened n a x ev fd k)) a = Ret (r, lw (opened n a x ev' fd k)) /\ e_next ev' = NULL /\ e_prev ev' = NULL.
Proof.
  intros Ha Hnx Hpv. unfold nv_loop_del_event. destruct (Z.eqb_spec a NULL); [done|]. cbn [orb].
  destruct (epoll_fd (lp (lw (opened n a x ev fd k))) =? -1); [by eauto|]. rewrite opened_upd. cbn [mbind outcome_bind]. eauto.
Qed.
Lemma unregister_spec n a x ev fd k : e_next ev = NULL -> e_prev ev = NULL -> a <> NULL ->
  exists ev', ('(_, w) ← nv_loop_del_event (lw (opened n a x ev fd k)) a; w ← nv_event_cleanup w a; Ret (with_lw w (opened n a x ev fd k))) =
    Ret (opened n a x ev' fd k).
Proof.
  intros Hnx Hpv Ha. destruct (del_event_spec n a x ev fd k Ha Hnx Hpv) as (r & ev0 & -> & H1 & H2). cbn [mbind outcome_bind].
  unfold nv_event_cleanup. destruct (Z.eqb_spec a NULL); [done|]. rewrite opened_ev. cbn [deref mbind outcome_bind].
  assert (exists ev1, (if negb (loop ev0 =? NULL) && active ev0 && (0 <=? EventLoop.fd ev0)
       then '(_, w) ← nv_loop_del_event (lw (opened n a x ev0 fd k)) a; Ret w else Ret (lw (opened n a x ev0 fd k))) = Ret (lw (opened n a x ev1 fd k)) /\
       e_next ev1 = NULL /\ e_prev ev1 = NULL) as (ev1 & -> & H3 & H4).
  { destruct (_ && _ && _); [|by eauto]. destruct (del_event_spec n a x ev0 fd k Ha H1 H2) as (r' & ev1 & -> & ? & ?). eauto. }
  cbn [mbind outcome_bind]. rewrite opened_ev. cbn [deref mbind outcome_bind]. rewrite H3, H4. unfold store_if.
  change (NULL =? NULL) with true. cbv iota. cbn [mbind outcome_bind].
  change (on_evs (evs (lw (opened n a x ev1 fd k))) (lw (opened n a x ev1 fd k))) with (lw (opened n a x ev1 fd k)).
  rewrite opened_upd. cbn [mbind outcome_bind]. rewrite opened_with_lw. by eexists.
Qed.

Lemma server_stop_spec n s n1 : serving n s n1 ->
  server_stop n1 s = Ret (0, mkServer NULL (sv_loop s) (sv_port s) (sv_backlog s) (sv_max s), n).
Proof.
  intros (x & ev & fd & k & -> & Hx & Hfd & Hf & Ha & Hl & Hnx & Hpv & Hh). unfold server_stop. pose proof Ha as (Hm & _).
  destruct (Z.eqb_spec (listener s) NULL); [done|]. destruct (Z.eqb_spec (sv_loop s) NULL); [done|]. cbn [orb].
  rewrite opened_ev. cbn [deref mbind outcome_bind].
  assert (exists ev', (if active ev then '(_, w) ← nv_loop_del_event (lw (opened n (listener s) x ev fd k)) (listener s);
      w ← nv_event_cleanup w (listener s); Ret (with_lw w (opened n (listener s) x ev fd k))
    else Ret (opened n (listener s) x ev fd k)) = Ret (opened n (listener s) x ev' fd k)) as (ev' & ->).
  { destruct (active ev); [by apply unregister_spec|by eexists]. }
  cbn [mbind outcome_bind]. rewrite opened_ep. cbn [deref mbind outcome_bind]. rewrite Hx. destruct (Z.eqb_spec fd (-1)); [lia|].
  unfold close_fd, sys, close. cbn [ks opened]. rewrite lookup_insert_eq. cbn [snd].
  unfold upd_ep. cbn [eps with_ks]. rewrite opened_ep. cbn [mbind outcome_bind]. unfold free_ep, with_eps, with_ks, opened. simpl.
  rewrite lookup_insert_eq, insert_insert_eq. simpl. destruct Ha as (_ & H1 & H2).
  unfold with_lw, on_evs. simpl. rewrite !delete_insert_id by done. by destruct n as [[]].
Qed.
(** A client with an open connection. *)
Definition connected_to n (c : client_t) (n1 : net S) : Prop :=
  exists x ev fd k, socketfd x = fd /\ 0 <= fd /\ ks n !! fd = None /\ unused n (connection c) /\
    n1 = with_strs (strs n1) (opened n (connection c) x ev fd k) /\ free_str (server_ip c) n1 = Ret (opened n (connection c) x ev fd k).

Lemma client_connect_spec b e n mem dup ip p c0 : env_ok e -> unused n mem -> strs n !! dup = None ->
  exists c, connection c = mem /\ (client_connect b e n mem dup ip p c0 = Ret (-1, c, n) \/
    exists n1, client_connect b e n mem dup ip p c0 = Ret (0, c, n1) /\ connected_to n c n1).
Proof.
  intros He Ha Hd. unfold client_connect. pose proof Ha as (Hm & _). destruct (Z.eqb_spec mem NULL) as [|_]; [done|].
  pose proof (open_spec e n mem He Ha) as Ho. destruct (sys (alloc_ep mem n) _) as [fd n1].
  set (c := mkClient mem (cl_loop c0) (server_ip c0) (server_port c0) (timeout_ms c0)).
  destruct Ho as [[-> Ho]|(Hfd & Hf & ->)].
  { exists c. split; [done|]. left. apply bind_inv in Ho as (n2 & -> & Ho). cbn [mbind outcome_bind].
    change (-1 =? -1) with true. cbv iota. by rewrite Ho. }
  cbn [mbind outcome_bind]. destruct (Z.eqb_spec fd (-1)); [lia|].
  destruct (inet_pton e AF_INET ip) as [a|]; last first.
  { exists c. split; [done|]. left. by rewrite opened_release. }
  set (o := opened _ _ _ _ _ _).
  assert (exists r k', (if b then sys o (connect e (ks o) fd (a, u16 p)) else (0, o)) =
    (r, opened n mem (mkEp fd 0 closed 0 (0, 0)) zero_ev fd k') /\ (r = 0 \/ r = -1)) as (r & k' & -> & Hr).
  { destruct b; [apply opened_on_fd|]. eexists _, _. by eauto. }
  clear o. destruct (Z.eqb_spec r (-1)).
  { exists c. split; [done|]. left. by rewrite opened_release. }
  rewrite opened_upd_ep. cbn [mbind outcome_bind]. exists (mkClient mem (cl_loop c) dup p (timeout_ms c)). split; [done|]. right.
  eexists. split; [done|].
  exists (set_st connected (if b then mkEp fd 0 closed 0 (0, 0) else set_dest (a, u16 p) (mkEp fd 0 closed 0 (0, 0)))), zero_ev, fd, k'.
  split_and!; [by destruct b|done|done|done|..|].
  - by destruct (dup =? NULL).
  - unfold free_str. simpl. destruct (Z.eqb_spec dup NULL); [done|]. simpl. rewrite lookup_insert_eq. unfold with_strs. simpl.
    rewrite delete_insert_id by done. done.
Qed.

Lemma client_disconnect_spec n c n1 : connected_to n c n1 ->
  client_disconnect n1 c = Ret (0, mkClient NULL (cl_loop c) NULL (server_port c) (timeout_ms c), n).
Proof.
  intros (x & ev & fd & k & Hx & Hfd & Hf & Ha & E1 & Hs). unfold client_disconnect. pose proof Ha as (Hm & Hep & Hev).
  destruct (Z.eqb_spec (connection c) NULL); [done|].
  assert (n1 = mkNet (lw (opened n (connection c) x ev fd k)) (eps (opened n (connection c) x ev fd k)) (strs n1) (<[fd := k]> (ks n))) as En
    by exact E1. clear E1. destruct n1 as [w1 e1 s1 k1]. simpl in En. injection En as -> -> ->.
  simpl. rewrite lookup_insert_eq. cbn [deref mbind outcome_bind]. rewrite Hx. destruct (Z.eqb_spec fd (-1)); [lia|].
  unfold close_fd, sys, close. simpl. rewrite lookup_insert_eq. simpl. unfold upd_ep, with_eps, with_ks. simpl.
  rewrite !lookup_insert_eq. cbn [mbind outcome_bind]. simpl. rewrite !lookup_insert_eq. cbn [mbind outcome_bind].
  unfold free_ep. simpl. rewrite lookup_insert_eq. cbn [mbind outcome_bind].
  unfold free_str in *. unfold with_strs, with_lw, with_eps, on_evs in *. simpl in *.
  rewrite !insert_insert_eq, !delete_insert_id by done. destruct n as [[] ? ? ?]. simpl in *.
  destruct (server_ip c =? NULL); [by injection Hs as ->|]. destruct (s1 !! server_ip c); [|done]. by injection Hs as ->.
Qed.
End life.

(** ** Properties *)

(** Whatever the kernel answers, a TCP server gives everything back: a creation that
    fails leaves memory, events and descriptors as they were, and after a creation that
    succeeds, starting the server (with success or not) and stopping it restores them too. *)
Theorem nv_tcp_server_gives_back e n mem loop p s0 self :
  env_ok e -> loop <> NULL -> unused n mem ->
  exists r s n1, Tcp.nv_tcp_server_create e n mem loop p s0 = Ret (r, s, n1) /\
    (r = -1 -> n1 = n) /\
    (r <> -1 -> (exists s', Tcp.nv_tcp_server_stop n1 s = Ret (0, s', n) /\ listener s' = NULL) /\
      exists r2 n2, Tcp.nv_tcp_server_start e n1 self s = Ret (r2, n2) /\
        exists s', Tcp.nv_tcp_server_stop n2 s = Ret (0, s', n) /\ listener s' = NULL).
Proof.
  intros He Hl Ha. unfold Tcp.nv_tcp_server_create, Tcp.nv_tcp_server_stop, Tcp.nv_tcp_server_start.
  destruct (server_create_spec Tcp.SOMAXCONN 1000 e n mem loop p s0 He Hl Ha) as (s & _ & _ & [->|(n1 & -> & Hs)]).
  - exists (-1), s, n. by split_and!.
  - exists 0, s, n1. split_and!; [done|done|]. intros _. split.
    + rewrite (server_stop_spec n s n1 Hs). eauto.
    + destruct (server_start_spec true e n self s n1 Hs) as (r2 & n2 & -> & Hs2).
      eexists _, _. split; [done|]. rewrite (server_stop_spec n s n2 Hs2). eauto.
Qed.
Definition no_loop : nv_loop_t := snd (nv_loop_init None 5 true true).
Definition empty_net {S} : net S := mkNet (mkWorld ∅ no_loop 0) ∅ ∅ ∅.
Lemma nv_tcp_server_gives_back_witness :
  exists r s n1, Tcp.nv_tcp_server_create generous empty_net 64 1 80 (mkServer 0 0 0 0 0) = Ret (r, s, n1) /\
    (r = -1 -> n1 = empty_net) /\
    (r <> -1 -> (exists s', Tcp.nv_tcp_server_stop n1 s = Ret (0, s', empty_net) /\ listener s' = NULL) /\
      exists r2 n2, Tcp.nv_tcp_server_start generous n1 32 s = Ret (r2, n2) /\
        exists s', Tcp.nv_tcp_server_stop n2 s = Ret (0, s', empty_net) /\ listener s' = NULL).
Proof.
  apply (nv_tcp_server_gives_back generous empty_net 64 1 80 (mkServer 0 0 0 0 0) 32); [apply generous_ok|done|].
  split_and!; [done|reflexivity|reflexivity].
Defined.

(** A TCP client gives everything back: a connect that fails leaves memory, strings and
    descriptors as they were, and disconnecting after one that succeeds restores them. *)
Theorem nv_tcp_client_gives_back e n mem dup ip p c0 :
  env_ok e -> unused n mem -> strs n !! dup = None ->
  exists r c n1, Tcp.nv_tcp_client_connect e n mem dup ip p c0 = Ret (r, c, n1) /\
    (r = -1 -> n1 = n) /\
    (r <> -1 -> exists c', Tcp.nv_tcp_client_disconnect n1 c = Ret (0, c', n) /\ connection c' = NULL /\ server_ip c' = NULL).
Proof.
  intros He Ha Hd. unfold Tcp.nv_tcp_client_connect, Tcp.nv_tcp_client_disconnect.
  destruct (client_connect_spec true e n mem dup ip p c0 He Ha Hd) as (c & _ & [->|(n1 & -> & Hc)]).
  - exists (-1), c, n. by split_and!.
  - exists 0, c, n1. split_and!; [done|done|]. intros _. rewrite (client_disconnect_spec n c n1 Hc). eauto.
Qed.
Lemma nv_tcp_client_gives_back_witness :
  exists r c n1, Tcp.nv_tcp_client_connect generous empty_net 64 96 (str "::") 80 (mkClient 0 1 0 0 0) = Ret (r, c, n1) /\
    (r = -1 -> n1 = empty_net) /\
    (r <> -1 -> exists c', Tcp.nv_tcp_client_disconnect n1 c = Ret (0, c', empty_net) /\ connection c' = NULL /\ server_ip c' = NULL).
Proof.
  apply (nv_tcp_client_gives_back generous empty_net 64 96 (str "::") 80 (mkClient 0 1 0 0 0)); [apply generous_ok| |done].
  split_and!; [done|reflexivity|reflexivity].
Defined.

(** After a creation or a connect that failed once its memory was allocated, the server
    and the client keep a pointer to the freed endpoint: destroying the one and
    disconnecting the other uses memory that was freed. *)
Theorem nv_tcp_failure_dangles e n mem loop dup ip p s0 c0 :
  env_ok e -> loop <> NULL -> unused n mem -> strs n !! dup = None ->
  (forall s n1, Tcp.nv_tcp_server_create e n mem loop p s0 = Ret (-1, s, n1) -> Tcp.nv_tcp_server_destroy n1 s = UB) /\
  (forall c n1, Tcp.nv_tcp_client_connect e n mem dup ip p c0 = Ret (-1, c, n1) -> Tcp.nv_tcp_client_disconnect n1 c = UB).
Proof.
  intros He Hl Ha Hd. pose proof Ha as (Hm & Hep & Hev). split.
  - intros s n1. unfold Tcp.nv_tcp_server_create, Tcp.nv_tcp_server_destroy, server_destroy, server_stop.
    destruct (server_create_spec Tcp.SOMAXCONN 1000 e n mem loop p s0 He Hl Ha) as (s' & Hs & Hlp & [->|(n2 & -> & _)]); [|done].
    intros [= <- <-]. rewrite Hs, Hlp. destruct (Z.eqb_spec mem NULL); [done|]. destruct (Z.eqb_spec loop NULL); [done|]. simpl. by rewrite Hev.
  - intros c n1. unfold Tcp.nv_tcp_client_connect, Tcp.nv_tcp_client_disconnect, client_disconnect.
    destruct (client_connect_spec true e n mem dup ip p c0 He Ha Hd) as (c' & Hc & [->|(n2 & -> & _)]); [|done].
    intros [= <- <-]. rewrite Hc. destruct (Z.eqb_spec mem NULL); [done|]. by rewrite Hep.
Qed.
(** A kernel that refuses every call but [socket]. *)
Definition refusing : env :=
  mkEnv (fun k c => match c with Socket _ _ | Accept _ => answer generous k c | _ => -1 end) (fun _ _ => None) (fun _ _ => None) (fun _ => 0) 0.
Lemma refusing_ok : env_ok refusing.
Proof. split; intros; simpl; [apply next_key_fresh..|lia]. Qed.
Lemma nv_tcp_failure_dangles_witness :
  (exists s n1, Tcp.nv_tcp_server_create refusing empty_net 64 1 80 (mkServer 0 0 0 0 0) = Ret (-1, s, n1) /\ Tcp.nv_tcp_server_destroy n1 s = UB) /\
  (exists c n1, Tcp.nv_tcp_client_connect refusing empty_net 64 96 (str "x") 80 (mkClient 0 1 0 0 0) = Ret (-1, c, n1) /\
     Tcp.nv_tcp_client_disconnect n1 c = UB).
Proof.
  destruct (nv_tcp_failure_dangles refusing empty_net 64 1 96 (str "x") 80 (mkServer 0 0 0 0 0) (mkClient 0 1 0 0 0)) as [H1 H2];
    [apply refusing_ok|done|by split_and!|done|].
  split; eexists _, _; (split; [|first [apply H1|apply H2]]); vm_compute; reflexivity.
Defined.

(** Starting a server registers its listener with the loop but gives the event no
    handler, so the loop does nothing when a connection arrives: none is ever accepted. *)
Theorem nv_tcp_server_never_accepts call e n self s n1 rev :
  serving n s n1 -> exists r n2, Tcp.nv_tcp_server_start e n1 self s = Ret (r, n2) /\
    nv_event_trigger call (lw n2) (listener s) rev = Ret (lw n2).
Proof.
  intros Hs. unfold Tcp.nv_tcp_server_start. destruct (server_start_spec true e n self s n1 Hs) as (r & n2 & -> & Hs2).
  eexists _, _. split; [done|]. destruct Hs2 as (x & ev & fd & k & -> & _ & _ & _ & (Hm & _) & _ & _ & _ & Hh).
  unfold nv_event_trigger. destruct (Z.eqb_spec (listener s) NULL); [done|]. rewrite opened_ev. cbn [deref mbind outcome_bind]. by rewrite Hh.
Qed.
Lemma nv_tcp_server_never_accepts_witness :
  let s := mkServer 64 1 80 5 1000 in
  let n1 := opened empty_net 64 (mkEp 3 0 NV_TCP_CLOSED 0 (0, 0)) zero_ev 3 (new_sock AF_INET SOCK_STREAM) in
  exists r n2, Tcp.nv_tcp_server_start generous n1 32 s = Ret (r, n2) /\
    nv_event_trigger (fun _ _ _ _ => UB) (lw n2) 64 NV_EVENT_READ = Ret (lw n2).
Proof.
  apply (nv_tcp_server_never_accepts (fun _ _ _ _ => UB) generous empty_net 32 (mkServer 64 1 80 5 1000)).
  eexists _, _, 3, _. split; [reflexivity|]. by split_and!.
Defined.

(** A bind that fails closes the socket and leaves its number in the endpoint; closing
    the endpoint then closes whatever the number stands for by then. *)
Theorem nv_tcp_bind_failure_closes_twice e n a x k p other :
  eps n !! a = Some x -> a <> NULL -> ks n !! socketfd x = Some k -> socketfd x <> -1 -> answer e (ks n) (Bind (socketfd x) (INADDR_ANY, u16 p)) < 0 ->
  exists n1, Tcp.nv_tcp_bind e n a p = Ret (-1, n1) /\ ks n1 !! socketfd x = None /\
    exists n2, Tcp.nv_tcp_close (with_ks (<[socketfd x := other]> (ks n1)) n1) a = Ret (0, n2) /\ ks n2 !! socketfd x = None.
Proof.
  intros Ex Ha Ek Hfd Hb. unfold Tcp.nv_tcp_bind, ep_bind. rewrite Ex. cbn [deref mbind outcome_bind].
  unfold nv_socket_bind, bind, on_fd, sys. rewrite Ek. destruct (Z.ltb_spec (answer e (ks n) (Bind (socketfd x) (INADDR_ANY, u16 p))) 0); [|lia].
  simpl. unfold nv_socket_close, close. simpl. rewrite Ek. simpl. eexists. split; [done|]. simpl. rewrite lookup_delete_eq. split; [done|].
  unfold Tcp.nv_tcp_close, ep_close, close_fd, sys, close. destruct (Z.eqb_spec a NULL); [done|]. simpl. rewrite Ex. cbn [deref mbind outcome_bind].
  destruct (Z.eqb_spec (socketfd x) (-1)); [done|]. rewrite lookup_insert_eq. simpl. unfold upd_ep. simpl. rewrite Ex. cbn [mbind outcome_bind].
  simpl. rewrite lookup_insert_eq. cbn [mbind outcome_bind]. eexists. split; [done|]. simpl. apply lookup_delete_eq.
Qed.
Lemma nv_tcp_bind_failure_closes_twice_witness :
  let x := mkEp 3 0 NV_TCP_CLOSED 0 (0, 0) in
  let n := mkNet (mkWorld ∅ no_loop 0) {[64 := x]} ∅ {[3 := new_sock AF_INET SOCK_STREAM]} in
  exists n1, Tcp.nv_tcp_bind refusing n 64 80 = Ret (-1, n1) /\ ks n1 !! 3 = None /\
    exists n2, Tcp.nv_tcp_close (with_ks (<[3 := new_sock AF_INET SOCK_DGRAM]> (ks n1)) n1) 64 = Ret (0, n2) /\ ks n2 !! 3 = None.
Proof.
  intros x n. apply (nv_tcp_bind_failure_closes_twice refusing n 64 x (new_sock AF_INET SOCK_STREAM) 80 (new_sock AF_INET SOCK_DGRAM));
    [done|done|done|done|]. vm_compute. reflexivity.
Defined.

End Endpoint.
