(* ===== verification/NetBuf.v ===== *)
(** * Byte buffers and connection pools (event/nv_tcp.c, event/nv_udp.c)

    A buffer that grows and the pool that keeps returned connections; both files have the
    same text.  A byte of memory that was never written is [None].  Theorems: a buffer is a
    queue of bytes, a write that gets no memory changes nothing, and a pool keeps exactly
    the connections returned to it, up to its capacity. *)
From S2P Require Import Prelude.

Module NetBuf.

(** ** Buffers *)

Record buffer_t := mkBuf { bytes : list (option Z); size : Z; capacity : Z }.

(** [got]: whether [malloc] gives memory. *)
Definition buffer_create (got : bool) (initial_size : Z) (b : buffer_t) : Z * buffer_t :=
  if got then (0, mkBuf (replicate (Z.to_nat initial_size) None) 0 initial_size)
  else (-1, b).

(** [realloc] keeps the first bytes. *)
Definition realloc (m : list (option Z)) (n : Z) : list (option Z) :=
  take (Z.to_nat n) (m ++ replicate (Z.to_nat n - length m) None).
(** [memcpy(m + at, d, length d)] *)
Definition memcpy_at (m : list (option Z)) (at_ : nat) (d : list (option Z)) : outcome (list (option Z)) :=
  if (at_ + length d <=? length m)%nat then Ret (take at_ m ++ d ++ drop (at_ + length d) m) else UB.

Definition buffer_write (got : bool) (b : buffer_t) (data : list Z) : outcome (Z * buffer_t) :=
  let len := Z.of_nat (length data) in
  let grow := capacity b <? u64 (size b + len) in
  let twice := u64 (capacity b * 2) in
  let new_capacity := if twice <? u64 (size b + len) then u64 (size b + len) else twice in
  if grow && negb got then Ret (-1, b) else
  let b := if grow then mkBuf (realloc (bytes b) new_capacity) (size b) new_capacity else b in
  m ← memcpy_at (bytes b) (Z.to_nat (size b)) (Some <$> data);
  Ret (0, mkBuf m (u64 (size b + len)) (capacity b)).

(** The bytes given to the caller and the number returned, narrowed to an [int]. *)
Definition buffer_read (b : buffer_t) (len : Z) : outcome (Z * list (option Z) * buffer_t) :=
  let len := if size b <? len then size b else len in
  if 0 <? len then
    if (Z.to_nat (size b) <=? length (bytes b))%nat then
      let out := take (Z.to_nat len) (bytes b) in
      m ← (if len <? size b
           then memcpy_at (bytes b) 0 (take (Z.to_nat (size b - len)) (drop (Z.to_nat len) (bytes b)))
           else Ret (bytes b));
      Ret (i32 len, out, mkBuf m (size b - len) (capacity b))
    else UB
  else Ret (i32 len, [], b).

Definition nv_tcp_buffer_create := buffer_create.
Definition nv_tcp_buffer_write := buffer_write.
Definition nv_tcp_buffer_read := buffer_read.
Definition nv_udp_buffer_create := buffer_create.
Definition nv_udp_buffer_write := buffer_write.
Definition nv_udp_buffer_read := buffer_read.

(** ** Connection pools *)

Record pool_t := mkPool { connections : option (list (option Z)); max_connections : Z; current_connections : Z; free_connections : Z }.

(** [got] and [mutex]: whether [malloc] and [pthread_mutex_init] succeed. *)
Definition pool_create (got mutex : bool) (max_conns : Z) (p : pool_t) : Z * pool_t :=
  if got then (if mutex then 0 else -1, mkPool (Some (replicate (Z.to_nat max_conns) None)) max_conns 0 max_conns)
  else (-1, mkPool None (max_connections p) (current_connections p) (free_connections p)).
Definition pool_destroy (p : pool_t) : pool_t := mkPool None 0 0 0.
Definition pool_return_connection (p : pool_t) (conn : Z) : outcome (Z * pool_t) :=
  if conn =? 0 then Ret (-1, p) else
  if 0 <? free_connections p then
    l ← deref (connections p);
    let i := Z.to_nat (free_connections p - 1) in
    if (i <? length l)%nat then
      Ret (0, mkPool (Some (<[i := Some conn]> l)) (max_connections p) (current_connections p + 1) (free_connections p - 1))
    else UB
  else Ret (-1, p).

Definition nv_tcp_pool_create := pool_create.
Definition nv_tcp_pool_destroy := pool_destroy.
Definition nv_tcp_pool_return_connection := pool_return_connection.
Definition nv_udp_pool_create := pool_create.
Definition nv_udp_pool_destroy := pool_destroy.
Definition nv_udp_pool_return_connection := pool_return_connection.

(** ** Buffers are queues *)

(** The buffer holds the bytes [q]. *)
Definition buf_rep (b : buffer_t) (q : list Z) : Prop :=
  Z.of_nat (length (bytes b)) = capacity b /\ capacity b < 2 ^ 64 /\ size b = Z.of_nat (length q) /\
  take (length q) (bytes b) = Some <$> q.

Lemma buf_rep_le b q : buf_rep b q -> (length q <= length (bytes b))%nat.
Proof. intros (_ & _ & _ & E). assert (length (take (length q) (bytes b)) = length q) as H by (by rewrite E, length_fmap). rewrite length_take in H. lia. Qed.

Lemma realloc_spec m n q : take (length q) m = Some <$> q -> (length q <= length m)%nat -> Z.of_nat (length m) <= n ->
  Z.of_nat (length (realloc m n)) = n /\ take (length q) (realloc m n) = Some <$> q.
Proof.
  intros Hq Hl Hn. unfold realloc. rewrite length_take, length_app, length_replicate. split; [lia|].
  rewrite take_take, take_app_le by lia. rewrite Nat.min_l by lia. done.
Qed.

Lemma memcpy_end m q (d : list Z) : take (length q) m = Some <$> q -> (length q + length d <= length m)%nat ->
  exists m', memcpy_at m (length q) (Some <$> d) = Ret m' /\ length m' = length m /\ take (length (q ++ d)) m' = Some <$> (q ++ d).
Proof.
  intros Hq Hl. unfold memcpy_at. rewrite length_fmap. destruct (Nat.leb_spec (length q + length d) (length m)); [|lia].
  eexists. split; [done|]. split.
  - rewrite !length_app, length_take, length_drop, length_fmap. lia.
  - rewrite Hq, length_app, fmap_app, app_assoc. rewrite take_app_le by (rewrite length_app, !length_fmap; lia).
    apply take_ge. rewrite length_app, !length_fmap. lia.
Qed.

(** A write: the bytes are appended; without memory to grow nothing changes. *)
Lemma write_spec got b q data : buf_rep b q -> Z.of_nat (length q + length data) < 2 ^ 64 ->
  exists r b', buffer_write got b data = Ret (r, b') /\
    (r = 0 /\ buf_rep b' (q ++ data) \/ r = -1 /\ b' = b /\ got = false).
Proof.
  intros Hb Hlen. pose proof Hb as (Hm & Hc & Hs & Hq). pose proof (buf_rep_le b q Hb) as Hle. unfold buffer_write. rewrite Hs.
  assert (u64 (Z.of_nat (length q) + Z.of_nat (length data)) = Z.of_nat (length q + length data)) as ->
    by (rewrite wrap_small; unfold in_range; lia).
  assert (0 <= u64 (capacity b * 2) < 2 ^ 64) as Htw by (apply wrap_range; lia). set (twice := u64 (capacity b * 2)) in *. clearbody twice.
  assert (forall m c, take (length q) m = Some <$> q -> Z.of_nat (length m) = c -> c < 2 ^ 64 -> (length q + length data <= length m)%nat ->
    exists r b', (m ← memcpy_at m (Z.to_nat (Z.of_nat (length q))) (Some <$> data);
      Ret (0, mkBuf m (Z.of_nat (length q + length data)) c)) = Ret (r, b') /\ (r = 0 /\ buf_rep b' (q ++ data) \/ r = -1 /\ b' = b /\ got = false)) as Hput.
  { intros m c H1 H2 H3 H4. rewrite Nat2Z.id. destruct (memcpy_end m q data H1 H4) as (m' & -> & Hl' & Hq'). cbn [mbind outcome_bind].
    eexists _, _. split; [done|]. left. split; [done|]. split_and!; simpl; [lia|done|by rewrite length_app|done]. }
  destruct (Z.ltb_spec (capacity b) (Z.of_nat (length q + length data))) as [Hg|Hg]; cbn [andb].
  - destruct got; cbn [negb]; [|by eauto 10].
    set (nc := if twice <? _ then _ else _).
    assert (Z.of_nat (length q + length data) <= nc < 2 ^ 64) as Hnc by (unfold nc; destruct (Z.ltb_spec twice (Z.of_nat (length q + length data))); lia).
    clearbody nc. destruct (realloc_spec (bytes b) nc q Hq Hle) as [H1 H2]; [lia|]. cbn [size capacity bytes]. rewrite ?Hs.
    rewrite (wrap_small 64 (_ + _)) by (unfold in_range; lia). rewrite <- Nat2Z.inj_add. apply Hput; [done|done|lia|lia].
  - rewrite ?Hs. rewrite (wrap_small 64 (_ + _)) by (unfold in_range; lia). rewrite <- Nat2Z.inj_add. apply Hput; [done|done|lia|lia].
Qed.

(** A read: the oldest bytes, as many as are there. *)
Lemma read_spec b q len : buf_rep b q -> 0 <= len ->
  exists b', buffer_read b len = Ret (i32 (Z.min len (Z.of_nat (length q))), Some <$> take (Z.to_nat len) q, b') /\
    buf_rep b' (drop (Z.to_nat len) q).
Proof.
  intros Hb Hlen. pose proof Hb as (Hm & Hc & Hs & Hq). pose proof (buf_rep_le b q Hb) as Hle. unfold buffer_read. rewrite Hs.
  assert ((if Z.of_nat (length q) <? len then Z.of_nat (length q) else len) = Z.min len (Z.of_nat (length q))) as ->
    by (destruct (Z.ltb_spec (Z.of_nat (length q)) len); lia).
  set (k := Z.min len (Z.of_nat (length q))). assert (0 <= k <= Z.of_nat (length q)) as Hk by lia.
  assert (take (Z.to_nat len) q = take (Z.to_nat k) q /\ drop (Z.to_nat len) q = drop (Z.to_nat k) q) as [-> ->].
  { unfold k. destruct (Z.le_ge_cases len (Z.of_nat (length q))); [by rewrite Z.min_l|].
    rewrite Z.min_r, Nat2Z.id, !firstn_all, !skipn_all, take_ge, drop_ge by lia. done. }
  clearbody k. destruct (Z.ltb_spec 0 k) as [H0|H0]; last first.
  { assert (k = 0) as -> by lia. exists b. rewrite !drop_0. split; [done|done]. }
  rewrite Nat2Z.id. destruct (Nat.leb_spec (length q) (length (bytes b))); [|lia].
  assert (take (Z.to_nat k) (bytes b) = Some <$> take (Z.to_nat k) q) as ->.
  { rewrite fmap_take, <- Hq, take_take, Nat.min_l by lia. done. }
  destruct (Z.ltb_spec k (Z.of_nat (length q))) as [Hk1|Hk1].
  - assert (take (Z.to_nat (Z.of_nat (length q) - k)) (drop (Z.to_nat k) (bytes b)) = Some <$> drop (Z.to_nat k) q) as ->.
    { rewrite fmap_drop, <- Hq, skipn_firstn_comm. f_equal; lia. }
    destruct (memcpy_end (bytes b) [] (drop (Z.to_nat k) q)) as (m' & E & Hl' & Hq'); [done|rewrite length_drop; simpl; lia|].
    simpl in E. rewrite E. cbn [mbind outcome_bind]. eexists. split; [done|]. split_and!; simpl; [lia|done|rewrite length_drop; lia|done].
  - assert (k = Z.of_nat (length q)) as -> by lia. cbn [mbind outcome_bind]. eexists. split; [done|].
    rewrite Nat2Z.id, skipn_all. split_and!; simpl; [done|done|lia|by rewrite take_0].
Qed.

(** Calls on one buffer, with what each gives: the abstract queue and the code. *)
Inductive buf_op := Write (got : bool) (data : list Z) | Read (len : Z).
Definition reply := (Z * list (option Z))%type.
Fixpoint run_buffer (b : buffer_t) (ops : list buf_op) : outcome (list reply) :=
  match ops with
  | [] => Ret []
  | Write got data :: ops' => '(r, b) ← nv_tcp_buffer_write got b data; rs ← run_buffer b ops'; Ret ((r, []) :: rs)
  | Read len :: ops' => '(r, out, b) ← nv_tcp_buffer_read b len; rs ← run_buffer b ops'; Ret ((r, out) :: rs)
  end.
(** The specification: a write appends or, when memory may be short, is refused. *)
Inductive run_queue : list Z -> list buf_op -> list reply -> Prop :=
  | q_nil q : run_queue q [] []
  | q_write q got data ops rs : run_queue (q ++ data) ops rs -> run_queue q (Write got data :: ops) ((0, []) :: rs)
  | q_refused q data ops rs : run_queue q ops rs -> run_queue q (Write false data :: ops) ((-1, []) :: rs)
  | q_read q len ops rs : run_queue (drop (Z.to_nat len) q) ops rs ->
      run_queue q (Read len :: ops) ((Z.min len (Z.of_nat (length q)), Some <$> take (Z.to_nat len) q) :: rs).

(** The bytes the calls may put into the buffer. *)
Fixpoint written (ops : list buf_op) : nat :=
  match ops with [] => 0 | Write _ d :: ops' => length d + written ops' | Read _ :: ops' => written ops' end.
Definition op_ok (o : buf_op) : Prop := match o with Read len => 0 <= len | Write _ _ => True end.

(** C27: a buffer is a queue of bytes: each read gives the oldest bytes that were written and
    not yet read, as many as are there, never a byte that was not written; each write is
    appended whole, or refused (only when memory ran out) without a trace.  The counts
    returned are exact while fewer than 2^31 bytes are written. *)
Theorem nv_tcp_buffer_refines_queue b q ops :
  buf_rep b q -> Forall op_ok ops -> Z.of_nat (length q + written ops) < 2 ^ 31 ->
  exists rs, run_buffer b ops = Ret rs /\ run_queue q ops rs.
Proof.
  assert (2 ^ 31 < 2 ^ 64) as H31 by reflexivity.
  revert b q. induction ops as [|[got d|len] ops IH]; intros b q Hb Hok Hn; cbn [run_buffer written] in *.
  - exists []. split; [done|constructor].
  - apply Forall_cons in Hok as [_ Hok].
    destruct (write_spec got b q d Hb) as (r & b' & E & [[-> Hb']|(-> & -> & ->)]); [lia|..]; unfold nv_tcp_buffer_write; rewrite E; cbn [mbind outcome_bind].
    + destruct (IH b' (q ++ d) Hb' Hok) as (rs & -> & Hr); [rewrite length_app; lia|]. eexists. split; [done|by constructor].
    + destruct (IH b q Hb Hok) as (rs & -> & Hr); [lia|]. eexists. split; [done|by constructor].
  - apply Forall_cons in Hok as [Hlen Hok]. simpl in Hlen. destruct (read_spec b q len Hb Hlen) as (b' & E & Hb'). unfold nv_tcp_buffer_read.
    rewrite E. cbn [mbind outcome_bind]. destruct (IH b' _ Hb' Hok) as (rs & -> & Hr); [rewrite length_drop; lia|].
    eexists. split; [done|]. rewrite swrap_small by (change (32 - 1) with 31; lia). by constructor.
Qed.
Lemma buffer_create_rep n b : 0 <= n < 2 ^ 64 -> buf_rep (snd (nv_tcp_buffer_create true n b)) [].
Proof. intros. split_and!; simpl; [rewrite length_replicate; lia|lia|done|by rewrite take_0]. Qed.
Lemma nv_tcp_buffer_refines_queue_witness :
  let b := snd (nv_tcp_buffer_create true 2 (mkBuf [] 0 0)) in
  exists rs, run_buffer b [Write true [1; 2; 3]; Read 2; Write false [4]; Read 9] = Ret rs /\
    run_queue [] [Write true [1; 2; 3]; Read 2; Write false [4]; Read 9] rs.
Proof.
  apply (nv_tcp_buffer_refines_queue _ []); [by apply buffer_create_rep|by repeat constructor|reflexivity].
Defined.

(** ** Pools *)

(** The pool keeps the connections [cs], the latest first, from the end of its array. *)
Definition pool_rep (p : pool_t) (cs : list Z) : Prop :=
  exists l, connections p = Some l /\ Z.of_nat (length l) = max_connections p /\ current_connections p = Z.of_nat (length cs) /\
    free_connections p = max_connections p - Z.of_nat (length cs) /\ 0 <= free_connections p /\
    drop (Z.to_nat (free_connections p)) l = Some <$> cs.

(** A pool keeps exactly the connections returned to it, in its array from the end, and
    refuses one only when it is NULL or the pool holds as many as it was created for. *)
Theorem nv_tcp_pool_keeps p cs conn : pool_rep p cs ->
  exists r p', nv_tcp_pool_return_connection p conn = Ret (r, p') /\
    (r = 0 /\ conn <> 0 /\ pool_rep p' (conn :: cs) \/ r = -1 /\ p' = p /\ (conn = 0 \/ current_connections p = max_connections p)).
Proof.
  intros Hp. pose proof Hp as (l & El & Hl & Hc & Hf & Hf0 & Hd). unfold nv_tcp_pool_return_connection, pool_return_connection.
  destruct (Z.eqb_spec conn 0); [by eauto 10|]. destruct (Z.ltb_spec 0 (free_connections p)) as [H0|H0]; last first.
  { eexists _, _. split; [done|]. right. split_and!; [done..|right; lia]. }
  rewrite El. cbn [deref mbind outcome_bind]. destruct (Nat.ltb_spec (Z.to_nat (free_connections p - 1)) (length l)); [|lia].
  eexists _, _. split; [done|]. left. split_and!; [done|done|]. eexists. split; [done|]. cbn [max_connections current_connections free_connections length]. rewrite length_insert.
  split_and!; [done|lia|lia|lia|]. rewrite fmap_cons, <- Hd.
  rewrite (drop_S _ (Some conn)) by (apply list_lookup_insert_eq; lia).
  f_equal. rewrite drop_insert_lt by lia. f_equal. lia.
Qed.
Lemma nv_tcp_pool_keeps_witness :
  let p := snd (nv_tcp_pool_create true true 2 (mkPool None 0 0 0)) in
  exists r p', nv_tcp_pool_return_connection p 64 = Ret (r, p') /\
    (r = 0 /\ 64 <> 0 /\ pool_rep p' [64] \/ r = -1 /\ p' = p /\ (64 = 0 \/ current_connections p = max_connections p)).
Proof. apply (nv_tcp_pool_keeps _ []). exists [None; None]. by split_and!. Defined.

End NetBuf.
