(* ===== verification/Poller.v ===== *)
(** * Sets of descriptors to wait for (base/net/nv_socket_select.c, nv_socket_poll.c,
      nv_socket_epoll.c)

    Three wrappers with one interface: add and remove a descriptor, wait, destroy.  The system
    calls [select] and [poll] are arguments; the interest list of an epoll instance is a map.
    Theorems: what each set watches after any calls.  The array of [Poll] is a list with first
    removal; an epoll instance is a map of descriptors whose creation leaves nothing behind;
    [Select] keeps its bound, and forgets what one wait did not report. *)
From S2P Require Import Prelude.

Module Select.

Definition NV_SELECT_MAX_FD : Z := 1024.

Record nv_select_t := mkSelect { read_fds : gset Z; write_fds : gset Z; except_fds : gset Z; max_fd : Z; timeout : Z * Z }.

(** [FD_SET] and [FD_CLR] write into an array of 1024 bits. *)
Definition fd_bit (fd : Z) : outcome unit := if (0 <=? fd) && (fd <? NV_SELECT_MAX_FD) then Ret tt else UB.
Definition FD_SET (fd : Z) (s : gset Z) : outcome (gset Z) := _ ← fd_bit fd; Ret ({[fd]} ∪ s).
Definition FD_CLR (fd : Z) (s : gset Z) : outcome (gset Z) := _ ← fd_bit fd; Ret (s ∖ {[fd]}).

Definition nv_select_init (mem : bool) : option nv_select_t := if mem then Some (mkSelect ∅ ∅ ∅ (-1) (0, 0)) else None.

Definition nv_select_add_fd (select_obj : option nv_select_t) (fd read write except : Z) : outcome (Z * option nv_select_t) :=
  match select_obj with
  | None => Ret (-1, None)
  | Some o =>
      if NV_SELECT_MAX_FD <=? fd then Ret (-1, Some o) else
      r ← (if negb (read =? 0) then FD_SET fd (read_fds o) else Ret (read_fds o));
      w ← (if negb (write =? 0) then FD_SET fd (write_fds o) else Ret (write_fds o));
      e ← (if negb (except =? 0) then FD_SET fd (except_fds o) else Ret (except_fds o));
      Ret (0, Some (mkSelect r w e (if max_fd o <? fd then fd else max_fd o) (timeout o)))
  end.

(** The loop from [i] down to 0 for the next lower descriptor; [m] when there is none. *)
Fixpoint lower_max (i : nat) (all : gset Z) (m : Z) : Z :=
  match i with
  | O => m
  | S i => if bool_decide (Z.of_nat i ∈ all) then Z.of_nat i else lower_max i all m
  end.
Definition nv_select_remove_fd (select_obj : option nv_select_t) (fd : Z) : outcome (Z * option nv_select_t) :=
  match select_obj with
  | None => Ret (-1, None)
  | Some o =>
      r ← FD_CLR fd (read_fds o);
      w ← FD_CLR fd (write_fds o);
      e ← FD_CLR fd (except_fds o);
      Ret (0, Some (mkSelect r w e (if fd =? max_fd o then lower_max (Z.to_nat fd) (r ∪ w ∪ e) (max_fd o) else max_fd o) (timeout o)))
  end.
Definition nv_select_set_timeout (select_obj : option nv_select_t) (sec usec : Z) : Z * option nv_select_t :=
  match select_obj with
  | None => (-1, None)
  | Some o => (0, Some (mkSelect (read_fds o) (write_fds o) (except_fds o) (max_fd o) (sec, usec)))
  end.

(** [select] of the sets below a bound: the result, the sets and the timeout it leaves. *)
Record sel_result := mkSel { retval : Z; sel_r : gset Z; sel_w : gset Z; sel_e : gset Z; sel_t : Z * Z }.
Definition nv_select_wait (select : Z -> gset Z -> gset Z -> gset Z -> Z * Z -> sel_result) (select_obj : option nv_select_t) : Z * option nv_select_t :=
  match select_obj with
  | None => (-1, None)
  | Some o =>
      let s := select (max_fd o + 1) (read_fds o) (write_fds o) (except_fds o) (timeout o) in
      if retval s =? -1 then (-1, Some (mkSelect (read_fds o) (write_fds o) (except_fds o) (max_fd o) (sel_t s)))
      else (retval s, Some (mkSelect (sel_r s) (sel_w s) (sel_e s) (max_fd o) (sel_t s)))
  end.

(** The memory is freed. *)
Definition nv_select_destroy (select_obj : option nv_select_t) : option nv_select_t := None.

(** ** Properties *)

(** Everything in the sets is below the bound given to [select]. *)
Definition watched (o : nv_select_t) : gset Z := read_fds o ∪ write_fds o ∪ except_fds o.
Definition ok (o : nv_select_t) : Prop := -1 <= max_fd o < NV_SELECT_MAX_FD /\ forall fd, fd ∈ watched o -> 0 <= fd <= max_fd o.

(** What [select] documents: it clears bits and sets none. *)
Definition select_clears (select : Z -> gset Z -> gset Z -> gset Z -> Z * Z -> sel_result) : Prop :=
  forall n r w e t, let s := select n r w e t in sel_r s ⊆ r /\ sel_w s ⊆ w /\ sel_e s ⊆ e.

Lemma lower_max_spec i all m : (forall x, x ∈ all -> 0 <= x < Z.of_nat i) ->
  (forall x, x ∈ all -> x <= lower_max i all m) /\ (lower_max i all m = m \/ 0 <= lower_max i all m < Z.of_nat i).
Proof.
  induction i as [|i IH]; intros Hall; cbn [lower_max].
  - split; [|by left]. intros x Hx. specialize (Hall x Hx). lia.
  - destruct (bool_decide_reflect (Z.of_nat i ∈ all)) as [Hi|Hi].
    + split; [|right; lia]. intros x Hx. specialize (Hall x Hx). lia.
    + destruct IH as [H1 H2].
      * intros x Hx. specialize (Hall x Hx). assert (x <> Z.of_nat i) by congruence. lia.
      * split; [done|]. destruct H2; [by left|right; lia].
Qed.

(** The calls on a set of descriptors in range. *)
Inductive step select : nv_select_t -> nv_select_t -> Prop :=
  | step_add o o' fd r w e : 0 <= fd -> nv_select_add_fd (Some o) fd r w e = Ret (0, Some o') -> step select o o'
  | step_remove o o' fd : nv_select_remove_fd (Some o) fd = Ret (0, Some o') -> step select o o'
  | step_timeout o o' s u : nv_select_set_timeout (Some o) s u = (0, Some o') -> step select o o'
  | step_wait o o' n : nv_select_wait select (Some o) = (n, Some o') -> step select o o'.

Lemma FD_CLR_range fd s s' : FD_CLR fd s = Ret s' -> 0 <= fd < NV_SELECT_MAX_FD /\ s' = s ∖ {[fd]}.
Proof. unfold FD_CLR, fd_bit. destruct ((0 <=? fd) && (fd <? NV_SELECT_MAX_FD)) eqn:E; cbn; [|done]. intros [= <-]. split; [lia|done]. Qed.
Lemma add_flag fd b s s' : (if negb (b =? 0) then FD_SET fd s else Ret s) = Ret s' -> s' ⊆ {[fd]} ∪ s.
Proof. unfold FD_SET. case_match; [|intros [= <-]; set_solver]. destruct (fd_bit fd); cbn; [|done..]. intros [= <-]. set_solver. Qed.

Lemma select_step_ok select o o' : select_clears select -> ok o -> step select o o' -> ok o'.
Proof.
  intros Hsel [Hm Hw] Hs. destruct Hs as [o o' fd r w e Hfd E|o o' fd E|o o' s u E|o o' n E].
  - unfold nv_select_add_fd in E. destruct (Z.leb_spec NV_SELECT_MAX_FD fd); [done|].
    apply bind_inv in E as (r' & Er & (w' & Ew & (e' & Ee & [= <-])%bind_inv)%bind_inv).
    apply add_flag in Er, Ew, Ee. unfold ok, watched in *. cbn [max_fd read_fds write_fds except_fds]. destruct (Z.ltb_spec (max_fd o) fd); (split; [lia|]);
      intros x Hx; (assert (x = fd \/ x ∈ read_fds o ∪ write_fds o ∪ except_fds o) as [->|Hin] by set_solver; [lia|specialize (Hw x Hin); lia]).
  - unfold nv_select_remove_fd in E. apply bind_inv in E as (r' & Er & (w' & Ew & (e' & Ee & [= <-])%bind_inv)%bind_inv).
    apply FD_CLR_range in Er as [Hfd ->], Ew as [_ ->], Ee as [_ ->]. unfold ok, watched in *. cbn [max_fd read_fds write_fds except_fds].
    set (all := (read_fds o ∖ {[fd]}) ∪ (write_fds o ∖ {[fd]}) ∪ (except_fds o ∖ {[fd]})).
    assert (forall x, x ∈ all -> 0 <= x <= max_fd o /\ x <> fd) as Hall by (intros x Hx; unfold all in Hx; split; [apply Hw|]; set_solver).
    destruct (Z.eqb_spec fd (max_fd o)) as [->|].
    + destruct (lower_max_spec (Z.to_nat (max_fd o)) all (max_fd o)) as [H1 H2]; [intros x Hx; specialize (Hall x Hx); lia|].
      split; [lia|]. intros x Hx. specialize (H1 x Hx). specialize (Hall x Hx). lia.
    + split; [lia|]. intros x Hx. specialize (Hall x Hx). lia.
  - injection E as <-. done.
  - unfold nv_select_wait in E. specialize (Hsel (max_fd o + 1) (read_fds o) (write_fds o) (except_fds o) (timeout o)). cbv zeta in Hsel.
    destruct (select _ _ _ _ _) as [v r w e t]. cbn [retval sel_r sel_w sel_e sel_t] in *. case_match; injection E as _ <-; [done|].
    split; [done|]. unfold watched in *. cbn. intros x Hx. apply Hw. set_solver.
Qed.

(** After any calls with descriptors that are not negative, every watched descriptor is in
    range and below the bound that is passed to [select]. *)
Theorem nv_select_reachable select o o' : select_clears select -> nv_select_init true = Some o -> rtc (step select) o o' -> ok o'.
Proof.
  intros Hsel [= <-] Hr. assert (ok (mkSelect ∅ ∅ ∅ (-1) (0, 0))) as H0.
  { split; [cbn; unfold NV_SELECT_MAX_FD; lia|]. unfold watched. cbn. set_solver. }
  induction Hr as [|x y z Hs _ IH]; [done|]. apply IH. by eapply select_step_ok.
Qed.

(** Waits one after the other; [Some o'] is the object after them. *)
Fixpoint waits (l : list (Z -> gset Z -> gset Z -> gset Z -> Z * Z -> sel_result)) (o : option nv_select_t) : option nv_select_t :=
  match l with [] => o | select :: l => waits l (nv_select_wait select o).2 end.

Lemma waits_shrink l o o' : Forall select_clears l -> waits l (Some o) = Some o' -> read_fds o' ⊆ read_fds o.
Proof.
  revert o. induction l as [|sel l IH]; intros o Hl; [by intros [= <-]|]. apply Forall_cons in Hl as [Hs Hl]. cbn [waits]. unfold nv_select_wait.
  specialize (Hs (max_fd o + 1) (read_fds o) (write_fds o) (except_fds o) (timeout o)). cbv zeta in Hs.
  destruct (sel _ _ _ _ _) as [v r w e t]. cbn [retval sel_r sel_w sel_e sel_t] in *. case_match; intros E%IH; try done. set_solver.
Qed.

(** A descriptor that one successful wait does not report as readable is not watched any
    more: no later wait reports it, until it is added again. *)
Theorem nv_select_wait_forgets select l o o' fd : select_clears select -> Forall select_clears l ->
  let s := select (max_fd o + 1) (read_fds o) (write_fds o) (except_fds o) (timeout o) in
  retval s <> -1 -> ~ (fd ∈ sel_r s) -> waits (select :: l) (Some o) = Some o' -> ~ (fd ∈ read_fds o').
Proof.
  intros _ Hl s Hs Hfd. subst s. cbn [waits]. unfold nv_select_wait. destruct (select _ _ _ _ _) as [v r w e t]. cbn [retval sel_r sel_w sel_e sel_t] in *.
  rewrite (proj2 (Z.eqb_neq v (-1))) by done. cbn [snd]. intros E%waits_shrink; [|done]. cbn in E. set_solver.
Qed.

(** A [select] that reports what is readable, here the descriptor 4. *)
Definition ready4 (n : Z) (r w e : gset Z) (t : Z * Z) : sel_result := mkSel (Z.of_nat (size (r ∩ {[4]}))) (r ∩ {[4]}) ∅ ∅ (0, 0).
Lemma ready4_clears : select_clears ready4.
Proof. intros n r w e t. cbn. set_solver. Qed.
Definition two : nv_select_t := mkSelect {[3; 4]} ∅ ∅ 4 (1, 0).

Lemma nv_select_reachable_witness : ok two.
Proof.
  apply (nv_select_reachable ready4 (mkSelect ∅ ∅ ∅ (-1) (0, 0)) two); [apply ready4_clears|done|].
  apply (rtc_l _ _ (mkSelect {[3]} ∅ ∅ 3 (0, 0))); [by apply (step_add _ _ _ 3 1 0 0)|].
  apply (rtc_l _ _ (mkSelect {[3; 4]} ∅ ∅ 4 (0, 0))); [by apply (step_add _ _ _ 4 1 0 0)|].
  apply (rtc_l _ _ two); [by apply (step_timeout _ _ _ 1 0)|done].
Defined.
Lemma nv_select_wait_forgets_witness : exists o', waits [ready4; ready4] (Some two) = Some o' /\ ~ (3 ∈ read_fds o').
Proof.
  eexists. split; [reflexivity|]. apply (nv_select_wait_forgets ready4 [ready4] two); [apply ready4_clears|apply Forall_singleton, ready4_clears|done| |reflexivity].
  by apply (bool_decide_eq_true_1 (~ (3 ∈ _))).
Defined.

End Select.

Module Poll.

Definition NV_POLL_MAX_FD : nat := 1024.

Record pollfd := mkPollfd { fd : Z; events : Z; revents : Z }.
Record nv_poll_t := mkPoll { fds : list pollfd; nfds : nat }.

(** The array is not initialised: [garbage] is what it holds. *)
Definition nv_poll_init (mem : bool) (garbage : list pollfd) : option nv_poll_t := if mem then Some (mkPoll garbage 0) else None.

Definition nv_poll_add_fd (poll_obj : option nv_poll_t) (f ev : Z) : outcome (Z * option nv_poll_t) :=
  match poll_obj with
  | None => Ret (-1, None)
  | Some p =>
      if (NV_POLL_MAX_FD <=? nfds p)%nat then Ret (-1, Some p) else
      old ← deref (fds p !! nfds p);
      Ret (0, Some (mkPoll (<[nfds p := mkPollfd f ev (revents old)]> (fds p)) (S (nfds p))))
  end.

(** The inner loop, [count] turns from [j] on. *)
Fixpoint shift_down (count j : nat) (l : list pollfd) : outcome (list pollfd) :=
  match count with
  | O => Ret l
  | S count => x ← deref (l !! S j); shift_down count (S j) (<[j := x]> l)
  end.
(** The outer loop, [count] turns from [i] on. *)
Fixpoint remove_loop (count i : nat) (p : nv_poll_t) (f : Z) : outcome (Z * nv_poll_t) :=
  match count with
  | O => Ret (-1, p)
  | S count =>
      x ← deref (fds p !! i);
      if fd x =? f then l ← shift_down (nfds p - 1 - i) i (fds p); Ret (0, mkPoll l (nfds p - 1))
      else remove_loop count (S i) p f
  end.
Definition nv_poll_remove_fd (poll_obj : option nv_poll_t) (f : Z) : outcome (Z * option nv_poll_t) :=
  match poll_obj with
  | None => Ret (-1, None)
  | Some p => '(rc, p) ← remove_loop (nfds p) 0 p f; Ret (rc, Some p)
  end.

(** [n] and [rev] are the result of [poll] and the [revents] it stores. *)
Definition nv_poll_wait (poll_obj : option nv_poll_t) (n : Z) (rev : nat -> Z) : Z * option nv_poll_t :=
  match poll_obj with
  | None => (-1, None)
  | Some p =>
      if n =? -1 then (-1, Some p) else
      (n, Some (mkPoll (imap (fun i x => mkPollfd (fd x) (events x) (rev i)) (take (nfds p) (fds p)) ++ drop (nfds p) (fds p)) (nfds p)))
  end.

(** The memory is freed. *)
Definition nv_poll_destroy (poll_obj : option nv_poll_t) : option nv_poll_t := None.

(** ** Properties *)

Definition wf (p : nv_poll_t) : Prop := length (fds p) = NV_POLL_MAX_FD /\ (nfds p <= NV_POLL_MAX_FD)%nat.
(** What is watched, in order. *)
Definition watched (p : nv_poll_t) : list (Z * Z) := (fun x => (fd x, events x)) <$> take (nfds p) (fds p).

(** A list of descriptors with room for 1024. *)
Definition add_spec (f ev : Z) (l : list (Z * Z)) : Z * list (Z * Z) :=
  if (NV_POLL_MAX_FD <=? length l)%nat then (-1, l) else (0, l ++ [(f, ev)]).
Fixpoint remove_spec (f : Z) (l : list (Z * Z)) : Z * list (Z * Z) :=
  match l with
  | [] => (-1, [])
  | x :: l => if x.1 =? f then (0, l) else let '(rc, l) := remove_spec f l in (rc, x :: l)
  end.

Lemma watched_length p : wf p -> length (watched p) = nfds p.
Proof. intros [H1 H2]. unfold watched. rewrite length_fmap, length_take. lia. Qed.

Lemma add_refines p f ev : wf p -> exists rc p', nv_poll_add_fd (Some p) f ev = Ret (rc, Some p') /\ wf p' /\ add_spec f ev (watched p) = (rc, watched p').
Proof.
  intros Hwf. pose proof Hwf as [Hl Hn]. unfold nv_poll_add_fd, add_spec. rewrite watched_length by done.
  destruct (Nat.leb_spec NV_POLL_MAX_FD (nfds p)); [by eexists _, _|].
  destruct (lookup_lt_is_Some_2 (fds p) (nfds p) ltac:(lia)) as [old E]. rewrite E. cbn [deref mbind outcome_bind]. eexists _, _. split; [done|].
  split; [split; cbn [fds nfds]; [by rewrite length_insert|lia]|]. f_equal. unfold watched. cbn [fds nfds].
  rewrite (take_S_r _ _ (mkPollfd f ev (revents old))) by (apply list_lookup_insert_eq; lia). rewrite take_insert_ge, fmap_app by lia. done.
Qed.

Lemma shift_down_spec l2 : forall l1 x rest, exists tail,
  shift_down (length l2) (length l1) (l1 ++ x :: l2 ++ rest) = Ret (l1 ++ l2 ++ tail) /\ length tail = S (length rest).
Proof.
  induction l2 as [|y l2 IH]; intros l1 x rest; cbn [length shift_down]; [by exists (x :: rest)|].
  replace ((l1 ++ x :: (y :: l2) ++ rest) !! S (length l1)) with (Some y) by (rewrite lookup_app_r by lia; by replace (S (length l1) - length l1)%nat with 1%nat by lia).
  cbn [deref mbind outcome_bind]. rewrite insert_app_r_alt, Nat.sub_diag by lia. cbn.
  destruct (IH (l1 ++ [y]) y rest) as (tail & E & Ht). rewrite length_app, Nat.add_1_r in E. cbn [length] in E. rewrite <- !app_assoc in E. cbn [app] in E.
  exists tail. by rewrite E.
Qed.

Lemma remove_loop_spec p f l1 l2 rest : fds p = l1 ++ l2 ++ rest -> nfds p = (length l1 + length l2)%nat ->
  exists rc p', remove_loop (length l2) (length l1) p f = Ret (rc, p') /\ length (fds p') = length (fds p) /\ (nfds p' <= nfds p)%nat /\
    let '(rc', w) := remove_spec f ((fun x => (fd x, events x)) <$> l2) in rc' = rc /\ watched p' = ((fun x => (fd x, events x)) <$> l1) ++ w.
Proof.
  revert l1. induction l2 as [|x l2 IH]; intros l1 Ef En; cbn [length remove_loop fmap list_fmap remove_spec].
  - eexists _, _. split; [done|]. split; [done|]. split; [done|]. split; [done|]. unfold watched. rewrite Ef, En. cbn [length]. rewrite Nat.add_0_r, app_nil_r.
    by rewrite take_app_length.
  - rewrite Ef. rewrite lookup_app_r, Nat.sub_diag by lia. cbn [lookup list_lookup app deref mbind outcome_bind fst]. destruct (Z.eqb_spec (fd x) f).
    + replace (nfds p - 1 - length l1)%nat with (length l2) by (cbn [length] in En; lia).
      destruct (shift_down_spec l2 l1 x rest) as (tail & -> & Ht). cbn [mbind outcome_bind]. eexists _, _. split; [done|]. cbn [fds nfds].
      split; [rewrite !length_app; cbn [length]; rewrite length_app; lia|]. split; [lia|]. split; [done|]. unfold watched. cbn [fds nfds].
      replace (nfds p - 1)%nat with (length (l1 ++ l2)) by (rewrite length_app; cbn [length] in En; lia).
      by rewrite app_assoc, take_app_length, fmap_app.
    + destruct (IH (l1 ++ [x])) as (rc & p' & E & Hl & Hn & Hr); [by rewrite Ef, <- app_assoc|rewrite length_app; cbn [length] in *; lia|].
      rewrite length_app, Nat.add_1_r in E. rewrite E. eexists _, _. split; [done|]. split; [by rewrite Hl, Ef|]. split; [done|].
      fold (fmap (M := list) (fun x => (fd x, events x)) l2). destruct (remove_spec f _) as [rc' w]. destruct Hr as [-> Hw]. split; [done|]. by rewrite Hw, fmap_app, <- app_assoc.
Qed.

Lemma remove_refines p f : wf p -> exists rc p', nv_poll_remove_fd (Some p) f = Ret (rc, Some p') /\ wf p' /\ remove_spec f (watched p) = (rc, watched p').
Proof.
  intros [Hl Hn]. destruct (remove_loop_spec p f [] (take (nfds p) (fds p)) (drop (nfds p) (fds p))) as (rc & p' & E & Hl' & Hn' & Hr);
    [by rewrite app_nil_l, take_drop|cbn; rewrite length_take; lia|].
  rewrite length_take, Nat.min_l in E by lia. cbn [length] in E. unfold nv_poll_remove_fd. rewrite E. cbn [mbind outcome_bind]. eexists _, _. split; [done|].
  split; [split; lia|]. fold (watched p) in Hr. destruct (remove_spec f (watched p)) as [rc' w]. destruct Hr as [-> Hw]. by rewrite Hw.
Qed.

Lemma wait_refines p n rev : wf p -> exists p', nv_poll_wait (Some p) n rev = (n, Some p') /\ wf p' /\ watched p' = watched p.
Proof.
  intros [Hl Hn]. unfold nv_poll_wait. destruct (Z.eqb_spec n (-1)) as [->|]; [by exists p|]. eexists. split; [done|]. split.
  - split; cbn [fds nfds]; [|lia]. rewrite length_app, length_imap, length_take, length_drop. lia.
  - unfold watched. cbn [fds nfds]. rewrite take_app_le, take_ge by (rewrite length_imap, length_take; lia). by rewrite fmap_imap, <- (imap_const _ (take _ _)).
Qed.

(** The calls on a set, and on a list; a wait changes nothing of what is watched. *)
Inductive call := Add (f ev : Z) | Remove (f : Z) | Wait (n : Z) (rev : nat -> Z).
Fixpoint run (l : list call) (p : option nv_poll_t) : outcome (list Z * option nv_poll_t) :=
  match l with
  | [] => Ret ([], p)
  | c :: l =>
      '(rc, p) ← (match c with Add f ev => nv_poll_add_fd p f ev | Remove f => nv_poll_remove_fd p f | Wait n rev => Ret (nv_poll_wait p n rev) end);
      '(rcs, p) ← run l p; Ret (rc :: rcs, p)
  end.
Fixpoint run_spec (l : list call) (w : list (Z * Z)) : list Z * list (Z * Z) :=
  match l with
  | [] => ([], w)
  | c :: l =>
      let '(rc, w) := match c with Add f ev => add_spec f ev w | Remove f => remove_spec f w | Wait n _ => (n, w) end in
      let '(rcs, w) := run_spec l w in (rc :: rcs, w)
  end.

Lemma poll_run_refines l p : wf p -> exists rcs p', run l (Some p) = Ret (rcs, Some p') /\ wf p' /\ run_spec l (watched p) = (rcs, watched p').
Proof.
  revert p. induction l as [|c l IH]; intros p Hwf; cbn [run run_spec]; [by eexists _, _|].
  assert (exists rc p1, match c with Add f ev => nv_poll_add_fd (Some p) f ev | Remove f => nv_poll_remove_fd (Some p) f | Wait n rev => Ret (nv_poll_wait (Some p) n rev) end = Ret (rc, Some p1) /\ wf p1 /\
    match c with Add f ev => add_spec f ev (watched p) | Remove f => remove_spec f (watched p) | Wait n _ => (n, watched p) end = (rc, watched p1)) as (rc & p1 & -> & Hwf1 & ->)
    by (destruct c as [| |n rev]; [by apply add_refines|by apply remove_refines|destruct (wait_refines p n rev Hwf) as (p1 & -> & ? & <-); by exists n, p1]).
  destruct (IH p1 Hwf1) as (rcs & p' & E & Hwf' & Es). cbn [mbind outcome_bind]. rewrite E, Es. by eexists _, _.
Qed.

(** The array with its moved entries is a list of at most 1024 descriptors: any calls from a
    new set are defined, give the results of the list, where a removal takes the first entry
    of the descriptor, and leave exactly its entries in its order. *)
Theorem nv_poll_refines_list l garbage : length garbage = NV_POLL_MAX_FD ->
  exists rcs p, run l (nv_poll_init true garbage) = Ret (rcs, Some p) /\ run_spec l [] = (rcs, watched p).
Proof.
  intros Hg. destruct (poll_run_refines l (mkPoll garbage 0)) as (rcs & p & E & _ & Es); [split; [done|cbn; unfold NV_POLL_MAX_FD; lia]|]. by exists rcs, p.
Qed.
Lemma nv_poll_refines_list_witness : exists rcs p,
  run [Add 3 1; Add 4 1; Remove 3; Remove 3] (nv_poll_init true (replicate NV_POLL_MAX_FD (mkPollfd 0 0 0))) = Ret (rcs, Some p) /\
  (rcs, watched p) = ([0; 0; 0; -1], [(4, 1)]).
Proof.
  destruct (nv_poll_refines_list [Add 3 1; Add 4 1; Remove 3; Remove 3] (replicate NV_POLL_MAX_FD (mkPollfd 0 0 0))) as (rcs & p & E & Es);
    [apply length_replicate|]. exists rcs, p. split; [exact E|]. by rewrite <- Es.
Defined.

End Poll.

Module Epoll.

Definition NV_EPOLL_ERR : Z := -1.
Definition NV_EPOLL_SUCCESS : Z := 0.
Definition MAX_EVENTS : nat := 10.

(** The system: the interest lists of the open instances, and the number of allocated blocks. *)
Record sys := mkSys { instances : gmap Z (gmap Z Z); blocks : Z }.
Record nv_epoll_t := mkEpoll { epoll_fd : Z }.

(** [m1], [m2]: the allocations succeed; [new]: the descriptor of [epoll_create1], or -1. *)
Definition nv_epoll_create (m1 m2 : bool) (new : Z) (k : sys) : option nv_epoll_t * sys :=
  if negb m1 then (None, k) else
  let k := mkSys (instances k) (blocks k + 1) in
  if new =? NV_EPOLL_ERR then (None, mkSys (instances k) (blocks k - 1)) else
  let k := mkSys (<[new := ∅]> (instances k)) (blocks k) in
  if negb m2 then (None, mkSys (delete new (instances k)) (blocks k - 1)) else
  (Some (mkEpoll new), mkSys (instances k) (blocks k + 1)).

(** [epoll_ctl]: adding what is there, or changing what is not, fails; [can] is whether the
    system accepts the descriptor. *)
Inductive op := EPOLL_CTL_ADD | EPOLL_CTL_MOD | EPOLL_CTL_DEL.
Definition epoll_ctl (can : bool) (ep : Z) (o : op) (fd ev : Z) (k : sys) : Z * sys :=
  match instances k !! ep with
  | None => (-1, k)
  | Some m =>
      let done m := (0, mkSys (<[ep := m]> (instances k)) (blocks k)) in
      if negb can then (-1, k) else
      match o, m !! fd with
      | EPOLL_CTL_ADD, None => done (<[fd := ev]> m)
      | EPOLL_CTL_MOD, Some _ => done (<[fd := ev]> m)
      | EPOLL_CTL_DEL, Some _ => done (delete fd m)
      | _, _ => (-1, k)
      end
  end.
Definition ctl (can : bool) (o : op) (epoll_obj : option nv_epoll_t) (fd ev : Z) (k : sys) : Z * sys :=
  match epoll_obj with
  | None => (NV_EPOLL_ERR, k)
  | Some e =>
      let '(rc, k) := epoll_ctl can (epoll_fd e) o fd ev k in
      if rc =? NV_EPOLL_ERR then (NV_EPOLL_ERR, k) else (NV_EPOLL_SUCCESS, k)
  end.
Definition nv_epoll_add (can : bool) (epoll_obj : option nv_epoll_t) (fd events : Z) : sys -> Z * sys := ctl can EPOLL_CTL_ADD epoll_obj fd events.
Definition nv_epoll_mod (can : bool) (epoll_obj : option nv_epoll_t) (fd events : Z) : sys -> Z * sys := ctl can EPOLL_CTL_MOD epoll_obj fd events.
Definition nv_epoll_del (can : bool) (epoll_obj : option nv_epoll_t) (fd : Z) : sys -> Z * sys := ctl can EPOLL_CTL_DEL epoll_obj fd 0.

(** [ready]: what [epoll_wait] finds, at most [MAX_EVENTS] of it, or -1. *)
Definition nv_epoll_wait (epoll_obj : option nv_epoll_t) (ready : option (list (Z * Z))) : Z * list (Z * Z) :=
  match epoll_obj, ready with
  | Some _, Some l => (Z.of_nat (length (take MAX_EVENTS l)), take MAX_EVENTS l)
  | _, _ => (NV_EPOLL_ERR, [])
  end.
Definition nv_epoll_destroy (epoll_obj : option nv_epoll_t) (k : sys) : sys :=
  match epoll_obj with
  | None => k
  | Some e => mkSys (delete (epoll_fd e) (instances k)) (blocks k - 2)
  end.

(** The calls between creation and destruction, on the instance and on a map. *)
Inductive call := Add (can : bool) (fd ev : Z) | Mod (can : bool) (fd ev : Z) | Del (can : bool) (fd : Z).
Definition exec (c : call) (e : option nv_epoll_t) (k : sys) : Z * sys :=
  match c with Add b fd ev => nv_epoll_add b e fd ev k | Mod b fd ev => nv_epoll_mod b e fd ev k | Del b fd => nv_epoll_del b e fd k end.
Definition exec_spec (c : call) (m : gmap Z Z) : Z * gmap Z Z :=
  match c with
  | Add b fd ev => if b && bool_decide (m !! fd = None) then (0, <[fd := ev]> m) else (-1, m)
  | Mod b fd ev => if b && bool_decide (is_Some (m !! fd)) then (0, <[fd := ev]> m) else (-1, m)
  | Del b fd => if b && bool_decide (is_Some (m !! fd)) then (0, delete fd m) else (-1, m)
  end.
Fixpoint run (l : list call) (e : option nv_epoll_t) (k : sys) : list Z * sys :=
  match l with [] => ([], k) | c :: l => let '(rc, k) := exec c e k in let '(rcs, k) := run l e k in (rc :: rcs, k) end.
Fixpoint run_spec (l : list call) (m : gmap Z Z) : list Z * gmap Z Z :=
  match l with [] => ([], m) | c :: l => let '(rc, m) := exec_spec c m in let '(rcs, m) := run_spec l m in (rc :: rcs, m) end.

(** The system with one instance replaced. *)
Definition with_instance (ep : Z) (m : gmap Z Z) (k : sys) : sys := mkSys (<[ep := m]> (instances k)) (blocks k).

Lemma exec_refines c ep m k : instances k !! ep = Some m ->
  exec c (Some (mkEpoll ep)) k = ((exec_spec c m).1, with_instance ep (exec_spec c m).2 k).
Proof.
  intros E. assert (with_instance ep m k = k) as Hid by (unfold with_instance; rewrite insert_id by done; by destruct k).
  destruct c as [b fd ev|b fd ev|b fd]; cbn [exec exec_spec]; unfold nv_epoll_add, nv_epoll_mod, nv_epoll_del, ctl, epoll_ctl; cbn [epoll_fd]; rewrite E;
    destruct b; cbn [negb andb fst snd]; try (by rewrite Hid); destruct (m !! fd) eqn:Em; try (rewrite bool_decide_true by (done || by eexists); done);
    rewrite bool_decide_false by (congruence || by intros [? ?]); cbn [fst snd]; by rewrite Hid.
Qed.
Lemma epoll_run_refines l ep m k : instances k !! ep = Some m ->
  run l (Some (mkEpoll ep)) k = ((run_spec l m).1, with_instance ep (run_spec l m).2 k).
Proof.
  revert m k. induction l as [|c l IH]; intros m k E; cbn [run run_spec].
  - unfold with_instance. cbn [fst snd]. rewrite insert_id by done. by destruct k.
  - rewrite (exec_refines c ep m k E). destruct (exec_spec c m) as [rc m']. cbn [fst snd].
    rewrite (IH m') by (unfold with_instance; cbn [instances]; by rewrite lookup_insert_eq). destruct (run_spec l m') as [rcs m'']. cbn [fst snd]. unfold with_instance. cbn [instances blocks]. by rewrite insert_insert_eq.
Qed.

(** An instance behaves as a map from descriptors to events under any calls.  Destroying it
    gives back its descriptor and its memory, and a creation that fails leaves nothing. *)
Theorem nv_epoll_refines_map m1 m2 new l k : instances k !! new = None ->
  match nv_epoll_create m1 m2 new k with
  | (None, k') => k' = k
  | (Some e, k') => epoll_fd e = new /\ run l (Some e) k' = ((run_spec l ∅).1, with_instance new (run_spec l ∅).2 k') /\
      nv_epoll_destroy (Some e) (run l (Some e) k').2 = k
  end.
Proof.
  intros En. unfold nv_epoll_create. destruct k as [ins bl]. cbn [instances blocks] in *. destruct m1; cbn [negb]; [|done].
  destruct (new =? NV_EPOLL_ERR); [f_equal; lia|]. destruct m2; cbn [negb].
  - split; [done|]. rewrite (epoll_run_refines l new ∅) by (cbn; by rewrite lookup_insert_eq). split; [done|]. unfold nv_epoll_destroy, with_instance. cbn [epoll_fd instances blocks snd].
    rewrite insert_insert_eq, delete_insert_eq, delete_id by done. f_equal. lia.
  - rewrite delete_insert_eq, delete_id by done. f_equal. lia.
Qed.
Lemma nv_epoll_refines_map_witness : exists e k', nv_epoll_create true true 5 (mkSys ∅ 0) = (Some e, k') /\ (run [Add true 3 1; Add true 3 1; Del true 3] (Some e) k').1 = [0; -1; 0] /\
  nv_epoll_destroy (Some e) (run [Add true 3 1; Add true 3 1; Del true 3] (Some e) k').2 = mkSys ∅ 0.
Proof.
  destruct (nv_epoll_refines_map true true 5 [Add true 3 1; Add true 3 1; Del true 3] (mkSys ∅ 0)) as (_ & Hr & Hd); [done|].
  eexists _, _. split; [reflexivity|]. split; [|exact Hd]. by rewrite Hr.
Defined.

End Epoll.
