(* ===== verification/TimerTask.v ===== *)
(** * Timer manager (base/sys/nv_timer_task.c)

    A table of slots, each with the timerfd of a timer, its callback and its kind, and what
    the kernel keeps for the process: the timers that are open and how they are armed, the
    slot number each is registered with at epoll, and which have expired.  Callbacks are
    functions on the whole state, so they may create, cancel and modify timers.  Theorems:
    slots, open timers and registrations agree in every reachable state and destroying the
    manager closes every timer; a round calls each expired timer's callback once and removes
    the one-shot ones; a one-shot timer that its callback arms again is removed all the
    same. *)
From S2P Require Import Prelude.

Module TimerTask.

Inductive nv_timer_kind_t := NV_TIMER_ONESHOT | NV_TIMER_PERIODIC.
Record nv_timer_t := mkTimer { fd : Z; callback : Z; user_data : Z; kind : nv_timer_kind_t }.
(** First expiry and interval, in seconds and nanoseconds. *)
Record itimerspec := mkIts { v_sec : Z; v_nsec : Z; i_sec : Z; i_nsec : Z }.
Record kernel := mkKernel { open : gmap Z itimerspec; polled : gmap Z Z; ready : gset Z }.
(** [calls] lists the callbacks that ran, with their data. *)
Record nv_timer_manager_t := mkMgr { timers : list nv_timer_t; size : Z; running : bool; kern : kernel; calls : list (Z * Z) }.

Definition with_timers (l : list nv_timer_t) (m : nv_timer_manager_t) := mkMgr l (size m) (running m) (kern m) (calls m).
Definition with_size (v : Z) (m : nv_timer_manager_t) := mkMgr (timers m) v (running m) (kern m) (calls m).
Definition with_running (v : bool) (m : nv_timer_manager_t) := mkMgr (timers m) (size m) v (kern m) (calls m).
Definition with_kern (k : kernel) (m : nv_timer_manager_t) := mkMgr (timers m) (size m) (running m) k (calls m).
Definition log_call (c : Z * Z) (m : nv_timer_manager_t) := mkMgr (timers m) (size m) (running m) (kern m) (calls m ++ [c]).

(** Closing a timer also removes its registration. *)
Definition close_timer (f : Z) (k : kernel) : kernel := mkKernel (delete f (open k)) (delete f (polled k)) (ready k ∖ {[f]}).

Definition nv_timerfd_arm (ok : bool) (k : kernel) (f : Z) (its : itimerspec) : Z * kernel :=
  if ok && bool_decide (is_Some (open k !! f)) then (0, mkKernel (<[f := its]> (open k)) (polled k) (ready k)) else (-1, k).

(** [got], [ep] and [tab]: whether the manager, the epoll descriptor and the table are
    obtained. *)
Definition nv_timer_manager_init (got ep tab : bool) (capacity : nat) : option nv_timer_manager_t :=
  if got && ep && tab then Some (mkMgr (replicate capacity (mkTimer 0 0 0 NV_TIMER_ONESHOT)) 0 false (mkKernel ∅ ∅ ∅) []) else None.

(** What the kernel holds after the manager is gone. *)
Definition nv_timer_manager_destroy (m : nv_timer_manager_t) : kernel :=
  foldl (fun k t => if 0 <? fd t then close_timer (fd t) k else k) (kern m) (timers m).

(** The first slot with [f]. *)
Fixpoint slot_where (f : nv_timer_t -> bool) (l : list nv_timer_t) : option nat :=
  match l with [] => None | t :: l' => if f t then Some O else S <$> slot_where f l' end.
Definition nv_timer_manager_index_free (m : nv_timer_manager_t) : Z :=
  match slot_where (fun t => fd t <=? 0) (timers m) with Some i => i32 (Z.of_nat i) | None => -1 end.
Definition kind_of (its : itimerspec) : nv_timer_kind_t :=
  if (i_sec its =? 0) && (i_nsec its =? 0) then NV_TIMER_ONESHOT else NV_TIMER_PERIODIC.

(** [newfd], [set] and [ctl] are what [timerfd_create], [timerfd_settime] and [epoll_ctl]
    answer. *)
Definition nv_timer_manager_create_timer (newfd : Z) (set ctl : bool) (m : nv_timer_manager_t) (its : itimerspec) (cb ud : Z) : Z * nv_timer_manager_t :=
  if cb =? 0 then (-1, m) else
  let idx := nv_timer_manager_index_free m in
  if idx <? 0 then (-1, m) else
  if newfd <? 0 then (-1, m) else
  let k := mkKernel (<[newfd := mkIts 0 0 0 0]> (open (kern m))) (polled (kern m)) (ready (kern m)) in
  let '(rc, k) := nv_timerfd_arm set k newfd its in
  if rc <? 0 then (-1, with_kern (close_timer newfd k) m) else
  let m := with_timers (<[Z.to_nat idx := mkTimer newfd cb ud (kind_of its)]> (timers m)) m in
  if ctl then
    let m := with_kern (mkKernel (open k) (<[newfd := u32 idx]> (polled k)) (ready k)) m in
    (newfd, if size m <=? idx then with_size (idx + 1) m else m)
  else
    (-1, with_kern (close_timer newfd k) (with_timers (<[Z.to_nat idx := mkTimer (-1) cb ud (kind_of its)]> (timers m)) m)).

Definition nv_timer_manager_cancel (m : nv_timer_manager_t) (timer_fd : Z) : Z * nv_timer_manager_t :=
  if timer_fd <=? 0 then (-1, m) else
  match slot_where (fun t => fd t =? timer_fd) (timers m) with
  | None => (-1, m)
  | Some i => (0, with_kern (close_timer timer_fd (kern m)) (with_timers (<[i := mkTimer (-1) 0 0 NV_TIMER_ONESHOT]> (timers m)) m))
  end.

Definition nv_timer_manager_modify (set : bool) (m : nv_timer_manager_t) (timer_fd : Z) (its : itimerspec) : Z * nv_timer_manager_t :=
  if timer_fd <=? 0 then (-1, m) else
  match slot_where (fun t => fd t =? timer_fd) (timers m) with
  | None => (-1, m)
  | Some i =>
      let '(rc, k) := nv_timerfd_arm set (kern m) timer_fd its in
      if rc =? 0 then
        (rc, with_kern k (with_timers (alter (fun t => mkTimer (fd t) (callback t) (user_data t) (kind_of its)) i (timers m)) m))
      else (rc, with_kern k m)
  end.

(** ** Rounds *)
Section rounds.
(** [call c u m]: the callback [c] runs with the data [u]. *)
Variable call : Z -> Z -> nv_timer_manager_t -> nv_timer_manager_t.

(** One event: the slot is read under the lock, the rest runs without it. *)
Definition process_event (m : nv_timer_manager_t) (idx : Z) : nv_timer_manager_t :=
  match timers m !! Z.to_nat idx with
  | None => m
  | Some t =>
      if fd t <=? 0 then m else
      if bool_decide (fd t ∈ ready (kern m)) then
        let m := with_kern (mkKernel (open (kern m)) (polled (kern m)) (ready (kern m) ∖ {[fd t]})) m in
        let m := if callback t =? 0 then m else call (callback t) (user_data t) (log_call (callback t, user_data t) m) in
        match kind t with NV_TIMER_ONESHOT => snd (nv_timer_manager_cancel m (fd t)) | NV_TIMER_PERIODIC => m end
      else m
  end.

(** What [epoll_wait] gives: the numbers registered for the ready timers, or an error
    ([EINTR] or another). *)
Inductive wait_result := Events (l : list Z) | Failed (eintr : bool).
Definition nv_timer_manager_process_once (m : nv_timer_manager_t) (w : wait_result) : Z * nv_timer_manager_t :=
  match w with
  | Failed true => (0, m)
  | Failed false => (-1, m)
  | Events l => (Z.of_nat (length l), foldl process_event m l)
  end.

(** [None]: still waiting at the end of the script. *)
Fixpoint run_loop (m : nv_timer_manager_t) (script : list wait_result) : option Z * nv_timer_manager_t :=
  if negb (running m) then (Some 0, m) else
  match script with
  | [] => (None, m)
  | w :: script' =>
      let '(rc, m) := nv_timer_manager_process_once m w in
      if rc <? 0 then (Some rc, m) else run_loop m script'
  end.
Definition nv_timer_manager_run (m : nv_timer_manager_t) (script : list wait_result) : option Z * nv_timer_manager_t :=
  run_loop (with_running true m) script.
End rounds.
Definition nv_timer_manager_stop (m : nv_timer_manager_t) : nv_timer_manager_t := with_running false m.

(** ** Invariant *)

Record mgr_ok (m : nv_timer_manager_t) : Prop := {
  ok_capacity : Z.of_nat (length (timers m)) < 2 ^ 31;
  ok_slot i t : timers m !! i = Some t -> 0 < fd t ->
    polled (kern m) !! fd t = Some (Z.of_nat i) /\ exists its, open (kern m) !! fd t = Some its /\ kind t = kind_of its;
  ok_polled f z : polled (kern m) !! f = Some z -> exists i t, z = Z.of_nat i /\ timers m !! i = Some t /\ fd t = f /\ 0 < f;
  ok_open f : is_Some (open (kern m) !! f) -> is_Some (polled (kern m) !! f);
}.

Lemma slot_where_spec f l i : slot_where f l = Some i -> exists t, l !! i = Some t /\ f t = true.
Proof.
  revert i. induction l as [|t l IH]; intros i; simpl; [done|]. destruct (f t) eqn:E; [intros [= <-]; by exists t|].
  destruct (slot_where f l) as [j|]; [|done]. intros [= <-]. by apply IH.
Qed.
Lemma slot_where_none f l t i : slot_where f l = None -> l !! i = Some t -> f t = false.
Proof.
  revert i. induction l as [|u l IH]; intros i; simpl; [done|]. destruct (f u) eqn:E; [done|].
  destruct (slot_where f l) eqn:E2; [done|]. intros _. destruct i; simpl; [by intros [= <-]|by apply IH].
Qed.

Lemma init_mgr_ok capacity m : Z.of_nat capacity < 2 ^ 31 -> nv_timer_manager_init true true true capacity = Some m -> mgr_ok m.
Proof.
  intros Hc [= <-]. split; simpl; [by rewrite length_replicate| | |].
  - intros i t [-> _]%lookup_replicate. simpl. lia.
  - intros f z. by rewrite lookup_empty.
  - intros f [? E]. by rewrite lookup_empty in E.
Qed.

(** The free slot is a number that fits. *)
Lemma index_free_spec m : mgr_ok m -> 0 <= nv_timer_manager_index_free m ->
  exists i t, nv_timer_manager_index_free m = Z.of_nat i /\ timers m !! i = Some t /\ fd t <= 0.
Proof.
  intros Hm. unfold nv_timer_manager_index_free. destruct (slot_where _ _) as [i|] eqn:E; [|done]. intros _.
  apply slot_where_spec in E as (t & Ht & Hf). pose proof (lookup_lt_Some _ _ _ Ht). pose proof (ok_capacity m Hm).
  exists i, t. split_and!; [apply swrap_small; change (32 - 1) with 31; lia|done|by apply Z.leb_le].
Qed.

(** Changing a slot that is not in use to another such leaves the invariant. *)
Lemma close_timer_id f k : open k !! f = None -> polled k !! f = None -> close_timer f k = mkKernel (open k) (polled k) (ready k ∖ {[f]}).
Proof. intros H1 H2. unfold close_timer. by rewrite !delete_id. Qed.
Lemma ready_ok m r : mgr_ok m -> mgr_ok (with_kern (mkKernel (open (kern m)) (polled (kern m)) r) m).
Proof. intros []. by split. Qed.
Lemma calls_ok m c : mgr_ok m -> mgr_ok (log_call c m).
Proof. intros []. by split. Qed.

(** The slot of a timer is the only one with its descriptor. *)
Lemma slot_unique m i j t u : mgr_ok m -> timers m !! i = Some t -> timers m !! j = Some u -> 0 < fd t -> fd t = fd u -> i = j.
Proof.
  intros Hm Ht Hu H0 E. destruct (ok_slot m Hm i t Ht H0) as [H1 _]. destruct (ok_slot m Hm j u Hu) as [H2 _]; [lia|].
  rewrite <- E, H1 in H2. injection H2. lia.
Qed.

(** An unused slot gets other unused contents. *)
Lemma set_free_ok m i t u r : mgr_ok m -> timers m !! i = Some t -> fd t <= 0 -> fd u <= 0 ->
  mgr_ok (with_kern (mkKernel (open (kern m)) (polled (kern m)) r) (with_timers (<[i := u]> (timers m)) m)).
Proof.
  intros Hm Ht H0 H1. pose proof Hm as [Hc Hs Hp Ho]. split; simpl; [by rewrite length_insert| | |done].
  - intros j v. rewrite list_lookup_insert_Some. intros [(-> & -> & _)|[_ Hv]]; [lia|]. by apply Hs.
  - intros f z (j & v & -> & Hv & <- & Hf)%Hp. exists j, v. split_and!; [done| |done|done].
    rewrite list_lookup_insert_ne; [done|]. intros ->. rewrite Ht in Hv. injection Hv as ->. lia.
Qed.
(** An unused slot takes a new timer. *)
Lemma set_new_ok m i t f cb ud its r : mgr_ok m -> timers m !! i = Some t -> fd t <= 0 -> 0 < f -> open (kern m) !! f = None ->
  mgr_ok (with_kern (mkKernel (<[f := its]> (open (kern m))) (<[f := Z.of_nat i]> (polled (kern m))) r)
            (with_timers (<[i := mkTimer f cb ud (kind_of its)]> (timers m)) m)).
Proof.
  intros Hm Ht H0 Hf Hn. pose proof Hm as [Hc Hs Hp Ho]. split; simpl; [by rewrite length_insert| | |].
  - intros j v. rewrite list_lookup_insert_Some. intros [(-> & <- & _)|[Hj Hv]] Hv0; simpl.
    + rewrite !lookup_insert_eq. eauto.
    + destruct (Hs j v Hv Hv0) as [H1 (its' & H2 & H3)].
      assert (fd v <> f) as Hne by (intros E; rewrite E in H2; congruence). rewrite !lookup_insert_ne by done. eauto.
  - intros g z. rewrite lookup_insert_Some. intros [[<- <-]|[Hg Hz]].
    + exists i, (mkTimer f cb ud (kind_of its)). split_and!; [done| |done|done]. apply list_lookup_insert_eq. by eapply lookup_lt_Some.
    + apply Hp in Hz as (j & v & -> & Hv & <- & Hv0). exists j, v. split_and!; [done| |done|done].
      rewrite list_lookup_insert_ne; [done|]. intros ->. rewrite Ht in Hv. injection Hv as ->. lia.
  - intros g. rewrite !lookup_insert_is_Some. intros [->|[Hg H1]]; [by left|right]. eauto.
Qed.

Lemma create_ok newfd set ctl m its cb ud : mgr_ok m -> newfd <> 0 -> open (kern m) !! newfd = None ->
  mgr_ok (snd (nv_timer_manager_create_timer newfd set ctl m its cb ud)).
Proof.
  intros Hm Hz Hn. unfold nv_timer_manager_create_timer. destruct (cb =? 0); [done|].
  destruct (Z.ltb_spec (nv_timer_manager_index_free m) 0) as [|Hi]; [done|]. destruct (Z.ltb_spec newfd 0) as [|Hf]; [done|].
  destruct (index_free_spec m Hm Hi) as (i & t & -> & Ht & H0).
  assert (polled (kern m) !! newfd = None) as Hpn.
  { destruct (polled (kern m) !! newfd) as [z|] eqn:E; [|done]. apply (ok_polled m Hm) in E as (j & u & -> & Hu & <- & Hu0).
    destruct (ok_slot m Hm j u Hu Hu0) as [_ (its' & E & _)]. congruence. }
  unfold nv_timerfd_arm. simpl. rewrite lookup_insert_eq. rewrite bool_decide_eq_true_2 by (by eexists). rewrite andb_true_r.
  unfold close_timer. destruct set; simpl.
  - rewrite insert_insert_eq. destruct ctl; simpl.
    + assert (u32 (Z.of_nat i) = Z.of_nat i) as ->.
      { apply wrap_small. pose proof (lookup_lt_Some _ _ _ Ht). pose proof (ok_capacity m Hm). width_lia. }
      pose proof (set_new_ok m i t newfd cb ud its (ready (kern m)) Hm Ht H0 ltac:(lia) Hn) as Hok.
      rewrite Nat2Z.id. destruct (size m <=? Z.of_nat i); [|exact Hok]. destruct Hok. by split.
    + rewrite delete_insert_id, delete_id by done. rewrite Nat2Z.id, list_insert_insert_eq. by apply (set_free_ok m i t).
  - rewrite delete_insert_id, delete_id by done. by apply ready_ok.
Qed.

Lemma cancel_ok m f : mgr_ok m -> mgr_ok (snd (nv_timer_manager_cancel m f)).
Proof.
  intros Hm. unfold nv_timer_manager_cancel. destruct (Z.leb_spec f 0) as [|Hf]; [done|].
  destruct (slot_where _ _) as [i|] eqn:E; [|done]. apply slot_where_spec in E as (t & Ht & Hft). apply Z.eqb_eq in Hft. simpl.
  pose proof Hm as [Hc Hs Hp Ho]. split; simpl; [by rewrite length_insert| | |].
  - intros j v. rewrite list_lookup_insert_Some. intros [(-> & <- & _)|[Hj Hv]] Hv0; simpl in *; [lia|].
    assert (fd v <> f) as Hne by (intros E; apply Hj; apply (slot_unique m i j t v Hm Ht Hv); lia).
    rewrite !lookup_delete_ne by done. eauto.
  - intros g z. rewrite lookup_delete_Some. intros [Hg (j & v & -> & Hv & <- & Hv0)%Hp]. exists j, v. split_and!; [done| |done|done].
    rewrite list_lookup_insert_ne; [done|]. intros ->. rewrite Ht in Hv. injection Hv as ->. lia.
  - intros g. rewrite !lookup_delete_is_Some. intros [Hg H1]. eauto.
Qed.

Lemma modify_ok set m f its : mgr_ok m -> mgr_ok (snd (nv_timer_manager_modify set m f its)).
Proof.
  intros Hm. unfold nv_timer_manager_modify, nv_timerfd_arm. destruct (Z.leb_spec f 0) as [|Hf]; [done|].
  destruct (slot_where _ _) as [i|] eqn:E; [|done]. apply slot_where_spec in E as (t & Ht & Hft). apply Z.eqb_eq in Hft. simpl.
  pose proof Hm as [Hc Hs Hp Ho]. destruct (set && _); simpl; [|by destruct m].
  split; simpl; [by rewrite length_alter| | |].
  - intros j v. destruct (decide (i = j)) as [<-|Hj].
    + rewrite list_lookup_alter_eq, Ht. intros [= <-] Hv0. simpl in *. destruct (Hs i t Ht Hv0) as [H1 _].
      rewrite Hft, lookup_insert_eq. rewrite <- Hft. eauto.
    + rewrite list_lookup_alter_ne by done. intros Hv Hv0. assert (fd v <> f) as Hne by (intros E; apply Hj; symmetry; apply (slot_unique m j i v t Hm Hv Ht); lia).
      rewrite lookup_insert_ne by done. eauto.
  - intros g z (j & v & -> & Hv & <- & Hv0)%Hp. destruct (decide (i = j)) as [<-|Hne].
    + eexists i, _. split; [done|]. split; [by rewrite list_lookup_alter_eq, Hv|]. done.
    + exists j, v. split_and!; [done|by rewrite list_lookup_alter_ne|done|done].
  - intros g. rewrite lookup_insert_is_Some. intros [<-|[Hg H1]]; [|by apply Ho]. destruct (Hs i t Ht) as [H1 _]; [lia|]. rewrite <- Hft. by eexists.
Qed.

Section preserve.
Variable call : Z -> Z -> nv_timer_manager_t -> nv_timer_manager_t.
Hypothesis call_ok : forall c u m, mgr_ok m -> mgr_ok (call c u m).

Lemma process_event_ok m idx : mgr_ok m -> mgr_ok (process_event call m idx).
Proof using call_ok.
  intros Hm. unfold process_event. destruct (timers m !! _) as [t|]; [|done]. destruct (fd t <=? 0); [done|].
  case_bool_decide; [|done].
  assert (forall m0, mgr_ok m0 -> mgr_ok (match kind t with NV_TIMER_ONESHOT => snd (nv_timer_manager_cancel m0 (fd t)) | NV_TIMER_PERIODIC => m0 end)) as Hk
    by (intros m0 Hm0; destruct (kind t); [by apply cancel_ok|done]).
  apply Hk. destruct (callback t =? 0); [by apply ready_ok|]. by apply call_ok, calls_ok, ready_ok.
Qed.
Lemma process_once_ok m w : mgr_ok m -> mgr_ok (snd (nv_timer_manager_process_once call m w)).
Proof using call_ok.
  intros Hm. destruct w as [l|[]]; simpl; [|done|done]. revert m Hm. induction l as [|i l IH]; intros m Hm; [done|]. by apply IH, process_event_ok.
Qed.
End preserve.

(** ** Reachable states *)

(** The calls of the manager. *)
Inductive op := Create (set ctl : bool) (its : itimerspec) (cb ud : Z) | Cancel (f : Z) | Modify (set : bool) (f : Z) (its : itimerspec).

(** What a callback does: a finite sequence of calls, each chosen from what the call before
    returned and from the state it left. *)
Inductive program := Finish | Call (o : op) (next : Z -> nv_timer_manager_t -> program).

Section reach.
(** The number the kernel gives a new timer, and what each callback does in each state.  The
    number is a free one and not 0: [timerfd_create] gives the smallest free descriptor, and
    descriptor 0, the standard input, is in use. *)
Variable alloc : kernel -> Z.
Hypothesis alloc_ok : forall k, alloc k <> 0 /\ open k !! alloc k = None.
Variable prog : Z -> Z -> nv_timer_manager_t -> program.

Definition apply_op (m : nv_timer_manager_t) (o : op) : Z * nv_timer_manager_t :=
  match o with
  | Create set ctl its cb ud => nv_timer_manager_create_timer (alloc (kern m)) set ctl m its cb ud
  | Cancel f => nv_timer_manager_cancel m f
  | Modify set f its => nv_timer_manager_modify set m f its
  end.
Fixpoint exec (p : program) (m : nv_timer_manager_t) : nv_timer_manager_t :=
  match p with
  | Finish => m
  | Call o next => let '(rc, m) := apply_op m o in exec (next rc m) m
  end.
Definition run_callback (c u : Z) (m : nv_timer_manager_t) : nv_timer_manager_t := exec (prog c u m) m.

Inductive step : nv_timer_manager_t -> nv_timer_manager_t -> Prop :=
  | step_op m o : step m (snd (apply_op m o))
  | step_expire m f : is_Some (open (kern m) !! f) -> step m (with_kern (mkKernel (open (kern m)) (polled (kern m)) (ready (kern m) ∪ {[f]})) m)
  | step_round m w : step m (snd (nv_timer_manager_process_once run_callback m w))
  | step_stop m : step m (nv_timer_manager_stop m).

Lemma apply_op_ok m o : mgr_ok m -> mgr_ok (snd (apply_op m o)).
Proof using alloc_ok.
  intros Hm. destruct o; simpl; [|by apply cancel_ok|by apply modify_ok]. destruct (alloc_ok (kern m)). by apply create_ok.
Qed.
Lemma exec_ok p : forall m, mgr_ok m -> mgr_ok (exec p m).
Proof using alloc_ok.
  induction p as [|o next IH]; intros m Hm; simpl; [done|].
  pose proof (apply_op_ok m o Hm). destruct (apply_op m o). by apply IH.
Qed.
Lemma run_callback_ok c u m : mgr_ok m -> mgr_ok (run_callback c u m).
Proof using alloc_ok. apply exec_ok. Qed.
Lemma step_ok m m' : step m m' -> mgr_ok m -> mgr_ok m'.
Proof using alloc_ok.
  intros [m0 o|m0 f Hf|m0 w|m0] Hm; [by apply apply_op_ok|by apply ready_ok|apply process_once_ok; [exact run_callback_ok|done]|].
  destruct Hm. by split.
Qed.
Lemma reachable_ok capacity m0 m : Z.of_nat capacity < 2 ^ 31 -> nv_timer_manager_init true true true capacity = Some m0 -> rtc step m0 m -> mgr_ok m.
Proof using alloc_ok. intros Hc Hi. pose proof (init_mgr_ok capacity m0 Hc Hi) as H0. clear Hi. intros Hr. revert H0. induction Hr; eauto using step_ok. Qed.
End reach.

(** ** Destruction *)
Lemma close_all_lookup l k f :
  open (foldl (fun k t => if 0 <? fd t then close_timer (fd t) k else k) k l) !! f =
    (if decide (0 < f /\ f ∈ fd <$> l) then None else open k !! f) /\
  polled (foldl (fun k t => if 0 <? fd t then close_timer (fd t) k else k) k l) !! f =
    (if decide (0 < f /\ f ∈ fd <$> l) then None else polled k !! f).
Proof.
  revert k. induction l as [|t l IH]; intros k; cbn [foldl fmap list_fmap].
  { rewrite !decide_False by (intros [_ ?%elem_of_nil]; done). done. }
  destruct (IH (if 0 <? fd t then close_timer (fd t) k else k)) as [-> ->]. destruct (Z.ltb_spec 0 (fd t)); simpl.
  - destruct (decide (f = fd t)) as [->|Hne].
    + rewrite !lookup_delete_eq. rewrite !(decide_True (P := 0 < fd t /\ fd t ∈ fd t :: (fd <$> l))) by (split; [done|set_solver]).
      destruct (decide _); done.
    + rewrite !lookup_delete_ne by done. destruct (decide (0 < f /\ f ∈ fd <$> l)) as [[Hf0 Hfl]|Hn].
      * rewrite !decide_True by (split; [done|apply elem_of_cons; by right]). done.
      * rewrite !decide_False by (intros [? [->|?]%elem_of_cons]; [done|by apply Hn]). done.
  - destruct (decide (0 < f /\ f ∈ fd <$> l)) as [[Hf0 Hfl]|Hn].
    + rewrite !decide_True by (split; [done|apply elem_of_cons; by right]). done.
    + rewrite !decide_False by (intros [? [->|?]%elem_of_cons]; [lia|by apply Hn]). done.
Qed.

Lemma destroy_spec m : mgr_ok m -> open (nv_timer_manager_destroy m) = ∅ /\ polled (nv_timer_manager_destroy m) = ∅.
Proof.
  intros Hm. assert (forall f z, polled (kern m) !! f = Some z -> 0 < f /\ f ∈ fd <$> timers m) as Hin.
  { intros f z (i & t & -> & Ht & <- & H0)%(ok_polled m Hm). split; [done|]. apply list_elem_of_fmap. exists t. split; [done|]. by eapply list_elem_of_lookup_2. }
  split; apply map_eq; intros f; rewrite lookup_empty; destruct (close_all_lookup (timers m) (kern m) f) as [E1 E2];
    unfold nv_timer_manager_destroy; [rewrite E1|rewrite E2]; destruct (decide _) as [|Hn]; try done.
  - destruct (open (kern m) !! f) eqn:E; [|done]. destruct (ok_open m Hm f) as [z Hz]; [by eexists|]. by apply Hin in Hz.
  - destruct (polled (kern m) !! f) eqn:E; [|done]. by apply Hin in E.
Qed.

(** C28: with descriptor 0 in use, in every state that calls of the manager, expiries and
    rounds reach, one after the other, whatever calls the callbacks make, chosen from the
    state and the answers, each slot in use has an open timer that is registered with that slot's number and
    whose kind is as it was armed last, nothing else is open or registered, and destroying
    the manager closes every timer. *)
Theorem nv_timer_manager_reachable alloc prog capacity m0 m :
  (forall k, alloc k <> 0 /\ open k !! alloc k = None) -> Z.of_nat capacity < 2 ^ 31 ->
  nv_timer_manager_init true true true capacity = Some m0 -> rtc (step alloc prog) m0 m ->
  (forall i t, timers m !! i = Some t -> 0 < fd t -> polled (kern m) !! fd t = Some (Z.of_nat i) /\
     exists its, open (kern m) !! fd t = Some its /\ kind t = kind_of its) /\
  (forall f, is_Some (open (kern m) !! f) -> exists i t, timers m !! i = Some t /\ fd t = f) /\
  open (nv_timer_manager_destroy m) = ∅ /\ polled (nv_timer_manager_destroy m) = ∅.
Proof.
  intros Ha Hc Hi Hr. pose proof (reachable_ok alloc Ha prog capacity m0 m Hc Hi Hr) as Hm.
  split; [apply (ok_slot m Hm)|]. split; [|by apply destroy_spec].
  intros f Hf. destruct (ok_open m Hm f Hf) as [z Hz]. apply (ok_polled m Hm) in Hz as (i & t & _ & Ht & Hft & _). eauto.
Qed.

Definition fresh_timer (k : kernel) : Z := fresh ({[0]} ∪ dom (open k) : gset Z).
Lemma fresh_timer_ok k : fresh_timer k <> 0 /\ open k !! fresh_timer k = None.
Proof.
  pose proof (is_fresh ({[0]} ∪ dom (open k) : gset Z)) as Hf. rewrite not_elem_of_union, not_elem_of_singleton, not_elem_of_dom in Hf. exact Hf.
Qed.
Lemma nv_timer_manager_reachable_witness :
  let m0 := mkMgr (replicate 4 (mkTimer 0 0 0 NV_TIMER_ONESHOT)) 0 false (mkKernel ∅ ∅ ∅) [] in
  let prog := fun (_ _ : Z) (m : nv_timer_manager_t) =>
    Call (Create true true (mkIts 1 0 0 0) 7 8) (fun rc _ => if rc <? 0 then Finish else Call (Cancel rc) (fun _ _ => Finish)) in
  let m := snd (apply_op fresh_timer m0 (Create true true (mkIts 1 0 0 0) 7 8)) in
  open (nv_timer_manager_destroy m) = ∅ /\ polled (nv_timer_manager_destroy m) = ∅.
Proof.
  intros m0 prog m. apply (nv_timer_manager_reachable fresh_timer prog 4 m0 m); [apply fresh_timer_ok|reflexivity|reflexivity|].
  eapply rtc_l; [|apply rtc_refl]. apply step_op.
Defined.

(** With descriptor 0 free the first timer gets it and is lost: its slot counts as free, it
    cannot be cancelled, its expiries are skipped, and destroying the manager leaves it open. *)
Theorem nv_timer_descriptor_zero_leaks its cb ud m0 capacity call :
  cb <> 0 -> nv_timer_manager_init true true true (S capacity) = Some m0 ->
  exists m, nv_timer_manager_create_timer 0 true true m0 its cb ud = (0, m) /\
    nv_timer_manager_index_free m = 0 /\ nv_timer_manager_cancel m 0 = (-1, m) /\
    (forall k, process_event call (with_kern k m) 0 = with_kern k m) /\ open (nv_timer_manager_destroy m) !! 0 = Some its.
Proof.
  intros Hcb [= <-]. unfold nv_timer_manager_create_timer. rewrite (proj2 (Z.eqb_neq cb 0)) by done.
  unfold nv_timerfd_arm. cbn. rewrite bool_decide_eq_true_2 by (by rewrite lookup_insert_eq; eexists). cbn.
  eexists. split; [done|]. split_and!; try done.
  unfold nv_timer_manager_destroy.
  match goal with |- open (foldl _ ?k ?l) !! _ = _ => etransitivity; [exact (proj1 (close_all_lookup l k 0))|] end.
  apply lookup_insert_eq.
Qed.

(** ** Rounds with callbacks that leave the manager alone *)

Lemma slot_of m i t : mgr_ok m -> timers m !! i = Some t -> 0 < fd t -> slot_where (fun u => fd u =? fd t) (timers m) = Some i.
Proof.
  intros Hm Ht H0. destruct (slot_where _ _) as [j|] eqn:E.
  - apply slot_where_spec in E as (u & Hu & Hf). apply Z.eqb_eq in Hf. f_equal. apply (slot_unique m j i u t Hm Hu Ht); lia.
  - apply (slot_where_none _ _ _ _ E) in Ht. by rewrite Z.eqb_refl in Ht.
Qed.

Definition freed : nv_timer_t := mkTimer (-1) 0 0 NV_TIMER_ONESHOT.
Definition fired (t : nv_timer_t) : nv_timer_t := match kind t with NV_TIMER_ONESHOT => freed | NV_TIMER_PERIODIC => t end.
(** A slot whose timer has expired. *)
Definition due (m : nv_timer_manager_t) (i : nat) : Prop :=
  exists t, timers m !! i = Some t /\ 0 < fd t /\ fd t ∈ ready (kern m) /\ callback t <> 0.
Definition quiet (c u : Z) (m : nv_timer_manager_t) : nv_timer_manager_t := m.

Lemma event_spec m i t : mgr_ok m -> timers m !! i = Some t -> 0 < fd t -> fd t ∈ ready (kern m) -> callback t <> 0 ->
  let m' := process_event quiet m (Z.of_nat i) in
  timers m' = <[i := fired t]> (timers m) /\ calls m' = calls m ++ [(callback t, user_data t)] /\
  ready (kern m') = ready (kern m) ∖ {[fd t]} /\ (kind t = NV_TIMER_ONESHOT -> open (kern m') !! fd t = None).
Proof.
  intros Hm Ht H0 Hr Hc m'. unfold m', process_event. rewrite Nat2Z.id, Ht. destruct (Z.leb_spec (fd t) 0); [lia|].
  rewrite bool_decide_eq_true_2 by done. destruct (Z.eqb_spec (callback t) 0); [done|]. unfold quiet, fired.
  destruct (kind t) eqn:Ek; [|rewrite list_insert_id by done; done].
  unfold nv_timer_manager_cancel. destruct (Z.leb_spec (fd t) 0); [lia|]. simpl. rewrite (slot_of m i t Hm Ht H0). simpl.
  split_and!; [done|done|set_solver|]. intros _. apply lookup_delete_eq.
Qed.

(** A round in which the slots [l] are ready and the callbacks leave the manager alone
    calls the callback of each, with its data, once and in the order of the events, frees
    the slots of the one-shot timers among them and leaves every other slot as it was. *)
Theorem nv_timer_manager_round m l : mgr_ok m -> NoDup l -> Forall (due m) l ->
  let m' := snd (nv_timer_manager_process_once quiet m (Events (Z.of_nat <$> l))) in
  mgr_ok m' /\
  calls m' = calls m ++ map (fun i => default (0, 0) ((fun t => (callback t, user_data t)) <$> timers m !! i)) l /\
  forall j, timers m' !! j = if decide (j ∈ l) then fired <$> timers m !! j else timers m !! j.
Proof.
  intros Hm Hn Hd m'. unfold m'. clear m'. cbn [nv_timer_manager_process_once snd].
  revert m Hm Hd. induction Hn as [|i l Hi Hn IH]; intros m Hm Hd; cbn [fmap list_fmap foldl map].
  { split_and!; [done|by rewrite app_nil_r|]. intros j. by rewrite decide_False by apply not_elem_of_nil. }
  apply Forall_cons in Hd as [(t & Ht & H0 & Hr & Hc) Hd].
  destruct (event_spec m i t Hm Ht H0 Hr Hc) as (E1 & E2 & E3 & _). set (m1 := process_event quiet m (Z.of_nat i)) in *.
  assert (mgr_ok m1) as Hm1 by (by apply process_event_ok). destruct (IH m1 Hm1) as (H1 & H2 & H3).
  { rewrite Forall_forall in Hd. rewrite Forall_forall. intros j Hj. destruct (Hd j Hj) as (u & Hu & Hu0 & Hur & Huc).
    assert (i <> j) as Hij by (by intros ->). exists u. rewrite E1, E3, list_lookup_insert_ne by done. split_and!; try done.
    apply elem_of_difference. split; [done|]. intros E%elem_of_singleton. apply Hij. apply (slot_unique m i j t u Hm Ht Hu); lia. }
  split_and!; [done| |].
  - rewrite H2, E2, <- app_assoc, Ht. simpl. do 2 f_equal. apply map_ext_in. intros j Hj%list_elem_of_In.
    rewrite E1, list_lookup_insert_ne; [done|]. by intros ->.
  - intros j. rewrite H3, E1. destruct (decide (j = i)) as [->|Hne].
    + rewrite decide_False, (decide_True (P := i ∈ i :: l)) by set_solver. rewrite list_lookup_insert_eq, Ht; [done|]. by eapply lookup_lt_Some.
    + rewrite list_lookup_insert_ne by done. destruct (decide (j ∈ l)).
      * rewrite decide_True by set_solver. done.
      * rewrite decide_False by set_solver. done.
Qed.

(** A manager with one slot, whose timer has expired. *)
Definition one_timer : nv_timer_manager_t :=
  let m0 := mkMgr [mkTimer 0 0 0 NV_TIMER_ONESHOT] 0 false (mkKernel ∅ ∅ ∅) [] in
  let m1 := snd (nv_timer_manager_create_timer 5 true true m0 (mkIts 1 0 0 0) 7 8) in
  with_kern (mkKernel (open (kern m1)) (polled (kern m1)) {[5]}) m1.
Lemma one_timer_ok : mgr_ok one_timer.
Proof. apply ready_ok, create_ok; [|done|done]. by apply (init_mgr_ok 1). Qed.
Lemma nv_timer_manager_round_witness :
  let m' := snd (nv_timer_manager_process_once quiet one_timer (Events [0])) in
  calls m' = [(7, 8)] /\ timers m' !! 0%nat = Some freed.
Proof.
  intros m'. destruct (nv_timer_manager_round one_timer [0%nat]) as (_ & H1 & H2);
    [apply one_timer_ok|apply NoDup_singleton| |].
  - apply Forall_cons. split; [|constructor]. exists (mkTimer 5 7 8 NV_TIMER_ONESHOT). split_and!; [reflexivity|reflexivity| |done].
    change (5 ∈ ({[5]} : gset Z)). by apply elem_of_singleton.
  - split; [exact H1|exact (H2 0%nat)].
Defined.

(** A one-shot timer whose callback arms it again with nv_timer_manager_modify is
    removed after the callback: the modification succeeds and is lost. *)
Theorem nv_timer_rearm_is_lost alloc prog m i t its :
  mgr_ok m -> timers m !! i = Some t -> 0 < fd t -> fd t ∈ ready (kern m) -> callback t <> 0 -> kind t = NV_TIMER_ONESHOT ->
  (forall m, prog (callback t) (user_data t) m = Call (Modify true (fd t) its) (fun _ _ => Finish)) ->
  fst (nv_timer_manager_modify true m (fd t) its) = 0 /\
  let m' := process_event (run_callback alloc prog) m (Z.of_nat i) in
  open (kern m') !! fd t = None /\ forall u, u ∈ timers m' -> fd u <> fd t.
Proof.
  intros Hm Ht H0 Hr Hc Hk Hp. destruct (ok_slot m Hm i t Ht H0) as [_ (its0 & Eo & _)].
  pose proof (slot_of m i t Hm Ht H0) as Hs. split.
  { unfold nv_timer_manager_modify. destruct (Z.leb_spec (fd t) 0); [lia|]. rewrite Hs. unfold nv_timerfd_arm.
    by rewrite Eo, bool_decide_eq_true_2 by (by eexists). }
  intros m'. unfold m', process_event. rewrite Nat2Z.id, Ht. destruct (Z.leb_spec (fd t) 0); [lia|].
  rewrite bool_decide_eq_true_2 by done. destruct (Z.eqb_spec (callback t) 0); [done|]. rewrite Hk. unfold run_callback. rewrite Hp. cbn [exec apply_op].
  rewrite (surjective_pairing (nv_timer_manager_modify _ _ _ _)).
  set (m1 := log_call _ _). assert (mgr_ok m1) as Hm1 by (by apply calls_ok, ready_ok).
  assert (mgr_ok (snd (nv_timer_manager_modify true m1 (fd t) its))) as Hm2 by (by apply modify_ok).
  set (m2 := snd _) in *. assert (exists j u, timers m2 !! j = Some u /\ fd u = fd t) as (j & u & Hu & Hfu).
  { unfold m2, nv_timer_manager_modify. destruct (Z.leb_spec (fd t) 0); [lia|]. change (timers m1) with (timers m). rewrite Hs.
    destruct (nv_timerfd_arm true (kern m1) (fd t) its) as [rc k]. destruct (rc =? 0); simpl; [|by eauto].
    exists i. rewrite list_lookup_alter_eq, Ht. simpl. eauto. }
  unfold nv_timer_manager_cancel. destruct (Z.leb_spec (fd t) 0); [lia|]. pose proof (slot_of m2 j u Hm2 Hu ltac:(lia)) as Hs2.
  rewrite Hfu in Hs2. rewrite Hs2. simpl. split; [apply lookup_delete_eq|].
  intros v (k & Hv)%list_elem_of_lookup_1. rewrite list_lookup_insert_Some in Hv. destruct Hv as [(-> & <- & _)|[Hne Hv]]; [simpl; lia|].
  intros E. apply Hne. apply (slot_unique m2 j k u v Hm2 Hu Hv); lia.
Qed.

Lemma nv_timer_rearm_is_lost_witness :
  let its := mkIts 9 0 0 0 in
  let m' := process_event (run_callback fresh_timer (fun _ _ _ => Call (Modify true 5 its) (fun _ _ => Finish))) one_timer 0 in
  open (kern m') !! 5 = None /\ forall u, u ∈ timers m' -> fd u <> 5.
Proof.
  apply (nv_timer_rearm_is_lost fresh_timer (fun _ _ _ => Call (Modify true 5 (mkIts 9 0 0 0)) (fun _ _ => Finish)) one_timer 0 (mkTimer 5 7 8 NV_TIMER_ONESHOT) (mkIts 9 0 0 0));
    [apply one_timer_ok|reflexivity|reflexivity|change (5 ∈ ({[5]} : gset Z)); by apply elem_of_singleton|done|reflexivity|reflexivity].
Defined.

End TimerTask.
