(* ===== verification/Ipc.v ===== *)
(** * Message queues and semaphores (base/ipc: nv_message_queue.c, nv_semaphore.c)

    POSIX message queues and named semaphores as the processes of one machine share them,
    and the handles the wrappers allocate.  Addresses and numbers the system gives out are
    arguments, [None] being a failure; a call that waits has the result [None].  Theorems:
    a message queue is a bounded queue of strings; a message that fills the buffer comes
    without its NUL, and destroying a handle cuts off those who open the queue later from
    those who hold it; a semaphore admits as many threads as its value, and every thread gets
    through. *)
From S2P Require Import Prelude.

Module MsgQueue.

Definition MAX_MSG_SIZE : Z := 256.
Definition O_NONBLOCK : Z := 2048.

(** A queue of the system; all messages are sent with priority 0. *)
Record mqueue := mkMq { mq_maxmsg : Z; mq_msgsize : Z; mq_msgs : list (list Z) }.
(** The handle: the descriptor and the name. *)
Record message_queue_t := mkQueue { mq : Z; mq_name : cstr }.
(** [mqds]: the queue of each open descriptor and whether it waits.  A name leads to a queue;
    a queue lives on without its name while it is open. *)
Record mqsys := mkMqSys {
  handles : gmap Z message_queue_t; mqds : gmap Z (Z * bool); mq_names : gmap cstr Z; mqueues : gmap Z mqueue }.

(** [mq_open(name, O_CREAT | O_RDWR | flags, ...)] with the answer [(d, q)]: the descriptor and
    the number of the queue if one is made; the attributes of a queue that exists are kept. *)
Definition mq_open (d q : Z) (name : cstr) (nonblock : bool) (maxmsg msgsize : Z) (s : mqsys) : mqsys :=
  match mq_names s !! name with
  | Some q => mkMqSys (handles s) (<[d := (q, nonblock)]> (mqds s)) (mq_names s) (mqueues s)
  | None => mkMqSys (handles s) (<[d := (q, nonblock)]> (mqds s)) (<[name := q]> (mq_names s))
              (<[q := mkMq maxmsg msgsize []]> (mqueues s))
  end.

(** [a]: the new handle. *)
Definition nv_init_message_queue (a : option Z) (ans : option (Z * Z)) (name : option cstr) (maxmsg msgsize flags : Z)
    (s : mqsys) : option Z * mqsys :=
  match a with
  | None => (None, s)
  | Some a =>
      let maxmsg := if 0 <? maxmsg then maxmsg else 10 in
      let msgsize := if 0 <? msgsize then msgsize else MAX_MSG_SIZE in
      let name := str_trunc 64 (default (str "/nv_default_mq") name) in
      match ans with
      | None => (None, s)
      | Some (d, q) =>
          let s := mq_open d q name (negb (Z.land flags O_NONBLOCK =? 0)) maxmsg msgsize s in
          (Some a, mkMqSys (<[a := mkQueue d name]> (handles s)) (mqds s) (mq_names s) (mqueues s))
      end
  end.

Definition set_msgs (q : Z) (v : mqueue) (l : list (list Z)) (s : mqsys) : mqsys :=
  mkMqSys (handles s) (mqds s) (mq_names s) (<[q := mkMq (mq_maxmsg v) (mq_msgsize v) l]> (mqueues s)).

(** [mq_send] and [mq_timedsend] ([timed]: the call gives up when the time has come). *)
Definition mq_send (timed : bool) (d : Z) (msg : list Z) (s : mqsys) : option (Z * mqsys) :=
  match mqds s !! d with
  | None => Some (-1, s)
  | Some (q, nonblock) =>
      match mqueues s !! q with
      | None => Some (-1, s)
      | Some v =>
          if mq_msgsize v <? Z.of_nat (length msg) then Some (-1, s)
          else if Z.of_nat (length (mq_msgs v)) <? mq_maxmsg v then Some (0, set_msgs q v (mq_msgs v ++ [msg]) s)
          else if nonblock || timed then Some (-1, s) else None
      end
  end.
(** [mq_receive] and [mq_timedreceive]: the buffer must hold a message of the greatest size. *)
Definition mq_receive (timed : bool) (d size : Z) (s : mqsys) : option (option (list Z) * mqsys) :=
  match mqds s !! d with
  | None => Some (None, s)
  | Some (q, nonblock) =>
      match mqueues s !! q with
      | None => Some (None, s)
      | Some v =>
          if size <? mq_msgsize v then Some (None, s)
          else match mq_msgs v with
               | m :: l => Some (Some m, set_msgs q v l s)
               | [] => if nonblock || timed then Some (None, s) else None
               end
      end
  end.

Definition send_message (timed : bool) (queue : option Z) (msg : option cstr) (s : mqsys) : outcome (option (Z * mqsys)) :=
  match queue, msg with
  | Some a, Some msg =>
      h ← deref (handles s !! a);
      Ret (mq_send timed (mq h) (take (Z.to_nat MAX_MSG_SIZE) msg) s)
  | _, _ => Ret (Some (-1, s))
  end.
Definition nv_send_message := send_message false.
Definition nv_send_message_timeout := send_message true.

(** The bytes received are the start of the buffer, and a NUL follows when there is room. *)
Definition fill_buffer (buffer m : list Z) : list Z :=
  m ++ (if (length m <? length buffer)%nat then 0 :: drop (S (length m)) buffer else []).

(** The result is the return code and the buffer. *)
Definition receive_message (timed : bool) (queue : option Z) (buffer : option (list Z)) (s : mqsys)
  : outcome (option (Z * option (list Z) * mqsys)) :=
  match queue, buffer with
  | Some a, Some buf =>
      h ← deref (handles s !! a);
      Ret (match mq_receive timed (mq h) (Z.of_nat (length buf)) s with
           | None => None
           | Some (None, s) => Some (-1, Some buf, s)
           | Some (Some m, s) => Some (0, Some (fill_buffer buf m), s)
           end)
  | _, _ => Ret (Some (-1, buffer, s))
  end.
Definition nv_receive_message := receive_message false.
Definition nv_receive_message_timeout := receive_message true.

Definition nv_destroy_message_queue (queue : option Z) (s : mqsys) : outcome mqsys :=
  match queue with
  | None => Ret s
  | Some a =>
      h ← deref (handles s !! a);
      let names := if (length (mq_name h) =? 0)%nat then mq_names s else delete (mq_name h) (mq_names s) in
      Ret (mkMqSys (delete a (handles s)) (delete (mq h) (mqds s)) names (mqueues s))
  end.

(** ** A bounded queue of strings *)

Inductive mop := Send (msg : cstr) | Receive (buffer : list Z).
Inductive mres := Sent (rc : Z) | Received (rc : Z) (buffer : list Z).

Definition then_ (x : mres) (r : option (list mres * mqsys)) : option (list mres * mqsys) :=
  match r with Some (rs, s) => Some (x :: rs, s) | None => None end.
(** A sequence of calls with a timeout on a handle. *)
Fixpoint mrun (a : Z) (ops : list mop) (s : mqsys) : outcome (option (list mres * mqsys)) :=
  match ops with
  | [] => Ret (Some ([], s))
  | Send msg :: ops =>
      r ← nv_send_message_timeout (Some a) (Some msg) s;
      match r with
      | None => Ret None
      | Some (rc, s) => r ← mrun a ops s; Ret (then_ (Sent rc) r)
      end
  | Receive buf :: ops =>
      r ← nv_receive_message_timeout (Some a) (Some buf) s;
      match r with
      | None => Ret None
      | Some (rc, b, s) => r ← mrun a ops s; Ret (then_ (Received rc (default [] b)) r)
      end
  end.
(** The specification. *)
Fixpoint mspec (maxmsg : Z) (ops : list mop) (l : list (list Z)) : list mres * list (list Z) :=
  match ops with
  | [] => ([], l)
  | Send msg :: ops =>
      if Z.of_nat (length l) <? maxmsg
      then let '(rs, l) := mspec maxmsg ops (l ++ [take (Z.to_nat MAX_MSG_SIZE) msg]) in (Sent 0 :: rs, l)
      else let '(rs, l) := mspec maxmsg ops l in (Sent (-1) :: rs, l)
  | Receive buf :: ops =>
      match l with
      | m :: l => let '(rs, l) := mspec maxmsg ops l in (Received 0 (fill_buffer buf m) :: rs, l)
      | [] => let '(rs, l) := mspec maxmsg ops [] in (Received (-1) buf :: rs, l)
      end
  end.

(** The handle [a] is open on the queue [q], which takes whole messages and holds [l]. *)
Record holds_mq (a q maxmsg : Z) (l : list (list Z)) (s : mqsys) : Prop := {
  hm_open : exists h nb, handles s !! a = Some h /\ mqds s !! mq h = Some (q, nb);
  hm_queue : mqueues s !! q = Some (mkMq maxmsg MAX_MSG_SIZE l);
}.

Lemma set_msgs_holds a q maxmsg l l' s :
  holds_mq a q maxmsg l s -> holds_mq a q maxmsg l' (set_msgs q (mkMq maxmsg MAX_MSG_SIZE l) l' s).
Proof. intros [Ho Hq]. split; [done|]. cbn. apply lookup_insert_eq. Qed.

Lemma mrun_refines a q maxmsg ops : forall l s,
  holds_mq a q maxmsg l s -> Forall (fun o => match o with Receive b => MAX_MSG_SIZE <= Z.of_nat (length b) | _ => True end) ops ->
  let '(rs, l') := mspec maxmsg ops l in
  exists s', mrun a ops s = Ret (Some (rs, s')) /\ holds_mq a q maxmsg l' s'.
Proof.
  induction ops as [|[msg|buf] ops IH]; intros l s Hs Hb; cbn [mrun mspec]; [by exists s|..];
    apply Forall_cons in Hb as [Hb0 Hb]; destruct (hm_open _ _ _ _ _ Hs) as (h & nb & Eh & Ed); pose proof (hm_queue _ _ _ _ _ Hs) as Eq.
  - unfold nv_send_message_timeout, send_message. rewrite Eh. cbn [deref mbind outcome_bind]. unfold mq_send. rewrite Ed, Eq.
    cbn [mq_msgsize mq_maxmsg mq_msgs].
    destruct (Z.ltb_spec MAX_MSG_SIZE (Z.of_nat (length (take (Z.to_nat MAX_MSG_SIZE) msg)))) as [Hlt|_];
      [rewrite length_take in Hlt; unfold MAX_MSG_SIZE in Hlt; lia|].
    destruct (Z.of_nat (length l) <? maxmsg).
    + specialize (IH _ _ (set_msgs_holds _ _ _ _ (l ++ [take (Z.to_nat MAX_MSG_SIZE) msg]) _ Hs) Hb).
      destruct (mspec _ _ _) as [rs l']. destruct IH as (s' & -> & Hs'). by exists s'.
    + rewrite orb_true_r. specialize (IH _ _ Hs Hb). destruct (mspec _ _ _) as [rs l']. destruct IH as (s' & -> & Hs'). by exists s'.
  - unfold nv_receive_message_timeout, receive_message. rewrite Eh. cbn [deref mbind outcome_bind]. unfold mq_receive. rewrite Ed, Eq.
    cbn [mq_msgsize mq_maxmsg mq_msgs]. destruct (Z.ltb_spec (Z.of_nat (length buf)) MAX_MSG_SIZE); [lia|].
    destruct l as [|m l]; [rewrite orb_true_r; specialize (IH _ _ Hs Hb)|specialize (IH _ _ (set_msgs_holds _ _ _ _ l _ Hs) Hb)];
      destruct (mspec _ _ _) as [rs l']; destruct IH as (s' & -> & Hs'); by exists s'.
Qed.

Lemma init_holds_mq a d q name maxmsg flags s :
  0 < maxmsg -> mq_names s !! str_trunc 64 name = None ->
  holds_mq a q maxmsg [] (nv_init_message_queue (Some a) (Some (d, q)) (Some name) maxmsg MAX_MSG_SIZE flags s).2.
Proof.
  intros Hm Hn. unfold nv_init_message_queue, mq_open. cbn [from_option id]. rewrite Hn.
  destruct (Z.ltb_spec 0 maxmsg); [|lia]. split; cbn [handles mqds mqueues snd].
  - do 2 eexists. split; [apply lookup_insert_eq|]. apply lookup_insert_eq.
  - apply lookup_insert_eq.
Qed.

(** A message queue made under a new name behaves, under any sequence of sends and
    receives with a timeout, as a queue of at most [maxmsg] strings: a send to a full queue and
    a receive from an empty one fail and change nothing, a message is cut to 256 bytes, and a
    receive puts the oldest message at the start of its buffer of 256 bytes or more. *)
Theorem nv_message_queue_refines a d q name maxmsg flags ops s :
  0 < maxmsg -> mq_names s !! str_trunc 64 name = None ->
  Forall (fun o => match o with Receive b => MAX_MSG_SIZE <= Z.of_nat (length b) | _ => True end) ops ->
  let '(rs, l) := mspec maxmsg ops [] in
  exists s', mrun a ops (nv_init_message_queue (Some a) (Some (d, q)) (Some name) maxmsg MAX_MSG_SIZE flags s).2 = Ret (Some (rs, s')) /\
    holds_mq a q maxmsg l s'.
Proof. intros Hm Hn Hb. apply mrun_refines; [by apply init_holds_mq|done]. Qed.

Definition no_queues : mqsys := mkMqSys ∅ ∅ ∅ ∅.
Lemma nv_message_queue_refines_witness :
  exists s', mrun 16 [Send (str "a"); Send (str "b"); Receive (replicate 256 7)]
      (nv_init_message_queue (Some 16) (Some (3, 1)) (Some (str "/q")) 1 MAX_MSG_SIZE 0 no_queues).2 =
    Ret (Some ([Sent 0; Sent (-1); Received 0 (fill_buffer (replicate 256 7) (str "a"))], s')) /\ holds_mq 16 1 1 [] s'.
Proof.
  exact (nv_message_queue_refines 16 3 1 (str "/q") 1 0 [Send (str "a"); Send (str "b"); Receive (replicate 256 7)] no_queues
    ltac:(lia) eq_refl ltac:(repeat constructor; vm_compute; discriminate)).
Defined.

(** A received message is a string in the buffer exactly when it leaves room for its NUL;
    a message of 256 bytes (any longer one is cut to that) received into a buffer of
    [MAX_MSG_SIZE] bytes has none, and using the buffer as a string reads past its end. *)
Theorem nv_receive_message_terminated buffer msg : cstr_ok msg -> (length msg <= length buffer)%nat ->
  length (fill_buffer buffer msg) = length buffer /\
  field_string (fill_buffer buffer msg) = if (length msg <? length buffer)%nat then Ret msg else UB.
Proof.
  intros Hm Hl. unfold fill_buffer. destruct (Nat.ltb_spec (length msg) (length buffer)) as [Hlt|Hge].
  - split; [rewrite length_app; cbn [length]; rewrite length_drop; lia|]. unfold field_string.
    assert (strchr (msg ++ 0 :: drop (S (length msg)) buffer) 0 = Some (length msg)) as ->; [|by rewrite take_app_length].
    apply strchr_Some. split; [rewrite lookup_app_r by lia; by rewrite Nat.sub_diag|].
    intros j Hj. rewrite lookup_app_l by done. intros E. apply (Forall_lookup_1 _ _ _ _ Hm) in E. unfold char_ok in E. lia.
  - rewrite app_nil_r. split; [lia|]. unfold field_string. assert (strchr msg 0 = None) as ->; [|done].
    apply strchr_None. intros Hin. unfold cstr_ok in Hm. rewrite Forall_forall in Hm. specialize (Hm _ Hin). unfold char_ok in Hm. lia.
Qed.
Lemma nv_receive_message_terminated_witness :
  field_string (fill_buffer (replicate 256 0) (replicate 256 65)) = UB.
Proof.
  exact (proj2 (nv_receive_message_terminated (replicate 256 0) (replicate 256 65)
    ltac:(apply Forall_replicate; unfold char_ok; lia) ltac:(rewrite !length_replicate; lia))).
Defined.

(** Two users of one queue, of which the first destroys its handle: the name is gone with
    it, so whoever opens the queue next gets another one.  A message sent through the second
    handle does not reach the third, which is empty. *)
Theorem nv_destroy_message_queue_cuts_off name msg maxmsg a b c d e f q r buffer s :
  0 < maxmsg -> NoDup [a; b; c] -> NoDup [d; e; f] -> q <> r -> (name <> []) -> mq_names s !! str_trunc 64 name = None ->
  let open a d q s := (nv_init_message_queue (Some a) (Some (d, q)) (Some name) maxmsg MAX_MSG_SIZE 0 s).2 in
  let s1 := open b e q (open a d q s) in
  exists s2 s3 s4, nv_destroy_message_queue (Some a) s1 = Ret s2 /\
    nv_send_message (Some b) (Some msg) (open c f r s2) = Ret (Some (0, s3)) /\
    nv_receive_message_timeout (Some c) (Some buffer) s3 = Ret (Some (-1, Some buffer, s4)).
Proof.
  intros Hm Hh Hd Hq Hn Hf open s1. rewrite !NoDup_cons in Hh, Hd. destruct Hh as (Ha & Hb & _), Hd as (Hd & He & _).
  assert (a <> b /\ a <> c /\ b <> c /\ d <> e /\ d <> f /\ e <> f) as (? & ? & ? & ? & ? & ?) by set_solver. clear Ha Hb Hd He.
  assert ((length (str_trunc 64 name) =? 0)%nat = false) as Hl by (destruct name; done).
  unfold s1, open, nv_init_message_queue. change (0 <? MAX_MSG_SIZE) with true. destruct (Z.ltb_spec 0 maxmsg); [|lia].
  unfold nv_destroy_message_queue, mq_open. cbn [from_option id]. rewrite Hf.
  cbn [handles mqds mq_names mqueues fst snd]. rewrite !lookup_insert_eq. cbn [handles mqds mq_names mqueues].
  rewrite lookup_insert_ne, lookup_insert_eq by (done || lia). cbn [deref mbind outcome_bind mq_name mq]. rewrite Hl.
  eexists _, _, _. split; [done|]. cbn [handles mqds mq_names mqueues]. rewrite lookup_delete_eq. cbn [handles mqds mq_names mqueues snd].
  unfold nv_send_message, send_message, nv_receive_message_timeout, receive_message, mq_send, mq_receive. cbn [handles mqds mq_names mqueues].
  rewrite lookup_insert_ne, lookup_delete_ne, lookup_insert_eq by (done || lia). cbn [deref mbind outcome_bind mq].
  rewrite lookup_insert_ne, lookup_delete_ne, lookup_insert_eq by (done || lia).
  rewrite lookup_insert_ne, lookup_insert_eq by (done || lia). cbn [mq_msgsize mq_maxmsg mq_msgs length].
  destruct (Z.ltb_spec MAX_MSG_SIZE (Z.of_nat (length (take (Z.to_nat MAX_MSG_SIZE) msg)))) as [Hlt|_];
    [rewrite length_take in Hlt; unfold MAX_MSG_SIZE in Hlt; lia|].
  destruct (Z.ltb_spec (Z.of_nat 0) maxmsg); [|lia]. split; [done|]. cbn [set_msgs handles mqds mqueues].
  rewrite lookup_insert_eq. cbn [deref mbind outcome_bind mq]. rewrite lookup_insert_eq.
  rewrite lookup_insert_ne, lookup_insert_eq by (done || lia). cbn [mq_msgsize mq_msgs]. rewrite orb_true_r. by destruct (_ <? _).
Qed.
Lemma nv_destroy_message_queue_cuts_off_witness :
  exists s2 s3 s4,
    nv_destroy_message_queue (Some 1)
      (nv_init_message_queue (Some 2) (Some (5, 7)) (Some (str "/nv_core_mq")) 10 MAX_MSG_SIZE 0
        (nv_init_message_queue (Some 1) (Some (4, 7)) (Some (str "/nv_core_mq")) 10 MAX_MSG_SIZE 0 no_queues).2).2 = Ret s2 /\
    nv_send_message (Some 2) (Some (str "job"))
      (nv_init_message_queue (Some 3) (Some (6, 8)) (Some (str "/nv_core_mq")) 10 MAX_MSG_SIZE 0 s2).2 = Ret (Some (0, s3)) /\
    nv_receive_message_timeout (Some 3) (Some (replicate 256 0)) s3 = Ret (Some (-1, Some (replicate 256 0), s4)).
Proof.
  exact (nv_destroy_message_queue_cuts_off (str "/nv_core_mq") (str "job") 10 1 2 3 4 5 6 7 8 (replicate 256 0) no_queues
    ltac:(lia) (bool_decide_eq_true_1 (NoDup [1; 2; 3]) eq_refl) (bool_decide_eq_true_1 (NoDup [4; 5; 6]) eq_refl)
    ltac:(lia) ltac:(discriminate) eq_refl).
Defined.

End MsgQueue.

Module Semaphore.

Definition SEM_VALUE_MAX : Z := 2147483647.

(** [sem_handles]: the semaphore of each handle; [sem_opens]: how often each is open. *)
Record semsys := mkSemSys {
  sem_handles : gmap Z Z; sem_opens : gmap Z nat; sem_names : gmap cstr Z; sems : gmap Z Z }.

(** [a]: the new handle; [k]: the number of the semaphore if one is made, [None] when
    [sem_open] fails.  The value of a semaphore that exists is kept. *)
Definition nv_semaphore_open (a : option Z) (k : option Z) (name : cstr) (value : Z) (s : semsys) : option Z * semsys :=
  match a, k with
  | Some a, Some k =>
      let '(k, names, sems) := match sem_names s !! name with
                               | Some k => (k, sem_names s, sems s)
                               | None => (k, <[name := k]> (sem_names s), <[k := value]> (sems s))
                               end in
      (Some a, mkSemSys (<[a := k]> (sem_handles s)) (<[k := S (default 0%nat (sem_opens s !! k))]> (sem_opens s)) names sems)
  | _, _ => (None, s)
  end.

(** [sem_close] fails on a semaphore that is not open; the handle is then kept. *)
Definition nv_semaphore_close (h : option Z) (s : semsys) : outcome (Z * semsys) :=
  match h with
  | None => Ret (-1, s)
  | Some a =>
      k ← deref (sem_handles s !! a);
      match sem_opens s !! k with
      | Some (S n) => Ret (0, mkSemSys (delete a (sem_handles s)) (<[k := n]> (sem_opens s)) (sem_names s) (sems s))
      | _ => Ret (-1, s)
      end
  end.

Definition nv_semaphore_unlink (name : cstr) (s : semsys) : Z * semsys :=
  match sem_names s !! name with
  | Some _ => (0, mkSemSys (sem_handles s) (sem_opens s) (delete name (sem_names s)) (sems s))
  | None => (-1, s)
  end.

Definition set_value (k v : Z) (s : semsys) : semsys :=
  mkSemSys (sem_handles s) (sem_opens s) (sem_names s) (<[k := v]> (sems s)).
(** [intr]: a signal interrupts the wait.  [None]: the call waits. *)
Definition nv_semaphore_wait (intr : bool) (h : option Z) (s : semsys) : outcome (option (Z * semsys)) :=
  match h with
  | None => Ret (Some (-1, s))
  | Some a =>
      k ← deref (sem_handles s !! a);
      v ← deref (sems s !! k);
      Ret (if 0 <? v then Some (0, set_value k (v - 1) s) else if intr then Some (-1, s) else None)
  end.
Definition nv_semaphore_post (h : option Z) (s : semsys) : outcome (Z * semsys) :=
  match h with
  | None => Ret (-1, s)
  | Some a =>
      k ← deref (sem_handles s !! a);
      v ← deref (sems s !! k);
      Ret (if v =? SEM_VALUE_MAX then (-1, s) else (0, set_value k (v + 1) s))
  end.

(** Where a thread stands in [thread_function_semaphore]. *)
Inductive tpc := TWait | TInside | TDone.
#[export] Instance tpc_eq_dec : EqDecision tpc.
Proof. solve_decision. Defined.
Record sconf := mkSconf { threads : list tpc; ssys : semsys }.

(** The steps of [thread_function_semaphore] with the handle [a]. *)
Inductive sem_step (a : Z) : sconf -> sconf -> Prop :=
  | SemEnter ts s s' i intr : ts !! i = Some TWait -> nv_semaphore_wait intr (Some a) s = Ret (Some (0, s')) ->
      sem_step a (mkSconf ts s) (mkSconf (<[i := TInside]> ts) s')
  | SemFail ts s s' i intr : ts !! i = Some TWait -> nv_semaphore_wait intr (Some a) s = Ret (Some (-1, s')) ->
      sem_step a (mkSconf ts s) (mkSconf (<[i := TDone]> ts) s')
  | SemLeave ts s s' i rc : ts !! i = Some TInside -> nv_semaphore_post (Some a) s = Ret (rc, s') ->
      sem_step a (mkSconf ts s) (mkSconf (<[i := TDone]> ts) s').

Definition inside (t : tpc) : Z := match t with TInside => 1 | _ => 0 end.
Definition work (t : tpc) : Z := match t with TWait => 2 | TInside => 1 | TDone => 0 end.

(** Every thread inside has taken one from the value. *)
Record admitted (a k n : Z) (c : sconf) : Prop := {
  ad_handle : sem_handles (ssys c) !! a = Some k;
  ad_value : exists v, sems (ssys c) !! k = Some v /\ 0 <= v /\ v + zsum (map inside (threads c)) = n;
}.

Lemma sem_step_admitted a k n c c' : n <= SEM_VALUE_MAX -> admitted a k n c -> sem_step a c c' ->
  admitted a k n c' /\ zsum (map work (threads c')) < zsum (map work (threads c)).
Proof.
  intros Hn [Hh (v & Hv & H0 & Hs)] Hst.
  destruct Hst as [ts s s' i intr Hi E|ts s s' i intr Hi E|ts s s' i rc Hi E]; cbn [threads ssys] in *;
    unfold nv_semaphore_wait, nv_semaphore_post in E; rewrite Hh in E; cbn [deref mbind outcome_bind] in E;
    rewrite Hv in E; cbn [deref mbind outcome_bind] in E.
  - destruct (Z.ltb_spec 0 v); [|by destruct intr]. injection E as <-.
    rewrite (zsum_map_insert work _ _ _ TInside Hi). split; [|cbn [work]; lia]. split; [done|]. exists (v - 1).
    split; [apply lookup_insert_eq|]. cbn [threads]. rewrite (zsum_map_insert inside _ _ _ TInside Hi). cbn [inside]. lia.
  - destruct (Z.ltb_spec 0 v); [done|]. destruct intr; [|done]. injection E as <-.
    rewrite (zsum_map_insert work _ _ _ TDone Hi). split; [|cbn [work]; lia]. split; [done|]. exists v.
    split; [done|]. cbn [threads]. rewrite (zsum_map_insert inside _ _ _ TDone Hi). cbn [inside]. lia.
  - assert (1 <= zsum (map inside ts)) as Hin.
    { pose proof (zsum_map_insert inside ts i TInside TDone Hi) as E1.
      pose proof (zsum_map_nonneg inside (<[i := TDone]> ts) ltac:(intros []; cbn; lia)). cbn [inside] in E1. lia. }
    destruct (Z.eqb_spec v SEM_VALUE_MAX); [lia|]. injection E as _ <-.
    rewrite (zsum_map_insert work _ _ _ TDone Hi). split; [|cbn [work]; lia]. split; [done|]. exists (v + 1).
    split; [apply lookup_insert_eq|]. cbn [threads]. rewrite (zsum_map_insert inside _ _ _ TDone Hi). cbn [inside]. lia.
Qed.

Lemma sem_run_admitted a k n m c c' : n <= SEM_VALUE_MAX -> admitted a k n c -> nsteps (sem_step a) m c c' ->
  admitted a k n c' /\ Z.of_nat m + zsum (map work (threads c')) <= zsum (map work (threads c)).
Proof.
  intros Hn. revert c. induction m as [|m IH]; intros c Ha Hr; inversion Hr as [|? ? c1 ? Hs Hr']; subst; [split; [done|lia]|].
  destruct (sem_step_admitted _ _ _ _ _ Hn Ha Hs) as [Ha1 Hw]. destruct (IH _ Ha1 Hr') as [Ha2 Hw2]. split; [done|lia].
Qed.

Lemma threads_start t : zsum (map inside (replicate t TWait)) = 0 /\ zsum (map work (replicate t TWait)) = 2 * Z.of_nat t.
Proof. split; induction t as [|t IH]; cbn [replicate map]; [done| |done|]; unfold zsum in *; cbn [foldr inside work]; lia. Qed.

(** A thread that is not done can go on. *)
Lemma sem_progress a k n c : 1 <= n <= SEM_VALUE_MAX -> admitted a k n c -> (exists t, t ∈ threads c /\ t <> TDone) -> exists c', sem_step a c c'.
Proof.
  intros Hn [Hh (v & Hv & H0 & Hs)] (t & Ht & Hd). destruct c as [ts s]. cbn [threads ssys] in *.
  destruct (decide (TInside ∈ ts)) as [Hi|Hi].
  - apply list_elem_of_lookup in Hi as [i Hi].
    assert (exists rc s', nv_semaphore_post (Some a) s = Ret (rc, s')) as (rc & s' & E).
    { unfold nv_semaphore_post. rewrite Hh. cbn [deref mbind outcome_bind]. rewrite Hv. cbn [deref mbind outcome_bind].
      case_match; eauto. }
    eexists. by eapply SemLeave.
  - destruct t; [|done..]. apply list_elem_of_lookup in Ht as [i Ht].
    assert (zsum (map inside ts) = 0) as E0.
    { clear -Hi. induction ts as [|[] ts IH]; cbn [map]; unfold zsum in *; cbn [foldr inside]; [done| |set_solver|]; rewrite IH by set_solver; done. }
    eexists. eapply (SemEnter a ts s _ i false Ht). unfold nv_semaphore_wait. rewrite Hh. cbn [deref mbind outcome_bind]. rewrite Hv.
    cbn [deref mbind outcome_bind]. destruct (Z.ltb_spec 0 v); [done|lia].
Qed.

Lemma open_admitted a k name value t s : 0 <= value -> sem_names s !! name = None ->
  admitted a k value (mkSconf (replicate t TWait) (nv_semaphore_open (Some a) (Some k) name value s).2).
Proof.
  intros Hv Hn. unfold nv_semaphore_open. rewrite Hn. split; [apply lookup_insert_eq|]. exists value. cbn [ssys threads sems snd].
  rewrite lookup_insert_eq. destruct (threads_start t) as [-> _]. split; [done|]. lia.
Qed.

(** C20: any number of threads that run [thread_function_semaphore] over a new semaphore of
    value [value]: at no time are more than [value] of them in the critical section, as long
    as one is not done some thread can go on, and after at most two steps of each all are
    done. *)
Theorem nv_semaphore_admits a k name value t s m c :
  1 <= value <= SEM_VALUE_MAX -> sem_names s !! name = None ->
  nsteps (sem_step a) m (mkSconf (replicate t TWait) (nv_semaphore_open (Some a) (Some k) name value s).2) c ->
  zsum (map inside (threads c)) <= value /\ Z.of_nat m <= 2 * Z.of_nat t /\
  ((exists x, x ∈ threads c /\ x <> TDone) -> exists c', sem_step a c c').
Proof.
  intros Hv Hn Hr. destruct (sem_run_admitted a k value m _ c ltac:(lia) (open_admitted a k name value t s ltac:(lia) Hn) Hr) as [Ha Hw].
  cbn [threads] in Hw. destruct (threads_start t) as [_ Et]. rewrite Et in Hw. destruct (ad_value _ _ _ _ Ha) as (v & _ & H0 & Hs).
  pose proof (zsum_map_nonneg work (threads c) ltac:(intros []; cbn; lia)).
  split_and!; [lia|lia|]. by apply (sem_progress a k value).
Qed.

Definition no_sems : semsys := mkSemSys ∅ ∅ ∅ ∅.
Lemma nv_semaphore_admits_witness :
  exists c, zsum (map inside (threads c)) <= 1 /\ threads c = [TWait; TInside; TWait] /\ (exists c', sem_step 16 c c').
Proof.
  set (s0 := (nv_semaphore_open (Some 16) (Some 1) (str "/my_semaphore") 1 no_sems).2).
  assert (nsteps (sem_step 16) 1 (mkSconf (replicate 3 TWait) s0) (mkSconf [TWait; TInside; TWait] (set_value 1 0 s0))) as Hr.
  { eapply nsteps_l; [|apply nsteps_O]. by apply (SemEnter 16 (replicate 3 TWait) s0 (set_value 1 0 s0) 1 false). }
  destruct (nv_semaphore_admits 16 1 (str "/my_semaphore") 1 3 no_sems 1 (mkSconf [TWait; TInside; TWait] (set_value 1 0 s0))
    ltac:(vm_compute; intuition discriminate) eq_refl Hr) as (H1 & _ & H3).
  eexists. split; [exact H1|]. split; [done|]. apply H3. exists TWait. split; [by left|done].
Defined.

End Semaphore.
