(* ===== verification/IpcMem.v ===== *)
(** * Mapped files, shared memory, pipes and named pipes (base/ipc: nv_mmap.c, nv_shm.c, nv_pipe.c, nv_fifo.c)

    Files, shared objects, mappings, descriptors and byte channels of the system, and the
    handles the wrappers allocate.  Numbers and addresses the system gives out are arguments.
    Theorems: the exact effect of a write to a mapped file for every offset and length, with
    the range where the check of its bounds wraps around, and that a second mapping reads it
    back; what shared memory leaves behind; a pipe is a stream; a failed open of a named pipe
    frees the handle its caller still has, and a timed read refuses the bytes of a writer that
    has gone. *)
From S2P Require Import Prelude.

(** [ftruncate]: cut, or extended by zeros. *)
Definition resize (n : Z) (l : list Z) : list Z := take (Z.to_nat n) l ++ replicate (Z.to_nat n - length l) 0.
Lemma length_resize n l : 0 <= n -> Z.of_nat (length (resize n l)) = n.
Proof. intros Hn. unfold resize. rewrite length_app, length_take, length_replicate. lia. Qed.

(** [memcpy] of [src] into [dst] at [off]. *)
Definition overwrite (off : nat) (src dst : list Z) : list Z := take off dst ++ src ++ drop (off + length src) dst.
Lemma overwrite_read off src dst : (off + length src <= length dst)%nat ->
  take (length src) (drop off (overwrite off src dst)) = src /\ length (overwrite off src dst) = length dst.
Proof.
  intros Hl. unfold overwrite. split; [|rewrite !length_app, length_take, length_drop; lia].
  rewrite drop_app_ge by (rewrite length_take; lia). rewrite length_take, Nat.min_l, Nat.sub_diag by lia. rewrite skipn_O. by rewrite take_app_length.
Qed.

Module Mmap.

Record nv_mmap_file_t := mkMmapFile { mm_fd : Z; mm_size : Z; mm_data : Z }.
(** [mm_fds]: the file of each open descriptor; [mappings]: the file and the length of each
    mapping, by its address. *)
Record mmsys := mkMmSys {
  mm_handles : gmap Z nv_mmap_file_t; mm_fds : gmap Z cstr; mappings : gmap Z (cstr * Z); disk : gmap cstr (list Z) }.

(** [a]: the handle, [fd]: the descriptor or -1, [trunc]: whether [ftruncate] succeeds, [m]:
    the address of the mapping. *)
Definition nv_mmap_open (a : option Z) (fd : Z) (trunc : bool) (m : option Z) (filepath : cstr) (size : Z) (s : mmsys)
  : option Z * mmsys :=
  match a with
  | None => (None, s)
  | Some a =>
      if fd =? -1 then (None, s) else
      let old := default [] (disk s !! filepath) in
      if negb trunc then (None, mkMmSys (mm_handles s) (mm_fds s) (mappings s) (<[filepath := old]> (disk s))) else
      let files := <[filepath := resize size old]> (disk s) in
      match m with
      | None => (None, mkMmSys (mm_handles s) (mm_fds s) (mappings s) files)
      | Some m => (Some a, mkMmSys (<[a := mkMmapFile fd size m]> (mm_handles s)) (<[fd := filepath]> (mm_fds s))
                             (<[m := (filepath, size)]> (mappings s)) files)
      end
  end.

(** The bytes [offset] to [offset + size] of a mapping must be inside it and inside its file. *)
Definition accessible (offset size len : Z) (content : list Z) : bool :=
  (offset + size <=? len) && (offset + size <=? Z.of_nat (length content)).

(** [buffer] has at least [size] bytes; the result is the buffer afterwards. *)
Definition nv_mmap_read (h : option Z) (offset : Z) (buffer : list Z) (size : Z) (s : mmsys) : outcome (list Z) :=
  a ← deref h;
  f ← deref (mm_handles s !! a);
  if mm_size f <? u64 (offset + size) then Ret buffer
  else
    '(path, len) ← deref (mappings s !! mm_data f);
    content ← deref (disk s !! path);
    if accessible offset size len content
    then Ret (take (Z.to_nat size) (drop (Z.to_nat offset) content) ++ drop (Z.to_nat size) buffer) else UB.

Definition nv_mmap_write (h : option Z) (offset : Z) (buffer : list Z) (size : Z) (s : mmsys) : outcome mmsys :=
  a ← deref h;
  f ← deref (mm_handles s !! a);
  if mm_size f <? u64 (offset + size) then Ret s
  else
    '(path, len) ← deref (mappings s !! mm_data f);
    content ← deref (disk s !! path);
    if accessible offset size len content
    then Ret (mkMmSys (mm_handles s) (mm_fds s) (mappings s)
                (<[path := overwrite (Z.to_nat offset) (take (Z.to_nat size) buffer) content]> (disk s))) else UB.

Definition nv_mmap_close (h : option Z) (s : mmsys) : outcome mmsys :=
  match h with
  | None => Ret s
  | Some a =>
      f ← deref (mm_handles s !! a);
      Ret (mkMmSys (delete a (mm_handles s)) (delete (mm_fd f) (mm_fds s)) (delete (mm_data f) (mappings s)) (disk s))
  end.

(** The handle [a] has the whole file [path] mapped. *)
Definition maps (a : Z) (path : cstr) (n : Z) (s : mmsys) : Prop :=
  exists f, mm_handles s !! a = Some f /\ mm_size f = n /\ mappings s !! mm_data f = Some (path, n).

Definition store (path : cstr) (c : list Z) (s : mmsys) : mmsys :=
  mkMmSys (mm_handles s) (mm_fds s) (mappings s) (<[path := c]> (disk s)).

(** C37: a write through a mapped file of [n] bytes, for every offset and every buffer: inside
    the file it changes exactly those bytes, beyond it nothing, but where the sum of offset and
    length wraps around to at most [n] the check passes and memory outside the mapping is
    written. *)
Theorem nv_mmap_write_spec a path n content offset buffer s :
  maps a path n s -> disk s !! path = Some content -> Z.of_nat (length content) = n -> n < 2 ^ 64 ->
  in_range 64 offset -> in_range 64 (Z.of_nat (length buffer)) ->
  let size := Z.of_nat (length buffer) in
  nv_mmap_write (Some a) offset buffer size s =
    if offset + size <=? n then Ret (store path (overwrite (Z.to_nat offset) buffer content) s)
    else if (2 ^ 64 <=? offset + size) && (offset + size - 2 ^ 64 <=? n) then UB
    else Ret s.
Proof.
  intros (f & Ef & Es & Em) Hd Hn Hlt [Ho0 Ho1] [Hs0 Hs1] size. unfold nv_mmap_write. cbn [deref mbind outcome_bind]. rewrite Ef.
  cbn [deref mbind outcome_bind]. rewrite Es. assert (size = Z.of_nat (length buffer)) as Esz by done. clearbody size.
  destruct (Z.leb_spec (2 ^ 64) (offset + size)) as [Hw|Hw]; cbn [andb].
  - assert (u64 (offset + size) = offset + size - 2 ^ 64) as ->.
    { unfold wrap. symmetry. apply (Z.mod_unique_pos _ _ 1); lia. }
    destruct (Z.leb_spec (offset + size) n); [lia|].
    destruct (Z.ltb_spec n (offset + size - 2 ^ 64)), (Z.leb_spec (offset + size - 2 ^ 64) n); try lia; [done|].
    rewrite Em. cbn [deref mbind outcome_bind]. rewrite Hd. cbn [deref mbind outcome_bind]. unfold accessible.
    destruct (Z.leb_spec (offset + size) n); [lia|]. done.
  - rewrite wrap_small by (split; lia). destruct (Z.ltb_spec n (offset + size)), (Z.leb_spec (offset + size) n); try lia; [done|].
    rewrite Em. cbn [deref mbind outcome_bind]. rewrite Hd. cbn [deref mbind outcome_bind]. unfold accessible.
    destruct (Z.leb_spec (offset + size) n), (Z.leb_spec (offset + size) (Z.of_nat (length content))); try lia. cbn [andb].
    rewrite (take_ge buffer) by lia. done.
Qed.

Definition demo_mm : mmsys :=
  mkMmSys {[ 16 := mkMmapFile 3 4 4096 ]} {[ 3 := str "f" ]} {[ 4096 := (str "f", 4) ]} {[ str "f" := [1; 2; 3; 4] ]}.
Lemma nv_mmap_write_spec_witness :
  nv_mmap_write (Some 16) (2 ^ 64 - 1) [9] 1 demo_mm = UB.
Proof.
  exact (nv_mmap_write_spec 16 (str "f") 4 [1; 2; 3; 4] (2 ^ 64 - 1) [9] demo_mm
    ltac:(eexists; split_and!; reflexivity) ltac:(reflexivity) ltac:(reflexivity) ltac:(reflexivity)
    ltac:(vm_compute; intuition discriminate) ltac:(vm_compute; intuition discriminate)).
Defined.

(** What one handle writes inside a mapped file another handle on the same file reads back,
    and no other byte changes. *)
Theorem nv_mmap_write_read a b path n content offset buffer into s :
  maps a path n s -> maps b path n s -> disk s !! path = Some content -> Z.of_nat (length content) = n -> n < 2 ^ 64 ->
  0 <= offset -> offset + Z.of_nat (length buffer) <= n -> length into = length buffer ->
  exists s', nv_mmap_write (Some a) offset buffer (Z.of_nat (length buffer)) s = Ret s' /\
    nv_mmap_read (Some b) offset into (Z.of_nat (length buffer)) s' = Ret buffer /\
    disk s' !! path = Some (overwrite (Z.to_nat offset) buffer content).
Proof.
  intros (f & Ef & Es & Em) (g & Eg & Egs & Egm) Hd Hn Hlt Ho Hin Hinto.
  destruct (overwrite_read (Z.to_nat offset) buffer content) as [Hr Hlen]; [lia|].
  unfold nv_mmap_write. cbn [deref mbind outcome_bind]. rewrite Ef. cbn [deref mbind outcome_bind]. rewrite Es, wrap_small by (split; lia).
  destruct (Z.ltb_spec n (offset + Z.of_nat (length buffer))); [lia|]. rewrite Em. cbn [deref mbind outcome_bind]. rewrite Hd.
  cbn [deref mbind outcome_bind]. unfold accessible at 1.
  destruct (Z.leb_spec (offset + Z.of_nat (length buffer)) n), (Z.leb_spec (offset + Z.of_nat (length buffer)) (Z.of_nat (length content))); try lia.
  cbn [andb]. rewrite Nat2Z.id, firstn_all. eexists. split; [done|]. cbn [disk]. rewrite lookup_insert_eq. split; [|done].
  unfold nv_mmap_read. cbn [mm_handles mappings disk deref mbind outcome_bind]. rewrite Eg. cbn [deref mbind outcome_bind].
  rewrite Egs, wrap_small by (split; lia). destruct (Z.ltb_spec n (offset + Z.of_nat (length buffer))); [lia|]. rewrite Egm.
  cbn [deref mbind outcome_bind]. rewrite lookup_insert_eq. cbn [deref mbind outcome_bind]. unfold accessible. rewrite Hlen.
  destruct (Z.leb_spec (offset + Z.of_nat (length buffer)) n), (Z.leb_spec (offset + Z.of_nat (length buffer)) (Z.of_nat (length content))); try lia.
  cbn [andb]. rewrite Nat2Z.id, Hr. by rewrite <- Hinto, drop_all, app_nil_r.
Qed.
Lemma nv_mmap_write_read_witness :
  exists s', nv_mmap_write (Some 16) 1 [8; 9] 2 demo_mm = Ret s' /\ nv_mmap_read (Some 16) 1 [0; 0] 2 s' = Ret [8; 9].
Proof.
  destruct (nv_mmap_write_read 16 16 (str "f") 4 [1; 2; 3; 4] 1 [8; 9] [0; 0] demo_mm
    ltac:(eexists; split_and!; reflexivity) ltac:(eexists; split_and!; reflexivity) ltac:(reflexivity) ltac:(reflexivity)
    ltac:(reflexivity) ltac:(lia) ltac:(cbn; lia) ltac:(reflexivity)) as (s' & H1 & H2 & _).
  by exists s'.
Defined.

End Mmap.

Module Shm.

Definition SHM_SIZE : Z := 4096.

(** [shm_ptr]: [None] before it was ever stored (memory from [malloc]), [Some 0] for NULL. *)
Record nv_shm_t := mkShm { shm_fd : Z; shm_ptr : option Z }.
(** [shm_named]: the object [SHM_NAME] leads to; [shm_maps]: the object mapped at an address. *)
Record shmsys := mkShmSys {
  shm_handles : gmap Z nv_shm_t; shm_fds : gmap Z Z; shm_named : option Z; shm_objs : gmap Z (list Z); shm_maps : gmap Z Z }.

(** [k]: the number of the object if one is made. *)
Definition nv_shm_open (a : option Z) (fd k : Z) (trunc : bool) (s : shmsys) : option Z * shmsys :=
  match a with
  | None => (None, s)
  | Some a =>
      if fd =? -1 then (None, s) else
      let '(k, objs) := match shm_named s with
                        | Some k => (k, shm_objs s)
                        | None => (k, <[k := []]> (shm_objs s))
                        end in
      if negb trunc then (None, mkShmSys (shm_handles s) (shm_fds s) (Some k) objs (shm_maps s)) else
      (Some a, mkShmSys (<[a := mkShm fd None]> (shm_handles s)) (<[fd := k]> (shm_fds s)) (Some k)
                 (<[k := resize SHM_SIZE (default [] (objs !! k))]> objs) (shm_maps s))
  end.

(** [m]: the address, [None] when [mmap] fails; on a closed descriptor it does. *)
Definition nv_shm_map (m : option Z) (h : option Z) (s : shmsys) : outcome (option Z * shmsys) :=
  match h with
  | None => Ret (None, s)
  | Some a =>
      o ← deref (shm_handles s !! a);
      match m, shm_fds s !! shm_fd o with
      | Some m, Some k => Ret (Some m, mkShmSys (<[a := mkShm (shm_fd o) (Some m)]> (shm_handles s)) (shm_fds s) (shm_named s)
                                         (shm_objs s) (<[m := k]> (shm_maps s)))
      | _, _ => Ret (None, s)
      end
  end.

(** Testing a pointer that was never stored is undefined; [ok]: whether [munmap] succeeds. *)
Definition nv_shm_unmap (ok : bool) (h : option Z) (s : shmsys) : outcome (Z * shmsys) :=
  match h with
  | None => Ret (-1, s)
  | Some a =>
      o ← deref (shm_handles s !! a);
      p ← deref (shm_ptr o);
      if p =? 0 then Ret (-1, s)
      else if negb ok then Ret (-1, s)
      else Ret (0, mkShmSys (<[a := mkShm (shm_fd o) (Some 0)]> (shm_handles s)) (shm_fds s) (shm_named s) (shm_objs s) (delete p (shm_maps s)))
  end.

Definition nv_shm_close (h : option Z) (s : shmsys) : outcome (Z * shmsys) :=
  match h with
  | None => Ret (-1, s)
  | Some a =>
      o ← deref (shm_handles s !! a);
      match shm_fds s !! shm_fd o with
      | None => Ret (-1, s)
      | Some _ => Ret (0, mkShmSys (shm_handles s) (delete (shm_fd o) (shm_fds s)) (shm_named s) (shm_objs s) (shm_maps s))
      end
  end.

Definition nv_shm_unlink (s : shmsys) : Z * shmsys :=
  match shm_named s with
  | Some _ => (0, mkShmSys (shm_handles s) (shm_fds s) None (shm_objs s) (shm_maps s))
  | None => (-1, s)
  end.

(** Opening, mapping, unmapping, closing. *)
Definition use_shm (a fd k m : Z) (s : shmsys) : outcome shmsys :=
  let '(_, s) := nv_shm_open (Some a) fd k true s in
  '(_, s) ← nv_shm_map (Some m) (Some a) s;
  '(_, s) ← nv_shm_unmap true (Some a) s;
  '(_, s) ← nv_shm_close (Some a) s;
  Ret s.

(** A full use of the shared memory gives back its descriptor and its mapping, but the
    handle is never freed: there is no function that does. *)
Theorem nv_shm_leaks_its_handle a fd k m s :
  fd <> -1 -> m <> 0 -> shm_handles s !! a = None -> shm_fds s !! fd = None -> shm_maps s !! m = None ->
  exists s', use_shm a fd k m s = Ret s' /\ shm_fds s' = shm_fds s /\ shm_maps s' = shm_maps s /\
    shm_handles s' = <[a := mkShm fd (Some 0)]> (shm_handles s).
Proof.
  intros Hfd Hm Ha Hf Hmm. unfold use_shm, nv_shm_open. destruct (Z.eqb_spec fd (-1)); [done|].
  destruct (match shm_named s with Some k0 => _ | None => _ end) as [k0 objs]. cbn [negb].
  unfold nv_shm_map. cbn [shm_handles shm_fds]. rewrite lookup_insert_eq. cbn [deref mbind outcome_bind shm_fd].
  rewrite lookup_insert_eq. unfold nv_shm_unmap. cbn [mbind outcome_bind shm_handles]. rewrite lookup_insert_eq.
  cbn [deref mbind outcome_bind shm_ptr shm_fd]. destruct (Z.eqb_spec m 0); [done|]. cbn [negb mbind outcome_bind].
  unfold nv_shm_close. cbn [shm_handles shm_fds]. rewrite lookup_insert_eq. cbn [deref mbind outcome_bind shm_fd].
  rewrite lookup_insert_eq. eexists. split; [done|]. cbn [shm_fds shm_maps shm_handles].
  split_and!; [by apply delete_insert_id|by apply delete_insert_id|]. by rewrite !insert_insert_eq.
Qed.
Definition no_shm : shmsys := mkShmSys ∅ ∅ None ∅ ∅.
Lemma nv_shm_leaks_its_handle_witness :
  exists s', use_shm 16 3 1 4096 no_shm = Ret s' /\ shm_fds s' = ∅ /\ shm_maps s' = ∅ /\ shm_handles s' = <[16 := mkShm 3 (Some 0)]> ∅.
Proof.
  exact (nv_shm_leaks_its_handle 16 3 1 4096 no_shm ltac:(lia) ltac:(lia) ltac:(reflexivity) ltac:(reflexivity) ltac:(reflexivity)).
Defined.

(** Unmapping a shared memory that was opened and never mapped tests a pointer that was
    never stored. *)
Theorem nv_shm_unmap_unmapped a fd k ok s :
  fd <> -1 -> nv_shm_unmap ok (Some a) (nv_shm_open (Some a) fd k true s).2 = UB.
Proof.
  intros Hfd. unfold nv_shm_open, nv_shm_unmap. destruct (Z.eqb_spec fd (-1)); [done|].
  destruct (match shm_named s with Some k0 => _ | None => _ end) as [k0 objs]. cbn [negb snd shm_handles]. by rewrite lookup_insert_eq.
Qed.
Lemma nv_shm_unmap_unmapped_witness : nv_shm_unmap true (Some 16) (nv_shm_open (Some 16) 3 1 true no_shm).2 = UB.
Proof. apply nv_shm_unmap_unmapped. lia. Defined.

End Shm.

Module Channel.

Definition O_WRONLY : Z := 1.
Definition O_RDWR : Z := 2.
Definition O_ACCMODE : Z := 3.
Definition POLLIN : Z := 1.
Definition POLLOUT : Z := 4.
Definition POLLERR : Z := 8.
Definition POLLHUP : Z := 16.

(** An open end of a channel. *)
Record chan_end := mkEnd { ch_id : Z; ch_reads : bool; ch_writes : bool; ch_nonblock : bool }.
(** Pipes have two descriptors, a named pipe one (-1: none). *)
Record chsys := mkChSys {
  nv_pipe_t : gmap Z (Z * Z); fifo_t : gmap Z Z; ends : gmap Z chan_end; fifo_names : gmap cstr Z; pending : gmap Z (list Z) }.

Definition has_end (f : chan_end -> bool) (c : Z) (s : chsys) : bool :=
  existsb (fun '(_, e) => (ch_id e =? c) && f e) (map_to_list (ends s)).
Definition set_pending (c : Z) (l : list Z) (s : chsys) : chsys :=
  mkChSys (nv_pipe_t s) (fifo_t s) (ends s) (fifo_names s) (<[c := l]> (pending s)).

(** [write]: the system takes [k] of the bytes, or fails (a negative [k], or no reader). *)
Definition write (k : Z) (fd : Z) (buf : list Z) (s : chsys) : Z * chsys :=
  match ends s !! fd with
  | Some e =>
      if ch_writes e && has_end ch_reads (ch_id e) s && (0 <=? k)
      then (Z.min k (Z.of_nat (length buf)), set_pending (ch_id e) (default [] (pending s !! ch_id e) ++ take (Z.to_nat k) buf) s)
      else (-1, s)
  | None => (-1, s)
  end.
(** [read]: the bytes, [None] for a failure; the outer [None]: the call waits. *)
Definition read (fd : Z) (count : Z) (s : chsys) : option (option (list Z) * chsys) :=
  match ends s !! fd with
  | Some e =>
      if negb (ch_reads e) then Some (None, s) else
      match default [] (pending s !! ch_id e) with
      | [] => if negb (has_end ch_writes (ch_id e) s) then Some (Some [], s)
              else if ch_nonblock e then Some (None, s) else None
      | l => Some (Some (take (Z.to_nat count) l), set_pending (ch_id e) (drop (Z.to_nat count) l) s)
      end
  | None => Some (None, s)
  end.
Definition close_end (fd : Z) (s : chsys) : chsys :=
  mkChSys (nv_pipe_t s) (fifo_t s) (delete fd (ends s)) (fifo_names s) (pending s).

(** ** Pipes *)

(** [ans]: both descriptors and the number of the channel. *)
Definition nv_pipe_create (a : option Z) (ans : option (Z * Z * Z)) (s : chsys) : option Z * chsys :=
  match a, ans with
  | Some a, Some (r, w, c) =>
      (Some a, mkChSys (<[a := (r, w)]> (nv_pipe_t s)) (fifo_t s)
                 (<[w := mkEnd c false true false]> (<[r := mkEnd c true false false]> (ends s)))
                 (fifo_names s) (<[c := []]> (pending s)))
  | _, _ => (None, s)
  end.
Definition nv_pipe_write (k : Z) (p : option Z) (buf : list Z) (s : chsys) : outcome (Z * chsys) :=
  match p with
  | None => Ret (-1, s)
  | Some a => h ← deref (nv_pipe_t s !! a); Ret (write k h.2 buf s)
  end.
Definition nv_pipe_read (p : option Z) (count : Z) (s : chsys) : outcome (option (option (list Z) * chsys)) :=
  match p with
  | None => Ret (Some (None, s))
  | Some a => h ← deref (nv_pipe_t s !! a); Ret (read h.1 count s)
  end.
Definition nv_pipe_close (p : option Z) (s : chsys) : outcome chsys :=
  match p with
  | None => Ret s
  | Some a =>
      h ← deref (nv_pipe_t s !! a);
      let s := close_end h.2 (close_end h.1 s) in
      Ret (mkChSys (delete a (nv_pipe_t s)) (fifo_t s) (ends s) (fifo_names s) (pending s))
  end.

(** ** Named pipes *)

(** [c]: the channel if one is made, [None] when [mkfifo] fails for another reason than a name
    that exists. *)
Definition nv_fifo_create (a : option Z) (c : option Z) (name : cstr) (s : chsys) : option Z * chsys :=
  match a with
  | None => (None, s)
  | Some a =>
      let handle s := mkChSys (nv_pipe_t s) (<[a := -1]> (fifo_t s)) (ends s) (fifo_names s) (pending s) in
      match fifo_names s !! name, c with
      | Some _, _ => (Some a, handle s)
      | None, Some c => (Some a, handle (mkChSys (nv_pipe_t s) (fifo_t s) (ends s) (<[name := c]> (fifo_names s)) (<[c := []]> (pending s))))
      | None, None => (None, s)
      end
  end.

(** [fd]: the descriptor or -1.  A failed open frees the handle. *)
Definition nv_fifo_open (fd : Z) (h : option Z) (name : cstr) (mode : Z) (nonblock : bool) (s : chsys) : outcome (option Z * chsys) :=
  match h with
  | None => Ret (None, s)
  | Some a =>
      _ ← deref (fifo_t s !! a);
      match fifo_names s !! name with
      | Some c =>
          if fd =? -1 then Ret (None, mkChSys (nv_pipe_t s) (delete a (fifo_t s)) (ends s) (fifo_names s) (pending s)) else
          let acc := Z.land mode O_ACCMODE in
          Ret (Some a, mkChSys (nv_pipe_t s) (<[a := fd]> (fifo_t s))
            (<[fd := mkEnd c (negb (acc =? O_WRONLY)) (negb (acc =? 0)) nonblock]> (ends s)) (fifo_names s) (pending s))
      | None => Ret (None, mkChSys (nv_pipe_t s) (delete a (fifo_t s)) (ends s) (fifo_names s) (pending s))
      end
  end.

Definition nv_fifo_write (k : Z) (h : option Z) (buf : list Z) (s : chsys) : outcome (Z * chsys) :=
  match h with
  | None => Ret (-1, s)
  | Some a => fd ← deref (fifo_t s !! a); Ret (if fd =? -1 then (-1, s) else write k fd buf s)
  end.
Definition nv_fifo_read (h : option Z) (count : Z) (s : chsys) : outcome (option (option (list Z) * chsys)) :=
  match h with
  | None => Ret (Some (None, s))
  | Some a => fd ← deref (fifo_t s !! a); Ret (if fd =? -1 then Some (None, s) else read fd count s)
  end.

(** What [poll] finds on a descriptor: bytes or the last writer gone, room ([room]) or the last
    reader gone. *)
Definition revents (room : bool) (fd events : Z) (s : chsys) : Z :=
  match ends s !! fd with
  | None => 32
  | Some e =>
      Z.lor (if negb (Z.land events POLLIN =? 0) && ch_reads e && negb (length (default [] (pending s !! ch_id e)) =? 0)%nat then POLLIN else 0)
      (Z.lor (if negb (Z.land events POLLOUT =? 0) && ch_writes e && room then POLLOUT else 0)
      (Z.lor (if ch_reads e && negb (has_end ch_writes (ch_id e) s) then POLLHUP else 0)
             (if ch_writes e && negb (has_end ch_reads (ch_id e) s) then POLLERR else 0)))
  end.
(** [nv_fifo_wait]: an event that is there is reported at once, otherwise the time passes
    ([None] without a limit: it waits). *)
Definition nv_fifo_wait (room : bool) (fd : Z) (for_write : bool) (timeout_ms : Z) (s : chsys) : option Z :=
  let ev := revents room fd (if for_write then POLLOUT else POLLIN) s in
  if ev =? 0 then (if timeout_ms <? 0 then None else Some 0)
  else if negb (Z.land ev (Z.lor POLLERR (Z.lor POLLHUP 32)) =? 0) then Some (-1)
  else Some 1.

Definition nv_fifo_write_timeout (room : bool) (k : Z) (h : option Z) (buf : list Z) (timeout_ms : Z) (s : chsys)
  : outcome (option (Z * chsys)) :=
  match h with
  | None => Ret (Some (-1, s))
  | Some a =>
      fd ← deref (fifo_t s !! a);
      if fd =? -1 then Ret (Some (-1, s)) else
      Ret (match nv_fifo_wait room fd true timeout_ms s with
           | None => None
           | Some rc => if rc <=? 0 then Some (-1, s) else Some (write k fd buf s)
           end)
  end.
Definition nv_fifo_read_timeout (h : option Z) (count timeout_ms : Z) (s : chsys) : outcome (option (option (list Z) * chsys)) :=
  match h with
  | None => Ret (Some (None, s))
  | Some a =>
      fd ← deref (fifo_t s !! a);
      if fd =? -1 then Ret (Some (None, s)) else
      Ret (match nv_fifo_wait false fd false timeout_ms s with
           | None => None
           | Some rc => if rc <=? 0 then Some (None, s) else read fd count s
           end)
  end.

Definition nv_fifo_close (h : option Z) (s : chsys) : outcome chsys :=
  match h with
  | None => Ret s
  | Some a =>
      fd ← deref (fifo_t s !! a);
      let s := if fd =? -1 then s else close_end fd s in
      Ret (mkChSys (nv_pipe_t s) (delete a (fifo_t s)) (ends s) (fifo_names s) (pending s))
  end.
Definition nv_fifo_unlink (name : cstr) (s : chsys) : chsys :=
  mkChSys (nv_pipe_t s) (fifo_t s) (ends s) (delete name (fifo_names s)) (pending s).

(** ** A pipe is a stream *)

Inductive pop := PWrite (k : Z) (buf : list Z) | PRead (count : Z).
(** What was accepted and what was read, up to the first read that waits. *)
Fixpoint prun (a : Z) (ops : list pop) (written got : list Z) (s : chsys) : outcome (list Z * list Z * chsys) :=
  match ops with
  | [] => Ret (written, got, s)
  | PWrite k buf :: ops =>
      '(n, s) ← nv_pipe_write k (Some a) buf s;
      prun a ops (written ++ take (Z.to_nat n) buf) got s
  | PRead count :: ops =>
      r ← nv_pipe_read (Some a) count s;
      match r with
      | None => Ret (written, got, s)
      | Some (b, s) => prun a ops written (got ++ default [] b) s
      end
  end.

(** The pipe [a] with its two ends on the channel [c], which holds [l]. *)
Record pipe_ok (a r w c : Z) (l : list Z) (s : chsys) : Prop := {
  po_handle : nv_pipe_t s !! a = Some (r, w);
  po_read : ends s !! r = Some (mkEnd c true false false);
  po_write : ends s !! w = Some (mkEnd c false true false);
  po_bytes : pending s !! c = Some l;
}.
Lemma has_end_true f fd e s : ends s !! fd = Some e -> f e = true -> has_end f (ch_id e) s = true.
Proof.
  intros He Hf. unfold has_end. apply existsb_exists. exists (fd, e). split; [|by rewrite Z.eqb_refl].
  by apply list_elem_of_In, elem_of_map_to_list.
Qed.
Lemma set_pending_ok a r w c l l' s : pipe_ok a r w c l s -> pipe_ok a r w c l' (set_pending c l' s).
Proof. intros [? ? ? ?]. split; try done. apply lookup_insert_eq. Qed.

Lemma prun_stream a r w c ops : forall l written got s, pipe_ok a r w c l s -> written = got ++ l ->
  exists written' got' l' s', prun a ops written got s = Ret (written', got', s') /\ pipe_ok a r w c l' s' /\ written' = got' ++ l'.
Proof.
  induction ops as [|[k buf|count] ops IH]; intros l written got s Hs ->; cbn [prun]; [by eauto 10|..];
    destruct Hs as [Hh Hr Hw Hb] eqn:Es; clear Es.
  - unfold nv_pipe_write. rewrite Hh. cbn [deref mbind outcome_bind snd]. unfold write. rewrite Hw. cbn [ch_writes ch_id andb].
    pose proof (has_end_true ch_reads r _ s Hr eq_refl) as Hx. cbn [ch_id] in Hx. rewrite Hx. cbn [andb].
    destruct (Z.leb_spec 0 k).
    + rewrite Hb. cbn [from_option id]. apply (IH (l ++ take (Z.to_nat k) buf)); [by apply (set_pending_ok a r w c l)|].
      rewrite <- app_assoc. f_equal. f_equal. destruct (Z.min_spec k (Z.of_nat (length buf))) as [[? ->]|[? ->]]; [done|].
      rewrite Nat2Z.id, firstn_all. symmetry. apply take_ge. lia.
    + cbn [Z.to_nat take]. rewrite app_nil_r. by apply (IH l).
  - unfold nv_pipe_read. rewrite Hh. cbn [deref mbind outcome_bind fst]. unfold read. rewrite Hr. cbn [ch_reads ch_id negb].
    rewrite Hb. cbn [from_option id]. destruct l as [|x l].
    + pose proof (has_end_true ch_writes w _ s Hw eq_refl) as Hx. cbn [ch_id] in Hx. rewrite Hx. cbn [negb ch_nonblock]. by eauto 10.
    + apply (IH (drop (Z.to_nat count) (x :: l))); [by apply (set_pending_ok a r w c (x :: l))|].
      cbn [from_option id]. by rewrite <- app_assoc, take_drop.
Qed.

(** Through any sequence of writes and reads on a new pipe, whatever part of each write the
    system takes, the bytes read are the beginning of the bytes accepted, in order, and the rest
    is still in the pipe. *)
Theorem nv_pipe_is_a_stream a r w c ops s : r <> w ->
  exists written got l s', prun a ops [] [] (nv_pipe_create (Some a) (Some (r, w, c)) s).2 = Ret (written, got, s') /\
    written = got ++ l /\ pending s' !! c = Some l.
Proof.
  intros Hne. destruct (prun_stream a r w c ops [] [] [] (nv_pipe_create (Some a) (Some (r, w, c)) s).2) as (wr & got & l & s' & E & Hp & Hw).
  - split; cbn; [apply lookup_insert_eq|rewrite lookup_insert_ne by done; apply lookup_insert_eq|apply lookup_insert_eq..].
  - done.
  - exists wr, got, l, s'. split_and!; try done. by destruct Hp.
Qed.
Definition no_channels : chsys := mkChSys ∅ ∅ ∅ ∅ ∅.
Lemma nv_pipe_is_a_stream_witness :
  exists written got l s',
    prun 16 [PWrite 2 [1; 2; 3]; PRead 1; PWrite 9 [4]] [] [] (nv_pipe_create (Some 16) (Some (3, 4, 1)) no_channels).2 = Ret (written, got, s') /\
    written = got ++ l /\ pending s' !! 1 = Some l.
Proof. apply nv_pipe_is_a_stream. lia. Defined.

(** A failed [nv_fifo_open] frees the handle it was given, which its caller still has:
    closing that handle, as one does after [nv_fifo_create], uses it after it was freed. *)
Theorem nv_fifo_failed_open_dangles fd a name mode nonblock s :
  is_Some (fifo_t s !! a) -> fd = -1 \/ fifo_names s !! name = None ->
  exists s', nv_fifo_open fd (Some a) name mode nonblock s = Ret (None, s') /\ nv_fifo_close (Some a) s' = UB.
Proof.
  intros [x Hx] Hf. unfold nv_fifo_open. rewrite Hx. cbn [deref mbind outcome_bind].
  destruct (fifo_names s !! name); [destruct Hf as [->|]; [|done]; cbn [Z.eqb Pos.eqb]|];
    (eexists; split; [done|]; unfold nv_fifo_close; cbn [fifo_t]; by rewrite lookup_delete_eq).
Qed.
Lemma nv_fifo_failed_open_dangles_witness :
  exists s', nv_fifo_open (-1) (Some 16) (str "p") O_WRONLY true (nv_fifo_create (Some 16) (Some 1) (str "p") no_channels).2 = Ret (None, s') /\
    nv_fifo_close (Some 16) s' = UB.
Proof. apply nv_fifo_failed_open_dangles; [by eexists|by left]. Defined.

(** When the writer of a named pipe has gone and left bytes in it, [poll] reports both the
    bytes and the hang-up; [nv_fifo_read_timeout] takes that for an error and reads nothing, with
    every timeout and every time it is called, while [nv_fifo_read] returns the bytes. *)
Theorem nv_fifo_hangup_hides_bytes a fd e x l count timeout_ms s :
  fifo_t s !! a = Some fd -> fd <> -1 -> ends s !! fd = Some e -> ch_reads e = true -> ch_writes e = false ->
  has_end ch_writes (ch_id e) s = false -> pending s !! ch_id e = Some (x :: l) ->
  nv_fifo_read_timeout (Some a) count timeout_ms s = Ret (Some (None, s)) /\
  nv_fifo_read (Some a) count s =
    Ret (Some (Some (take (Z.to_nat count) (x :: l)), set_pending (ch_id e) (drop (Z.to_nat count) (x :: l)) s)).
Proof.
  intros Ha Hfd He Hr Hw Hn Hp. unfold nv_fifo_read_timeout, nv_fifo_read. rewrite Ha. cbn [deref mbind outcome_bind].
  destruct (Z.eqb_spec fd (-1)); [done|]. split.
  - unfold nv_fifo_wait, revents. rewrite He, Hr, Hw, Hn, Hp. reflexivity.
  - unfold read. rewrite He, Hr. cbn [negb]. by rewrite Hp.
Qed.
Definition left_bytes : chsys := mkChSys ∅ {[ 16 := 3 ]} {[ 3 := mkEnd 1 true false false ]} ∅ {[ 1 := [65; 66] ]}.
Lemma nv_fifo_hangup_hides_bytes_witness :
  nv_fifo_read_timeout (Some 16) 8 1000 left_bytes = Ret (Some (None, left_bytes)).
Proof.
  exact (proj1 (nv_fifo_hangup_hides_bytes 16 3 (mkEnd 1 true false false) 65 [66] 8 1000 left_bytes
    ltac:(reflexivity) ltac:(lia) ltac:(reflexivity) ltac:(reflexivity) ltac:(reflexivity) ltac:(reflexivity) ltac:(reflexivity))).
Defined.

End Channel.
