(* ===== verification/Worker.v ===== *)
(** * Worker processes (core/runtime/nv_core_worker.c)

    The master's table of workers and the processes the kernel keeps for it: running, or
    ended and not yet waited for.  Which ended child [waitpid] reports and which number
    [fork] gives are arguments; what happens while the master sleeps is a script.
    The signals the master registers for are blocked and wait in a signalfd that nothing
    reads while it supervises.  Theorems: the supervision returns exactly when respawning is
    off and every worker has ended, and then no child is left; no signal ends it, and the
    part that stops the workers sends nothing; with respawning every worker runs again at the
    end of a turn; a launch whose fork fails leaves the workers already started behind. *)
From S2P Require Import Prelude.

Module Worker.

Definition NV_OK : Z := 0.
Definition NV_ERROR : Z := -1.
Definition NV_DECLINED : Z := -5.
Definition NV_CORE_WORKER_MAX : Z := 128.
Definition SIGINT : Z := 2.
Definition SIGKILL : Z := 9.
Definition SIGTERM : Z := 15.

Record nv_worker_slot_t := mkSlot { pid : Z; id : Z; alive : bool }.
Inductive pstate := Running | Zombie.
#[export] Instance pstate_eq_dec : EqDecision pstate.
Proof. solve_decision. Defined.
(** [g_workers] up to [g_worker_count], the children, and the signals sent. *)
Record master := mkMaster { slots : list nv_worker_slot_t; procs : gmap Z pstate; kills : list (Z * Z) }.
Definition with_slots (l : list nv_worker_slot_t) (m : master) := mkMaster l (procs m) (kills m).
Definition with_procs (k : gmap Z pstate) (m : master) := mkMaster (slots m) k (kills m).
Definition dead (s : nv_worker_slot_t) : nv_worker_slot_t := mkSlot (pid s) (id s) false.

(** The flag and the signals that wait in the signalfd: [nv_signal_register] blocks SIGINT,
    SIGTERM and SIGCHLD, and a handler runs only when [nv_signal_dispatch] reads the
    descriptor, which the event loop does and the master does not. *)
Record sigstate := mkSig { g_master_quit : bool; queued : list Z }.
Definition nv_core_master_on_signal (signum : Z) (g : sigstate) : sigstate :=
  if (signum =? SIGINT) || (signum =? SIGTERM) then mkSig true (queued g) else g.
Definition arrive (sigs : list Z) (g : sigstate) : sigstate := mkSig (g_master_quit g) (queued g ++ sigs).

(** The loop over the table stops at the first worker with the number. *)
Fixpoint mark_exited (p : Z) (l : list nv_worker_slot_t) : list nv_worker_slot_t :=
  match l with
  | [] => []
  | s :: l' => if alive s && (pid s =? p) then dead s :: l' else s :: mark_exited p l'
  end.

Section supervise.
(** [waitpid(-1, &status, WNOHANG)]: an ended child, if there is one.  [fork]: a number, or
    negative. *)
Variable pick : gmap Z pstate -> option Z.
Variable fork : gmap Z pstate -> Z.

Fixpoint reap_loop (fuel : nat) (m : master) : master :=
  match fuel with
  | O => m
  | S fuel' =>
      match pick (procs m) with
      | None => m
      | Some p => reap_loop fuel' (mkMaster (mark_exited p (slots m)) (delete p (procs m)) (kills m))
      end
  end.
(** Every child is reported at most once: their number is enough turns. *)
Definition nv_core_worker_reap_all (m : master) : master := reap_loop (size (procs m)) m.

(** The child runs the program again and never returns here. *)
Fixpoint respawn (l : list nv_worker_slot_t) (k : gmap Z pstate) : list nv_worker_slot_t * gmap Z pstate :=
  match l with
  | [] => ([], k)
  | s :: l' =>
      let '(s, k) := if alive s then (s, k)
                     else let p := fork k in if p <? 0 then (s, k) else (mkSlot p (id s) true, <[p := Running]> k) in
      let '(l', k) := respawn l' k in
      (s :: l', k)
  end.

(** One turn of the loop up to the sleep. *)
Definition turn (worker_respawn : bool) (m : master) : master :=
  let m := nv_core_worker_reap_all m in
  if worker_respawn then let '(l, k) := respawn (slots m) (procs m) in mkMaster l k (kills m) else m.
Definition alive_count (m : master) : nat := length (filter (fun s => alive s = true) (slots m)).

(** Some children end. *)
Definition exits (ps : list Z) (m : master) : master :=
  with_procs (foldl (fun k p => if k !! p is Some _ then <[p := Zombie]> k else k) (procs m) ps) m.

(** The script: the children that end, and the signals that arrive, during each sleep.  The
    result says whether the loop was left before the script ended. *)
Fixpoint supervise_loop (worker_respawn : bool) (script : list (list Z * list Z)) (m : master) (g : sigstate)
  : bool * master * sigstate :=
  if g_master_quit g then (true, m, g) else
  let m := turn worker_respawn m in
  if (alive_count m =? 0)%nat && negb worker_respawn then (true, m, g) else
  match script with
  | [] => (false, m, g)
  | (ps, sigs) :: script' => supervise_loop worker_respawn script' (exits ps m) (arrive sigs g)
  end.

Definition send_term (m : master) : master :=
  mkMaster (slots m) (procs m)
    (kills m ++ map (fun s => (pid s, SIGTERM)) (filter (fun s => alive s = true /\ 0 < pid s) (slots m))).
(** [n] rounds of reaping, with what ends during each sleep. *)
Fixpoint drain (n : nat) (ps : nat -> list Z) (m : master) : master :=
  match n with O => m | S n' => drain n' (fun i => ps (S i)) (exits (ps O) (nv_core_worker_reap_all m)) end.
(** [kill(SIGKILL)] and [waitpid] for the child, which ends. *)
Definition kill_rest (m : master) : master :=
  foldl (fun m s => if alive s && (0 <? pid s)
                    then mkMaster (slots m) (delete (pid s) (procs m)) (kills m ++ [(pid s, SIGKILL)]) else m) m (slots m).

(** [None]: still supervising when the script ends. *)
Definition nv_core_master_supervise (worker_respawn : bool) (script : list (list Z * list Z)) (grace : nat -> list Z) (m : master)
  : option Z * master * sigstate :=
  let '(done, m, g) := supervise_loop worker_respawn script m (mkSig false []) in
  if done : bool then
    let m := send_term m in
    let m := drain 30 grace m in
    (Some NV_OK, kill_rest m, g)
  else (None, m, g).

End supervise.

(** What this process is after the launch. *)
Record role := mkRole { is_master : bool; is_worker : bool; worker_id : Z }.
(** [forks] are the results of [fork] one after the other; 0 is the child's.  The loop's
    outcome: an error, a child, or the master with its table. *)
Inductive launched := LError (m : master) | LChild (r : role) | LMaster (m : master).
Fixpoint launch_loop (n : nat) (i : Z) (forks : list Z) (m : master) : launched :=
  match n with
  | O => LMaster m
  | S n' =>
      let p := default (-1) (head forks) in
      if p <? 0 then LError m
      else if p =? 0 then LChild (mkRole false true (i + 1))
      else launch_loop n' (i + 1) (tail forks)
             (mkMaster (slots m ++ [mkSlot p (i + 1) true]) (<[p := Running]> (procs m)) (kills m))
  end.
Definition nv_core_workers_launch (pick : gmap Z pstate -> option Z) (fork : gmap Z pstate -> Z) (worker_processes : Z)
    (worker_respawn : bool) (forks : list Z) (script : list (list Z * list Z)) (grace : nat -> list Z) : option Z * role * master :=
  let none := mkMaster [] ∅ [] in
  if worker_processes <=? 1 then (Some NV_OK, mkRole false false 0, none) else
  let n := if NV_CORE_WORKER_MAX <? worker_processes then NV_CORE_WORKER_MAX else worker_processes in
  match launch_loop (Z.to_nat n) 0 forks none with
  | LError m => (Some NV_ERROR, mkRole false false 0, m)
  | LChild r => (Some NV_OK, r, none)
  | LMaster m =>
      let '(rc, m, _) := nv_core_master_supervise pick fork worker_respawn script grace m in
      ((fun _ => NV_DECLINED) <$> rc, mkRole true false 0, m)
  end.

(** ** The table *)

(** The children are the workers that count as alive, each once. *)
Definition live_pids (l : list nv_worker_slot_t) : list Z := pid <$> filter (fun s => alive s = true) l.
Record table_ok (m : master) : Prop := {
  ok_dom : dom (procs m) =@{gset Z} list_to_set (live_pids (slots m));
  ok_nodup : NoDup (live_pids (slots m));
  ok_pos : Forall (fun p => 0 < p) (live_pids (slots m));
}.

Lemma live_pids_cons s l : live_pids (s :: l) = if alive s then pid s :: live_pids l else live_pids l.
Proof. unfold live_pids. rewrite filter_cons. by destruct (alive s). Qed.
Lemma mark_exited_live p l : p ∈ live_pids l -> live_pids l ≡ₚ p :: live_pids (mark_exited p l).
Proof.
  induction l as [|s l IH]; [by intros ?%elem_of_nil|]. rewrite live_pids_cons. simpl. destruct (alive s) eqn:Es; simpl.
  - destruct (Z.eqb_spec (pid s) p) as [->|Hne]; intros Hp.
    + rewrite live_pids_cons. simpl. done.
    + apply elem_of_cons in Hp as [->|Hp]; [done|]. rewrite live_pids_cons, Es. rewrite (IH Hp). by rewrite Permutation_swap.
  - rewrite live_pids_cons, Es. apply IH.
Qed.
Lemma length_mark_exited p l : length (mark_exited p l) = length l.
Proof. induction l as [|s l IH]; simpl; [done|]. destruct (_ && _); simpl; congruence. Qed.

Section reaping.
Variable pick : gmap Z pstate -> option Z.
(** [waitpid] reports an ended child when there is one, and only such. *)
Hypothesis pick_some : forall k p, pick k = Some p -> k !! p = Some Zombie.
Hypothesis pick_none : forall k p, pick k = None -> k !! p <> Some Zombie.
Lemma reap_step_ok m p : table_ok m -> pick (procs m) = Some p ->
  table_ok (mkMaster (mark_exited p (slots m)) (delete p (procs m)) (kills m)).
Proof using Type*.
  intros [Hd Hn Hp] Hpk. apply pick_some in Hpk. assert (p ∈ live_pids (slots m)) as Hin.
  { apply elem_of_dom_2 in Hpk. rewrite Hd in Hpk. by apply elem_of_list_to_set in Hpk. }
  pose proof (mark_exited_live p _ Hin) as Hperm. rewrite Hperm in Hn. rewrite Hperm in Hp.
  apply NoDup_cons in Hn as [Hn1 Hn2]. apply Forall_cons in Hp as [_ Hp]. split; simpl; [|done|done].
  rewrite dom_delete_L, Hd. rewrite (list_to_set_perm_L _ _ Hperm). simpl. set_solver.
Qed.

(** Reaping: no ended child is left, the table still lists the children. *)
Lemma reap_spec m : table_ok m -> let m' := nv_core_worker_reap_all pick m in
  table_ok m' /\ (forall p, procs m' !! p <> Some Zombie) /\ (forall p, procs m' !! p = Some Running <-> procs m !! p = Some Running) /\
  length (slots m') = length (slots m) /\ kills m' = kills m.
Proof using Type*.
  unfold nv_core_worker_reap_all. remember (size (procs m)) as n eqn:En. revert m En. induction n as [|n IH]; intros m En Hm.
  - simpl. symmetry in En. apply map_size_empty_inv in En. split_and!; try done. intros p. by rewrite En, lookup_empty.
  - cbn [reap_loop]. destruct (pick (procs m)) as [p|] eqn:Ep; [|split_and!; try done; intros p; by apply pick_none].
    pose proof (pick_some _ _ Ep) as Hz. destruct (IH (mkMaster (mark_exited p (slots m)) (delete p (procs m)) (kills m))) as (H1 & H2 & H3 & H4 & H5).
    + simpl. rewrite map_size_delete, Hz. lia.
    + by apply reap_step_ok.
    + split_and!; [done|done| |by rewrite H4; simpl; rewrite length_mark_exited|done].
      intros q. rewrite H3. simpl. destruct (decide (q = p)) as [->|Hne]; [rewrite lookup_delete_eq, Hz; done|by rewrite lookup_delete_ne].
Qed.

End reaping.

Lemma exits_ok ps m : table_ok m -> table_ok (exits ps m).
Proof.
  intros [Hd Hn Hp]. split; simpl; [|done|done]. rewrite <- Hd. clear. generalize (procs m) as k. clear m.
  induction ps as [|p ps IH]; intros k; [done|]. simpl. rewrite IH. destruct (k !! p) eqn:E; [|done].
  rewrite dom_insert_L. apply elem_of_dom_2 in E. set_solver.
Qed.

Section forking.
Variable fork : gmap Z pstate -> Z.
(** [fork] gives a number that is not in use, or fails. *)
Hypothesis fork_fresh : forall k, fork k < 0 \/ 0 < fork k /\ k !! fork k = None.

(** Respawning: every dead worker that could be forked is alive again. *)
Lemma respawn_spec l k (acc : list Z) : dom k =@{gset Z} list_to_set (acc ++ live_pids l) -> NoDup (acc ++ live_pids l) ->
  Forall (fun p => 0 < p) (acc ++ live_pids l) ->
  let '(l', k') := respawn fork l k in
  dom k' =@{gset Z} list_to_set (acc ++ live_pids l') /\ NoDup (acc ++ live_pids l') /\ Forall (fun p => 0 < p) (acc ++ live_pids l') /\
  length l' = length l /\ ((forall k0, 0 < fork k0) -> Forall (fun s => alive s = true) l').
Proof using Type*.
  revert k acc. induction l as [|s l IH]; intros k acc Hd Hn Hp; [simpl; split_and!; try done; constructor|]. cbn [respawn].
  rewrite live_pids_cons in Hd, Hn, Hp. destruct (alive s) eqn:Es.
  - assert (acc ++ pid s :: live_pids l = (acc ++ [pid s]) ++ live_pids l) as E by (by rewrite <- app_assoc).
    rewrite E in Hd, Hn, Hp. specialize (IH k (acc ++ [pid s]) Hd Hn Hp). destruct (respawn fork l k) as [l' k'].
    rewrite live_pids_cons, Es. rewrite <- app_assoc in IH. destruct IH as (H1 & H2 & H3 & H4 & H5).
    split_and!; [done|done|done|simpl; by rewrite H4|]. intros Hf. constructor; [done|by apply H5].
  - destruct (fork_fresh k) as [Hf|[Hf Hk]]; destruct (Z.ltb_spec (fork k) 0); try lia.
    + specialize (IH k acc Hd Hn Hp). destruct (respawn fork l k) as [l' k']. rewrite live_pids_cons, Es.
      destruct IH as (H1 & H2 & H3 & H4 & H5). split_and!; [done|done|done|simpl; by rewrite H4|]. intros Hf'. specialize (Hf' k). lia.
    + assert (fork k ∉ acc ++ live_pids l) as Hnew.
      { intros Hi. apply (elem_of_list_to_set (C := gset Z)) in Hi. rewrite <- Hd in Hi. apply elem_of_dom in Hi as [? Hi]. congruence. }
      specialize (IH (<[fork k := Running]> k) (acc ++ [fork k])). rewrite <- !app_assoc in IH. simpl in IH.
      destruct (respawn fork l (<[fork k := Running]> k)) as [l' k']. rewrite live_pids_cons. cbn [alive pid].
      rewrite <- app_assoc in IH. simpl in IH. destruct IH as (H1 & H2 & H3 & H4 & H5).
      * rewrite dom_insert_L, Hd. rewrite !list_to_set_app_L. simpl. set_solver.
      * rewrite <- Permutation_middle. by constructor.
      * rewrite <- Permutation_middle. by constructor.
      * split_and!; [done|done|done|simpl; by rewrite H4|]. intros Hf'. constructor; [done|by apply H5].
Qed.
End forking.

Lemma exits_lookup ps m p : procs (exits ps m) !! p =
  if decide (p ∈ ps) then (fun _ => Zombie) <$> procs m !! p else procs m !! p.
Proof.
  unfold exits. cbn [with_procs procs]. generalize (procs m) as k. clear m. induction ps as [|q ps IH]; intros k; [done|].
  cbn [foldl]. rewrite IH. destruct (decide (p = q)) as [->|Hne].
  - rewrite (decide_True (P := q ∈ q :: ps)) by set_solver.
    destruct (k !! q) eqn:E; [rewrite lookup_insert_eq|rewrite E]; by destruct (decide _).
  - assert ((if k !! q is Some _ then <[q := Zombie]> k else k) !! p = k !! p) as ->.
    { destruct (k !! q); [by rewrite lookup_insert_ne|done]. }
    destruct (decide (p ∈ ps)); [rewrite decide_True by set_solver|rewrite decide_False by set_solver]; done.
Qed.
Lemma alive_none m : table_ok m -> alive_count m = O <-> procs m = ∅.
Proof.
  intros [Hd _ _]. unfold alive_count. rewrite <- (length_map pid). change (length (live_pids (slots m)) = O <-> procs m = ∅).
  rewrite length_zero_iff_nil, <- dom_empty_iff_L, Hd. split; [by intros ->|]. intros E.
  destruct (live_pids (slots m)) as [|p l]; [done|]. exfalso. simpl in E. set_solver.
Qed.

Lemma live_none m s : table_ok m -> procs m = ∅ -> s ∈ slots m -> alive s = false.
Proof.
  intros Hm Hp%(alive_none m Hm) Hs. apply length_zero_iff_nil in Hp. destruct (alive s) eqn:E; [|done]. exfalso.
  assert (s ∈ filter (fun s => alive s = true) (slots m)) as H by (by apply list_elem_of_filter).
  rewrite Hp in H. by apply elem_of_nil in H.
Qed.
(** ** Supervision *)
Section supervision.
Variable pick : gmap Z pstate -> option Z.
Variable fork : gmap Z pstate -> Z.
Hypothesis pick_some : forall k p, pick k = Some p -> k !! p = Some Zombie.
Hypothesis pick_none : forall k p, pick k = None -> k !! p <> Some Zombie.
Hypothesis fork_fresh : forall k, fork k < 0 \/ 0 < fork k /\ k !! fork k = None.

Lemma turn_ok b m : table_ok m -> table_ok (turn pick fork b m) /\ length (slots (turn pick fork b m)) = length (slots m) /\
  (b = true -> (forall k, 0 < fork k) -> Forall (fun s => alive s = true) (slots (turn pick fork b m))).
Proof using Type*.
  intros Hm. unfold turn. destruct (reap_spec pick pick_some pick_none m Hm) as (H1 & _ & _ & H4 & _).
  set (m1 := nv_core_worker_reap_all pick m) in *. destruct b; [|by split_and!]. destruct H1 as [Hd Hn Hp].
  pose proof (respawn_spec fork fork_fresh (slots m1) (procs m1) [] Hd Hn Hp) as Hr. destruct (respawn fork (slots m1) (procs m1)) as [l k].
  destruct Hr as (R1 & R2 & R3 & R4 & R5). split_and!; [by split|by rewrite <- H4|]. intros _. exact R5.
Qed.

(** A signal changes nothing but the queue: the flag is never set. *)
Lemma supervise_deaf b script : forall m g, g_master_quit g = false ->
  g_master_quit (supervise_loop pick fork b script m g).2 = false.
Proof using Type.
  induction script as [|[ps sigs] script IH]; intros m g Hg; cbn [supervise_loop]; rewrite Hg; destruct (_ && _); try done.
  by apply IH.
Qed.
Lemma supervise_loop_ok b script : forall m g, table_ok m -> table_ok (supervise_loop pick fork b script m g).1.2.
Proof using Type*.
  induction script as [|[ps sigs] script IH]; intros m g Hm; cbn [supervise_loop]; destruct (g_master_quit g); try done;
    pose proof (turn_ok b m Hm) as (H1 & _); destruct (_ && _); try done.
  by apply IH, exits_ok.
Qed.
(** With respawning the loop is not left. *)
Lemma supervise_respawns script : forall m g, g_master_quit g = false -> (supervise_loop pick fork true script m g).1.1 = false.
Proof using Type.
  induction script as [|[ps sigs] script IH]; intros m g Hg; cbn [supervise_loop]; rewrite Hg, andb_false_r; [done|]. by apply IH.
Qed.

(** Without respawning the loop is left exactly when every child has ended, and then there is
    none; nothing is sent. *)
Lemma supervise_ends script : forall m g, table_ok m -> g_master_quit g = false ->
  ((supervise_loop pick fork false script m g).1.1 = true <->
   forall p, procs m !! p = Some Running -> p ∈ concat (map fst script)) /\
  ((supervise_loop pick fork false script m g).1.1 = true -> procs (supervise_loop pick fork false script m g).1.2 = ∅) /\
  kills (supervise_loop pick fork false script m g).1.2 = kills m.
Proof using Type*.
  induction script as [|[ps sigs] script IH]; intros m g Hm Hg; cbn [supervise_loop]; rewrite Hg;
    change (turn pick fork false m) with (nv_core_worker_reap_all pick m);
    destruct (reap_spec pick pick_some pick_none m Hm) as (Hm1 & Hz & Hr & _ & Hk);
    set (m1 := nv_core_worker_reap_all pick m) in *; cbn [negb]; rewrite andb_true_r;
    pose proof (alive_none m1 Hm1) as Ha.
  - destruct (Nat.eqb_spec (alive_count m1) 0) as [E|E]; cbn [fst snd].
    + apply Ha in E. split_and!; [|done|done]. split; [|done]. intros _ p Hp%Hr. by rewrite E, lookup_empty in Hp.
    + split_and!; [|done|done]. split; [done|]. intros H. destruct E. apply Ha, map_eq. intros p. rewrite lookup_empty.
      destruct (procs m1 !! p) as [[]|] eqn:Ep; [|by apply Hz in Ep|done]. apply Hr, H in Ep. by apply elem_of_nil in Ep.
  - destruct (Nat.eqb_spec (alive_count m1) 0) as [E|E]; cbn [fst snd].
    + apply Ha in E. split_and!; [|done|done]. split; [|done]. intros _ p Hp%Hr. by rewrite E, lookup_empty in Hp.
    + destruct (IH (exits ps m1) (arrive sigs g)) as (H1 & H2 & H3); [by apply exits_ok|done|]. split_and!; [|done|by rewrite H3].
      rewrite H1. cbn [map fst concat]. split; intros H p Hp.
      * apply elem_of_app. destruct (decide (p ∈ ps)); [by left|right]. apply H. rewrite exits_lookup, decide_False by done. by apply Hr.
      * rewrite exits_lookup in Hp. destruct (decide (p ∈ ps)); [by destruct (procs m1 !! p)|].
        apply Hr, H, elem_of_app in Hp as [|]; done.
Qed.

End supervision.

(** The part after the loop, when there is no child. *)
Lemma reap_empty pick m : procs m = ∅ -> nv_core_worker_reap_all pick m = m.
Proof. unfold nv_core_worker_reap_all. intros ->. by rewrite map_size_empty. Qed.
Lemma drain_empty pick n : forall ps m, procs m = ∅ -> slots (drain pick n ps m) = slots m /\
  procs (drain pick n ps m) = ∅ /\ kills (drain pick n ps m) = kills m.
Proof.
  induction n as [|n IH]; intros ps m Hm; [done|]. cbn [drain]. rewrite reap_empty by done.
  assert (procs (exits (ps O) m) = ∅) as He.
  { apply map_eq. intros p. rewrite exits_lookup, Hm, lookup_empty. by destruct (decide _). }
  by destruct (IH (fun i => ps (S i)) _ He).
Qed.
Lemma stop_empty pick grace m : table_ok m -> procs m = ∅ ->
  procs (kill_rest (drain pick 30 grace (send_term m))) = ∅ /\ kills (kill_rest (drain pick 30 grace (send_term m))) = kills m.
Proof.
  intros Hm Hp. pose proof (fun s => live_none m s Hm Hp) as Hd.
  assert (kills (send_term m) = kills m) as Hk.
  { unfold send_term. cbn [kills]. replace (filter _ (slots m)) with (@nil nv_worker_slot_t); [by rewrite app_nil_r|].
    symmetry. destruct (filter _ (slots m)) as [|s l] eqn:Ef; [done|].
    assert (s ∈ filter (fun s => alive s = true /\ 0 < pid s) (slots m)) as Hs by (rewrite Ef; apply list_elem_of_here).
    apply list_elem_of_filter in Hs as [[Ha _] Hs]. by rewrite Hd in Ha. }
  destruct (drain_empty pick 30 grace (send_term m)) as (H1 & H2 & H3); [done|]. rewrite <- Hk, <- H3, <- H2 at 1.
  set (m1 := drain pick 30 grace (send_term m)) in *.
  assert (kill_rest m1 = m1) as ->; [|done]. unfold kill_rest. rewrite H1. change (slots (send_term m)) with (slots m).
  clear -Hd. generalize m1. induction (slots m) as [|s l IH]; intros m2; [done|]. cbn [foldl]. rewrite (Hd s) by set_solver. cbn [andb].
  apply IH. intros s' Hs'. apply Hd. set_solver.
Qed.
(** The launch in the master: one entry for each child. *)
Lemma launch_spec n i ps rest m : table_ok m -> Forall (fun p => 0 < p) ps -> NoDup (ps ++ live_pids (slots m)) -> (length ps <= n)%nat ->
  exists m', launch_loop n i (ps ++ rest) m = launch_loop (n - length ps) (i + Z.of_nat (length ps)) rest m' /\
    table_ok m' /\ live_pids (slots m') ≡ₚ ps ++ live_pids (slots m) /\ length (slots m') = (length (slots m) + length ps)%nat /\
    (forall p, p ∈ ps -> procs m' !! p = Some Running) /\ (forall p, p ∉ ps -> procs m' !! p = procs m !! p) /\ kills m' = kills m.
Proof.
  revert n i m. induction ps as [|p ps IH]; intros n i m Hm Hpos Hnd Hlen.
  { exists m. simpl. rewrite Nat.sub_0_r, Z.add_0_r, Nat.add_0_r. split_and!; try done. by intros p ?%elem_of_nil. }
  simpl in Hlen. destruct n as [|n]; [lia|]. apply Forall_cons in Hpos as [Hp Hpos]. simpl in Hnd. apply NoDup_cons in Hnd as [Hnp Hnd].
  cbn [app launch_loop head tail]. change (default (-1) (Some p)) with p. destruct (Z.ltb_spec p 0); [lia|]. destruct (Z.eqb_spec p 0); [lia|].
  set (m1 := mkMaster _ _ _). assert (live_pids (slots m1) ≡ₚ p :: live_pids (slots m)) as Hl.
  { unfold m1. simpl. unfold live_pids. rewrite filter_app, fmap_app. simpl. by rewrite Permutation_app_comm. }
  destruct (IH n (i + 1) m1) as (m' & E & H1 & H2 & H3 & H4 & H5 & H6).
  - destruct Hm as [Hd Hn Hp0]. split; [|rewrite Hl; constructor; [set_solver|done]|rewrite Hl; by constructor].
    rewrite (list_to_set_perm_L _ _ Hl). simpl. rewrite dom_insert_L. set_solver.
  - done.
  - rewrite Hl. rewrite <- Permutation_middle. by constructor.
  - lia.
  - exists m'. split; [rewrite E; cbn [length]; replace (S n - S (length ps))%nat with (n - length ps)%nat by lia; replace (i + Z.of_nat (S (length ps))) with (i + 1 + Z.of_nat (length ps)) by lia; done|]. split; [done|]. split; [rewrite H2, Hl; by rewrite <- Permutation_middle|].
    split; [rewrite H3; unfold m1; simpl; rewrite length_app; simpl; lia|]. split_and!; [| |done].
    + intros q [->|Hq]%elem_of_cons; [|by apply H4]. rewrite H5 by set_solver. apply lookup_insert_eq.
    + intros q Hq. rewrite H5 by set_solver. unfold m1. simpl. rewrite lookup_insert_ne; [done|]. set_solver.
Qed.
Lemma empty_ok : table_ok (mkMaster [] ∅ []).
Proof. split; simpl; [by rewrite dom_empty_L|constructor|constructor]. Qed.

(** ** Properties *)

(** C30: the supervision of [n] launched workers, whatever they do and whatever signals
    arrive.  The master lists exactly its children in its table; with respawning it does not
    return; without, it returns NV_DECLINED exactly when every worker has ended, and then no
    child is left, running or ended, and nothing was sent.  SIGINT and SIGTERM do not end
    it. *)
Theorem nv_core_workers_supervised pick fork n respawn forks script grace :
  (forall k p, pick k = Some p -> k !! p = Some Zombie) -> (forall k p, pick k = None -> k !! p <> Some Zombie) ->
  (forall k, fork k < 0 \/ 0 < fork k /\ k !! fork k = None) ->
  1 < n -> Forall (fun p => 0 < p) forks -> NoDup forks -> Z.of_nat (length forks) = Z.min n NV_CORE_WORKER_MAX ->
  exists rc m, nv_core_workers_launch pick fork n respawn forks script grace = (rc, mkRole true false 0, m) /\
    (rc = None -> dom (procs m) =@{gset Z} list_to_set (live_pids (slots m))) /\
    (respawn = true -> rc = None) /\
    (respawn = false ->
       kills m = [] /\
       if decide (Forall (fun p => p ∈ concat (map fst script)) forks) then rc = Some NV_DECLINED /\ procs m = ∅ else rc = None).
Proof.
  intros H1 H2 H3 Hn Hp Hd Hl. unfold nv_core_workers_launch. destruct (Z.leb_spec n 1); [lia|].
  assert ((if NV_CORE_WORKER_MAX <? n then NV_CORE_WORKER_MAX else n) = Z.of_nat (length forks)) as ->
    by (rewrite Hl; destruct (Z.ltb_spec NV_CORE_WORKER_MAX n); lia).
  rewrite Nat2Z.id. destruct (launch_spec (length forks) 0 forks [] (mkMaster [] ∅ []) empty_ok Hp) as (m & E & Hm & _ & _ & Hin & Hout & Hk);
    [by rewrite app_nil_r|lia|]. rewrite app_nil_r, Nat.sub_diag in E. rewrite E. cbn [launch_loop]. unfold nv_core_master_supervise.
  pose proof (supervise_loop_ok pick fork H1 H2 H3 respawn script m (mkSig false []) Hm) as Hok.
  destruct respawn.
  - pose proof (supervise_respawns pick fork script m (mkSig false []) eq_refl) as Hr.
    destruct (supervise_loop pick fork true script m _) as [[lf m1] g]. cbn in Hr, Hok. subst lf. cbn.
    exists None, m1. split_and!; try done. intros _. apply Hok.
  - pose proof (supervise_ends pick fork H1 H2 H3 script m (mkSig false []) Hm eq_refl) as (He & Hp0 & Hk0).
    destruct (supervise_loop pick fork false script m _) as [[lf m1] g]. cbn in He, Hp0, Hk0, Hok. rewrite Hk in Hk0.
    assert (lf = true <-> Forall (fun p => p ∈ concat (map fst script)) forks) as Hiff.
    { rewrite He, Forall_forall. split; intros H' p Hpp; [by apply H', Hin|]. apply H'. destruct (decide (p ∈ forks)) as [|Hnot]; [done|].
      rewrite (Hout p Hnot) in Hpp. cbn in Hpp. by rewrite lookup_empty in Hpp. }
    destruct lf.
    + destruct (stop_empty pick grace m1 Hok (Hp0 eq_refl)) as [Hs1 Hs2]. exists (Some NV_DECLINED), (kill_rest (drain pick 30 grace (send_term m1))).
      split; [done|]. split; [done|]. split; [done|]. intros _. rewrite Hs1, Hs2, decide_True by (by apply Hiff). done.
    + eexists None, m1. split; [done|]. split; [intros _; apply Hok|]. split; [done|]. intros _. split; [done|].
      rewrite decide_False; [done|]. by intros ?%Hiff.
Qed.
(** An ended child if there is one, and the number after the largest one. *)
Definition first_zombie (k : gmap Z pstate) : option Z := head (filter (fun x => x.2 = Zombie) (map_to_list k)).*1.
Lemma first_zombie_some k p : first_zombie k = Some p -> k !! p = Some Zombie.
Proof.
  unfold first_zombie. destruct (filter _ _) as [|[q z] l] eqn:E; [done|]. simpl. intros [= <-].
  assert ((q, z) ∈ filter (fun x : Z * pstate => x.2 = Zombie) (map_to_list k)) as H by (rewrite E; set_solver).
  apply list_elem_of_filter in H as [Hz H]. simpl in Hz. subst z. by apply elem_of_map_to_list.
Qed.
Lemma first_zombie_none k p : first_zombie k = None -> k !! p <> Some Zombie.
Proof.
  unfold first_zombie. destruct (filter _ _) as [|x l] eqn:E; [|done]. intros _ Hp. apply elem_of_map_to_list in Hp.
  assert ((p, Zombie) ∈ filter (fun x : Z * pstate => x.2 = Zombie) (map_to_list k)) as H by (by apply list_elem_of_filter).
  rewrite E in H. by apply elem_of_nil in H.
Qed.
Lemma next_pid_ok (k : gmap Z pstate) : next_key 2 k < 0 \/ 0 < next_key 2 k /\ k !! next_key 2 k = None.
Proof. right. split; [|apply next_key_fresh]. pose proof (next_key_low 2 k). lia. Qed.
Lemma nv_core_workers_supervised_witness :
  exists rc m, nv_core_workers_launch first_zombie (next_key 2) 2 false [10; 11] [([10], [SIGTERM]); ([11], [])] (fun _ => []) =
    (rc, mkRole true false 0, m) /\ kills m = [] /\
    if decide (Forall (fun p => p ∈ [10; 11]) [10; 11]) then rc = Some NV_DECLINED /\ procs m = ∅ else rc = None.
Proof.
  destruct (nv_core_workers_supervised first_zombie (next_key 2) 2 false [10; 11] [([10], [SIGTERM]); ([11], [])] (fun _ => []))
    as (rc & m & E & _ & _ & H);
    [apply first_zombie_some|apply first_zombie_none|apply next_pid_ok|lia|by repeat constructor| |reflexivity|].
  - apply (bool_decide_eq_true_1 (NoDup [10; 11])). reflexivity.
  - exists rc, m. split; [exact E|]. exact (H eq_refl).
Defined.

(** A signal that arrives changes nothing but the queue of the signalfd: [g_master_quit] is
    never set, although the handler would set it. *)
Theorem nv_core_master_deaf pick fork respawn script m :
  g_master_quit (supervise_loop pick fork respawn script m (mkSig false [])).2 = false /\
  g_master_quit (nv_core_master_on_signal SIGTERM (mkSig false [])) = true.
Proof. split; [by apply supervise_deaf|done]. Qed.

(** With respawning and forks that succeed, every worker of the table runs again at the
    end of each turn of the supervision, as many as were launched, and the table lists
    exactly the children. *)
Theorem nv_core_workers_respawned pick fork m :
  (forall k p, pick k = Some p -> k !! p = Some Zombie) -> (forall k p, pick k = None -> k !! p <> Some Zombie) ->
  (forall k, 0 < fork k /\ k !! fork k = None) -> table_ok m ->
  let m' := turn pick fork true m in
  table_ok m' /\ length (slots m') = length (slots m) /\ Forall (fun s => alive s = true) (slots m').
Proof.
  intros H1 H2 H3 Hm m'. destruct (turn_ok pick fork H1 H2) with (b := true) (m := m) as (T1 & T2 & T3); [by right|done|].
  split_and!; [done|done|]. apply T3; [done|]. intros k. apply H3.
Qed.
Lemma nv_core_workers_respawned_witness :
  let m' := turn first_zombie (next_key 2) true (mkMaster [mkSlot 10 1 true] {[10 := Zombie]} []) in
  table_ok m' /\ length (slots m') = 1%nat /\ Forall (fun s => alive s = true) (slots m').
Proof.
  apply (nv_core_workers_respawned first_zombie (next_key 2) (mkMaster [mkSlot 10 1 true] {[10 := Zombie]} []));
    [apply first_zombie_some|apply first_zombie_none| |].
  - intros k. destruct (next_pid_ok k) as [H|H]; [pose proof (next_key_low 2 k); lia|done].
  - split; simpl; [by rewrite dom_singleton_L, union_empty_r_L|apply NoDup_singleton|by repeat constructor].
Defined.

(** When a fork fails during the launch, the workers started before it keep running and
    nobody supervises them: the launch reports NV_ERROR. *)
Theorem nv_core_workers_launch_abandons pick fork n respawn ps rest script grace :
  1 < n -> Forall (fun p => 0 < p) ps -> NoDup ps -> Z.of_nat (length ps) < Z.min n NV_CORE_WORKER_MAX ->
  exists m, nv_core_workers_launch pick fork n respawn (ps ++ -1 :: rest) script grace = (Some NV_ERROR, mkRole false false 0, m) /\
    forall p, p ∈ ps -> procs m !! p = Some Running.
Proof.
  intros Hn Hp Hd Hl. unfold nv_core_workers_launch. destruct (Z.leb_spec n 1); [lia|].
  set (k := if NV_CORE_WORKER_MAX <? n then _ else _). assert (Z.of_nat (length ps) < k) as Hk
    by (unfold k; destruct (Z.ltb_spec NV_CORE_WORKER_MAX n); lia).
  destruct (launch_spec (Z.to_nat k) 0 ps (-1 :: rest) (mkMaster [] ∅ []) empty_ok Hp) as (m & E & _ & _ & _ & Hr & _ & _);
    [by rewrite app_nil_r|lia|]. rewrite E. destruct (Z.to_nat k - length ps)%nat eqn:Ek; [lia|]. cbn [launch_loop head].
  exists m. done.
Qed.
Lemma nv_core_workers_launch_abandons_witness :
  exists m, nv_core_workers_launch first_zombie (next_key 2) 4 false [10; -1] [] (fun _ => []) = (Some NV_ERROR, mkRole false false 0, m) /\
    forall p, p ∈ [10] -> procs m !! p = Some Running.
Proof.
  apply (nv_core_workers_launch_abandons first_zombie (next_key 2) 4 false [10] [] [] (fun _ => []));
    [lia|by repeat constructor|apply NoDup_singleton|reflexivity].
Defined.

End Worker.
