(* ===== verification/Runtime.v ===== *)
(** * Process runtime (core/runtime/nv_core_run.c, nv_core_startup.c, nv_core_lock.c)

    The life of the process around its main loop: the instance lock (a bound abstract
    socket name), the pid file and its record lock, the order of startup and shutdown, and
    signals.  What other processes share is the operating system's state [os]: paths and
    inodes with the process that locked them, and the abstract names with the process that
    bound them.  Components modelled elsewhere (configuration, logging, plugins, workers,
    business modules) appear here with their results.  Theorems: one instance at a time
    passes the lock, every return of [nv_core_run] gives back its locks and strings (a worker
    leaves the master's locks, a fatal signal leaves the pid file), the deadline of a shutdown;
    a second instance that is refused removes the first one's pid file, and a
    second shutdown frees strings twice. *)
From S2P Require Import Prelude EventLoop.
Import EventLoop.

Module Runtime.

Definition NV_OK : Z := 0.
Definition NV_ERROR : Z := -1.
Definition NV_BUSY : Z := -3.
Definition NV_DECLINED : Z := -5.
Definition NV_CORE_DEFAULT_LOCK_NAME : cstr := str "libnv".

Inductive nv_core_phase_t :=
  | NV_CORE_PHASE_NONE | NV_CORE_PHASE_STARTUP | NV_CORE_PHASE_BUSINESS | NV_CORE_PHASE_LOOP | NV_CORE_PHASE_SHUTDOWN | NV_CORE_PHASE_EXCEPTION.
#[export] Instance phase_eq_dec : EqDecision nv_core_phase_t.
Proof. solve_decision. Defined.

Record inode := mkInode { content : cstr; locked_by : option Z }.
Record os := mkOs { paths : gmap cstr Z; inodes : gmap Z inode; names : gmap cstr Z }.
(** [pid_fd] is the inode of the open pid file, [lock_fd] the name bound by the lock
    socket; [ini] is the configuration, [dups] and [kept_dups] are the copied strings that the
    shutdown frees, those whose pointer it clears and those it does not; [heap] is the memory
    they live in. *)
Record nv_core_ctx_t := mkCtx {
  phase : nv_core_phase_t; pid_fd : option Z; lock_fd : option cstr; opt_pid_file : option cstr; opt_instance_lock : option cstr;
  opt_use_syslog : bool; ini : Z; dups : list Z; kept_dups : list Z; heap : gset Z
}.
Definition set_phase (p : nv_core_phase_t) (c : nv_core_ctx_t) :=
  mkCtx p (pid_fd c) (lock_fd c) (opt_pid_file c) (opt_instance_lock c) (opt_use_syslog c) (ini c) (dups c) (kept_dups c) (heap c).
Definition set_pid_fd (v : option Z) (c : nv_core_ctx_t) :=
  mkCtx (phase c) v (lock_fd c) (opt_pid_file c) (opt_instance_lock c) (opt_use_syslog c) (ini c) (dups c) (kept_dups c) (heap c).
Definition set_lock_fd (v : option cstr) (c : nv_core_ctx_t) :=
  mkCtx (phase c) (pid_fd c) v (opt_pid_file c) (opt_instance_lock c) (opt_use_syslog c) (ini c) (dups c) (kept_dups c) (heap c).
Definition set_memory (n : Z) (d k : list Z) (h : gset Z) (c : nv_core_ctx_t) :=
  mkCtx (phase c) (pid_fd c) (lock_fd c) (opt_pid_file c) (opt_instance_lock c) (opt_use_syslog c) n d k h.
(** What the shutdown frees. *)
Definition owned (c : nv_core_ctx_t) : list Z := ini c :: dups c ++ kept_dups c.

Definition with_names (n : gmap cstr Z) (o : os) := mkOs (paths o) (inodes o) n.
Definition with_inodes (i : gmap Z inode) (o : os) := mkOs (paths o) i (names o).
Definition with_paths (p : gmap cstr Z) (o : os) := mkOs p (inodes o) (names o).

(** ** The instance lock *)

(** [sun_path] has 108 bytes; [snprintf] writes up to 105 of them after the leading NUL, and
    the length given to [bind] counts the whole name. *)
Definition SUN_PATH : Z := 108.
Definition lock_key (name : cstr) : cstr :=
  take (length name + 6) (take 105 (str "libnv-" ++ name) ++ replicate 3 0).
(** [sock]: whether a socket is obtained; [self] is the process. *)
Definition nv_core_instance_lock_acquire (sock : bool) (o : os) (self : Z) (lock_name : option cstr) : Z * option cstr * os :=
  let name := match lock_name with Some (c :: s) => c :: s | _ => NV_CORE_DEFAULT_LOCK_NAME end in
  if negb sock then (NV_ERROR, None, o) else
  if 2 + SUN_PATH <? 2 + 1 + strlen name + 6 then (NV_ERROR, None, o) else
  match names o !! lock_key name with
  | Some _ => (NV_BUSY, None, o)
  | None => (NV_OK, Some (lock_key name), with_names (<[lock_key name := self]> (names o)) o)
  end.
(** [owner]: whether this process took the locks.  A forked worker has copies of the
    descriptors: closing them leaves the name bound, which the master's descriptor keeps, and
    the record lock of the pid file, which is the master's. *)
Definition nv_core_instance_lock_release (owner : bool) (o : os) (lock : option cstr) : os :=
  match lock with Some k => if owner then with_names (delete k (names o)) o else o | None => o end.

(** ** The pid file *)

Definition close_inode (i : Z) (o : os) : os := with_inodes (alter (fun n => mkInode (content n) None) i (inodes o)) o.
(** [open]: whether the file can be opened; [text]: the number printed; [trunc]: whether it
    can be written. *)
Definition nv_core_pidfile_create (open trunc : bool) (text : cstr) (o : os) (self : Z) (c : nv_core_ctx_t) : Z * nv_core_ctx_t * os :=
  match opt_pid_file c with
  | None => (NV_OK, c, o)
  | Some file =>
      if negb open then (NV_ERROR, c, o) else
      let '(i, o) := match paths o !! file with
                     | Some i => (i, o)
                     | None => let i := next_key 1 (inodes o) in (i, mkOs (<[file := i]> (paths o)) (<[i := mkInode [] None]> (inodes o)) (names o))
                     end in
      match inodes o !! i with
      | None => (NV_ERROR, c, o)
      | Some n =>
          match locked_by n with
          | Some q => if q =? self then (NV_OK, set_pid_fd (Some i) c, with_inodes (<[i := mkInode (if trunc then text else content n) (Some self)]> (inodes o)) o)
                      else (NV_BUSY, c, o)
          | None => (NV_OK, set_pid_fd (Some i) c, with_inodes (<[i := mkInode (if trunc then text else content n) (Some self)]> (inodes o)) o)
          end
      end
  end.
Definition nv_core_pidfile_remove (owner : bool) (o : os) (c : nv_core_ctx_t) : nv_core_ctx_t * os :=
  let '(c, o) := match pid_fd c with Some i => (set_pid_fd None c, if owner then close_inode i o else o) | None => (c, o) end in
  match opt_pid_file c with Some file => (c, with_paths (delete file (paths o)) o) | None => (c, o) end.

(** ** Startup and shutdown *)

(** The results of the parts that are modelled elsewhere. *)
Record results := mkResults {
  load_config_ok : bool; validate_ok : bool; daemon_ok : bool; log_ok : bool; sock_ok : bool; open_ok : bool; trunc_ok : bool;
  loadlibs_ok : bool; base_ok : bool; pid_text : cstr
}.
Definition nv_core_startup_init (r : results) (o : os) (self : Z) (c : nv_core_ctx_t) : Z * nv_core_ctx_t * os :=
  let c := set_phase NV_CORE_PHASE_STARTUP c in
  if negb (load_config_ok r) then (NV_ERROR, c, o) else
  if negb (validate_ok r) then (NV_ERROR, c, o) else
  if negb (daemon_ok r) then (NV_ERROR, c, o) else
  if negb (log_ok r) then (NV_ERROR, c, o) else
  let '(rc, lock, o) := nv_core_instance_lock_acquire (sock_ok r) o self (opt_instance_lock c) in
  let c := set_lock_fd lock c in
  if negb (rc =? NV_OK) then (NV_ERROR, c, o) else
  let '(rc, c, o) := nv_core_pidfile_create (open_ok r) (trunc_ok r) (pid_text r) o self c in
  if negb (rc =? NV_OK) then (NV_ERROR, c, o) else
  if negb (loadlibs_ok r) then (NV_ERROR, c, o) else
  if negb (base_ok r) then (NV_ERROR, c, o) else
  (NV_OK, c, o).

Definition free (h : gset Z) (p : Z) : outcome (gset Z) :=
  if p =? 0 then Ret h else if bool_decide (p ∈ h) then Ret (h ∖ {[p]}) else UB.
Fixpoint free_all (h : gset Z) (l : list Z) : outcome (gset Z) :=
  match l with [] => Ret h | p :: l' => h ← free h p; free_all h l' end.

(** The steps of [nv_core_run] and of [nv_core_shutdown], whose parts are modelled with their
    components. *)
Inductive event :=
  | SaveArgv | FreeArgv | Startup | Launch | BusinessInit | Loop | Fatal | BusinessCleanup | Exec
  | Shutdown | LoopStop | BaseCleanup | LoadlibsUnload | PubsubCleanup | PidfileRemove | LockRelease | LogClose | CloseLog | IniFree.

Definition nv_core_shutdown (owner : bool) (o : os) (c : nv_core_ctx_t) : outcome (list event * nv_core_ctx_t * os) :=
  if bool_decide (phase c = NV_CORE_PHASE_SHUTDOWN) then Ret ([], c, o) else
  let c := set_phase NV_CORE_PHASE_SHUTDOWN c in
  let t := [Shutdown; LoopStop; BaseCleanup; LoadlibsUnload; PubsubCleanup; PidfileRemove; LockRelease; LogClose]
             ++ (if opt_use_syslog c then [CloseLog] else []) ++ [IniFree] in
  let '(c, o) := nv_core_pidfile_remove owner o c in
  let o := nv_core_instance_lock_release owner o (lock_fd c) in
  let c := set_lock_fd None c in
  h ← free_all (heap c) (owned c);
  let c := set_memory 0 (map (fun _ => 0) (dups c)) (kept_dups c) h c in
  Ret (t, set_phase NV_CORE_PHASE_NONE c, o).

(** ** The main function *)

(** What the launch of workers gives: no workers are configured; this is a forked worker; the
    master, when its supervision is over; a failed fork. *)
Inductive launch_result := Single | Child | MasterDone | LaunchFailed.
Definition launch_rc (l : launch_result) : Z :=
  match l with Single | Child => NV_OK | MasterDone => NV_DECLINED | LaunchFailed => NV_ERROR end.
(** [parse_rc]: what the command line gives; [user_init]: whether the program brings its own
    business modules; [business_ok]: whether they or the core's could be initialised;
    [fatal]: the fatal signal noted when the loop has ended, or 0; [restart]: whether a
    restart was asked for, [allow_restart]: the hook's answer, [exec_ok]: whether the program
    can be executed. *)
Record script := mkScript {
  parse_rc : Z; startup : results; launch : launch_result; user_init : bool; business_ok : bool; fatal : Z;
  restart : bool; allow_restart : bool; exec_ok : bool
}.
(** A return, the end of the process by a signal, its replacement by a new program. *)
Inductive ending := Returned (rc : Z) | Raised (signum : Z) | Replaced.

(** The kernel closes the descriptors of a process that ends; the files stay. *)
Definition process_end (owner : bool) (o : os) (c : nv_core_ctx_t) : os :=
  let o := match pid_fd c with Some i => if owner then close_inode i o else o | None => o end in
  nv_core_instance_lock_release owner o (lock_fd c).

(** How it ends, what it did, the context and the system. *)
Definition finish (owner : bool) (rc : Z) (t : list event) (o : os) (c : nv_core_ctx_t) : outcome (ending * list event * nv_core_ctx_t * os) :=
  '(t', c, o) ← nv_core_shutdown owner o c;
  Ret (Returned rc, t ++ t' ++ [FreeArgv], c, o).
(** [self] is the process that calls it; from the launch on, with [Child], a worker it forked. *)
Definition nv_core_run (s : script) (o : os) (self : Z) (c : nv_core_ctx_t) : outcome (ending * list event * nv_core_ctx_t * os) :=
  let t := [SaveArgv] in
  if parse_rc s =? NV_DECLINED then Ret (Returned 0, t ++ [FreeArgv], c, o) else
  if negb (parse_rc s =? NV_OK) then Ret (Returned NV_ERROR, t ++ [FreeArgv], c, o) else
  let '(rc, c, o) := nv_core_startup_init (startup s) o self c in
  let t := t ++ [Startup] in
  if negb (rc =? NV_OK) then finish true NV_ERROR t o c else
  let t := t ++ [Launch] in
  let owner := match launch s with Child => false | _ => true end in
  if launch_rc (launch s) =? NV_DECLINED then finish owner NV_OK t o c else
  if negb (launch_rc (launch s) =? NV_OK) then finish owner NV_ERROR t o c else
  let c := if user_init s then c else set_phase NV_CORE_PHASE_BUSINESS c in
  let t := t ++ [BusinessInit] in
  if negb (business_ok s) then finish owner NV_ERROR (t ++ [BusinessCleanup]) o c else
  let c := set_phase NV_CORE_PHASE_LOOP c in
  let t := t ++ [Loop] in
  if negb (fatal s =? 0) then
    let c := set_phase NV_CORE_PHASE_EXCEPTION c in
    Ret (Raised (fatal s), t ++ [Fatal], c, process_end owner o c)
  else
  let t := t ++ [BusinessCleanup] in
  if restart s && allow_restart s then
    '(t', c, o) ← nv_core_shutdown owner o c;
    let t := t ++ t' ++ [Exec] in
    if exec_ok s then Ret (Replaced, t, c, o) else Ret (Returned NV_ERROR, t ++ [FreeArgv], c, o)
  else finish owner NV_OK t o c.

(** ** Signals and the deadline of a shutdown *)

Definition SIGHUP : Z := 1.
Definition SIGINT : Z := 2.
Definition SIGUSR1 : Z := 10.
Definition SIGTERM : Z := 15.
(** The flags of the context, with the loop. *)
Record flags := mkFlags { quit : bool; reload : bool; restart_flag : bool; fatal_signum : Z; shutdown_started_at : Z; loop_w : world }.
Definition started (now : Z) (f : flags) : Z := if shutdown_started_at f =? 0 then now else shutdown_started_at f.
Definition stop_loop (wr : write_result) (f : flags) : world := snd (nv_loop_stop (loop_w f) wr).

Definition nv_core_request_quit (now : Z) (wr : write_result) (f : flags) : Z * flags :=
  (NV_OK, mkFlags true (reload f) (restart_flag f) (fatal_signum f) (started now f) (stop_loop wr f)).
Definition nv_core_on_signal (now : Z) (wr : write_result) (signum : Z) (f : flags) : flags :=
  if (signum =? SIGINT) || (signum =? SIGTERM) then
    mkFlags true (reload f) (restart_flag f) (fatal_signum f) (started now f) (stop_loop wr f)
  else if signum =? SIGHUP then mkFlags (quit f) true (restart_flag f) (fatal_signum f) (shutdown_started_at f) (loop_w f)
  else if signum =? SIGUSR1 then mkFlags true (reload f) true (fatal_signum f) (started now f) (stop_loop wr f)
  else f.
Definition nv_core_exception_handler (wr : write_result) (signum : Z) (f : flags) : flags :=
  mkFlags true (reload f) (restart_flag f) signum (shutdown_started_at f) (stop_loop wr f).
(** [_exit(1)] when the time is over. *)
Definition nv_core_check_shutdown_timeout (timeout now : Z) (f : flags) : outcome flags :=
  if negb (quit f) || (timeout <=? 0) then Ret f else
  let f := mkFlags (quit f) (reload f) (restart_flag f) (fatal_signum f) (started now f) (loop_w f) in
  if timeout <=? now - shutdown_started_at f then Exit 1 else Ret f.
(** [reloaded]: whether the configuration could be read again.  The calls of the hooks and
    the watchdog: reloaded, fed and idle. *)
Inductive idle_call := OnReload | FeedWatchdog | OnIdle.
Definition nv_core_idle_handler (timeout now : Z) (wr : write_result) (reloaded : bool) (f : flags) : outcome (flags * list idle_call) :=
  f ← nv_core_check_shutdown_timeout timeout now f;
  let calls := if reload f && reloaded then [OnReload] else [] in
  let f := mkFlags (quit f) false (restart_flag f) (fatal_signum f) (shutdown_started_at f) (loop_w f) in
  if negb (fatal_signum f =? 0) then
    Ret (mkFlags (quit f) (reload f) (restart_flag f) (fatal_signum f) (shutdown_started_at f) (stop_loop wr f), calls)
  else Ret (f, calls ++ [FeedWatchdog; OnIdle]).

(** ** Locks *)

Definition lock_name (c : nv_core_ctx_t) : cstr :=
  lock_key (match opt_instance_lock c with Some (x :: s) => x :: s | _ => NV_CORE_DEFAULT_LOCK_NAME end).
(** No file is locked by [self]. *)
Definition unlocked (self : Z) (o : os) : Prop := forall i n, inodes o !! i = Some n -> locked_by n <> Some self.
(** A process that holds nothing, with its strings in the heap. *)
Record fresh_ctx (c : nv_core_ctx_t) : Prop := {
  fc_phase : phase c = NV_CORE_PHASE_NONE;
  fc_pid : pid_fd c = None;
  fc_lock : lock_fd c = None;
  fc_nodup : NoDup (filter (fun p => p <> 0) (owned c));
  fc_heap : Forall (fun p => p <> 0 -> p ∈ heap c) (owned c);
}.

Lemma acquire_spec sock o self c :
  let '(rc, lock, o1) := nv_core_instance_lock_acquire sock o self (opt_instance_lock c) in
  rc = NV_OK /\ lock = Some (lock_name c) /\ names o !! lock_name c = None /\ o1 = with_names (<[lock_name c := self]> (names o)) o \/
  rc <> NV_OK /\ lock = None /\ o1 = o.
Proof.
  unfold nv_core_instance_lock_acquire, lock_name. destruct (opt_instance_lock c) as [[|x s]|]; (destruct sock; cbn [negb]; [|by right]);
    (destruct (_ <? _); [by right|]); (destruct (names o !! _) eqn:E; [by right|by left]).
Qed.

(** The pid file: what is locked afterwards is the inode in [pid_fd]. *)
Lemma create_spec open trunc text o self c : unlocked self o -> pid_fd c = None ->
  let '(rc, c1, o1) := nv_core_pidfile_create open trunc text o self c in
  names o1 = names o /\ (exists v, c1 = set_pid_fd v c) /\
  (forall i n, inodes o1 !! i = Some n -> locked_by n = Some self -> pid_fd c1 = Some i) /\
  (rc = NV_OK -> forall file, opt_pid_file c = Some file -> is_Some (paths o1 !! file)).
Proof.
  intros Hu Hp. unfold nv_core_pidfile_create.
  assert (exists v, c = set_pid_fd v c) as Hc by (exists (pid_fd c); by destruct c).
  destruct (opt_pid_file c) as [file|]; [|split_and!; [done|done|intros i n H1 H2; by apply (Hu i n) in H1|done]].
  destruct open; cbn [negb]; [|split_and!; [done|done|intros i n H1 H2; by apply (Hu i n) in H1|done]].
  set (io := match paths o !! file with Some _ => _ | None => _ end).
  assert (names (snd io) = names o /\ unlocked self (snd io) /\ is_Some (paths (snd io) !! file)) as (Hn & Hul & Hpt).
  { unfold io. destruct (paths o !! file) eqn:E; simpl; [by rewrite E|]. split; [done|]. split; [|by rewrite lookup_insert_eq].
    intros i n. simpl. rewrite lookup_insert_Some. intros [[<- <-]|[_ H]]; [done|by apply (Hu i n)]. }
  destruct io as [i o2]. simpl in Hn, Hul, Hpt. destruct (inodes o2 !! i) as [n|] eqn:Ei; last first.
  { split_and!; [done|done| |done]. intros j m H1 H2. by apply (Hul j m) in H1. }
  assert (forall tx, names (with_inodes (<[i := mkInode tx (Some self)]> (inodes o2)) o2) = names o /\
    (exists v, set_pid_fd (Some i) c = set_pid_fd v c) /\
    (forall j m, inodes (with_inodes (<[i := mkInode tx (Some self)]> (inodes o2)) o2) !! j = Some m -> locked_by m = Some self ->
      pid_fd (set_pid_fd (Some i) c) = Some j) /\
    (NV_OK = NV_OK -> forall f, Some file = Some f -> is_Some (paths (with_inodes (<[i := mkInode tx (Some self)]> (inodes o2)) o2) !! f))) as Hset.
  { intros tx. split_and!; [done|by eexists| |by intros _ f [= <-]]. intros j m. simpl. rewrite lookup_insert_Some. intros [[-> <-]|[_ H]] H2; [done|].
    by apply (Hul j m) in H. }
  destruct (locked_by n) as [q|] eqn:Eq; [|apply Hset]. destruct (Z.eqb_spec q self) as [->|Hne]; [apply Hset|].
  split_and!; [done|done| |done]. intros j m H1 H2. by apply (Hul j m) in H1.
Qed.

(** Everything the process holds is in its context. *)
Definition holds_only (self : Z) (o0 o : os) (c : nv_core_ctx_t) : Prop :=
  (forall i n, inodes o !! i = Some n -> locked_by n = Some self -> pid_fd c = Some i) /\
  (lock_fd c = None /\ names o = names o0 \/
   exists k, lock_fd c = Some k /\ names o0 !! k = None /\ names o = <[k := self]> (names o0)).
Definition same_strings (c c' : nv_core_ctx_t) : Prop := owned c' = owned c /\ heap c' = heap c.

Lemma startup_spec r o self c : fresh_ctx c -> unlocked self o ->
  let '(rc, c1, o1) := nv_core_startup_init r o self c in
  holds_only self o o1 c1 /\ same_strings c c1 /\ phase c1 = NV_CORE_PHASE_STARTUP /\ opt_pid_file c1 = opt_pid_file c /\
  (rc = NV_OK -> names o !! lock_name c = None /\ names o1 !! lock_name c = Some self /\
     forall file, opt_pid_file c = Some file -> is_Some (paths o1 !! file)).
Proof.
  intros Hc Hu. pose proof Hc as [_ Hp Hl _ _]. unfold nv_core_startup_init.
  assert (holds_only self o o (set_phase NV_CORE_PHASE_STARTUP c)) as H0.
  { split; [intros i n H1 H2; by apply (Hu i n) in H1|left; done]. }
  destruct (load_config_ok r); cbn [negb]; [|by split_and!]. destruct (validate_ok r); cbn [negb]; [|by split_and!].
  destruct (daemon_ok r); cbn [negb]; [|by split_and!]. destruct (log_ok r); cbn [negb]; [|by split_and!].
  pose proof (acquire_spec (sock_ok r) o self c) as Ha.
  change (opt_instance_lock (set_phase NV_CORE_PHASE_STARTUP c)) with (opt_instance_lock c).
  destruct (nv_core_instance_lock_acquire (sock_ok r) o self (opt_instance_lock c)) as [[rc lock] o1].
  destruct Ha as [(-> & -> & Hk & ->)|(Hrc & -> & ->)]; last first.
  { destruct (Z.eqb_spec rc NV_OK); [done|]. cbn [negb]. split_and!; try done. split; [apply H0|by left]. }
  change (NV_OK =? NV_OK) with true. cbn [negb]. set (c1 := set_lock_fd _ _). set (o1 := with_names _ o).
  pose proof (create_spec (open_ok r) (trunc_ok r) (pid_text r) o1 self c1 Hu Hp) as Hf.
  destruct (nv_core_pidfile_create _ _ _ o1 self c1) as [[rc2 c2] o2]. destruct Hf as (Hn & (v & ->) & Hi & Hpt).
  assert (names o2 !! lock_name c = Some self) as Hk2 by (rewrite Hn; simpl; apply lookup_insert_eq).
  assert (holds_only self o o2 (set_pid_fd v c1)) as H1.
  { split; [exact Hi|]. right. exists (lock_name c). by rewrite Hn. }
  destruct (Z.eqb_spec rc2 NV_OK) as [->|]; cbn [negb]; [|by split_and!]. specialize (Hpt eq_refl).
  destruct (loadlibs_ok r); cbn [negb]; [|by split_and!].
  destruct (base_ok r); cbn [negb]; by split_and!.
Qed.

Lemma free_all_spec l h : NoDup (filter (fun p => p <> 0) l) -> Forall (fun p => p <> 0 -> p ∈ h) l ->
  exists h', free_all h l = Ret h' /\ forall p, p ∈ h' <-> p ∈ h /\ (p ∉ l \/ p = 0).
Proof.
  revert h. induction l as [|p l IH]; intros h Hn Hf; cbn [free_all].
  { exists h. split; [done|]. intros q. split; [|tauto]. intros. split; [done|left; apply not_elem_of_nil]. }
  apply Forall_cons in Hf as [Hp Hf]. unfold free. rewrite filter_cons in Hn. destruct (decide (p <> 0)) as [H0|H0].
  - destruct (Z.eqb_spec p 0); [done|]. rewrite bool_decide_eq_true_2 by auto. cbn [mbind outcome_bind].
    apply NoDup_cons in Hn as [Hnp Hn]. destruct (IH (h ∖ {[p]}) Hn) as (h' & E & Hh).
    + rewrite Forall_forall in Hf. rewrite Forall_forall. intros q Hq Hq0. apply elem_of_difference. split; [by apply Hf|].
      intros ->%elem_of_singleton. apply Hnp. by apply list_elem_of_filter.
    + exists h'. split; [exact E|]. intros q. rewrite Hh, elem_of_difference, elem_of_singleton, not_elem_of_cons.
      destruct (decide (q = p)) as [->|]; naive_solver.
  - assert (p = 0) as -> by (by destruct (decide (p = 0))). cbn [mbind outcome_bind]. destruct (IH h Hn Hf) as (h' & E & Hh).
    exists h'. split; [exact E|]. intros q. rewrite Hh, not_elem_of_cons. destruct (decide (q = 0)) as [->|]; naive_solver.
Qed.

(** What a process gives back: the names, its record lock. *)
Lemma remove_spec owner self o c : (forall i n, inodes o !! i = Some n -> locked_by n = Some self -> pid_fd c = Some i) ->
  let '(c2, o2) := nv_core_pidfile_remove owner o c in
  (owner = true -> unlocked self o2) /\ (owner = false -> inodes o2 = inodes o) /\ names o2 = names o /\ lock_fd c2 = lock_fd c /\
  same_strings c c2 /\ dups c2 = dups c /\ kept_dups c2 = kept_dups c /\ pid_fd c2 = None /\
  forall file, opt_pid_file c = Some file -> paths o2 !! file = None.
Proof.
  intros Hi. unfold nv_core_pidfile_remove. set (co := match pid_fd c with Some i => _ | None => _ end).
  assert ((owner = true -> unlocked self (snd co)) /\ (owner = false -> inodes (snd co) = inodes o) /\ names (snd co) = names o /\
    lock_fd (fst co) = lock_fd c /\ same_strings c (fst co) /\ dups (fst co) = dups c /\ kept_dups (fst co) = kept_dups c /\ pid_fd (fst co) = None /\
    opt_pid_file (fst co) = opt_pid_file c) as (H1 & H2 & H3 & H4 & H5 & H6 & H7 & H8 & H9).
  { unfold co. destruct (pid_fd c) as [i|] eqn:Ep; destruct owner; simpl; split_and!; try done; intros _ j n.
    - simpl. destruct (decide (i = j)) as [<-|Hne].
      + rewrite lookup_alter_eq. destruct (inodes o !! i); [|done]. simpl. intros [= <-]. done.
      + rewrite lookup_alter_ne by done. intros H HS. specialize (Hi j n H HS). congruence.
    - intros H HS. specialize (Hi j n H HS). congruence. }
  destruct co as [c3 o3]. simpl in *. rewrite H9. destruct (opt_pid_file c) as [file|]; split_and!; try done; try apply H5.
  intros f [= ->]. apply lookup_delete_eq.
Qed.

(** Shutting down gives everything back that the process owns. *)
Lemma shutdown_spec owner self o0 o c c0 : holds_only self o0 o c -> same_strings c0 c -> fresh_ctx c0 -> phase c <> NV_CORE_PHASE_SHUTDOWN ->
  exists t c' o', nv_core_shutdown owner o c = Ret (Shutdown :: t, c', o') /\
    (owner = true -> names o' = names o0 /\ unlocked self o') /\ (owner = false -> names o' = names o /\ inodes o' = inodes o) /\
    phase c' = NV_CORE_PHASE_NONE /\ pid_fd c' = None /\ lock_fd c' = None /\ kept_dups c' = kept_dups c /\
    ini c' = 0 /\ dups c' = map (fun _ => 0) (dups c) /\
    (forall p, p ∈ heap c' <-> p ∈ heap c0 /\ (p ∉ owned c0 \/ p = 0)) /\
    (forall file, opt_pid_file c = Some file -> paths o' !! file = None) /\ Forall (fun e => e ∉ [Startup; Launch; BusinessInit; Loop; BusinessCleanup; FreeArgv]) t.
Proof.
  intros (Hi & Hl) (E1 & E2) [_ _ _ Hnd Hh] Hph. unfold nv_core_shutdown. rewrite bool_decide_eq_false_2 by done.
  set (c1 := set_phase NV_CORE_PHASE_SHUTDOWN c). pose proof (remove_spec owner self o c1 Hi) as Hr.
  destruct (nv_core_pidfile_remove owner o c1) as [c2 o2].
  destruct Hr as (H1 & H2 & H3 & H4 & (S1 & S2) & D1 & D2 & H5 & H6).
  change (owned (set_lock_fd None c2)) with (owned c2). cbn [set_lock_fd heap]. rewrite S1, S2.
  change (owned c1) with (owned c). change (heap c1) with (heap c). rewrite E1, E2.
  destruct (free_all_spec (owned c0) (heap c0) Hnd Hh) as (h & Eh & Hh'). rewrite Eh. cbn [mbind outcome_bind].
  eexists _, _, _. split; [done|]. cbn [set_phase set_memory set_lock_fd names phase pid_fd lock_fd kept_dups dups ini heap].
  change (kept_dups c1) with (kept_dups c) in D2. change (dups c1) with (dups c) in D1. rewrite D1, D2.
  assert (paths (nv_core_instance_lock_release owner o2 (lock_fd c2)) = paths o2 /\
    inodes (nv_core_instance_lock_release owner o2 (lock_fd c2)) = inodes o2) as [P1 P2]
    by (unfold nv_core_instance_lock_release; by destruct (lock_fd c2), owner).
  split_and!; try done.
  - intros ->. split; [|intros i n; rewrite P2; by apply H1].
    destruct Hl as [[El En]|(k & El & Hk & En)]; rewrite H4; change (lock_fd c1) with (lock_fd c); rewrite El; simpl; rewrite H3, En; [done|].
    by rewrite delete_insert_id.
  - intros ->. rewrite P2, H2 by done. split; [|done]. rewrite <- H3. unfold nv_core_instance_lock_release. by destruct (lock_fd c2).
  - intros f Hf. rewrite P1. by apply H6.
  - destruct (opt_use_syslog c1); simpl; repeat constructor; set_solver.
Qed.


(** ** Properties *)


(** A shutdown after the steps [t]. *)
Lemma steps_kept t t' e l : Forall (fun e => e ∉ [Startup; Launch; BusinessInit; Loop; BusinessCleanup; FreeArgv]) t' ->
  e ∈ [Startup; Launch; BusinessInit; Loop; BusinessCleanup] -> l ⊆ [Exec; FreeArgv] ->
  e ∈ t ++ (Shutdown :: t') ++ l <-> e ∈ t.
Proof.
  rewrite Forall_forall. intros Ht He Hl. rewrite !elem_of_app, elem_of_cons. split; [|by left].
  intros [|[[->|H%Ht]|H%Hl]]; [done|set_solver|set_solver|]. exfalso. revert He H. rewrite !elem_of_cons, elem_of_nil. naive_solver.
Qed.


(** A process that started up and has taken the steps [t]. *)
Section ends.
Context (s : script) (o : os) (self : Z) (c : nv_core_ctx_t) (o1 : os) (c2 : nv_core_ctx_t) (owner : bool) (t : list event).
Hypothesis Hc : fresh_ctx c.
Hypothesis Hh : holds_only self o o1 c2.
Hypothesis Hss : same_strings c c2.
Hypothesis Hpf : opt_pid_file c2 = opt_pid_file c.
Hypothesis Hst : Startup ∈ t.
Hypothesis Hown : owner = true -> launch s <> Child \/ Launch ∉ t.
Hypothesis Hforked : owner = false -> launch s = Child /\ Launch ∈ t /\ names o1 !! lock_name c = Some self.





End ends.


(** A context as nv_core_set_defaults leaves it, and a system in which everything works. *)
Definition sample_ctx : nv_core_ctx_t := mkCtx NV_CORE_PHASE_NONE None None (Some (str "/run/nv.pid")) None true 32 [0; 64] [96; 0] {[32; 64; 96]}.
Lemma sample_ctx_fresh : fresh_ctx sample_ctx.
Proof.
  split; try done; [apply (bool_decide_eq_true_1 (NoDup [32; 64; 96])); reflexivity|].
  apply (bool_decide_eq_true_1 (Forall (fun p => p <> 0 -> p ∈ ({[32; 64; 96]} : gset Z)) [32; 0; 64; 96; 0])). vm_compute. reflexivity.
Qed.
Lemma unlocked_empty self p n : unlocked self (mkOs p ∅ n).
Proof. intros i x H. simpl in H. by rewrite lookup_empty in H. Qed.
Definition all_ok : results := mkResults true true true true true true true true true (str "7").
Definition normal : script := mkScript NV_OK all_ok Single false true 0 false false false.

(** C34: while a process holds the instance lock, no other process gets past its startup:
    whatever else happens, its nv_core_run launches no worker, initialises no business
    module, enters no loop, leaves the lock alone, and returns NV_ERROR unless the command
    line asked for nothing more. *)
Theorem nv_core_single_instance s o self c q : fresh_ctx c -> unlocked self o -> names o !! lock_name c = Some q ->
  exists rc t c' o', nv_core_run s o self c = Ret (Returned rc, t, c', o') /\ (Launch ∉ t) /\ (BusinessInit ∉ t) /\ (Loop ∉ t) /\
    names o' !! lock_name c = Some q /\ (parse_rc s <> NV_DECLINED -> rc = NV_ERROR).
Proof.
  intros Hc Hu Hq. unfold nv_core_run. destruct (Z.eqb_spec (parse_rc s) NV_DECLINED).
  { eexists _, _, _, _. split; [done|]. split_and!; try done; set_solver. }
  destruct (parse_rc s =? NV_OK); cbn [negb]; last first.
  { eexists _, _, _, _. split; [done|]. split_and!; try done; set_solver. }
  pose proof (startup_spec (startup s) o self c Hc Hu) as Hs. destruct (nv_core_startup_init (startup s) o self c) as [[rc c1] o1].
  destruct Hs as (Hh & Hss & Hph & Hpf & Hok). destruct (Z.eqb_spec rc NV_OK) as [E|_]; [apply Hok in E as [E _]; congruence|].
  cbn [negb]. unfold finish. destruct (shutdown_spec true self o o1 c1 c Hh Hss Hc) as
    (t & c' & o' & E & Hn & _ & _ & _ & _ & _ & _ & _ & _ & _ & Ht); [by rewrite Hph|].
  rewrite E. cbn [mbind outcome_bind]. eexists _, _, _, _. split; [done|]. rewrite (proj1 (Hn eq_refl)).
  split_and!; try done; (rewrite steps_kept; [|done|set_solver|set_solver]); set_solver.
Qed.
Lemma nv_core_single_instance_witness :
  exists rc t c' o', nv_core_run normal
      (mkOs ∅ ∅ {[lock_name sample_ctx := 5]}) 7 sample_ctx = Ret (Returned rc, t, c', o') /\ (Launch ∉ t) /\ (BusinessInit ∉ t) /\ (Loop ∉ t) /\
    names o' !! lock_name sample_ctx = Some 5 /\ (NV_OK <> NV_DECLINED -> rc = NV_ERROR).
Proof.
  apply (nv_core_single_instance normal (mkOs ∅ ∅ {[lock_name sample_ctx := 5]}) 7 sample_ctx 5);
    [exact sample_ctx_fresh| |apply lookup_singleton_eq].
  apply unlocked_empty.
Defined.

(** A second instance that is refused because another process holds the lock removes the
    pid file all the same, which is the one the running instance wrote. *)
Theorem nv_core_refused_removes_pid_file s o self c q file : fresh_ctx c -> unlocked self o -> names o !! lock_name c = Some q ->
  parse_rc s = NV_OK -> opt_pid_file c = Some file ->
  exists t c' o', nv_core_run s o self c = Ret (Returned NV_ERROR, t, c', o') /\ paths o' !! file = None.
Proof.
  intros Hc Hu Hq Hp Hf. unfold nv_core_run. rewrite Hp. change (NV_OK =? NV_DECLINED) with false. change (NV_OK =? NV_OK) with true. cbn [negb].
  pose proof (startup_spec (startup s) o self c Hc Hu) as Hs. destruct (nv_core_startup_init (startup s) o self c) as [[rc c1] o1].
  destruct Hs as (Hh & Hss & Hph & Hpf & Hok). destruct (Z.eqb_spec rc NV_OK) as [E|_]; [apply Hok in E as [E _]; congruence|].
  cbn [negb]. unfold finish. destruct (shutdown_spec true self o o1 c1 c Hh Hss Hc) as
    (t & c' & o' & E & _ & _ & _ & _ & _ & _ & _ & _ & _ & Hgone & _); [by rewrite Hph|].
  rewrite E. cbn [mbind outcome_bind]. eexists _, _, _. split; [done|]. apply Hgone. by rewrite Hpf.
Qed.
Lemma nv_core_refused_removes_pid_file_witness :
  let o := mkOs {[str "/run/nv.pid" := 1]} {[1 := mkInode (str "5") (Some 5)]} {[lock_name sample_ctx := 5]} in
  exists t c' o', nv_core_run normal o 7 sample_ctx = Ret (Returned NV_ERROR, t, c', o') /\
    paths o' !! str "/run/nv.pid" = None.
Proof.
  intros o. apply (nv_core_refused_removes_pid_file normal o 7 sample_ctx 5 (str "/run/nv.pid"));
    [exact sample_ctx_fresh| |apply lookup_singleton_eq|done|done].
  intros i n H. simpl in H. apply lookup_singleton_Some in H as [_ <-]. done.
Defined.

(** The guard of nv_core_shutdown does not stop a second call, because the phase is reset
    at its end, and five of the freed strings keep their pointers: the second call frees
    them again. *)
Theorem nv_core_shutdown_twice self o c p : fresh_ctx c -> unlocked self o -> dups c = [] -> kept_dups c = [p] -> p <> 0 ->
  exists t c' o', nv_core_shutdown true o c = Ret (t, c', o') /\ nv_core_shutdown true o' c' = UB.
Proof.
  intros Hc Hu Hd Hk Hp. assert (holds_only self o o c) as Hh.
  { split; [intros i n H1 H2; by apply (Hu i n) in H1|]. left. split; [apply Hc|done]. }
  destruct (shutdown_spec true self o o c c Hh) as (t & c' & o' & E & A1 & _ & Hph & Hpf & _ & Hk' & Hi' & Hd' & Hheap & _);
    [done|done|by rewrite (fc_phase c Hc)|].
  exists (Shutdown :: t), c', o'. split; [done|]. rewrite Hk in Hk'. rewrite Hd in Hd'.
  unfold nv_core_shutdown. rewrite bool_decide_eq_false_2 by (by rewrite Hph).
  pose proof (remove_spec true self o' (set_phase NV_CORE_PHASE_SHUTDOWN c')) as Hr.
  destruct (nv_core_pidfile_remove true o' (set_phase NV_CORE_PHASE_SHUTDOWN c')) as [c2 o2].
  destruct Hr as (_ & _ & _ & _ & (S1 & S2) & _); [intros i n H1 H2; by apply (proj2 (A1 eq_refl) i n) in H1|].
  change (owned (set_lock_fd None c2)) with (owned c2). change (heap (set_lock_fd None c2)) with (heap c2). rewrite S1, S2.
  assert (owned (set_phase NV_CORE_PHASE_SHUTDOWN c') = [0; p]) as -> by (unfold owned; cbn; by rewrite Hi', Hd', Hk').
  cbn [free_all]. unfold free. rewrite Z.eqb_refl, (proj2 (Z.eqb_neq p 0)) by done. cbn [mbind outcome_bind].
  rewrite bool_decide_eq_false_2; [done|]. change (heap (set_phase _ c')) with (heap c'). rewrite Hheap. unfold owned. rewrite Hd, Hk. set_solver.
Qed.
Lemma nv_core_shutdown_twice_witness :
  let c := mkCtx NV_CORE_PHASE_NONE None None None None false 0 [] [64] {[64]} in
  exists t c' o', nv_core_shutdown true (mkOs ∅ ∅ ∅) c = Ret (t, c', o') /\ nv_core_shutdown true o' c' = UB.
Proof.
  apply (nv_core_shutdown_twice 7 (mkOs ∅ ∅ ∅) (mkCtx NV_CORE_PHASE_NONE None None None None false 0 [] [64] {[64]}) 64); [| |done|done|done].
  - split; try done; [apply (bool_decide_eq_true_1 (NoDup [64])); reflexivity|].
    apply (bool_decide_eq_true_1 (Forall (fun p => p <> 0 -> p ∈ ({[64]} : gset Z)) [0; 64])). vm_compute. reflexivity.
  - apply unlocked_empty.
Defined.

(** ** The deadline *)
Inductive sig_event := Quit (now : Z) (wr : write_result) | Signal (now : Z) (wr : write_result) (signum : Z).
Definition apply_sig (f : flags) (e : sig_event) : flags :=
  match e with Quit now wr => snd (nv_core_request_quit now wr f) | Signal now wr signum => nv_core_on_signal now wr signum f end.

Lemma stop_loop_stops wr f : nv_loop_is_running (stop_loop wr f) = false.
Proof.
  unfold stop_loop, nv_loop_is_running, nv_loop_stop, nv_loop_wakeup. apply bool_decide_eq_false_2.
  destruct (state (lp (loop_w f))) eqn:Es; simpl; try (intros ?; congruence). destruct (wakeup_inited (lp (loop_w f))), wr; simpl; done.
Qed.
Lemma apply_sig_keeps f e : quit f = true -> shutdown_started_at f <> 0 ->
  quit (apply_sig f e) = true /\ shutdown_started_at (apply_sig f e) = shutdown_started_at f.
Proof.
  intros Hq Hs. assert (forall now, started now f = shutdown_started_at f) as Hst.
  { intros now. unfold started. by destruct (Z.eqb_spec (shutdown_started_at f) 0). }
  destruct e as [now wr|now wr signum]; simpl; [by rewrite Hst|]. unfold nv_core_on_signal.
  destruct (_ || _); [simpl; by rewrite Hst|]. destruct (signum =? SIGHUP); [done|]. destruct (signum =? SIGUSR1); [simpl; by rewrite Hst|done].
Qed.

(** C36: the first request to quit, by a call or a signal, at the time [t0], starts the clock
    and stops the loop if it runs; whatever requests and signals follow, the idle handler
    ends the process by force exactly when [timeout] seconds or more have passed since
    [t0]. *)
Theorem nv_core_shutdown_deadline t0 wr f es timeout now wr' reloaded :
  shutdown_started_at f = 0 -> t0 <> 0 -> 0 < timeout ->
  let f1 := snd (nv_core_request_quit t0 wr f) in
  let f2 := foldl apply_sig f1 es in
  nv_loop_is_running (loop_w f1) = false /\
  (nv_core_idle_handler timeout now wr' reloaded f2 = Exit 1 <-> timeout <= now - t0).
Proof.
  intros Hs Ht Htm f1 f2. split.
  { apply stop_loop_stops. }
  assert (quit f2 = true /\ shutdown_started_at f2 = t0) as [Hq2 Hs2].
  { assert (quit f1 = true /\ shutdown_started_at f1 = t0) as H1 by (unfold f1; simpl; unfold started; by rewrite Hs).
    unfold f2. clearbody f1. clear f2. revert f1 H1. induction es as [|e es IH]; intros f1 [Hq H1]; [done|]. simpl. apply IH.
    destruct (apply_sig_keeps f1 e) as [-> ->]; [done|by rewrite H1|done]. }
  unfold nv_core_idle_handler, nv_core_check_shutdown_timeout. rewrite Hq2. destruct (Z.leb_spec timeout 0); [lia|]. cbn [negb orb].
  cbn [shutdown_started_at]. unfold started. rewrite Hs2. destruct (Z.eqb_spec t0 0); [done|].
  destruct (Z.leb_spec timeout (now - t0)); [done|]. cbn [mbind outcome_bind]. split; [|lia]. by destruct (negb _).
Qed.

Lemma nv_core_shutdown_deadline_witness :
  let f := mkFlags false false false 0 0 (mkWorld ∅ (snd (nv_loop_init None 5 true true)) 0) in
  let f1 := snd (nv_core_request_quit 100 Written f) in
  let f2 := foldl apply_sig f1 [Signal 103 Written SIGTERM] in
  nv_loop_is_running (loop_w f1) = false /\ (nv_core_idle_handler 5 104 Written true f2 = Exit 1 <-> 5 <= 104 - 100).
Proof.
  apply (nv_core_shutdown_deadline 100 Written (mkFlags false false false 0 0 (mkWorld ∅ (snd (nv_loop_init None 5 true true)) 0))
    [Signal 103 Written SIGTERM] 5 104 Written true); [done|done|lia].
Defined.

End Runtime.
