(* ===== verification/Lifecycle.v ===== *)
(** * Start, fatal signals and restart of the process (core/runtime: nv_core_run.c, nv_core_startup.c, nv_core_health.c)

    The copy of the command line that a restart executes, the resource limits, the start of
    the logger over [LogFile], the main loop's entry and the handling of fatal signals with
    the tombstone file, over the flags of [Runtime] and the world of [EventLoop].  The
    processor is modelled as far as a signal's handler needs it: an instruction that faults
    is executed again when the handler returns.  Theorems: what a restart executes; which file
    the logger writes to; a fatal signal from outside is recorded and ends the process, while a
    fault of the program itself is never recorded and never ends it. *)
From S2P Require Import Prelude DLinks EventLoop Log LogFile Runtime.
Import EventLoop Runtime.

Module Lifecycle.

(** ** The saved command line *)

Abbreviation argv_t := (list (option cstr)).
(** [g_saved_argv], NULL or the array with its end, and [g_saved_argc]. *)
Record saved := mkSaved { g_saved_argv : option argv_t; g_saved_argc : Z }.

Definition nv_core_free_saved_argv (s : saved) : saved := mkSaved None 0.
(** [mem]: whether the array is allocated; [dup i]: whether the string [i] is. *)
Definition nv_core_save_argv (mem : bool) (dup : nat -> bool) (argc : Z) (argv : option argv_t) (s : saved) : saved :=
  let s := nv_core_free_saved_argv s in
  match argv with
  | None => s
  | Some argv =>
      if argc <=? 0 then s
      else if negb mem then s
      else mkSaved (Some (imap (fun i a => if dup i then a else None) (take (Z.to_nat argc) argv) ++ [None])) argc
  end.

(** [execv] reads the strings before the first NULL. *)
Fixpoint exec_args (l : argv_t) : list cstr :=
  match l with Some a :: l => a :: exec_args l | _ => [] end.
(** The arguments of the new program, if one is executed. *)
Definition restart_exec (s : saved) (argv : option argv_t) : option (list cstr) :=
  match (match g_saved_argv s with Some a => Some a | None => argv end) with
  | Some (Some a :: l) => Some (exec_args (Some a :: l))
  | _ => None
  end.

(** ** Resource limits *)

Definition RLIMIT_CORE : Z := 4.
Definition RLIMIT_NOFILE : Z := 7.
(** The limits of the process; [ok r]: whether the system allows the change. *)
Definition setrlimit (ok : Z -> bool) (r v : Z) (l : gmap Z (Z * Z)) : gmap Z (Z * Z) := if ok r then <[r := (v, v)]> l else l.
Definition nv_core_apply_rlimits (ok : Z -> bool) (max_open_files core_limit : Z) (l : gmap Z (Z * Z)) : gmap Z (Z * Z) :=
  let l := if 0 <? max_open_files then setrlimit ok RLIMIT_NOFILE max_open_files l else l in
  if core_limit =? 0 then setrlimit ok RLIMIT_CORE 0 l
  else if 0 <? core_limit then setrlimit ok RLIMIT_CORE core_limit l
  else l.

(** ** The logger *)

Definition on_conf (f : Log.settings -> Log.settings) (L : LogFile.logger) : LogFile.logger :=
  LogFile.mkLogger (f (LogFile.conf L)) (LogFile.ring L) (LogFile.thread_started L) (LogFile.g_dropped L) (LogFile.out L) (LogFile.ident L).
(** The warning about the file is left out. *)
Definition nv_core_log_init (mem thr : bool) (can : cstr -> bool) (now : option LogFile.tm) (log_file prog_name : option cstr)
    (log_level use_syslog : Z) (L : LogFile.logger) : Z * LogFile.logger :=
  let '(rc, L) := LogFile.nv_log_init_file mem thr can now log_file L in
  let '(rc, L) := if rc =? 0 then (0, L) else LogFile.nv_log_init mem thr can now L in
  if negb (rc =? 0) then (NV_ERROR, L) else
  let L := on_conf (fun g => Log.nv_log_set_level g log_level) L in
  let L := if use_syslog =? 0 then L else (LogFile.nv_log_init_syslog (Some (default (str "nv") prog_name)) L).2 in
  (NV_OK, L).

(** ** Fatal signals *)

Definition SIGILL : Z := 4.
Definition SIGABRT : Z := 6.
Definition SIGFPE : Z := 8.
Definition SIGSEGV : Z := 11.
Definition FATAL : list Z := [SIGSEGV; SIGABRT; SIGFPE; SIGILL].
Definition NV_CORE_DEFAULT_TOMBSTONE_FILE : cstr := str "/var/log/nv.tombstone".

Definition nv_core_phase_name (p : nv_core_phase_t) : cstr :=
  match p with
  | NV_CORE_PHASE_STARTUP => str "startup"
  | NV_CORE_PHASE_BUSINESS => str "business"
  | NV_CORE_PHASE_LOOP => str "event_loop"
  | NV_CORE_PHASE_SHUTDOWN => str "shutdown"
  | NV_CORE_PHASE_EXCEPTION => str "exception"
  | NV_CORE_PHASE_NONE => str "none"
  end.

(** [handled]: the signals whose handler is [nv_core_exception_handler]; [killed]: the signal
    that ended the process. *)
Record proc := mkProc { pphase : nv_core_phase_t; pflags : flags; handled : gset Z; killed : option Z; pdisk : Log.files }.
(** What the system and the C library answer. *)
Record penv := mkPenv { can_open : cstr -> bool; getpid : Z; strsignal : Z -> cstr; uptime : Z; wakeup : write_result }.

Definition nv_core_exception_init (p : proc) : proc :=
  mkProc (pphase p) (pflags p) (handled p ∪ list_to_set FATAL) (killed p) (pdisk p).

Definition tombstone_text (e : penv) (ph : nv_core_phase_t) (signum : Z) : cstr :=
  str "--- nv tombstone pid=" ++ LogFile.print_int (getpid e) ++ str " signum=" ++ LogFile.print_int signum ++ str " (" ++ strsignal e signum
  ++ str ") phase=" ++ nv_core_phase_name ph ++ str " uptime=" ++ print_dec (uptime e) ++ str " ---" ++ [10].
Definition nv_core_write_tombstone (e : penv) (tombstone_file : option cstr) (signum : Z) (p : proc) : proc :=
  let path := match tombstone_file with Some (c :: f) => c :: f | _ => NV_CORE_DEFAULT_TOMBSTONE_FILE end in
  match Log.fopen_append (can_open e) path (pdisk p) with
  | (None, _) => p
  | (Some f, fs) => mkProc (pphase p) (pflags p) (handled p) (killed p) (LogFile.fputs (tombstone_text e (pphase p) signum) f fs)
  end.

(** A signal arrives: its handler runs, or it ends the process. *)
Definition deliver (e : penv) (signum : Z) (p : proc) : proc :=
  if bool_decide (signum ∈ handled p)
  then mkProc (pphase p) (nv_core_exception_handler (wakeup e) signum (pflags p)) (handled p) (killed p) (pdisk p)
  else mkProc (pphase p) (pflags p) (handled p) (Some signum) (pdisk p).

Definition set_fatal (v : Z) (f : flags) : flags :=
  mkFlags (quit f) (reload f) (restart_flag f) v (shutdown_started_at f) (loop_w f).
(** [signal(signum, SIG_DFL)] and [raise(signum)]. *)
Definition nv_core_handle_fatal (e : penv) (tombstone_file : option cstr) (p : proc) : proc :=
  let signum := fatal_signum (pflags p) in
  if signum =? 0 then p else
  let p := mkProc NV_CORE_PHASE_EXCEPTION (pflags p) (handled p) (killed p) (pdisk p) in
  let p := nv_core_write_tombstone e tombstone_file signum p in
  let p := mkProc (pphase p) (set_fatal 0 (pflags p)) (handled p ∖ {[signum]}) (killed p) (pdisk p) in
  deliver e signum p.

Definition IDLE_EV : Z := 9.
Definition IDLE_HANDLER : Z := 16.
(** [health] is [nv_core_health_init], whose result only gives a warning; [run] is
    [nv_loop_run], during which signals may arrive.  [None]: the process has ended. *)
Definition nv_core_run_loop (e : penv) (tombstone_file : option cstr) (health : world -> outcome (Z * world))
    (run : proc -> outcome (Z * proc)) (p : proc) : outcome (option Z * proc) :=
  let f := pflags p in
  let w := on_evs (<[IDLE_EV := mkEv 0 0 0 false IDLE_HANDLER 0 0 0 0 0 0 NV_EVENT_TYPE_IDLE 0 0 0]> (evs (loop_w f))) (loop_w f) in
  '(_, w) ← nv_loop_add_idle w IDLE_EV;
  '(_, w) ← health w;
  let f := mkFlags (quit f) (reload f) (restart_flag f) (fatal_signum f) (shutdown_started_at f) w in
  '(rc, p) ← run (mkProc NV_CORE_PHASE_LOOP f (handled p) (killed p) (pdisk p));
  if negb (fatal_signum (pflags p) =? 0) then
    let p := nv_core_handle_fatal e tombstone_file p in
    Ret (match killed p with Some _ => None | None => Some NV_ERROR end, p)
  else Ret (Some rc, p).

(** ** What a restart executes *)

Lemma exec_args_full l : exec_args (map Some l ++ [None]) = l.
Proof. induction l as [|a l IH]; simpl; [done|by rewrite IH]. Qed.
Lemma exec_args_app l r : exec_args (map Some l ++ None :: r) = l.
Proof. induction l as [|a l IH]; simpl; [done|by rewrite IH]. Qed.
Lemma imap_prefix {A B} (f g : nat -> A -> B) l : (forall i x, l !! i = Some x -> f i x = g i x) -> imap f l = imap g l.
Proof.
  revert f g. induction l as [|x l IH]; intros f g H; [done|]. cbn [imap]. f_equal; [by apply (H 0%nat)|].
  apply IH. intros i y Hy. by apply (H (S i)).
Qed.
Lemma imap_const {A B} (f : A -> B) l : imap (fun _ => f) l = map f l.
Proof. induction l as [|x l IH]; [done|]. cbn [imap map]. f_equal. exact IH. Qed.

(** The program a restart executes gets exactly the command line of this one, whatever
    happened to the caller's array since; if the copy of an argument could not be allocated it
    gets those before the first such one, and when that is the program's name nothing is
    executed. *)
Theorem nv_core_restart_arguments dup args argv' s :
  args <> [] ->
  let s' := nv_core_save_argv true dup (Z.of_nat (length args)) (Some (map Some args ++ [None])) s in
  (forall i, (i < length args)%nat -> dup i = true) /\ restart_exec s' argv' = Some args \/
  exists k, (k < length args)%nat /\ dup k = false /\ (forall i, (i < k)%nat -> dup i = true) /\
    restart_exec s' argv' = if (k =? 0)%nat then None else Some (take k args).
Proof.
  intros Hne. assert (0 < length args)%nat as Hpos by (destruct args; [done|simpl; lia]).
  cbv zeta. unfold nv_core_save_argv. destruct (Z.leb_spec (Z.of_nat (length args)) 0); [lia|]. cbn [negb].
  rewrite Nat2Z.id, take_app_le by (rewrite length_map; lia). rewrite take_ge by (rewrite length_map; lia).
  unfold restart_exec. cbn [g_saved_argv].
  destruct (decide (Forall (fun i => dup i = true) (seq 0 (length args)))) as [Hall|Hsome].
  - left. assert (forall i, (i < length args)%nat -> dup i = true) as Hd.
    { intros i Hi. rewrite Forall_forall in Hall. apply Hall. apply elem_of_seq. lia. }
    split; [done|]. rewrite (imap_prefix _ (fun _ a => a)), imap_const, map_id.
    + destruct args as [|a args]; [done|]. cbn [map app]. f_equal. apply (exec_args_full (a :: args)).
    + intros i x Hi%lookup_lt_Some. rewrite length_map in Hi. by rewrite Hd.
  - right. apply not_Forall_Exists in Hsome; [|intros ?; apply _].
    assert (exists k, (k < length args)%nat /\ dup k = false /\ forall i, (i < k)%nat -> dup i = true) as (k & Hk & Hdk & Hbefore).
    { apply Exists_exists in Hsome as (j & Hj%elem_of_seq & Hdj). assert (dup j = false) as Ej by (apply not_true_is_false; exact Hdj). clear Hdj.
      induction (lt_wf j) as [j _ IH]. destruct (decide (Forall (fun i => dup i = true) (seq 0 j))) as [Hf|Hf].
      - exists j. split_and!; [lia|done|]. intros i Hi. rewrite Forall_forall in Hf. apply Hf. apply elem_of_seq. lia.
      - apply not_Forall_Exists in Hf; [|intros ?; apply _]. apply Exists_exists in Hf as (i & Hi%elem_of_seq & Hdi).
        apply (IH i); [lia|lia|apply not_true_is_false; exact Hdi]. }
    exists k. split_and!; try done.
    assert (imap (fun i a => if dup i then a else None) (map Some args) ++ [None] =
      map Some (take k args) ++ None :: (imap (fun i a => if dup (k + S i)%nat then a else None) (map Some (drop (S k) args)) ++ [None])) as ->.
    { rewrite <- (take_drop k args) at 1. rewrite map_app, imap_app, length_map, length_take, Nat.min_l, <- app_assoc by lia. f_equal.
      - rewrite (imap_prefix _ (fun _ a => a)), imap_const, map_id; [done|]. intros i x Hi%lookup_lt_Some.
        rewrite length_map, length_take in Hi. by rewrite Hbefore by lia.
      - destruct (lookup_lt_is_Some_2 args k Hk) as [a Ea]. rewrite (drop_S _ _ _ Ea). cbn [map imap app].
        replace (k + 0)%nat with k by lia. rewrite Hdk. done. }
    destruct k as [|k]; [done|]. destruct args as [|a args]; [simpl in Hk; lia|]. cbn [take map app Nat.eqb]. f_equal.
    apply (exec_args_app (a :: take k args)).
Qed.
Lemma nv_core_restart_arguments_witness :
  (forall i, (i < 2)%nat -> (fun i => (i <? 1)%nat) i = true) /\
    restart_exec (nv_core_save_argv true (fun i => (i <? 1)%nat) 2 (Some [Some (str "nvd"); Some (str "-d"); None]) (mkSaved None 0)) None = Some [str "nvd"; str "-d"] \/
  exists k, (k < 2)%nat /\ (fun i => (i <? 1)%nat) k = false /\ (forall i, (i < k)%nat -> (fun i => (i <? 1)%nat) i = true) /\
    restart_exec (nv_core_save_argv true (fun i => (i <? 1)%nat) 2 (Some [Some (str "nvd"); Some (str "-d"); None]) (mkSaved None 0)) None =
      if (k =? 0)%nat then None else Some (take k [str "nvd"; str "-d"]).
Proof.
  exact (nv_core_restart_arguments (fun i => (i <? 1)%nat) [str "nvd"; str "-d"] None (mkSaved None 0) ltac:(discriminate)).
Defined.

(** ** Which file is written *)

(** With the log thread running, the configured log file is opened and remembered for
    rotation; when it cannot be opened the default file is, which is not remembered, so that the
    limit on the size of the log does not apply to it; when neither can, the start fails and
    nothing has changed.  The level is the configured one, cut to the range of levels. *)
Theorem nv_core_log_init_spec mem thr can t c path prog log_level use_syslog L :
  Log.g_async_ready (LogFile.conf L) = true ->
  let '(rc, L') := nv_core_log_init mem thr can (Some t) (Some (c :: path)) prog log_level use_syslog L in
  let lvl := if log_level <? 0 then 0 else if 7 <=? log_level then 6 else log_level in
  if can (c :: path) then
    rc = NV_OK /\ LogFile.g_log_file (LogFile.out L') = Some (c :: path) /\
    Log.g_rotate_path (LogFile.conf L') = str_trunc 512 (c :: path) /\ Log.g_log_level (LogFile.conf L') = lvl
  else if can (LogFile.default_name t) then
    rc = NV_OK /\ LogFile.g_log_file (LogFile.out L') = Some (LogFile.default_name t) /\
    Log.g_rotate_path (LogFile.conf L') = Log.g_rotate_path (LogFile.conf L) /\ Log.g_log_level (LogFile.conf L') = lvl
  else rc = NV_ERROR /\ L' = L.
Proof.
  intros Hr. unfold nv_core_log_init, LogFile.nv_log_init_file, LogFile.nv_log_init, LogFile.nv_log_async_start. rewrite Hr. cbn [Z.eqb negb].
  unfold LogFile.nv_log_open_default_file, LogFile.open_instead, Log.fopen_append. destruct (can (c :: path)); cbn [Z.eqb negb].
  - destruct (use_syslog =? 0); by split_and!.
  - rewrite Hr. cbn [Z.eqb negb]. destruct (can (LogFile.default_name t)); cbn [Z.eqb negb]; [destruct (use_syslog =? 0); by split_and!|].
    split; [done|]. by destruct L.
Qed.
Lemma nv_core_log_init_spec_witness :
  let '(rc, L') := nv_core_log_init true true (fun p => strcmp_eq p (str "/tmp/nv20240102-030405log")) (Some (LogFile.mkTm 124 0 2 3 4 5))
    (Some (str "/var/log/nv.log")) None 9 0 (LogFile.nv_log_auto_start true true LogFile.start) in
  rc = NV_OK /\ LogFile.g_log_file (LogFile.out L') = Some (str "/tmp/nv20240102-030405log") /\
  Log.g_rotate_path (LogFile.conf L') = [] /\ Log.g_log_level (LogFile.conf L') = 6.
Proof.
  pose proof (nv_core_log_init_spec true true (fun p => strcmp_eq p (str "/tmp/nv20240102-030405log")) (LogFile.mkTm 124 0 2 3 4 5)
    (ch "/") (str "var/log/nv.log") None 9 0 (LogFile.nv_log_auto_start true true LogFile.start) eq_refl) as H.
  change (Some (ch "/" :: str "var/log/nv.log")) with (Some (str "/var/log/nv.log")) in H.
  destruct (nv_core_log_init _ _ _ _ _ _ _ _ _) as [rc L']. exact H.
Defined.

(** ** A fatal signal from outside *)

Lemma add_first_idle w ev e : ev <> NULL -> idle_head (lp w) = NULL -> evs w !! ev = Some e ->
  exists w', nv_loop_add_idle w ev = Ret (0, w').
Proof.
  intros Hne Hh He. unfold nv_loop_add_idle, upd, nv_loop_add_event_to_list, push, store_if, store. destruct (Z.eqb_spec ev NULL); [done|].
  rewrite He. cbn [deref mbind outcome_bind evs lp on_evs]. rewrite Hh, lookup_insert_eq. cbn [deref mbind outcome_bind]. eauto.
Qed.

Lemma deliver_handled e signum p : signum ∈ handled p ->
  deliver e signum p = mkProc (pphase p) (nv_core_exception_handler (wakeup e) signum (pflags p)) (handled p) (killed p) (pdisk p).
Proof. intros H. unfold deliver. by rewrite bool_decide_true. Qed.

(** A fatal signal that another process sends while the loop runs is recorded and ends the
    process: the loop returns, one line with the signal is appended to the tombstone file if it
    can be opened, and the signal's default action follows.  The line always names the phase
    "exception", which is set before it is written, and never the phase the process was in. *)
Theorem nv_core_fatal_signal_recorded e path health signum p c rc :
  signum ∈ FATAL -> killed p = None -> idle_head (lp (loop_w (pflags p))) = NULL -> (forall w, exists r w', health w = Ret (r, w')) ->
  path <> [] -> can_open e path = true -> pdisk p !! path = Some c ->
  exists p', nv_core_run_loop e (Some path) health (fun p => Ret (rc, deliver e signum p)) (nv_core_exception_init p) = Ret (None, p') /\
    killed p' = Some signum /\ pdisk p' = <[path := c ++ tombstone_text e NV_CORE_PHASE_EXCEPTION signum]> (pdisk p).
Proof.
  intros Hs Hk Hi Hh Hp Hc Hd. unfold nv_core_run_loop. cbn [nv_core_exception_init pflags].
  set (w0 := on_evs _ _). destruct (add_first_idle w0 IDLE_EV (mkEv 0 0 0 false IDLE_HANDLER 0 0 0 0 0 0 NV_EVENT_TYPE_IDLE 0 0 0)) as [w1 ->];
    [done|done|apply lookup_insert_eq|]. cbn [mbind outcome_bind]. destruct (Hh w1) as (r & w2 & ->). cbn [mbind outcome_bind handled killed pdisk].
  assert (signum <> 0) as Hnz by (unfold FATAL, SIGSEGV, SIGABRT, SIGFPE, SIGILL in Hs; set_solver).
  rewrite deliver_handled by (cbn [handled]; set_solver). cbn [mbind outcome_bind pflags nv_core_exception_handler fatal_signum].
  destruct (Z.eqb_spec signum 0); [done|]. cbn [negb]. unfold nv_core_handle_fatal. cbn [pflags nv_core_exception_handler fatal_signum].
  destruct (Z.eqb_spec signum 0); [done|]. unfold nv_core_write_tombstone, Log.fopen_append. destruct path as [|x path]; [done|].
  rewrite Hc. cbn [handled killed pdisk pflags pphase]. unfold deliver. cbn [handled].
  rewrite bool_decide_false by set_solver. cbn [killed]. eexists. split; [done|]. cbn [killed pdisk]. split; [done|].
  change (pdisk (nv_core_exception_init p)) with (pdisk p). unfold LogFile.fputs, Log.fs_append. rewrite Hd. cbv iota. by rewrite Hd.
Qed.

Definition sample_env : penv := mkPenv (fun _ => true) 7 (fun _ => str "Segmentation fault") 60 Written.
Definition sample_proc : proc :=
  mkProc NV_CORE_PHASE_BUSINESS (mkFlags false false false 0 0 (mkWorld ∅ (snd (nv_loop_init None 5 true true)) 0)) ∅ None {[ str "t" := [] ]}.
Lemma nv_core_fatal_signal_recorded_witness :
  exists p', nv_core_run_loop sample_env (Some (str "t")) (fun w => Ret (0, w)) (fun p => Ret (0, deliver sample_env SIGSEGV p))
      (nv_core_exception_init sample_proc) = Ret (None, p') /\ killed p' = Some SIGSEGV /\
    pdisk p' = <[str "t" := [] ++ tombstone_text sample_env NV_CORE_PHASE_EXCEPTION SIGSEGV]> (pdisk sample_proc).
Proof.
  exact (nv_core_fatal_signal_recorded sample_env (str "t") (fun w => Ret (0, w)) SIGSEGV sample_proc [] 0
    ltac:(by left) eq_refl eq_refl ltac:(eauto) ltac:(discriminate) eq_refl ltac:(apply lookup_singleton_eq)).
Defined.
Example tombstone_line : tombstone_text sample_env NV_CORE_PHASE_EXCEPTION SIGSEGV =
  str "--- nv tombstone pid=7 signum=11 (Segmentation fault) phase=exception uptime=60 ---" ++ [10].
Proof. reflexivity. Qed.

(** ** A fault of the program *)

(** The main thread stands at an instruction that raises the signal of the second component;
    a handler that returns lets it execute that instruction again.  Other processes may send
    fatal signals at any time. *)
Inductive fault_step (e : penv) : proc * Z -> proc * Z -> Prop :=
  | FaultAgain p s : killed p = None -> fault_step e (p, s) (deliver e s p, s)
  | FaultAsync p s s' : killed p = None -> s' ∈ FATAL -> fault_step e (p, s) (deliver e s' p, s).

(** When the program itself faults (a bad address, a division, an illegal instruction) after
    [nv_core_exception_init], the handler notes the signal and returns to the instruction that
    faulted: in whatever way the process goes on, it has not ended, no tombstone is written,
    and it stands at the same instruction, about to fault again. *)
Theorem nv_core_fault_never_ends e signum p p' s' :
  signum ∈ [SIGSEGV; SIGFPE; SIGILL] -> killed p = None -> rtc (fault_step e) (nv_core_exception_init p, signum) (p', s') ->
  s' = signum /\ killed p' = None /\ pdisk p' = pdisk p /\ exists q, fault_step e (p', s') (q, signum) /\ killed q = None.
Proof.
  intros Hs Hk Hr. assert (forall x y, rtc (fault_step e) x y -> x.2 = signum -> killed x.1 = None -> (forall z, z ∈ FATAL -> z ∈ handled x.1) ->
    y.2 = signum /\ killed y.1 = None /\ (forall z, z ∈ FATAL -> z ∈ handled y.1) /\ pdisk y.1 = pdisk x.1) as Hinv.
  { intros x y H. induction H as [x|x y z Hxy _ IH]; intros H1 H2 H3; [done|].
    assert (forall s0, s0 ∈ FATAL -> deliver e s0 x.1 = mkProc (pphase x.1) (nv_core_exception_handler (wakeup e) s0 (pflags x.1)) (handled x.1) (killed x.1) (pdisk x.1))
      as Hd by (intros s0 H0; apply deliver_handled; by apply H3).
    destruct Hxy as [q s0 Hq|q s0 s1 Hq Hs1]; cbn [fst snd] in *;
      (rewrite Hd in IH by (done || (subst; unfold FATAL; set_solver))); by apply IH. }
  destruct (Hinv _ _ Hr) as (E1 & E2 & E3 & E4); [done|done|intros z Hz; cbn; set_solver|]. cbn [fst snd] in *. subst s'.
  split_and!; try done. exists (deliver e signum p'). split; [by apply FaultAgain|].
  rewrite deliver_handled by (apply E3; unfold FATAL; set_solver). done.
Qed.
Lemma nv_core_fault_never_ends_witness :
  SIGSEGV = SIGSEGV /\ killed (deliver sample_env SIGSEGV (nv_core_exception_init sample_proc)) = None /\
  pdisk (deliver sample_env SIGSEGV (nv_core_exception_init sample_proc)) = pdisk sample_proc /\
  exists q, fault_step sample_env (deliver sample_env SIGSEGV (nv_core_exception_init sample_proc), SIGSEGV) (q, SIGSEGV) /\ killed q = None.
Proof.
  apply (nv_core_fault_never_ends sample_env SIGSEGV sample_proc); [by left|done|]. eapply rtc_l; [by apply FaultAgain|apply rtc_refl].
Defined.

End Lifecycle.
