(* ===== verification/Signals.v ===== *)
(** * Signals (base/ipc/nv_signal.c, core/runtime/nv_core_startup.c)

    The table of handlers, the signals the process blocks and the descriptor by which the
    blocked ones are read.  What [signalfd] returns is an argument.  Theorems: the table
    refines a map from signals to handlers, blocked and watched alike; a failed registration
    leaves a signal deaf; a shutdown leaves the signals blocked; and, over the event loop and
    the runtime, a pending signal to quit stops the loop. *)
From S2P Require Import Prelude DLinks EventLoop Runtime.

Module Signals.
Import EventLoop Runtime.

Definition NV_SIGNAL_SLOT_MAX : nat := 32.
Definition NSIG : Z := 65.
Definition SIGPIPE : Z := 13.
Definition SIGCHLD : Z := 17.

Record nv_signal_slot_t := mkSlot { used : bool; signum : Z; shandler : Z }.
(** The static variables, and of the process: the signals it blocks and ignores, and the
    signals each open signal descriptor reads. *)
Record sig_state := mkSig {
  g_mask : gset Z; g_signalfd : Z; g_slots : list nv_signal_slot_t; g_inited : bool;
  blocked : gset Z; ignored : gset Z; watched : gmap Z (gset Z)
}.
Definition set_fd_watch (fd : Z) (k : gmap Z (gset Z)) (s : sig_state) := mkSig (g_mask s) fd (g_slots s) (g_inited s) (blocked s) (ignored s) k.
Definition set_mask (m b : gset Z) (s : sig_state) := mkSig m (g_signalfd s) (g_slots s) (g_inited s) b (ignored s) (watched s).
Definition set_slots (l : list nv_signal_slot_t) (s : sig_state) := mkSig (g_mask s) (g_signalfd s) l (g_inited s) (blocked s) (ignored s) (watched s).
Definition set_inited (b : bool) (s : sig_state) := mkSig (g_mask s) (g_signalfd s) (g_slots s) b (blocked s) (ignored s) (watched s).
Definition set_ignored (i : gset Z) (s : sig_state) := mkSig (g_mask s) (g_signalfd s) (g_slots s) (g_inited s) (blocked s) i (watched s).
Definition no_slots : list nv_signal_slot_t := repeat (mkSlot false 0 0) NV_SIGNAL_SLOT_MAX.

(** [nfd]: what [signalfd] returns. *)
Definition nv_signal_update_fd (nfd : Z) (s : sig_state) : Z * sig_state :=
  if nfd <? 0 then (-1, s) else
  let k := <[nfd := g_mask s]> (watched s) in
  let k := if (0 <=? g_signalfd s) && negb (nfd =? g_signalfd s) then delete (g_signalfd s) k else k in
  (0, set_fd_watch nfd k s).

Fixpoint find_slot (l : list nv_signal_slot_t) (sg : Z) : option Z :=
  match l with
  | [] => None
  | x :: l => if used x && (signum x =? sg) then Some (shandler x) else find_slot l sg
  end.
Definition nv_signal_find_handler (s : sig_state) (sg : Z) : Z := default 0 (find_slot (g_slots s) sg).

Definition nv_signal_init (nfd : Z) (s : sig_state) : Z * sig_state :=
  if g_inited s then (0, s) else
  let s := set_slots no_slots (set_mask ∅ (blocked s ∪ ∅) s) in
  let '(rc, s) := nv_signal_update_fd nfd s in
  if negb (rc =? 0) then (-1, s) else (0, set_inited true s).

(** [sigemptyset] comes before the mask is given to [sigprocmask]. *)
Definition nv_signal_shutdown (s : sig_state) : sig_state :=
  let s := if 0 <=? g_signalfd s then set_fd_watch (-1) (delete (g_signalfd s) (watched s)) s else s in
  let s := set_mask ∅ (blocked s ∖ ∅) s in
  set_inited false (set_slots no_slots s).

Fixpoint replace_handler (l : list nv_signal_slot_t) (sg h : Z) : option (list nv_signal_slot_t) :=
  match l with
  | [] => None
  | x :: l => if used x && (signum x =? sg) then Some (mkSlot (used x) (signum x) h :: l) else (x ::.) <$> replace_handler l sg h
  end.
Fixpoint take_slot (l : list nv_signal_slot_t) (sg h : Z) : option (list nv_signal_slot_t) :=
  match l with
  | [] => None
  | x :: l => if used x then (x ::.) <$> take_slot l sg h else Some (mkSlot true sg h :: l)
  end.
(** [nfd0] and [nfd1]: what [signalfd] returns for the initialisation and for the new signal. *)
Definition nv_signal_register (nfd0 nfd1 sg h : Z) (s : sig_state) : Z * sig_state :=
  if (h =? 0) || (sg <=? 0) || (NSIG <=? sg) then (-1, s) else
  let '(rc, s) := if g_inited s then (0, s) else nv_signal_init nfd0 s in
  if negb (rc =? 0) then (-1, s) else
  match replace_handler (g_slots s) sg h with
  | Some l => (0, set_slots l s)
  | None =>
      match take_slot (g_slots s) sg h with
      | Some l =>
          let s := set_slots l s in
          let s := set_mask (g_mask s ∪ {[sg]}) (blocked s ∪ (g_mask s ∪ {[sg]})) s in
          nv_signal_update_fd nfd1 s
      | None => (-1, s)
      end
  end.

Definition nv_signal_fd (s : sig_state) : Z := g_signalfd s.

(** One read per element: the signal of a whole record, or nothing (an error or a short
    record), which ends the loop.  [call h sg] is what the handler [h] does. *)
Fixpoint dispatch_loop {A} (call : Z -> Z -> A -> A) (s : sig_state) (reads : list (option Z)) (a : A) : A :=
  match reads with
  | Some sg :: reads =>
      let h := nv_signal_find_handler s sg in
      dispatch_loop call s reads (if h =? 0 then a else call h sg a)
  | _ => a
  end.
Definition nv_signal_dispatch {A} (call : Z -> Z -> A -> A) (s : sig_state) (fd : Z) (reads : list (option Z)) (a : A) : A :=
  if fd <? 0 then a else dispatch_loop call s reads a.

(** ** The runtime *)

(** The address of [nv_core_on_signal]; [other] is what further handlers do. *)
Definition CORE_ON_SIGNAL : Z := 3.
Definition run_handler (other : Z -> Z -> flags -> flags) (now : Z) (wr : write_result) (h sg : Z) (f : flags) : flags :=
  if h =? CORE_ON_SIGNAL then nv_core_on_signal now wr sg f else other h sg f.
Definition nv_loop_signalfd_handler (call : Z -> Z -> flags -> flags) (s : sig_state) (reads : list (option Z)) (f : flags) : flags :=
  let sfd := signalfd_fd (lp (loop_w f)) in
  if sfd <? 0 then f else
  let f := nv_signal_dispatch call s sfd reads f in
  let count l := with_stats (events_processed l) (timers_processed l) (u64 (signals_processed l + 1)) (idle_processed l) l in
  mkFlags (quit f) (reload f) (restart_flag f) (fatal_signum f) (shutdown_started_at f) (on_loop count (loop_w f)).

(** The registrations of the runtime, up to the first that fails. *)
Fixpoint register_all (l : list (Z * Z)) (s : sig_state) : Z * sig_state :=
  match l with
  | [] => (0, s)
  | (sg, nfd) :: l =>
      let '(rc, s) := nv_signal_register nfd nfd sg CORE_ON_SIGNAL s in
      if negb (rc =? 0) then (NV_ERROR, s) else register_all l s
  end.
(** [nfd sg]: what [signalfd] returns when [sg] is registered; [new] and [ctl] are the results
    of the allocation and of [epoll_ctl] in the loop. *)
Definition nv_core_signals_register_loop (worker_processes nfd0 : Z) (nfd : Z -> Z) (new ctl : Z) (w : world) (s : sig_state)
  : outcome (Z * world * sig_state) :=
  let '(rc, s) := nv_signal_init nfd0 s in
  if negb (rc =? 0) then Ret (NV_ERROR, w, s) else
  let '(rc, s) := register_all (map (fun sg => (sg, nfd sg)) [SIGINT; SIGTERM; SIGHUP; SIGUSR1]) s in
  if negb (rc =? 0) then Ret (NV_ERROR, w, s) else
  let s := if 1 <? worker_processes then snd (nv_signal_register (nfd SIGCHLD) (nfd SIGCHLD) SIGCHLD CORE_ON_SIGNAL s) else s in
  let s := set_ignored (ignored s ∪ {[SIGPIPE]}) s in
  '(rc, w) ← nv_loop_attach_signalfd w (nv_signal_fd s) new ctl;
  if negb (rc =? 0) then Ret (NV_ERROR, w, s) else Ret (NV_OK, w, s).

(** ** The table refines a map *)

Definition used_slots (l : list nv_signal_slot_t) : nat := length (filter (fun x => used x = true) l).
(** The map [m] from signals to handlers that a state stands for. *)
Record rep (s : sig_state) (m : gmap Z Z) : Prop := {
  rp_inited : g_inited s = true;
  rp_find : forall sg, find_slot (g_slots s) sg = m !! sg;
  rp_count : used_slots (g_slots s) = size m;
  rp_length : length (g_slots s) = NV_SIGNAL_SLOT_MAX;
  rp_mask : g_mask s = dom m;
  rp_blocked : dom m ⊆ blocked s;
  rp_fd : 0 <= g_signalfd s;
  rp_watched : watched s !! g_signalfd s = Some (dom m)
}.

Lemma used_slots_cons x l : used_slots (x :: l) = ((if used x then 1 else 0) + used_slots l)%nat.
Proof. unfold used_slots. rewrite filter_cons. destruct (used x); [by rewrite decide_True|by rewrite decide_False]. Qed.

Lemma replace_handler_spec l sg h :
  match replace_handler l sg h with
  | Some l' => is_Some (find_slot l sg) /\ used_slots l' = used_slots l /\ length l' = length l /\
      forall x, find_slot l' x = if decide (x = sg) then Some h else find_slot l x
  | None => find_slot l sg = None
  end.
Proof.
  induction l as [|y l IH]; [done|]. cbn [replace_handler find_slot]. destruct (used y && (signum y =? sg)) eqn:E.
  - split_and!; [done|by rewrite !used_slots_cons|done|]. intros x. cbn [find_slot used signum shandler].
    apply andb_true_iff in E as [-> E%Z.eqb_eq]. rewrite E. cbn [andb]. destruct (Z.eqb_spec sg x), (decide (x = sg)); congruence.
  - destruct (replace_handler l sg h) as [l'|]; [|done]. destruct IH as (H1 & H2 & H3 & H4).
    cbn [fmap option_fmap option_map find_slot]. split_and!; [done|by rewrite !used_slots_cons, H2|simpl; lia|]. intros x. rewrite H4.
    destruct (used y && (signum y =? x)) eqn:Ex; [|done]. destruct (decide (x = sg)) as [->|]; [congruence|done].
Qed.

Lemma take_slot_spec l sg h : find_slot l sg = None ->
  match take_slot l sg h with
  | Some l' => used_slots l' = S (used_slots l) /\ length l' = length l /\ (used_slots l < length l)%nat /\
      forall x, find_slot l' x = if decide (x = sg) then Some h else find_slot l x
  | None => used_slots l = length l
  end.
Proof.
  induction l as [|y l IH]; [done|]. cbn [take_slot find_slot]. intros Hn. destruct (used y) eqn:Ey; cbn [andb] in *.
  - destruct (Z.eqb_spec (signum y) sg) as [|Hne]; [done|]. specialize (IH Hn). destruct (take_slot l sg h) as [l'|].
    + destruct IH as (H1 & H2 & H3 & H4). cbn [fmap option_fmap option_map find_slot]. rewrite !used_slots_cons, Ey, H1.
      split_and!; [done|simpl; lia|simpl; lia|]. intros x. rewrite H4. cbn [andb].
      destruct (Z.eqb_spec (signum y) x), (decide (x = sg)); try done; congruence.
    + cbn [fmap option_fmap option_map]. rewrite used_slots_cons, Ey, IH. simpl. lia.
  - rewrite !used_slots_cons, Ey. cbn [find_slot used signum shandler andb]. split_and!; [done|done| |].
    + pose proof (length_filter (fun x => used x = true) l). unfold used_slots. simpl. lia.
    + intros x. destruct (Z.eqb_spec sg x), (decide (x = sg)); congruence.
Qed.

Lemma update_fd_watches nfd s : 0 <= nfd ->
  exists k, nv_signal_update_fd nfd s = (0, set_fd_watch nfd k s) /\ k !! nfd = Some (g_mask s).
Proof.
  intros Hn. unfold nv_signal_update_fd. destruct (Z.ltb_spec nfd 0); [lia|]. eexists. split; [done|].
  destruct (0 <=? g_signalfd s); cbn [andb]; [|apply lookup_insert_eq].
  destruct (Z.eqb_spec nfd (g_signalfd s)); cbn [negb]; [apply lookup_insert_eq|].
  rewrite lookup_delete_ne by done. apply lookup_insert_eq.
Qed.

Lemma init_rep nfd s : g_inited s = false -> 0 <= nfd -> exists s', nv_signal_init nfd s = (0, s') /\ rep s' ∅ /\ blocked s' = blocked s.
Proof.
  intros Hi Hn. unfold nv_signal_init. rewrite Hi.
  destruct (update_fd_watches nfd (set_slots no_slots (set_mask ∅ (blocked s ∪ ∅) s)) Hn) as (k & -> & Hk).
  eexists. split; [done|]. split; [|set_solver]. split; simpl; done.
Qed.

Lemma find_insert l l' (m : gmap Z Z) sg h : (forall x, find_slot l x = m !! x) ->
  (forall x, find_slot l' x = if decide (x = sg) then Some h else find_slot l x) -> forall x, find_slot l' x = <[sg := h]> m !! x.
Proof. intros Hl Hl' x. rewrite Hl', Hl. destruct (decide (x = sg)) as [->|]; [by rewrite lookup_insert_eq|by rewrite lookup_insert_ne]. Qed.

Lemma dispatch_rep {A} (call : Z -> Z -> A -> A) s m reads a : rep s m -> map_Forall (fun _ h => h <> 0) m ->
  nv_signal_dispatch call s (nv_signal_fd s) (map Some reads) a =
  foldl (fun a sg => match m !! sg with Some h => call h sg a | None => a end) a reads.
Proof.
  intros Hr Hm. unfold nv_signal_dispatch, nv_signal_fd. pose proof (rp_fd _ _ Hr). destruct (Z.ltb_spec (g_signalfd s) 0); [lia|].
  revert a. induction reads as [|x reads IH]; intros a; [done|]. cbn [map dispatch_loop foldl]. rewrite IH. f_equal.
  unfold nv_signal_find_handler. rewrite (rp_find _ _ Hr). destruct (m !! x) as [hx|] eqn:Ex; [|done]. simpl.
  destruct (Z.eqb_spec hx 0) as [->|]; [|done]. by specialize (Hm x 0 Ex).
Qed.

Lemma register_rep s m sg h nfd0 nfd1 : rep s m -> 0 < sg < NSIG -> h <> 0 -> 0 <= nfd1 ->
  if bool_decide (is_Some (m !! sg)) || (size m <? NV_SIGNAL_SLOT_MAX)%nat
  then exists s', nv_signal_register nfd0 nfd1 sg h s = (0, s') /\ rep s' (<[sg := h]> m)
  else nv_signal_register nfd0 nfd1 sg h s = (-1, s).
Proof.
  intros Hr Hsg Hh Hn. unfold nv_signal_register. destruct (Z.eqb_spec h 0); [done|]. destruct (Z.leb_spec sg 0); [lia|].
  destruct (Z.leb_spec NSIG sg); [lia|]. cbn [orb]. rewrite (rp_inited _ _ Hr). cbn [Z.eqb negb].
  pose proof (replace_handler_spec (g_slots s) sg h) as Hrep. rewrite !(rp_find _ _ Hr) in Hrep.
  destruct (replace_handler (g_slots s) sg h) as [l|].
  - destruct Hrep as (H1 & H2 & H3 & H4). rewrite bool_decide_eq_true_2 by done. cbn [orb]. eexists. split; [done|].
    assert (dom (<[sg := h]> m) = dom m) as Hd by (apply dom_insert_lookup_L; done).
    destruct Hr. split; simpl; rewrite ?Hd; try done; try lia.
    + by apply (find_insert (g_slots s)).
    + rewrite map_size_insert. destruct H1 as [? ->]. unfold id. congruence.
  - rewrite bool_decide_eq_false_2 by (by rewrite Hrep; intros []). cbn [orb].
    pose proof (take_slot_spec (g_slots s) sg h) as Ht. rewrite (rp_find _ _ Hr), (rp_count _ _ Hr), (rp_length _ _ Hr) in Ht.
    specialize (Ht Hrep). destruct (take_slot (g_slots s) sg h) as [l|].
    + destruct Ht as (H1 & H2 & H3 & H4). destruct (Nat.ltb_spec (size m) NV_SIGNAL_SLOT_MAX); [|lia].
      match goal with |- context [nv_signal_update_fd nfd1 ?x] => destruct (update_fd_watches nfd1 x Hn) as (k & -> & Hk) end.
      eexists. split; [done|]. destruct Hr. cbn [g_mask set_mask] in Hk.
      assert (dom (<[sg := h]> m) = g_mask s ∪ {[sg]}) as Hd by (rewrite dom_insert_L, rp_mask0; set_solver).
      split; cbn [g_inited g_slots g_mask blocked g_signalfd watched set_fd_watch set_mask set_slots]; rewrite ?Hd.
      * done.
      * by apply (find_insert (g_slots s)).
      * rewrite map_size_insert, Hrep. lia.
      * lia.
      * done.
      * apply union_subseteq_r.
      * done.
      * done.
    + destruct (Nat.ltb_spec (size m) NV_SIGNAL_SLOT_MAX); [lia|done].
Qed.

(** The table of signal handlers refines a map.  Registering a valid signal when
    [signalfd] works succeeds exactly while the signal is known or fewer than 32 are, and
    then the map gains the handler, the signal is blocked, and the descriptor reads exactly
    the signals of the map; otherwise nothing changes.  Dispatching calls, for each record
    read, the handler the map has for it. *)
Theorem nv_signal_refines_map s m sg h nfd0 nfd1 : rep s m -> 0 < sg < NSIG -> h <> 0 -> 0 <= nfd1 ->
  (if bool_decide (is_Some (m !! sg)) || (size m <? NV_SIGNAL_SLOT_MAX)%nat
   then exists s', nv_signal_register nfd0 nfd1 sg h s = (0, s') /\ rep s' (<[sg := h]> m)
   else nv_signal_register nfd0 nfd1 sg h s = (-1, s)) /\
  (forall A (call : Z -> Z -> A -> A) reads a, map_Forall (fun _ h => h <> 0) m ->
     nv_signal_dispatch call s (nv_signal_fd s) (map Some reads) a =
     foldl (fun a sg => match m !! sg with Some h => call h sg a | None => a end) a reads).
Proof.
  intros Hr Hsg Hh Hn. split; [by apply register_rep|]. intros A call reads a Hm. by apply dispatch_rep.
Qed.

Definition unset : sig_state := mkSig ∅ (-1) no_slots false ∅ ∅ ∅.
Lemma fresh_rep : rep (snd (nv_signal_init 7 unset)) ∅.
Proof. destruct (init_rep 7 unset) as (s & -> & H & _); [done|lia|done]. Qed.
Lemma nv_signal_refines_map_witness :
  exists s', nv_signal_register 7 7 SIGTERM 3 (snd (nv_signal_init 7 unset)) = (0, s') /\ rep s' (<[SIGTERM := 3]> ∅).
Proof. refine (proj1 (nv_signal_refines_map (snd (nv_signal_init 7 unset)) ∅ SIGTERM 3 7 7 _ _ _ _)); [apply fresh_rep|split; reflexivity|done|lia]. Defined.

(** When [signalfd] fails for a new signal the registration is reported as failed, but the
    signal stays blocked and in the table: registering it again reports success, and the
    descriptor still does not read it. *)
Theorem nv_signal_failed_is_deaf s m sg h h' nfd0 nfd1 nfd2 :
  rep s m -> 0 < sg < NSIG -> h <> 0 -> h' <> 0 -> m !! sg = None -> (size m < NV_SIGNAL_SLOT_MAX)%nat -> nfd1 < 0 ->
  exists s1 s2, nv_signal_register nfd0 nfd1 sg h s = (-1, s1) /\ nv_signal_register nfd0 nfd2 sg h' s1 = (0, s2) /\
    sg ∈ blocked s2 /\ nv_signal_find_handler s2 sg = h' /\ nv_signal_fd s2 = nv_signal_fd s /\
    watched s2 !! nv_signal_fd s2 = Some (dom m) /\ (sg ∉ dom m).
Proof.
  intros Hr Hsg Hh Hh' Hm Hsz Hn. pose proof (replace_handler_spec (g_slots s) sg h) as Hrep. pose proof (take_slot_spec (g_slots s) sg h) as Ht.
  rewrite !(rp_find _ _ Hr), Hm in Hrep. rewrite (rp_find _ _ Hr), (rp_count _ _ Hr), (rp_length _ _ Hr) in Ht. specialize (Ht Hm).
  destruct (replace_handler (g_slots s) sg h) as [|] eqn:E1; [by destruct Hrep as [[] _]|].
  destruct (take_slot (g_slots s) sg h) as [l|] eqn:E2; [|lia]. destruct Ht as (_ & _ & _ & Hf).
  unfold nv_signal_register at 1. destruct (Z.eqb_spec h 0); [done|]. destruct (Z.leb_spec sg 0); [lia|]. destruct (Z.leb_spec NSIG sg); [lia|].
  cbn [orb]. rewrite (rp_inited _ _ Hr). cbn [Z.eqb negb]. rewrite E1, E2. unfold nv_signal_update_fd. destruct (Z.ltb_spec nfd1 0); [|lia].
  exists (set_mask (g_mask s ∪ {[sg]}) (blocked s ∪ (g_mask s ∪ {[sg]})) (set_slots l s)). unfold nv_signal_register. destruct (Z.eqb_spec h' 0); [done|]. destruct (Z.leb_spec sg 0); [lia|]. destruct (Z.leb_spec NSIG sg); [lia|].
  cbn [orb g_inited set_mask set_slots g_slots]. rewrite (rp_inited _ _ Hr). cbn [Z.eqb negb g_slots set_mask set_slots].
  pose proof (replace_handler_spec l sg h') as Hrep2. rewrite Hf, decide_True in Hrep2 by done.
  destruct (replace_handler l sg h') as [l2|]; [|done]. destruct Hrep2 as (_ & _ & _ & Hf2).
  eexists. split; [reflexivity|]. split; [reflexivity|].
  cbn [blocked set_slots set_mask nv_signal_fd g_signalfd watched]. split_and!; [set_solver| |done|by rewrite (rp_watched _ _ Hr)|by apply not_elem_of_dom].
  unfold nv_signal_find_handler. cbn [g_slots]. by rewrite Hf2, decide_True.
Qed.
Lemma nv_signal_failed_is_deaf_witness :
  exists s1 s2, nv_signal_register 7 (-1) SIGTERM 3 (snd (nv_signal_init 7 unset)) = (-1, s1) /\ nv_signal_register 7 7 SIGTERM 4 s1 = (0, s2) /\
    SIGTERM ∈ blocked s2 /\ nv_signal_find_handler s2 SIGTERM = 4 /\ nv_signal_fd s2 = nv_signal_fd (snd (nv_signal_init 7 unset)) /\
    watched s2 !! nv_signal_fd s2 = Some (dom (∅ : gmap Z Z)) /\ (SIGTERM ∉ dom (∅ : gmap Z Z)).
Proof.
  apply (nv_signal_failed_is_deaf (snd (nv_signal_init 7 unset)) ∅ SIGTERM 3 4 7 (-1) 7);
    [apply fresh_rep|split; reflexivity|done|done|done|vm_compute; lia|lia].
Defined.

(** After a shutdown no handler and no descriptor is left, but every registered signal
    is still blocked, since the mask is emptied before it is passed on for unblocking: a
    SIGTERM that comes later is neither read nor ends the process. *)
Theorem nv_signal_shutdown_keeps_blocked s m : rep s m ->
  let s' := nv_signal_shutdown s in
  blocked s' = blocked s /\ dom m ⊆ blocked s' /\ watched s' = delete (g_signalfd s) (watched s) /\ nv_signal_fd s' = -1 /\
  forall sg, nv_signal_find_handler s' sg = 0.
Proof.
  intros Hr s'. subst s'. unfold nv_signal_shutdown. pose proof (rp_fd _ _ Hr). destruct (Z.leb_spec 0 (g_signalfd s)); [|lia].
  cbn [blocked set_slots set_mask set_inited watched set_fd_watch nv_signal_fd g_signalfd]. rewrite difference_empty_L.
  split_and!; [done|apply (rp_blocked _ _ Hr)|done|done|done].
Qed.
Lemma nv_signal_shutdown_keeps_blocked_witness :
  let s' := nv_signal_shutdown (snd (nv_signal_init 7 unset)) in
  blocked s' = blocked (snd (nv_signal_init 7 unset)) /\ dom (∅ : gmap Z Z) ⊆ blocked s' /\
  watched s' = delete 7 (watched (snd (nv_signal_init 7 unset))) /\ nv_signal_fd s' = -1 /\ forall sg, nv_signal_find_handler s' sg = 0.
Proof. apply (nv_signal_shutdown_keeps_blocked (snd (nv_signal_init 7 unset)) ∅). apply fresh_rep. Defined.

(** ** The runtime *)

Definition quits (sg : Z) : Prop := sg = SIGINT \/ sg = SIGTERM \/ sg = SIGUSR1.
Definition stopping (f : flags) : Prop := quit f = true /\ nv_loop_is_running (loop_w f) = false.
Lemma on_signal_stops now wr sg f : quits sg -> stopping (nv_core_on_signal now wr sg f).
Proof. intros [-> | [-> | ->]]; (split; [done|apply stop_loop_stops]). Qed.
Lemma on_signal_keeps now wr sg f : stopping f -> stopping (nv_core_on_signal now wr sg f).
Proof.
  intros Hs. unfold nv_core_on_signal. destruct (_ || _); [split; [done|apply stop_loop_stops]|].
  destruct (sg =? SIGHUP); [exact Hs|]. destruct (sg =? SIGUSR1); [split; [done|apply stop_loop_stops]|done].
Qed.
Lemma on_signal_signalfd now wr sg f : signalfd_fd (lp (loop_w (nv_core_on_signal now wr sg f))) = signalfd_fd (lp (loop_w f)).
Proof.
  assert (signalfd_fd (lp (stop_loop wr f)) = signalfd_fd (lp (loop_w f))) as H.
  { unfold stop_loop, nv_loop_stop, nv_loop_wakeup. repeat case_match; simplify_eq; done. }
  unfold nv_core_on_signal. by repeat case_match.
Qed.

(** The signals of the runtime. *)
Definition core_signals (worker_processes : Z) : gmap Z Z :=
  let m := <[SIGUSR1 := CORE_ON_SIGNAL]> (<[SIGHUP := CORE_ON_SIGNAL]> (<[SIGTERM := CORE_ON_SIGNAL]> {[SIGINT := CORE_ON_SIGNAL]})) in
  if 1 <? worker_processes then <[SIGCHLD := CORE_ON_SIGNAL]> m else m.

Lemma register_all_rep l : forall s m, rep s m -> Forall (fun x => 0 < fst x < NSIG /\ 0 <= snd x) l -> (size m + length l <= NV_SIGNAL_SLOT_MAX)%nat ->
  exists s', register_all l s = (0, s') /\ rep s' (foldl (fun m x => <[fst x := CORE_ON_SIGNAL]> m) m l).
Proof.
  induction l as [|[sg nfd] l IH]; intros s m Hr Hl Hsz; [by exists s|]. apply Forall_cons in Hl as [[Hsg Hn] Hl]. cbn [register_all fst snd length] in *.
  pose proof (register_rep s m sg CORE_ON_SIGNAL nfd nfd Hr Hsg ltac:(done) Hn) as H.
  destruct (Nat.ltb_spec (size m) NV_SIGNAL_SLOT_MAX); [|lia]. rewrite orb_true_r in H. destruct H as (s1 & -> & Hr1). cbn [Z.eqb negb].
  apply IH; [done|done|]. cbn [fst]. rewrite map_size_insert. destruct (m !! sg); unfold id; lia.
Qed.

Lemma rep_ignored i s m : rep s m -> rep (set_ignored i s) m.
Proof. by intros []. Qed.
Lemma core_registered wp nfd0 nfd s : g_inited s = false -> 0 <= nfd0 -> (forall sg, 0 <= nfd sg) ->
  exists s0 s1, nv_signal_init nfd0 s = (0, s0) /\
    register_all (map (fun sg => (sg, nfd sg)) [SIGINT; SIGTERM; SIGHUP; SIGUSR1]) s0 = (0, s1) /\
    rep (if 1 <? wp then snd (nv_signal_register (nfd SIGCHLD) (nfd SIGCHLD) SIGCHLD CORE_ON_SIGNAL s1) else s1) (core_signals wp).
Proof.
  intros Hi H0 Hn. destruct (init_rep nfd0 s Hi H0) as (s0 & E0 & Hr0 & _). exists s0.
  destruct (register_all_rep (map (fun sg => (sg, nfd sg)) [SIGINT; SIGTERM; SIGHUP; SIGUSR1]) s0 ∅ Hr0) as (s1 & E1 & Hr1).
  { repeat (constructor; [split; [split; reflexivity|apply Hn]|]). constructor. }
  { vm_compute. lia. }
  exists s1. split_and!; [done|done|]. cbn [map foldl fst] in Hr1. unfold core_signals. destruct (1 <? wp); [|exact Hr1].
  pose proof (register_rep s1 _ SIGCHLD CORE_ON_SIGNAL (nfd SIGCHLD) (nfd SIGCHLD) Hr1 ltac:(split; reflexivity) ltac:(done) (Hn _)) as H.
  match type of H with if ?b then _ else _ => replace b with true in H by (vm_compute; reflexivity) end. by destruct H as (s2 & -> & Hr2).
Qed.

Lemma core_signals_handlers wp sg h : core_signals wp !! sg = Some h -> h = CORE_ON_SIGNAL.
Proof.
  unfold core_signals. destruct (1 <? wp); rewrite ?lookup_insert_Some, lookup_singleton_Some; naive_solver.
Qed.
Lemma quits_registered wp sg : quits sg -> core_signals wp !! sg = Some CORE_ON_SIGNAL.
Proof. unfold core_signals. by intros [-> | [-> | ->]]; destruct (1 <? wp). Qed.
Lemma deliver_stops wp other now wr reads f : (exists sg, sg ∈ reads /\ quits sg) ->
  stopping (foldl (fun f sg => match core_signals wp !! sg with Some h => run_handler other now wr h sg f | None => f end) f reads).
Proof.
  assert (forall h sg f, core_signals wp !! sg = Some h -> run_handler other now wr h sg f = nv_core_on_signal now wr sg f) as Hrun
    by (by intros h sg f0 ->%core_signals_handlers).
  intros (sg & Hin & Hq). apply list_elem_of_split in Hin as (l1 & l2 & ->). rewrite foldl_app. cbn [foldl].
  rewrite (quits_registered wp sg Hq), Hrun by (by apply quits_registered).
  match goal with |- stopping (foldl _ ?x _) => assert (stopping x) as Hs by (by apply on_signal_stops); generalize x Hs; clear Hs f l1 end.
  induction l2 as [|y l2 IH]; intros f Hs; [done|]. cbn [foldl]. apply IH. destruct (core_signals wp !! y) eqn:E; [|done].
  rewrite (Hrun _ _ _ E). by apply on_signal_keeps.
Qed.

(** When every call succeeds the runtime's registration blocks SIGINT, SIGTERM, SIGHUP and
    SIGUSR1 and puts the descriptor that reads them into the loop; from then on a wakeup on
    that descriptor with a pending signal to quit, wherever it stands among the pending ones,
    sets the quit flag and leaves the loop stopped. *)
Theorem nv_core_quit_signal_stops wp nfd0 nfd new ctl w s :
  g_inited s = false -> 0 <= nfd0 -> (forall sg, 0 <= nfd sg) -> signalfd_ev (lp w) = NULL -> 0 <= epoll_fd (lp w) ->
  new <> NULL -> ctl <> -1 ->
  exists w1 s1, nv_core_signals_register_loop wp nfd0 nfd new ctl w s = Ret (NV_OK, w1, s1) /\
    {[SIGINT; SIGTERM; SIGHUP; SIGUSR1]} ⊆ blocked s1 /\ SIGPIPE ∈ ignored s1 /\ signalfd_fd (lp w1) = nv_signal_fd s1 /\
    watched s1 !! nv_signal_fd s1 = Some (dom (core_signals wp)) /\
    forall other now wr reads f, signalfd_fd (lp (loop_w f)) = nv_signal_fd s1 -> (exists sg, sg ∈ reads /\ quits sg) ->
      stopping (nv_loop_signalfd_handler (run_handler other now wr) s1 (map Some reads) f).
Proof.
  intros Hi H0 Hn Hev Hep Hnew Hctl. destruct (core_registered wp nfd0 nfd s Hi H0 Hn) as (s0 & s1 & E0 & E1 & Hr).
  unfold nv_core_signals_register_loop. rewrite E0. cbn [Z.eqb negb]. rewrite E1. cbn [Z.eqb negb].
  match type of Hr with rep ?x _ => set (s2 := x) in * end. clearbody s2.
  pose proof (rep_ignored (ignored s2 ∪ {[SIGPIPE]}) s2 _ Hr) as Hr'. set (s3 := set_ignored _ s2) in *.
  assert (SIGPIPE ∈ ignored s3) as Hpipe by (unfold s3; simpl; set_solver). clearbody s3.
  pose proof (rp_fd _ _ Hr') as Hfd. unfold nv_loop_attach_signalfd, nv_signal_fd in *.
  destruct (Z.ltb_spec (g_signalfd s3) 0); [lia|]. destruct (Z.ltb_spec (epoll_fd (lp w)) 0); [lia|]. cbn [orb]. rewrite Hev. cbn [Z.eqb NULL mbind outcome_bind].
  destruct (Z.eqb_spec new NULL); [done|]. unfold nv_loop_add_event. destruct (Z.eqb_spec new NULL); [done|].
  cbn [epoll_fd lp on_loop on_evs with_signalfd]. destruct (Z.eqb_spec (epoll_fd (lp w)) (-1)); [lia|]. cbn [orb].
  unfold upd. cbn [evs on_loop on_evs]. rewrite (store_eq _ _ _ _ (lookup_insert_eq _ _ _)). cbn [mbind outcome_bind].
  destruct (Z.eqb_spec ctl (-1)); [done|]. cbn [Z.eqb mbind outcome_bind negb].
  eexists _, s3. split; [reflexivity|]. split_and!; [|done|done|by apply rp_watched|].
  - etrans; [|apply (rp_blocked _ _ Hr')]. unfold core_signals. destruct (1 <? wp); rewrite !dom_insert_L, dom_singleton_L; set_solver.
  - intros other now wr reads f Ef Hq. unfold nv_loop_signalfd_handler. rewrite Ef. destruct (Z.ltb_spec (g_signalfd s3) 0); [lia|].
    pose proof (dispatch_rep (run_handler other now wr) s3 _ reads f Hr') as Hd. unfold nv_signal_fd in Hd. rewrite Hd by (by intros ? ? ->%core_signals_handlers).
    apply (deliver_stops wp other now wr reads f Hq).
Qed.

Definition loop0 : world := mkWorld ∅ (snd (nv_loop_init None 5 true true)) 0.
Lemma nv_core_quit_signal_stops_witness :
  exists w1 s1, nv_core_signals_register_loop 1 7 (fun _ => 7) 64 0 loop0 unset = Ret (NV_OK, w1, s1) /\
    {[SIGINT; SIGTERM; SIGHUP; SIGUSR1]} ⊆ blocked s1 /\ SIGPIPE ∈ ignored s1 /\ signalfd_fd (lp w1) = nv_signal_fd s1 /\
    watched s1 !! nv_signal_fd s1 = Some (dom (core_signals 1)) /\
    forall other now wr reads f, signalfd_fd (lp (loop_w f)) = nv_signal_fd s1 -> (exists sg, sg ∈ reads /\ quits sg) ->
      stopping (nv_loop_signalfd_handler (run_handler other now wr) s1 (map Some reads) f).
Proof. apply (nv_core_quit_signal_stops 1 7 (fun _ => 7) 64 0 loop0 unset); done. Defined.

End Signals.
