(* ===== verification/Console.v ===== *)
(** * Listeners of the console (core/cli/nv_core_ctl.c, nv_core_telnet.c)

    The control socket and the telnet console as the event loop sees them: descriptors,
    events and the list of sessions.  What a session does with its input is [Telnet]'s, what
    a line does is [Cli]'s.  Theorems: the telnet console's cleanup gives back every descriptor
    and event, whatever connections arrived and sessions were removed; a session that cannot be registered closes its
    descriptor twice; the control socket is bound and removed by different names when its
    path is long, and its handler never returns to the loop. *)
From S2P Require Import Prelude DLinks EventLoop Cli.

Module Console.
Import EventLoop.
Import Cli.

Definition SOCK_STREAM : Z := 1.
Definition SOCK_CLOEXEC : Z := 524288.
Definition SOCK_NONBLOCK : Z := 2048.
Definition SUN_PATH : nat := 108.
(** The events inside the context, and the addresses of the handlers. *)
Definition CTL_LISTEN_EV : Z := 4.
Definition TELNET_LISTEN_EV : Z := 5.
Definition CTL_ACCEPT : Z := 11.
Definition TELNET_ACCEPT : Z := 12.
Definition TELNET_CLIENT : Z := 13.

(** The process: open descriptors, those that do not block, the socket files, calls of [close]
    on descriptors that were not open, the loop, the registry of commands with the answers
    written, and the variables of the two files: the list of sessions and the descriptor in the memory
    of each (its event has the same address). *)
Record con := mkCon {
  fds : gset Z; nonblock : gset Z; paths : gset cstr; ebadf : list Z; cw : world; reg : cli; replies : list (Z * list cstr);
  ctl_inited : bool; ctl_listen_fd : Z; telnet_inited : bool; telnet_listen_fd : Z; g_telnet_sessions : list Z; sess_fd : gmap Z Z
}.
Definition on_fds (f n : gset Z) (b : list Z) (s : con) := mkCon f n (paths s) b (cw s) (reg s) (replies s)
  (ctl_inited s) (ctl_listen_fd s) (telnet_inited s) (telnet_listen_fd s) (g_telnet_sessions s) (sess_fd s).
Definition on_paths (p : gset cstr) (s : con) := mkCon (fds s) (nonblock s) p (ebadf s) (cw s) (reg s) (replies s)
  (ctl_inited s) (ctl_listen_fd s) (telnet_inited s) (telnet_listen_fd s) (g_telnet_sessions s) (sess_fd s).
Definition on_cw (w : world) (s : con) := mkCon (fds s) (nonblock s) (paths s) (ebadf s) w (reg s) (replies s)
  (ctl_inited s) (ctl_listen_fd s) (telnet_inited s) (telnet_listen_fd s) (g_telnet_sessions s) (sess_fd s).
Definition on_reg (r : cli) (a : list (Z * list cstr)) (s : con) := mkCon (fds s) (nonblock s) (paths s) (ebadf s) (cw s) r a
  (ctl_inited s) (ctl_listen_fd s) (telnet_inited s) (telnet_listen_fd s) (g_telnet_sessions s) (sess_fd s).
Definition on_ctl (b : bool) (fd : Z) (s : con) := mkCon (fds s) (nonblock s) (paths s) (ebadf s) (cw s) (reg s) (replies s)
  b fd (telnet_inited s) (telnet_listen_fd s) (g_telnet_sessions s) (sess_fd s).
Definition on_telnet (b : bool) (fd : Z) (s : con) := mkCon (fds s) (nonblock s) (paths s) (ebadf s) (cw s) (reg s) (replies s)
  (ctl_inited s) (ctl_listen_fd s) b fd (g_telnet_sessions s) (sess_fd s).
Definition on_sessions (l : list Z) (m : gmap Z Z) (s : con) := mkCon (fds s) (nonblock s) (paths s) (ebadf s) (cw s) (reg s) (replies s)
  (ctl_inited s) (ctl_listen_fd s) (telnet_inited s) (telnet_listen_fd s) l m.

(** A new descriptor of the given type flags. *)
Definition open_fd (fd type : Z) (s : con) : con :=
  on_fds (fds s ∪ {[fd]}) (if Z.land type SOCK_NONBLOCK =? 0 then nonblock s ∖ {[fd]} else nonblock s ∪ {[fd]}) (ebadf s) s.
Definition set_nonblock (fd : Z) (s : con) : con := on_fds (fds s) (nonblock s ∪ {[fd]}) (ebadf s) s.
Definition close (fd : Z) (s : con) : con :=
  if decide (fd ∈ fds s) then on_fds (fds s ∖ {[fd]}) (nonblock s) (ebadf s) s else on_fds (fds s) (nonblock s) (ebadf s ++ [fd]) s.
Definition put_ev (a fd h d : Z) (s : con) : con :=
  on_cw (on_evs (<[a := mkEv fd 0 0 false h d 0 0 0 0 0 NV_EVENT_TYPE_IO 0 0 0]> (evs (cw s))) (cw s)) s.
(** [nv_loop_add_event(&ctx->loop, ev, EPOLLIN)] and [nv_loop_del_event]. *)
Definition add_ev (a ctl : Z) (s : con) : outcome (Z * con) :=
  '(rc, w) ← nv_loop_add_event (cw s) a EPOLLIN ctl; Ret (rc, on_cw w s).
Definition del_ev (a : Z) (s : con) : outcome con :=
  '(_, w) ← nv_loop_del_event (cw s) a; Ret (on_cw w s).

(** ** The control socket *)

(** [sun_path] after [strncpy] with room for a NUL. *)
Definition sun_path (path : cstr) : cstr := take (SUN_PATH - 1) path.
(** [sfd], [listen_ok], [ctl]: results of [socket], [listen] and [epoll_ctl]; [bind_ok]: whether
    the file can be made in its directory (an existing file refuses it). *)
Definition nv_core_ctl_init (sfd : Z) (bind_ok listen_ok : bool) (ctl : Z) (path : option cstr) (s : con) : outcome (Z * con) :=
  match path with
  | None | Some [] => Ret (NV_OK, s)
  | Some path =>
      if ctl_inited s then Ret (NV_OK, s) else
      let s := on_paths (paths s ∖ {[path]}) s in
      if sfd <? 0 then Ret (NV_ERROR, s) else
      let s := open_fd sfd (Z.lor SOCK_STREAM SOCK_CLOEXEC) s in
      if negb bind_ok || bool_decide (sun_path path ∈ paths s) then Ret (NV_ERROR, close sfd s) else
      let s := on_paths (paths s ∪ {[sun_path path]}) s in
      if negb listen_ok then Ret (NV_ERROR, close sfd s) else
      let s := on_ctl (ctl_inited s) sfd (put_ev CTL_LISTEN_EV sfd CTL_ACCEPT 0 s) in
      '(rc, s) ← add_ev CTL_LISTEN_EV ctl s;
      if negb (rc =? 0) then Ret (NV_ERROR, on_ctl (ctl_inited s) (-1) (close sfd s)) else
      Ret (NV_OK, on_ctl true sfd s)
  end.
Definition nv_core_ctl_cleanup (path : option cstr) (s : con) : outcome con :=
  if negb (ctl_inited s) then Ret s else
  s ← (if 0 <=? ctl_listen_fd s then
         s ← del_ev CTL_LISTEN_EV s;
         Ret (on_ctl (ctl_inited s) (-1) (close (ctl_listen_fd s) s))
       else Ret s);
  let s := match path with Some p => on_paths (paths s ∖ {[p]}) s | None => s end in
  Ret (on_ctl false (ctl_listen_fd s) s).

(** What a client of the control socket sends: nothing while it stays connected, an end of
    file, or bytes. *)
Inductive input := Silent | Gone | Bytes (l : list Z).
Section control.
Context (report : handler -> list cstr -> Z * list cstr) (pid : Z).
(** The accepted descriptor blocks: a read from a silent client does not return. *)
Definition nv_core_ctl_handle_client (cfd : Z) (i : input) (s : con) : run_result * con :=
  match i with
  | Silent => (Blocked, s)
  | Gone => (Returned, s)
  | Bytes l =>
      let buf := take_while (fun c => negb (c =? 0)) (take 511 l) in
      let '(_, r, out) := nv_core_cli_execute_line report pid (reg s) cfd (Some buf) false in
      (Returned, on_reg r (replies s ++ [(cfd, out)]) s)
  end.
(** The connections that wait, or an error of [accept] ([None]).  When none waits, [accept]
    fails with EAGAIN on a descriptor that does not block, and does not return otherwise. *)
Fixpoint nv_core_ctl_accept_loop (lfd : Z) (waiting : list (option (Z * input))) (s : con) : run_result * con :=
  match waiting with
  | [] => (if decide (lfd ∈ nonblock s) then Returned else Blocked, s)
  | None :: _ => (Returned, s)
  | Some (cfd, i) :: waiting =>
      let '(r, s) := nv_core_ctl_handle_client cfd i (open_fd cfd 0 s) in
      match r with Blocked => (Blocked, s) | Returned => nv_core_ctl_accept_loop lfd waiting (close cfd s) end
  end.
Definition nv_core_ctl_accept_handler (ev : Z) (waiting : list (option (Z * input))) (s : con) : outcome (run_result * con) :=
  e ← deref (evs (cw s) !! ev);
  Ret (if fd e <? 0 then (Returned, s) else nv_core_ctl_accept_loop (fd e) waiting s).
End control.

(** ** The telnet console *)

(** [free] of a session: its event goes with it. *)
Definition nv_telnet_sess_free (a : Z) (s : con) : outcome con :=
  if a =? NULL then Ret s else
  fd ← deref (sess_fd s !! a);
  let s := if 0 <=? fd then close fd s else s in
  Ret (on_cw (on_evs (delete a (evs (cw s))) (cw s)) (on_sessions (g_telnet_sessions s) (delete a (sess_fd s)) s)).
(** The walk along the list to the session. *)
Fixpoint unlink_sess (a : Z) (l : list Z) : list Z :=
  match l with [] => [] | x :: l => if x =? a then l else x :: unlink_sess a l end.
Definition nv_telnet_sess_remove (a : Z) (s : con) : outcome con :=
  let s := on_sessions (unlink_sess a (g_telnet_sessions s)) (sess_fd s) s in
  e ← deref (evs (cw s) !! a);
  s ← (if (0 <=? epoll_fd (lp (cw s))) && (0 <=? fd e) then del_ev a s else Ret s);
  nv_telnet_sess_free a s.

(** [mem]: the result of [calloc]; [fl]: whether the flags could be read; [ctl]: of [epoll_ctl]. *)
Definition nv_telnet_sess_start (cfd mem : Z) (fl : bool) (ctl : Z) (s : con) : outcome (Z * con) :=
  if mem =? NULL then Ret (NV_ERROR, s) else
  let s := on_sessions (g_telnet_sessions s) (<[mem := cfd]> (sess_fd s)) s in
  let s := if fl then set_nonblock cfd s else s in
  let s := put_ev mem cfd TELNET_CLIENT mem s in
  '(rc, s) ← add_ev mem ctl s;
  if negb (rc =? 0) then s ← nv_telnet_sess_free mem s; Ret (NV_ERROR, s) else
  Ret (NV_OK, on_sessions (mem :: g_telnet_sessions s) (sess_fd s) s).

(** A connection: its descriptor and the results its start has. *)
Record arrival := mkArrival { cfd : Z; mem : Z; getfl : bool; epctl : Z }.
Definition accept_one (x : arrival) (s : con) : outcome con :=
  '(rc, s) ← nv_telnet_sess_start (cfd x) (mem x) (getfl x) (epctl x) (open_fd (cfd x) 0 s);
  Ret (if negb (rc =? NV_OK) then close (cfd x) s else s).
Fixpoint nv_telnet_accept_loop (lfd : Z) (waiting : list (option arrival)) (s : con) : outcome (run_result * con) :=
  match waiting with
  | [] => Ret (if decide (lfd ∈ nonblock s) then Returned else Blocked, s)
  | None :: _ => Ret (Returned, s)
  | Some x :: waiting => s ← accept_one x s; nv_telnet_accept_loop lfd waiting s
  end.
Definition nv_telnet_accept_handler (ev : Z) (waiting : list (option arrival)) (s : con) : outcome (run_result * con) :=
  e ← deref (evs (cw s) !! ev);
  if fd e <? 0 then Ret (Returned, s) else nv_telnet_accept_loop (fd e) waiting s.

(** [addr_ok]: whether the address to bind is text of an address ([inet_pton]). *)
Definition nv_core_telnet_init (sfd : Z) (addr_ok bind_ok listen_ok fl : bool) (ctl : Z) (telnet_enable : bool) (telnet_bind : option cstr) (s : con)
  : outcome (Z * con) :=
  if negb telnet_enable then Ret (NV_OK, s) else
  if telnet_inited s then Ret (NV_OK, s) else
  if sfd <? 0 then Ret (NV_ERROR, s) else
  let s := open_fd sfd (Z.lor SOCK_STREAM SOCK_CLOEXEC) s in
  let any := match telnet_bind with None | Some [] => true | Some b => strcmp_eq b (str "0.0.0.0") end in
  if negb any && negb addr_ok then Ret (NV_ERROR, close sfd s) else
  if negb bind_ok then Ret (NV_ERROR, close sfd s) else
  if negb listen_ok then Ret (NV_ERROR, close sfd s) else
  let s := if fl then set_nonblock sfd s else s in
  let s := on_telnet (telnet_inited s) sfd (put_ev TELNET_LISTEN_EV sfd TELNET_ACCEPT 0 s) in
  '(rc, s) ← add_ev TELNET_LISTEN_EV ctl s;
  if negb (rc =? 0) then Ret (NV_ERROR, on_telnet (telnet_inited s) (-1) (close sfd s)) else
  Ret (NV_OK, on_telnet true sfd s).

(** [while (g_telnet_sessions)]: the fuel is the number of sessions. *)
Fixpoint remove_sessions (fuel : nat) (s : con) : outcome con :=
  match g_telnet_sessions s with
  | [] => Ret s
  | a :: _ => match fuel with O => UB | S fuel => s ← nv_telnet_sess_remove a s; remove_sessions fuel s end
  end.
Definition nv_core_telnet_cleanup (s : con) : outcome con :=
  s ← remove_sessions (length (g_telnet_sessions s)) s;
  s ← (if telnet_inited s && (0 <=? telnet_listen_fd s) then
         s ← del_ev TELNET_LISTEN_EV s;
         Ret (on_telnet (telnet_inited s) (-1) (close (telnet_listen_fd s) s))
       else Ret s);
  Ret (on_telnet false (telnet_listen_fd s) s).

(** ** The telnet console gives everything back *)

(** [base]: the descriptors that are not sessions'; [E]: the events that are not; [bad]: the
    calls of [close] on descriptors that were not open. *)
Record tel_ok (base : gset Z) (E : gmap Z nv_event_ext_t) (bad : list Z) (s : con) : Prop := {
  to_epoll : 0 <= epoll_fd (lp (cw s));
  to_nodup : NoDup (g_telnet_sessions s);
  to_mem : forall a, a ∈ g_telnet_sessions s <-> is_Some (sess_fd s !! a);
  to_null : sess_fd s !! NULL = None;
  to_ev : forall a f, sess_fd s !! a = Some f -> 0 <= f /\ (f ∉ base) /\ E !! a = None /\ exists e, evs (cw s) !! a = Some e /\ fd e = f;
  to_inj : forall a b f, sess_fd s !! a = Some f -> sess_fd s !! b = Some f -> a = b;
  to_fds : forall f, f ∈ fds s <-> f ∈ base \/ exists a, sess_fd s !! a = Some f;
  to_evs : forall a, sess_fd s !! a = None -> evs (cw s) !! a = E !! a;
  to_bad : ebadf s = bad
}.
(** A connection the kernel and the allocator can give. *)
Definition fresh (x : arrival) (s : con) : Prop :=
  (cfd x ∉ fds s) /\ 0 <= cfd x /\ (mem x <> NULL -> sess_fd s !! mem x = None /\ evs (cw s) !! mem x = None).
(** The variables of the listener. *)
Definition listener (s : con) := (telnet_inited s, telnet_listen_fd s, lp (cw s)).

Lemma add_ev_ok a ctl s e : a <> NULL -> 0 <= epoll_fd (lp (cw s)) -> evs (cw s) !! a = Some e ->
  add_ev a ctl s = Ret (if ctl =? -1 then -1 else 0,
    on_cw (on_evs (<[a := set_active true (set_events EPOLLIN (set_loop LOOP e))]> (evs (cw s))) (cw s)) s).
Proof.
  intros Ha He Hs. unfold add_ev, nv_loop_add_event. destruct (Z.eqb_spec a NULL); [done|]. destruct (Z.eqb_spec (epoll_fd (lp (cw s))) (-1)); [lia|].
  cbn [orb]. unfold upd. rewrite (store_eq _ _ _ e Hs). done.
Qed.
Lemma del_ev_ok a s e : a <> NULL -> 0 <= epoll_fd (lp (cw s)) -> evs (cw s) !! a = Some e ->
  del_ev a s = Ret (on_cw (on_evs (<[a := set_loop NULL (set_active false e)]> (evs (cw s))) (cw s)) s).
Proof.
  intros Ha He Hs. unfold del_ev, nv_loop_del_event. destruct (Z.eqb_spec a NULL); [done|]. destruct (Z.eqb_spec (epoll_fd (lp (cw s))) (-1)); [lia|].
  cbn [orb]. unfold upd. rewrite (store_eq _ _ _ e Hs). done.
Qed.

Lemma unlink_sess_spec a l : NoDup l -> NoDup (unlink_sess a l) /\ forall x, x ∈ unlink_sess a l <-> x ∈ l /\ x <> a.
Proof.
  induction 1 as [|y l Hy Hl IH]; [split; [constructor|set_solver]|]. cbn [unlink_sess]. destruct IH as [IH1 IH2].
  destruct (Z.eqb_spec y a) as [->|Hne]; [split; [done|set_solver]|]. split; [|set_solver]. constructor; [|done]. rewrite IH2. naive_solver.
Qed.

(** A session that ends gives back its descriptor, its memory and its event. *)
Lemma sess_remove_ok base E bad s a : tel_ok base E bad s -> a ∈ g_telnet_sessions s ->
  exists s', nv_telnet_sess_remove a s = Ret s' /\ tel_ok base E bad s' /\ listener s' = listener s /\
    g_telnet_sessions s' = unlink_sess a (g_telnet_sessions s).
Proof.
  intros Hs Ha. pose proof (proj1 (to_mem _ _ _ _ Hs a) Ha) as [f Hf]. destruct (to_ev _ _ _ _ Hs a f Hf) as (Hf0 & Hfb & Ea & e & He & Hef).
  assert (a <> NULL) as Hnn by (intros ->; by rewrite (to_null _ _ _ _ Hs) in Hf). pose proof (to_epoll _ _ _ _ Hs).
  unfold nv_telnet_sess_remove. cbn [cw on_sessions evs]. rewrite He. cbn [deref mbind outcome_bind]. rewrite Hef.
  destruct (Z.leb_spec 0 (epoll_fd (lp (cw s)))); [|lia]. destruct (Z.leb_spec 0 f); [|lia]. cbn [andb].
  rewrite (del_ev_ok a _ e) by done. cbn [mbind outcome_bind]. unfold nv_telnet_sess_free. destruct (Z.eqb_spec a NULL); [done|].
  cbn [sess_fd on_cw on_sessions]. rewrite Hf. cbn [deref mbind outcome_bind]. destruct (Z.leb_spec 0 f); [|lia].
  unfold close. rewrite decide_True by (cbn [fds on_cw on_sessions]; rewrite (to_fds _ _ _ _ Hs); eauto).
  eexists. split; [reflexivity|]. destruct (unlink_sess_spec a _ (to_nodup _ _ _ _ Hs)) as [Hu1 Hu2].
  split; [|done]. destruct Hs. split; simpl; try done.
  - intros x. rewrite Hu2, to_mem0. destruct (decide (x = a)) as [->|]; [rewrite lookup_delete_eq|rewrite lookup_delete_ne by done]; [|naive_solver].
    split; [naive_solver|by intros []].
  - by rewrite lookup_delete_ne.
  - intros x f' Hx. apply lookup_delete_Some in Hx as [Hne Hx]. destruct (to_ev0 x f' Hx) as (? & ? & ? & e' & ? & ?). split_and!; try done.
    exists e'. by rewrite lookup_delete_ne, lookup_insert_ne by done.
  - intros x y f' Hx Hy. apply lookup_delete_Some in Hx as [_ Hx]. apply lookup_delete_Some in Hy as [_ Hy]. eauto.
  - intros f'. rewrite elem_of_difference, elem_of_singleton, to_fds0. split.
    + intros [[?|[x Hx]] Hne]; [by left|]. right. exists x. apply lookup_delete_Some. split; [|done]. intros ->. congruence.
    + intros [?|[x Hx]]; [split; [by left|congruence]|]. apply lookup_delete_Some in Hx as [Hne Hx]. split; [eauto|]. intros ->. apply Hne. eauto.
  - intros x Hx. destruct (decide (x = a)) as [->|]; [by rewrite lookup_delete_eq|]. rewrite lookup_delete_ne in Hx by done.
    rewrite lookup_delete_ne, lookup_insert_ne by done. by apply to_evs0.
Qed.

Lemma tel_ok_same base E bad bad' s s' : tel_ok base E bad s -> fds s' = fds s -> evs (cw s') = evs (cw s) -> lp (cw s') = lp (cw s) ->
  g_telnet_sessions s' = g_telnet_sessions s -> sess_fd s' = sess_fd s -> ebadf s' = bad' -> tel_ok base E bad' s'.
Proof. intros [] E1 E2 E3 E4 E5 E6. split; rewrite ?E1, ?E2, ?E3, ?E4, ?E5; done. Qed.

(** A new session. *)
Lemma tel_ok_add base E bad s a f e s' : tel_ok base E bad s -> (f ∉ fds s) -> 0 <= f -> a <> NULL -> sess_fd s !! a = None -> evs (cw s) !! a = None ->
  fd e = f -> fds s' = fds s ∪ {[f]} -> evs (cw s') = <[a := e]> (evs (cw s)) -> lp (cw s') = lp (cw s) ->
  g_telnet_sessions s' = a :: g_telnet_sessions s -> sess_fd s' = <[a := f]> (sess_fd s) -> ebadf s' = ebadf s -> tel_ok base E bad s'.
Proof.
  intros [] Hf H0 Hnn Hm1 Hm2 He T1 T2 T3 T4 T5 T6.
  assert (forall y, sess_fd s !! y = Some f -> False) as Hno by (intros y Hy; apply Hf, to_fds0; eauto).
  split; rewrite ?T1, ?T2, ?T3, ?T4, ?T5, ?T6; try done.
  - constructor; [|done]. rewrite to_mem0, Hm1. by intros [].
  - intros b. rewrite elem_of_cons, to_mem0. destruct (decide (b = a)) as [->|]; [rewrite lookup_insert_eq|rewrite lookup_insert_ne by done]; naive_solver.
  - by rewrite lookup_insert_ne.
  - intros b g Hb. destruct (decide (b = a)) as [->|]; [rewrite lookup_insert_eq in Hb|rewrite lookup_insert_ne in Hb by done].
    + injection Hb as <-. split_and!; [done| | |]; [|by rewrite <- to_evs0|exists e; by rewrite lookup_insert_eq].
      intros Hin. apply Hf. apply to_fds0. by left.
    + rewrite lookup_insert_ne by done. by apply to_ev0.
  - intros b c g Hb Hc. destruct (decide (b = a)) as [->|], (decide (c = a)) as [->|]; rewrite ?lookup_insert_eq in *; rewrite ?lookup_insert_ne in * by done;
      try done; try (simplify_eq; by exfalso; eapply Hno); eauto.
  - intros g. rewrite elem_of_union, elem_of_singleton, to_fds0. split.
    + intros [[?|[b Hb]]| ->]; [by left|right; exists b|right; exists a; apply lookup_insert_eq].
      destruct (decide (b = a)) as [Eq|]; [|by rewrite lookup_insert_ne]. rewrite Eq in Hb. congruence.
    + intros [?|[b Hb]]; [by left; left|]. destruct (decide (b = a)) as [Eq|]; [rewrite Eq, lookup_insert_eq in Hb; right; congruence|].
      rewrite lookup_insert_ne in Hb by done. left. right. eauto.
  - intros b Hb. apply lookup_insert_None in Hb as [Hb Hne]. rewrite lookup_insert_ne by done. by apply to_evs0.
Qed.

(** A connection becomes a session, or its descriptor is closed again: twice when the loop
    refuses its event. *)
Definition refused (x : arrival) : bool := negb (mem x =? NULL) && (epctl x =? -1).
Lemma accept_one_ok base E bad s x : tel_ok base E bad s -> fresh x s ->
  exists s', accept_one x s = Ret s' /\ tel_ok base E (if refused x then bad ++ [cfd x] else bad) s' /\ listener s' = listener s /\
    sess_fd s' = (if (mem x =? NULL) || (epctl x =? -1) then sess_fd s else <[mem x := cfd x]> (sess_fd s)).
Proof.
  intros Hs (Hf & H0 & Hm). assert ((fds s ∪ {[cfd x]}) ∖ {[cfd x]} = fds s) as Efds by set_solver. pose proof (to_epoll _ _ _ _ Hs).
  unfold accept_one, nv_telnet_sess_start, refused. destruct (Z.eqb_spec (mem x) NULL) as [|Hnn]; cbn [negb andb orb mbind outcome_bind].
  { change (NV_ERROR =? NV_OK) with false. cbn [negb]. eexists. split; [reflexivity|]. unfold close. rewrite decide_True by (simpl; set_solver).
    split_and!; [|done|done]. apply (tel_ok_same base E bad bad s); try done. apply (to_bad _ _ _ _ Hs). }
  destruct (Hm Hnn) as [Hm1 Hm2].
  match goal with |- context [add_ev (mem x) (epctl x) ?y] => set (t := y) end.
  set (e := mkEv (cfd x) 0 0 false TELNET_CLIENT (mem x) 0 0 0 0 0 NV_EVENT_TYPE_IO 0 0 0).
  assert (fds t = fds s ∪ {[cfd x]} /\ ebadf t = ebadf s /\ cw t = on_evs (<[mem x := e]> (evs (cw s))) (cw s) /\ telnet_inited t = telnet_inited s /\
    telnet_listen_fd t = telnet_listen_fd s /\ g_telnet_sessions t = g_telnet_sessions s /\ sess_fd t = <[mem x := cfd x]> (sess_fd s))
    as (T1 & T2 & T3 & T4 & T5 & T6 & T7) by (unfold t; by destruct (getfl x)).
  clearbody t. rewrite (add_ev_ok (mem x) (epctl x) t e) by (rewrite ?T3; try done; apply lookup_insert_eq). cbn [mbind outcome_bind].
  destruct (Z.eqb_spec (epctl x) (-1)) as [|Hok]; cbn [negb Z.eqb].
  - unfold nv_telnet_sess_free. destruct (Z.eqb_spec (mem x) NULL); [done|]. cbn [sess_fd on_cw]. rewrite T7, lookup_insert_eq. cbn [deref mbind outcome_bind].
    destruct (Z.leb_spec 0 (cfd x)); [|lia]. change (NV_ERROR =? NV_OK) with false. cbn [negb]. unfold close.
    rewrite (decide_True (P := cfd x ∈ fds (on_cw _ t))) by (simpl; rewrite T1; set_solver).
    rewrite decide_False by (simpl; rewrite T1; set_solver). eexists. split; [reflexivity|]. split_and!; [|unfold listener; simpl; by rewrite T3, T4, T5|simpl; by rewrite T7, delete_insert_eq, delete_id].
    apply (tel_ok_same base E bad _ s); simpl; rewrite ?T1, ?T2, ?T3, ?T7; simpl; try done.
    + rewrite !delete_insert_eq. by rewrite delete_id.
    + by rewrite delete_insert_eq, delete_id.
    + by rewrite (to_bad _ _ _ _ Hs).
  - change (NV_OK =? NV_OK) with true. cbn [negb]. eexists. split; [reflexivity|]. split_and!; [|unfold listener; simpl; by rewrite T3, T4, T5|by simpl; rewrite T7].
    apply (tel_ok_add base E bad s (mem x) (cfd x) (set_active true (set_events EPOLLIN (set_loop LOOP e)))); simpl;
      rewrite ?T1, ?T2, ?T3, ?T6, ?T7; simpl; rewrite ?insert_insert_eq; try done.
Qed.

Lemma remove_sessions_ok base E bad n : forall s, length (g_telnet_sessions s) = n -> tel_ok base E bad s ->
  exists s', remove_sessions n s = Ret s' /\ tel_ok base E bad s' /\ listener s' = listener s /\ g_telnet_sessions s' = [].
Proof.
  induction n as [|n IH]; intros s Hn Hs; destruct (g_telnet_sessions s) as [|a l] eqn:El; try done; cbn [remove_sessions]; rewrite El; [by exists s|].
  destruct (sess_remove_ok base E bad s a Hs) as (s1 & -> & Hs1 & Hl1 & E1); [rewrite El; apply elem_of_cons; by left|]. cbn [mbind outcome_bind].
  rewrite El in E1. cbn [unlink_sess] in E1. rewrite Z.eqb_refl in E1.
  destruct (IH s1) as (s2 & E2 & Hs2 & Hl2 & ?); [rewrite E1; by injection Hn|done|]. exists s2. split_and!; [done|done|congruence|done].
Qed.
Lemma tel_ok_empty base E bad s : tel_ok base E bad s -> g_telnet_sessions s = [] -> sess_fd s = ∅ /\ fds s = base /\ evs (cw s) = E.
Proof.
  intros Hs El. assert (forall a, sess_fd s !! a = None) as Hn.
  { intros a. destruct (sess_fd s !! a) eqn:Ea; [|done]. assert (a ∈ g_telnet_sessions s) as H by (apply (to_mem _ _ _ _ Hs); eauto). rewrite El in H. by apply not_elem_of_nil in H. }
  split_and!; [by apply map_empty| |].
  - apply set_eq. intros f. rewrite (to_fds _ _ _ _ Hs). split; [|by left]. intros [?|[a Ha]]; [done|]. by rewrite Hn in Ha.
  - apply map_eq. intros a. by apply (to_evs _ _ _ _ Hs).
Qed.

(** Clients come, and the console removes sessions. *)
Inductive action := Arrive (x : arrival) | Leave (a : Z).
Inductive run : list action -> con -> con -> Prop :=
  | run_done s : run [] s s
  | run_arrive x l s s1 s2 : fresh x s -> accept_one x s = Ret s1 -> run l s1 s2 -> run (Arrive x :: l) s s2
  | run_leave a l s s1 s2 : a ∈ g_telnet_sessions s -> nv_telnet_sess_remove a s = Ret s1 -> run l s1 s2 -> run (Leave a :: l) s s2.
(** The descriptors of the connections that were refused. *)
Definition refusals (l : list action) : list Z :=
  omap (fun x => match x with Arrive x => if refused x then Some (cfd x) else None | Leave _ => None end) l.
Lemma run_ok base E l s s' : run l s s' -> forall bad, tel_ok base E bad s -> tel_ok base E (bad ++ refusals l) s' /\ listener s' = listener s.
Proof.
  induction 1 as [s|x l s s1 s2 Hf Ea _ IH|a l s s1 s2 Ha Er _ IH]; intros bad Hs; [by rewrite app_nil_r|..].
  - destruct (accept_one_ok base E bad s x Hs Hf) as (t & Et & Ht & <- & _). rewrite Ea in Et. injection Et as <-.
    destruct (IH _ Ht) as [H1 H2]. split; [|done]. cbn [refusals omap list_omap]. destruct (refused x); [|done].
    by rewrite <- app_assoc in H1.
  - destruct (sess_remove_ok base E bad s a Hs Ha) as (t & Et & Ht & <- & _). rewrite Er in Et. injection Et as <-. by apply IH.
Qed.

Lemma telnet_init_ok sfd ctl bind s : telnet_inited s = false -> g_telnet_sessions s = [] -> sess_fd s = ∅ -> 0 <= epoll_fd (lp (cw s)) ->
  0 <= sfd -> ctl <> -1 -> exists s1 e, nv_core_telnet_init sfd true true true true ctl true bind s = Ret (NV_OK, s1) /\
    tel_ok (fds s ∪ {[sfd]}) (<[TELNET_LISTEN_EV := e]> (evs (cw s))) (ebadf s) s1 /\ listener s1 = (true, sfd, lp (cw s)).
Proof.
  intros Hi Hl Hm He Hf Hc. unfold nv_core_telnet_init. rewrite Hi. destruct (Z.ltb_spec sfd 0); [lia|]. cbn [negb andb]. rewrite andb_false_r.
  rewrite (add_ev_ok _ _ _ (mkEv sfd 0 0 false TELNET_ACCEPT 0 0 0 0 0 0 NV_EVENT_TYPE_IO 0 0 0)); [|done|done|apply lookup_insert_eq].
  cbn [mbind outcome_bind]. destruct (Z.eqb_spec ctl (-1)); [done|]. cbn [Z.eqb negb]. do 2 eexists. split; [reflexivity|]. split; [|done].
  split; simpl; rewrite ?Hl, ?Hm; try done.
  - constructor.
  - intros a. rewrite lookup_empty. split; [by intros ?%not_elem_of_nil|by intros []].
  - intros f. split; [by left|]. intros [?|[a Ha]]; [done|]. by rewrite lookup_empty in Ha.
  - intros a _. by rewrite insert_insert_eq.
Qed.

(** C38: after any sequence of connections that arrive, whether their start succeeds or is
    refused, and of sessions that the console removes (as it does when a client hangs up), the
    next arrival and the next removal are defined, and the cleanup closes what is open: the
    descriptors and the events (the listening event apart) are those from before the
    initialisation, and no session is left.  The descriptors closed once too often are exactly
    those of the connections whose event the loop refused, in order.  (A client that leaves by a
    command is not such a removal: [nv_telnet_exit_uses_freed_session].) *)
Theorem nv_telnet_gives_back sfd ctl bind s0 : telnet_inited s0 = false -> g_telnet_sessions s0 = [] -> sess_fd s0 = ∅ ->
  0 <= epoll_fd (lp (cw s0)) -> 0 <= sfd -> (sfd ∉ fds s0) -> ctl <> -1 ->
  exists s1, nv_core_telnet_init sfd true true true true ctl true bind s0 = Ret (NV_OK, s1) /\ forall l s2, run l s1 s2 ->
    (forall x, fresh x s2 -> exists s, accept_one x s2 = Ret s) /\ (forall a, a ∈ g_telnet_sessions s2 -> exists s, nv_telnet_sess_remove a s2 = Ret s) /\
    exists s3, nv_core_telnet_cleanup s2 = Ret s3 /\ fds s3 = fds s0 /\ g_telnet_sessions s3 = [] /\ sess_fd s3 = ∅ /\ telnet_inited s3 = false /\
      (forall a, a <> TELNET_LISTEN_EV -> evs (cw s3) !! a = evs (cw s0) !! a) /\ ebadf s3 = ebadf s0 ++ refusals l.
Proof.
  intros Hi Hl Hm He Hf Hnin Hc. destruct (telnet_init_ok sfd ctl bind s0 Hi Hl Hm He Hf Hc) as (s1 & e & E1 & Hs1 & L1). exists s1. split; [done|].
  intros l s2 Hst. destruct (run_ok _ _ _ _ _ Hst _ Hs1) as [Hs2 L2]. rewrite L1 in L2. split_and!.
  { intros x Hx. destruct (accept_one_ok _ _ _ _ x Hs2 Hx) as (s & ? & _). eauto. }
  { intros a Ha. destruct (sess_remove_ok _ _ _ _ a Hs2 Ha) as (s & ? & _). eauto. }
  destruct (remove_sessions_ok _ _ _ _ s2 eq_refl Hs2) as (s3 & E3 & Hs3 & L3 & El3). rewrite L2 in L3. unfold listener in L3. injection L3 as T1 T2 T3.
  destruct (tel_ok_empty _ _ _ _ Hs3 El3) as (Em & Ef & Ev). unfold nv_core_telnet_cleanup. rewrite E3. cbn [mbind outcome_bind].
  rewrite T1, T2. destruct (Z.leb_spec 0 sfd); [|lia]. cbn [andb].
  rewrite (del_ev_ok TELNET_LISTEN_EV s3 e); [|done|by rewrite T3|rewrite Ev; apply lookup_insert_eq]. cbn [mbind outcome_bind on_cw telnet_listen_fd].
  rewrite T2. unfold close. rewrite decide_True by (simpl; rewrite Ef; set_solver). eexists. split; [reflexivity|]. simpl. rewrite Ef, Em, El3.
  split_and!; [set_solver|done|done|done| |exact (to_bad _ _ _ _ Hs3)].
  intros a Ha. rewrite lookup_insert_ne by done. rewrite Ev, lookup_insert_ne by done. done.
Qed.

Definition con0 : con := mkCon {[0; 1; 2]} ∅ ∅ [] (mkWorld ∅ (snd (nv_loop_init None 5 true true)) 0) (mkCli [] false false) [] false (-1) false (-1) [] ∅.
Lemma nv_telnet_gives_back_witness :
  exists s1, nv_core_telnet_init 9 true true true true 0 true None con0 = Ret (NV_OK, s1) /\ forall l s2, run l s1 s2 ->
    (forall x, fresh x s2 -> exists s, accept_one x s2 = Ret s) /\ (forall a, a ∈ g_telnet_sessions s2 -> exists s, nv_telnet_sess_remove a s2 = Ret s) /\
    exists s3, nv_core_telnet_cleanup s2 = Ret s3 /\ fds s3 = fds con0 /\ g_telnet_sessions s3 = [] /\ sess_fd s3 = ∅ /\ telnet_inited s3 = false /\
      (forall a, a <> TELNET_LISTEN_EV -> evs (cw s3) !! a = evs (cw con0) !! a) /\ ebadf s3 = [] ++ refusals l.
Proof. apply (nv_telnet_gives_back 9 0 None con0); try done. Defined.

(** A connection whose event the loop refuses has its descriptor closed twice. *)
Theorem nv_telnet_refused_closes_twice base E bad s x : tel_ok base E bad s -> fresh x s -> mem x <> NULL -> epctl x = -1 ->
  exists s', accept_one x s = Ret s' /\ ebadf s' = ebadf s ++ [cfd x] /\ fds s' = fds s.
Proof.
  intros Hs Hx Hnn Hc. destruct (accept_one_ok base E bad s x Hs Hx) as (s' & Es & Hs' & _ & Em). exists s'. split; [done|].
  unfold refused in Hs'. destruct (Z.eqb_spec (mem x) NULL); [done|]. rewrite Hc in Hs'. change (negb false && (-1 =? -1)) with true in Hs'. cbv iota in Hs'.
  split; [by rewrite (to_bad _ _ _ _ Hs'), (to_bad _ _ _ _ Hs)|].
  rewrite Hc, orb_true_r in Em. apply set_eq. intros f. by rewrite (to_fds _ _ _ _ Hs'), (to_fds _ _ _ _ Hs), Em.
Qed.

Lemma con0_ok : tel_ok {[0; 1; 2]} ∅ [] con0.
Proof.
  split; simpl; try done; [constructor| |].
  - intros a. split; [by intros ?%not_elem_of_nil|by intros []].
  - intros f. split; [by left|]. intros [?|[a Ha]]; [done|by rewrite lookup_empty in Ha].
Qed.
Lemma nv_telnet_refused_closes_twice_witness :
  exists s', accept_one (mkArrival 9 64 true (-1)) con0 = Ret s' /\ ebadf s' = ebadf con0 ++ [9] /\ fds s' = fds con0.
Proof. apply (nv_telnet_refused_closes_twice {[0; 1; 2]} ∅ [] con0 (mkArrival 9 64 true (-1))); [apply con0_ok|split; [set_solver|done]|done|done]. Defined.

(** ** The control socket *)

(** The state a successful initialisation leaves. *)
Lemma ctl_init_ok sfd ctl path s : path <> [] -> ctl_inited s = false -> 0 <= sfd -> 0 <= epoll_fd (lp (cw s)) -> ctl <> -1 ->
  sun_path path ∉ paths s ∖ {[path]} ->
  exists s1 e, nv_core_ctl_init sfd true true ctl (Some path) s = Ret (NV_OK, s1) /\ fds s1 = fds s ∪ {[sfd]} /\ nonblock s1 = nonblock s ∖ {[sfd]} /\
    paths s1 = paths s ∖ {[path]} ∪ {[sun_path path]} /\ ctl_inited s1 = true /\ ctl_listen_fd s1 = sfd /\ lp (cw s1) = lp (cw s) /\
    evs (cw s1) = <[CTL_LISTEN_EV := e]> (evs (cw s)) /\ fd e = sfd.
Proof.
  intros Hp Hi Hs He Hc Hn. unfold nv_core_ctl_init. destruct path as [|c path]; [done|]. rewrite Hi. destruct (Z.ltb_spec sfd 0); [lia|].
  cbn [negb orb]. rewrite bool_decide_eq_false_2 by done.
  rewrite (add_ev_ok _ _ _ (mkEv sfd 0 0 false CTL_ACCEPT 0 0 0 0 0 0 NV_EVENT_TYPE_IO 0 0 0)); [|done|done|apply lookup_insert_eq].
  cbn [mbind outcome_bind]. destruct (Z.eqb_spec ctl (-1)); [done|]. cbn [Z.eqb negb]. do 2 eexists. split; [reflexivity|]. simpl.
  split_and!; try done; [by rewrite insert_insert_eq|done].
Qed.
Lemma ctl_cleanup_ok path s e : ctl_inited s = true -> 0 <= ctl_listen_fd s -> ctl_listen_fd s ∈ fds s -> 0 <= epoll_fd (lp (cw s)) ->
  evs (cw s) !! CTL_LISTEN_EV = Some e ->
  exists s', nv_core_ctl_cleanup (Some path) s = Ret s' /\ fds s' = fds s ∖ {[ctl_listen_fd s]} /\ paths s' = paths s ∖ {[path]} /\
    ctl_inited s' = false /\ lp (cw s') = lp (cw s).
Proof.
  intros Hi H0 Hin He Ev. unfold nv_core_ctl_cleanup. rewrite Hi. cbn [negb]. destruct (Z.leb_spec 0 (ctl_listen_fd s)); [|lia].
  rewrite (del_ev_ok CTL_LISTEN_EV s e) by done. cbn [mbind outcome_bind]. unfold close. cbn [ctl_listen_fd on_cw fds]. rewrite decide_True by done.
  by eexists.
Qed.

(** The control socket is bound to the first 107 characters of its path but removed by
    the whole path: with a path that fits, initialisation and cleanup leave no descriptor and
    no file; with a longer one the file stays behind and the next initialisation fails. *)
Theorem nv_core_ctl_path sfd sfd' ctl path s : path <> [] -> ctl_inited s = false -> 0 <= sfd -> 0 <= sfd' -> (sfd ∉ fds s) ->
  0 <= epoll_fd (lp (cw s)) -> ctl <> -1 -> (sun_path path ∉ paths s ∖ {[path]}) ->
  exists s1 s2, nv_core_ctl_init sfd true true ctl (Some path) s = Ret (NV_OK, s1) /\ nv_core_ctl_cleanup (Some path) s1 = Ret s2 /\ fds s2 = fds s /\
    if (length path <? SUN_PATH)%nat then paths s2 = paths s ∖ {[path]}
    else sun_path path ∈ paths s2 /\ exists s3, nv_core_ctl_init sfd' true true ctl (Some path) s2 = Ret (NV_ERROR, s3).
Proof.
  intros Hp Hi Hs Hs' Hnin He Hc Hn. destruct (ctl_init_ok sfd ctl path s Hp Hi Hs He Hc Hn) as (s1 & e & E1 & F1 & _ & P1 & I1 & L1 & W1 & V1 & _).
  destruct (ctl_cleanup_ok path s1 e) as (s2 & E2 & F2 & P2 & I2 & _); [done|by rewrite L1|rewrite L1, F1; set_solver|by rewrite W1|rewrite V1; apply lookup_insert_eq|].
  exists s1, s2. split_and!; [done|done|rewrite F2, F1, L1; set_solver|]. destruct (Nat.ltb_spec (length path) SUN_PATH) as [Hlt|Hge].
  - assert (sun_path path = path) as Eq by (apply take_ge; unfold SUN_PATH in *; lia). rewrite P2, P1, Eq. set_solver.
  - assert (sun_path path <> path) as Hne.
    { intros Eq. apply (f_equal length) in Eq. unfold sun_path in Eq. rewrite length_take in Eq. unfold SUN_PATH in *. lia. }
    assert (sun_path path ∈ paths s2) as Hin by (rewrite P2, P1; set_solver). split; [done|].
    unfold nv_core_ctl_init. destruct path as [|c path]; [done|]. rewrite I2. destruct (Z.ltb_spec sfd' 0); [lia|].
    cbn [negb orb]. rewrite bool_decide_eq_true_2 by (simpl; set_solver). by eexists.
Qed.
Lemma nv_core_ctl_path_witness :
  exists s1 s2, nv_core_ctl_init 9 true true 0 (Some (repeat 97 120)) con0 = Ret (NV_OK, s1) /\ nv_core_ctl_cleanup (Some (repeat 97 120)) s1 = Ret s2 /\ fds s2 = fds con0 /\
    if (length (repeat 97 120) <? SUN_PATH)%nat then paths s2 = paths con0 ∖ {[repeat 97 120]}
    else sun_path (repeat 97 120) ∈ paths s2 /\ exists s3, nv_core_ctl_init 9 true true 0 (Some (repeat 97 120)) s2 = Ret (NV_ERROR, s3).
Proof. apply (nv_core_ctl_path 9 9 0 (repeat 97 120) con0); try done; try lia; set_solver. Defined.

(** The listening descriptor of the control socket blocks, so that its handler, once
    called, serves the connections that wait and then never returns to the event loop (an
    error of [accept] apart); a client that connects and stays silent stops it before. *)
Theorem nv_core_ctl_never_returns report pid sfd ctl path s waiting : path <> [] -> ctl_inited s = false -> 0 <= sfd ->
  0 <= epoll_fd (lp (cw s)) -> ctl <> -1 -> (sun_path path ∉ paths s ∖ {[path]}) ->
  exists s1, nv_core_ctl_init sfd true true ctl (Some path) s = Ret (NV_OK, s1) /\
    exists s2, nv_core_ctl_accept_handler report pid CTL_LISTEN_EV (map Some waiting) s1 = Ret (Blocked, s2).
Proof.
  intros Hp Hi Hs He Hc Hn. destruct (ctl_init_ok sfd ctl path s Hp Hi Hs He Hc Hn) as (s1 & e & E1 & _ & N1 & _ & _ & _ & _ & V1 & Hfd).
  exists s1. split; [done|]. unfold nv_core_ctl_accept_handler. rewrite V1, lookup_insert_eq. cbn [deref mbind outcome_bind]. rewrite Hfd.
  destruct (Z.ltb_spec sfd 0); [lia|]. assert (sfd ∉ nonblock s1) as Hb by (rewrite N1; set_solver). clear - Hb.
  revert s1 Hb. induction waiting as [|[c i] waiting IH]; intros s Hb; cbn [map nv_core_ctl_accept_loop]; [rewrite decide_False by done; by eexists|].
  assert (sfd ∉ nonblock (open_fd c 0 s)) as Hb1 by (simpl; set_solver).
  assert (forall t, sfd ∉ nonblock t -> sfd ∉ nonblock (close c t)) as Hcl by (intros t Ht; unfold close; by destruct (decide _)).
  destruct i as [| |l]; cbn [nv_core_ctl_handle_client]; [by eexists|by apply IH, Hcl|].
  destruct (nv_core_cli_execute_line _ _ _ _ _ _) as [[rc r] out]. by apply IH, Hcl.
Qed.
Lemma nv_core_ctl_never_returns_witness :
  exists s1, nv_core_ctl_init 9 true true 0 (Some (str "/run/nv.sock")) con0 = Ret (NV_OK, s1) /\
    exists s2, nv_core_ctl_accept_handler (fun _ _ => (0, [])) 1 CTL_LISTEN_EV (map Some [(10, Bytes (str "ping"))]) s1 = Ret (Blocked, s2).
Proof. apply (nv_core_ctl_never_returns (fun _ _ => (0, [])) 1 9 0 (str "/run/nv.sock") con0 [(10, Bytes (str "ping"))]); try done; set_solver. Defined.

End Console.
