(* ===== verification/Health.v ===== *)
(** * Health and business modules (core/runtime/nv_core_health.c, nv_core_modules.c, base/sys/nv_watchdog.c)

    The heartbeat and the module tick as timers of the event loop, messages to the service
    manager, the watchdog device and the published counters.  What the system answers is an
    argument ([env]).  Theorems: the published text always fits and determines the counters;
    which address a message to the service manager goes to; everything opened is closed and
    the watchdog is told to stop; and that the heartbeat never runs when its interval is
    longer than two ticks. *)
From S2P Require Import Prelude DLinks EventLoop NetBuf.

Module Health.
Import EventLoop NetBuf.

Definition NV_OK : Z := 0.
Definition NV_ERROR : Z := -1.
Definition NV_DECLINED : Z := -5.
Definition NV_CORE_SYSTEMD_AUTO : Z := -1.
Definition SUN_PATH : nat := 108.

(** The events of the heartbeat (in the context) and of the tick (static), and the addresses
    of their handlers. *)
Definition HEARTBEAT_EV : Z := 6.
Definition TICK_EV : Z := 7.
Definition HEARTBEAT : Z := 14.
Definition TICK : Z := 15.

Record opts_t := mkOpts {
  systemd_notify : Z; watchdog_enable : bool; watchdog_device : option cstr; watchdog_cmd : option cstr;
  heartbeat_interval_sec : Z; metrics_publish : bool; metrics_topic : option cstr; worker_connections : Z
}.
(** What the system answers during one call: the environment, the clock (seconds), and the
    results of [socket], [sendto], [open], the [ioctl], [write], [system], the length and losses
    of the log queue and the result of publishing. *)
Record env := mkEnv {
  notify_socket : option cstr; now : Z; sock_fd : Z; send_ok : bool; wdt_open : Z; keepalive_ok : bool; write_ok : bool;
  cmd_rc : Z; log_pending : Z; log_dropped : Z; pub_rc : Z
}.
(** The context, the static variables, and what left the process: messages with their
    address, writes to the watchdog, commands run, and publications. *)
Record health := mkHealth {
  hw : world; started_at : Z; health_inited : bool; pubsub_inited : bool; quit : bool; reload : bool;
  g_systemd_notify : bool; g_wdt_fd : Z; fds : gset Z;
  notes : list (list Z * cstr); wdt_writes : list (Z * cstr); cmds : list cstr; published : list (cstr * cstr)
}.
Definition on_world (w : world) (s : health) := mkHealth w (started_at s) (health_inited s) (pubsub_inited s) (quit s) (reload s)
  (g_systemd_notify s) (g_wdt_fd s) (fds s) (notes s) (wdt_writes s) (cmds s) (published s).
Definition on_started (t : Z) (s : health) := mkHealth (hw s) t (health_inited s) (pubsub_inited s) (quit s) (reload s)
  (g_systemd_notify s) (g_wdt_fd s) (fds s) (notes s) (wdt_writes s) (cmds s) (published s).
Definition on_inited (b n : bool) (s : health) := mkHealth (hw s) (started_at s) b (pubsub_inited s) (quit s) (reload s)
  n (g_wdt_fd s) (fds s) (notes s) (wdt_writes s) (cmds s) (published s).
Definition on_notes (l : list (list Z * cstr)) (s : health) := mkHealth (hw s) (started_at s) (health_inited s) (pubsub_inited s) (quit s) (reload s)
  (g_systemd_notify s) (g_wdt_fd s) (fds s) l (wdt_writes s) (cmds s) (published s).
Definition on_wdt (fd : Z) (f : gset Z) (l : list (Z * cstr)) (s : health) := mkHealth (hw s) (started_at s) (health_inited s) (pubsub_inited s) (quit s) (reload s)
  (g_systemd_notify s) fd f (notes s) l (cmds s) (published s).
Definition on_cmds (l : list cstr) (s : health) := mkHealth (hw s) (started_at s) (health_inited s) (pubsub_inited s) (quit s) (reload s)
  (g_systemd_notify s) (g_wdt_fd s) (fds s) (notes s) (wdt_writes s) l (published s).
Definition on_published (l : list (cstr * cstr)) (s : health) := mkHealth (hw s) (started_at s) (health_inited s) (pubsub_inited s) (quit s) (reload s)
  (g_systemd_notify s) (g_wdt_fd s) (fds s) (notes s) (wdt_writes s) (cmds s) l.

(** ** base/sys/nv_watchdog.c *)

Definition nv_watchdog_open (e : env) (device : option cstr) (s : health) : Z * health :=
  if 0 <=? g_wdt_fd s then (NV_OK, s) else
  if wdt_open e <? 0 then (NV_ERROR, on_wdt (wdt_open e) (fds s) (wdt_writes s) s)
  else (NV_OK, on_wdt (wdt_open e) (fds s ∪ {[wdt_open e]}) (wdt_writes s) s).
(** A write to the device; [ok]: whether the byte was written. *)
Definition wdt_write (ok : bool) (b : cstr) (s : health) : health :=
  if ok then on_wdt (g_wdt_fd s) (fds s) (wdt_writes s ++ [(g_wdt_fd s, b)]) s else s.
Definition nv_watchdog_feed (e : env) (s : health) : Z * health :=
  if g_wdt_fd s <? 0 then (NV_DECLINED, s) else
  if keepalive_ok e then (NV_OK, s) else
  (if write_ok e then NV_OK else NV_ERROR, wdt_write (write_ok e) [0] s).
Definition nv_watchdog_close (e : env) (s : health) : health :=
  if 0 <=? g_wdt_fd s then
    let s := wdt_write (write_ok e) (str "V") s in
    on_wdt (-1) (fds s ∖ {[g_wdt_fd s]}) (wdt_writes s) s
  else s.
Definition nv_watchdog_feed_cmd (e : env) (cmd : option cstr) (s : health) : Z * health :=
  match cmd with
  | None | Some [] => (NV_DECLINED, s)
  | Some c => (if cmd_rc e =? 0 then NV_OK else NV_ERROR, on_cmds (cmds s ++ [c]) s)
  end.

(** ** core/runtime/nv_core_health.c *)

(** The path field of the address (zeroed before it is copied to) and the length given for
    the address; the family takes two bytes. *)
Definition notify_address (sock : cstr) : list Z * Z :=
  if default 0 (head sock) =? 64
  then (zeroed SUN_PATH (0 :: take (SUN_PATH - 2) (tail sock)), 2 + 1 + strlen (tail sock))
  else (zeroed SUN_PATH (take (SUN_PATH - 1) sock), 2 + strlen (take (SUN_PATH - 1) sock)).
(** The name the kernel takes from it: none when the length exceeds the structure (EINVAL). *)
Definition kernel_name (a : list Z * Z) : option (list Z) :=
  if 2 + Z.of_nat SUN_PATH <? snd a then None else Some (take (Z.to_nat (snd a - 2)) (fst a)).
Definition nv_core_systemd_notify (e : env) (state : option cstr) (s : health) : Z * health :=
  match state with
  | None => (NV_OK, s)
  | Some state =>
      if negb (g_systemd_notify s) then (NV_OK, s) else
      match notify_socket e with
      | None | Some [] => (NV_OK, s)
      | Some sock =>
          if sock_fd e <? 0 then (NV_ERROR, s) else
          match kernel_name (notify_address sock) with
          | Some name => if send_ok e then (NV_OK, on_notes (notes s ++ [(name, state)]) s) else (NV_ERROR, s)
          | None => (NV_ERROR, s)
          end
      end
  end.

Record nv_core_runtime_stats_t := mkStats {
  st_started_at : Z; uptime_sec : Z; quitting : bool; reloading : bool; loop_events : Z; loop_timers : Z; loop_idle : Z
}.
(** [fuel] bounds the walk along the lists of the loop. *)
Definition nv_core_get_runtime_stats (fuel : nat) (e : env) (s : health) : outcome nv_core_runtime_stats_t :=
  '(ev, ti, _, id, _) ← nv_loop_get_stats fuel (hw s);
  Ret (mkStats (started_at s) (if 0 <? started_at s then u64 (now e - started_at s) else 0) (quit s) (reload s) ev ti id).

Definition nv_core_feed_watchdog (o : opts_t) (e : env) (s : health) : Z * health :=
  if negb (watchdog_enable o) then (NV_DECLINED, s) else
  match watchdog_cmd o with
  | None | Some [] => nv_watchdog_feed e s
  | Some c => nv_watchdog_feed_cmd e (Some c) s
  end.

(** A JSON key with its colon. *)
Definition key (s : string) : cstr := [34] ++ str s ++ [34; 58].
Definition metrics_text (st : nv_core_runtime_stats_t) (pending dropped : Z) : cstr :=
  [123] ++ key "uptime" ++ print_dec (uptime_sec st) ++ [44] ++ key "loop_events" ++ print_dec (loop_events st) ++
  [44] ++ key "loop_timers" ++ print_dec (loop_timers st) ++ [44] ++ key "log_pending" ++ print_dec pending ++
  [44] ++ key "log_dropped" ++ print_dec dropped ++ [44] ++ key "quitting" ++ print_dec (if quitting st then 1 else 0) ++ [125].
Definition METRICS_BUF : Z := 640.
Definition nv_core_publish_metrics (fuel : nat) (o : opts_t) (e : env) (s : health) : outcome (Z * health) :=
  if negb (metrics_publish o) || negb (pubsub_inited s) then Ret (NV_DECLINED, s) else
  match metrics_topic o with
  | None | Some [] => Ret (NV_DECLINED, s)
  | Some topic =>
      st ← nv_core_get_runtime_stats fuel e s;
      let text := metrics_text st (log_pending e) (log_dropped e) in
      let n := strlen text in
      if (n <=? 0) || (METRICS_BUF <=? n) then Ret (NV_ERROR, s) else
      Ret (pub_rc e, on_published (published s ++ [(topic, text)]) s)
  end.

Definition heartbeat_ms (o : opts_t) : Z := u64 (heartbeat_interval_sec o * 1000).
Definition nv_core_heartbeat_handler (fuel : nat) (o : opts_t) (e : env) (ev : Z) (s : health) : outcome health :=
  if ev =? NULL then Ret s else
  _ ← nv_core_get_runtime_stats fuel e s;
  let s := if g_systemd_notify s then snd (nv_core_systemd_notify e (Some (str "WATCHDOG=1")) s) else s in
  let s := snd (nv_core_feed_watchdog o e s) in
  '(_, s) ← nv_core_publish_metrics fuel o e s;
  if 0 <? heartbeat_interval_sec o then
    '(_, w) ← nv_loop_add_timer (hw s) ev (heartbeat_ms o);
    Ret (on_world w s)
  else Ret s.

(** A zeroed event with its type and handler. *)
Definition timer_event (h : Z) : nv_event_ext_t := mkEv 0 0 0 false h 0 0 0 0 0 0 NV_EVENT_TYPE_TIMER 0 0 0.
Definition put_event (a h : Z) (w : world) : world := on_evs (<[a := timer_event h]> (evs w)) w.
Definition nv_core_health_init (o : opts_t) (e : env) (s : health) : outcome (Z * health) :=
  let s := on_started (now e) s in
  let n := if systemd_notify o =? NV_CORE_SYSTEMD_AUTO then match notify_socket e with Some _ => true | None => false end
           else negb (systemd_notify o =? 0) in
  let s := on_inited (health_inited s) n s in
  let s := if n then snd (nv_core_systemd_notify e (Some (str "READY=1")) s) else s in
  let s := if watchdog_enable o
           then match watchdog_device o with None | Some [] => s | Some d => snd (nv_watchdog_open e (Some d) s) end
           else s in
  s ← (if 0 <? heartbeat_interval_sec o then
         '(_, w) ← nv_loop_add_timer (put_event HEARTBEAT_EV HEARTBEAT (hw s)) HEARTBEAT_EV (heartbeat_ms o);
         Ret (on_world w s)
       else Ret s);
  Ret (NV_OK, on_inited true (g_systemd_notify s) s).
Definition nv_core_health_cleanup (o : opts_t) (e : env) (s : health) : outcome health :=
  if negb (health_inited s) then Ret s else
  let s := if g_systemd_notify s then snd (nv_core_systemd_notify e (Some (str "STOPPING=1")) s) else s in
  s ← (if 0 <? heartbeat_interval_sec o then
         '(_, w) ← nv_loop_del_timer (hw s) HEARTBEAT_EV; Ret (on_world w s)
       else Ret s);
  Ret (on_inited false false (nv_watchdog_close e s)).

(** ** core/runtime/nv_core_modules.c *)

Definition TICK_MS : Z := 5000.
Definition nv_mod_event_tick (w : world) (ev : Z) : outcome world :=
  if ev =? NULL then Ret w else '(_, w) ← nv_loop_add_timer w ev TICK_MS; Ret w.
Definition nv_mod_event_loop_init (w : world) : outcome (Z * world) :=
  '(rc, w) ← nv_loop_add_timer (put_event TICK_EV TICK w) TICK_EV TICK_MS;
  Ret (if rc =? 0 then NV_OK else NV_ERROR, w).
Definition nv_mod_event_loop_cleanup (w : world) : outcome world :=
  '(_, w) ← nv_loop_del_timer w TICK_EV; Ret w.
(** [r1 r2], [r3 r4]: whether memory and mutex of the two pools were got. *)
Definition nv_mod_network_loop_init (r1 r2 r3 r4 : bool) (o : opts_t) (tcp udp : pool_t) : Z * pool_t * pool_t :=
  let maxc := if worker_connections o <? 16 then 16 else worker_connections o in
  (NV_OK, snd (nv_tcp_pool_create r1 r2 maxc tcp), snd (nv_udp_pool_create r3 r4 maxc udp)).
Definition nv_mod_network_loop_cleanup (tcp udp : pool_t) : pool_t * pool_t := (nv_tcp_pool_destroy tcp, nv_udp_pool_destroy udp).
Definition nv_core_modules_init (r1 r2 r3 r4 : bool) (o : opts_t) (w : world) (tcp udp : pool_t) : outcome (Z * world * pool_t * pool_t) :=
  '(rc, w) ← nv_mod_event_loop_init w;
  if negb (rc =? NV_OK) then Ret (NV_ERROR, w, tcp, udp) else
  let '(rc, tcp, udp) := nv_mod_network_loop_init r1 r2 r3 r4 o tcp udp in
  if negb (rc =? NV_OK) then w ← nv_mod_event_loop_cleanup w; Ret (NV_ERROR, w, tcp, udp) else
  Ret (NV_OK, w, tcp, udp).
Definition nv_core_modules_cleanup (w : world) (tcp udp : pool_t) : outcome (world * pool_t * pool_t) :=
  let '(tcp, udp) := nv_mod_network_loop_cleanup tcp udp in
  w ← nv_mod_event_loop_cleanup w; Ret (w, tcp, udp).

(** ** The heartbeat never runs *)

(** What the two handlers do to the loop. *)
Definition core_call (o : opts_t) : Z -> world -> Z -> Z -> outcome world := fun h w ev _ =>
  if h =? HEARTBEAT then
    (if 0 <? heartbeat_interval_sec o then '(_, w) ← nv_loop_add_timer w ev (heartbeat_ms o); Ret w else Ret w)
  else if h =? TICK then nv_mod_event_tick w ev else Ret w.

Lemma notify_world e t s : hw (snd (nv_core_systemd_notify e t s)) = hw s.
Proof. unfold nv_core_systemd_notify. by repeat case_match. Qed.
Lemma open_world e d s : hw (snd (nv_watchdog_open e d s)) = hw s.
Proof. unfold nv_watchdog_open. by repeat case_match. Qed.
Lemma feed_world o e s : hw (snd (nv_core_feed_watchdog o e s)) = hw s.
Proof. unfold nv_core_feed_watchdog, nv_watchdog_feed, nv_watchdog_feed_cmd, wdt_write. by repeat case_match. Qed.
Lemma metrics_world fuel o e s rc s' : nv_core_publish_metrics fuel o e s = Ret (rc, s') -> hw s' = hw s.
Proof.
  unfold nv_core_publish_metrics. destruct (_ || _); [by intros [= _ <-]|]. destruct (metrics_topic o) as [[|c t]|]; try by intros [= _ <-].
  destruct (nv_core_get_runtime_stats fuel e s); cbn [mbind outcome_bind]; try done. destruct (_ || _); by intros [= _ <-].
Qed.
Lemma heartbeat_world fuel o e ev s s' d : ev <> NULL -> nv_core_heartbeat_handler fuel o e ev s = Ret s' -> core_call o HEARTBEAT (hw s) ev d = Ret (hw s').
Proof.
  intros Hev. unfold nv_core_heartbeat_handler. destruct (Z.eqb_spec ev NULL); [done|]. destruct (nv_core_get_runtime_stats fuel e s); cbn [mbind outcome_bind]; try done.
  match goal with |- context [nv_core_publish_metrics fuel o e ?x] => assert (hw x = hw s) as Hx; [|destruct (nv_core_publish_metrics fuel o e x) as [[rc s1]| |] eqn:E] end;
    cbn [mbind outcome_bind]; try done.
  { rewrite feed_world. by destruct (g_systemd_notify s); [apply notify_world|]. }
  apply metrics_world in E. rewrite Hx in E. unfold core_call. rewrite Z.eqb_refl, <- E. destruct (0 <? heartbeat_interval_sec o); [|by intros [= <-]].
  destruct (nv_loop_add_timer (hw s1) ev (heartbeat_ms o)) as [[rc' w]| |]; cbn [mbind outcome_bind]; try done. by intros [= <-].
Qed.

(** The heartbeat first, the tick behind it. *)
Definition both (w : world) (eb ea : nv_event_ext_t) : Prop :=
  evs w !! HEARTBEAT_EV = Some eb /\ evs w !! TICK_EV = Some ea /\ timers_head (lp w) = HEARTBEAT_EV /\
  e_next eb = TICK_EV /\ e_prev eb = NULL /\ e_next ea = NULL.

Ltac heap := repeat first [progress cbn -[wrap] | progress unfold store, store_if | rewrite lookup_insert_eq | rewrite lookup_insert_ne by done].

(** Firing the tick: its handler pushes it in front of the heartbeat, and the pass then
    unlinks it from there; the heartbeat still points to it. *)
Lemma fire_tick o w eb ea : both w eb ea -> e_prev ea = HEARTBEAT_EV -> loop ea = LOOP -> handler ea = TICK ->
  0 <= clock w -> clock w + TICK_MS < 2 ^ 64 ->
  exists w' eb' ea', fire_timer (core_call o) w TICK_EV = Ret w' /\ both w' eb' ea' /\ e_prev ea' = NULL /\ loop ea' = NULL /\
    handler ea' = TICK /\ expire_time ea' = clock w + TICK_MS /\ expire_time eb' = expire_time eb /\ trigger_count eb' = trigger_count eb.
Proof.
  intros (Hb & Ha & Hh & Hnb & Hpb & Hna) Hpa Hl Hha H0 Hw. assert (u64 (clock w + TICK_MS) = clock w + TICK_MS) as Hu by (unfold TICK_MS in *; apply wrap_small; unfold in_range; split; [lia|exact Hw]).
  destruct ea, eb. cbn in Hnb, Hpb, Hna, Hpa, Hl, Hha. subst.
  unfold fire_timer, nv_event_trigger, both. change (TICK_EV =? NULL) with false. cbv iota. rewrite Ha. heap. unfold upd, store. rewrite Ha. heap.
  unfold nv_loop_add_event_to_list, push, store, store_if. heap. rewrite Hh. change (HEARTBEAT_EV =? NULL) with false. cbv iota. heap. rewrite Hb. heap.
  unfold nv_loop_remove_event_from_list, unlink, store, store_if. heap. rewrite Hu.
  do 3 eexists. split; [reflexivity|]. heap. split_and!; reflexivity.
Qed.

(** The next time the tick has no loop, so that no handler is called, and no predecessor, so
    that the list is taken to begin with it. *)
Lemma fire_dead_tick call w eb ea : both w eb ea -> e_prev ea = NULL -> loop ea = NULL -> handler ea = TICK ->
  exists w', fire_timer call w TICK_EV = Ret w' /\ timers_head (lp w') = NULL /\ evs w' !! HEARTBEAT_EV = Some eb.
Proof.
  intros (Hb & Ha & Hh & Hnb & Hpb & Hna) Hpa Hl Hha. destruct ea. cbn in Hna, Hpa, Hl, Hha. subst.
  unfold fire_timer, nv_event_trigger. change (TICK_EV =? NULL) with false. cbv iota. rewrite Ha. heap. unfold upd, store. rewrite Ha. heap.
  unfold nv_loop_remove_event_from_list, unlink. heap. eexists. split; [reflexivity|]. heap. done.
Qed.

(** A pass that finds the heartbeat not due and the tick due. *)
Lemma pass_fires call n w eb ea w1 : both w eb ea -> expire_time ea <= clock w < expire_time eb -> fire_timer call w TICK_EV = Ret w1 ->
  nv_loop_process_timers call (S (S n)) w =
  (nt ← min_expire (S (S n)) w1 (timers_head (lp w1)) 0; Ret (on_loop (with_timers (timers_head (lp w1)) nt) w1)).
Proof.
  intros (Hb & Ha & Hh & Hnb & Hpb & Hna) [Ht1 Ht2] Ef. unfold nv_loop_process_timers, nv_loop_get_monotonic_time. rewrite Hh. cbn [timers_loop].
  change (HEARTBEAT_EV =? NULL) with false. cbv iota. rewrite Hb. cbn [deref mbind outcome_bind next event_Linked]. destruct (Z.leb_spec (expire_time eb) (clock w)); [lia|].
  cbn [mbind outcome_bind]. rewrite Hnb. change (TICK_EV =? NULL) with false. cbv iota. rewrite Ha. cbn [deref mbind outcome_bind next event_Linked].
  destruct (Z.leb_spec (expire_time ea) (clock w)); [|lia]. rewrite Ef. cbn [mbind outcome_bind]. rewrite Hna. by destruct n.
Qed.
Lemma min_expire_both n w eb ea nt : both w eb ea -> is_ret (min_expire (S (S n)) w (timers_head (lp w)) nt).
Proof.
  intros (Hb & Ha & Hh & Hnb & Hpb & Hna). rewrite Hh. cbn [min_expire]. change (HEARTBEAT_EV =? NULL) with false. cbv iota. rewrite Hb.
  cbn [deref mbind outcome_bind next event_Linked]. rewrite Hnb. change (TICK_EV =? NULL) with false. cbv iota. rewrite Ha. cbn [deref mbind outcome_bind next event_Linked].
  rewrite Hna. eexists. by destruct n.
Qed.

(** Both timers registered, the tick at [t0] and the heartbeat at [t1]. *)
Lemma timers_registered o e s w0 w t1 : timers_head (lp w0) = NULL -> 0 < heartbeat_interval_sec o <= 86400 -> 0 <= clock w0 <= t1 -> t1 < 2 ^ 63 ->
  nv_mod_event_loop_init w0 = Ret (NV_OK, w) -> hw s = at_time t1 w ->
  exists s', nv_core_health_init o e s = Ret (NV_OK, s') /\ exists eb ea, both (hw s') eb ea /\ clock (hw s') = t1 /\
    e_prev ea = HEARTBEAT_EV /\ loop ea = LOOP /\ handler ea = TICK /\ expire_time ea = clock w0 + TICK_MS /\
    expire_time eb = t1 + heartbeat_interval_sec o * 1000 /\ trigger_count eb = 0.
Proof.
  intros Hh Hi Ht Ht1 Ew Es. assert (u64 (clock w0 + TICK_MS) = clock w0 + TICK_MS) as Hu1 by (apply wrap_small; unfold in_range, TICK_MS; split; lia).
  assert (heartbeat_ms o = heartbeat_interval_sec o * 1000) as Hm by (apply wrap_small; unfold in_range; split; lia).
  assert (u64 (t1 + heartbeat_interval_sec o * 1000) = t1 + heartbeat_interval_sec o * 1000) as Hu2 by (apply wrap_small; unfold in_range; split; lia).
  unfold nv_mod_event_loop_init, nv_loop_add_timer, upd, nv_loop_add_event_to_list, push in Ew.
  cbn -[wrap] in Ew. unfold store, store_if in Ew. rewrite lookup_insert_eq in Ew. cbn -[wrap] in Ew. rewrite lookup_insert_eq in Ew. cbn -[wrap] in Ew.
  rewrite Hh in Ew. cbn -[wrap] in Ew.
  injection Ew as <-. unfold nv_core_health_init. destruct (Z.ltb_spec 0 (heartbeat_interval_sec o)); [|lia].
  match goal with |- context [put_event _ _ (hw ?x)] => assert (hw x = hw s) as ->; [|set (s1 := x)] end.
  { match goal with |- context [on_inited _ ?n _] => generalize n; intros b end.
    destruct (watchdog_enable o); [destruct (watchdog_device o) as [[|]|]|]; rewrite ?open_world; destruct b; rewrite ?notify_world; done. }
  rewrite Es, Hm. unfold nv_loop_add_timer, upd, nv_loop_add_event_to_list, push. heap. eexists. split; [reflexivity|].
  unfold both. heap. rewrite Hu1, Hu2. do 2 eexists. split_and!; reflexivity.
Qed.

(** The heartbeat never runs when two ticks pass before it is due.  The tick is
    registered at the time [clock w0], the heartbeat at [t1]; the loop's passes at [t2] and
    [t3], at which the tick is due and the heartbeat is not, leave the list of timers empty
    with the heartbeat never triggered, and no later pass triggers it. *)
Theorem nv_core_heartbeat_never o e s w0 w t1 t2 t3 n : timers_head (lp w0) = NULL -> 0 < heartbeat_interval_sec o <= 86400 ->
  0 <= clock w0 <= t1 -> t1 < 2 ^ 63 -> nv_mod_event_loop_init w0 = Ret (NV_OK, w) -> hw s = at_time t1 w ->
  clock w0 + TICK_MS <= t2 -> t2 + TICK_MS <= t3 -> t3 < t1 + heartbeat_interval_sec o * 1000 ->
  exists s' w2 w3, nv_core_health_init o e s = Ret (NV_OK, s') /\
    nv_loop_process_timers (core_call o) (S (S n)) (at_time t2 (hw s')) = Ret w2 /\
    nv_loop_process_timers (core_call o) (S (S n)) (at_time t3 w2) = Ret w3 /\
    timers_head (lp w3) = NULL /\ trigger_count <$> evs w3 !! HEARTBEAT_EV = Some 0 /\
    forall t4, exists w4, nv_loop_process_timers (core_call o) (S (S n)) (at_time t4 w3) = Ret w4 /\ timers_head (lp w4) = NULL /\ evs w4 = evs w3.
Proof.
  intros Hh Hi Ht Ht1 Ew Es H2 H3 H4. destruct (timers_registered o e s w0 w t1 Hh Hi Ht Ht1 Ew Es) as (s' & Ei & eb & ea & Hb & _ & Hp & Hl & Hha & Hxa & Hxb & Htc).
  destruct (fire_tick o (at_time t2 (hw s')) eb ea Hb Hp Hl Hha) as (w2' & eb' & ea' & Ef & Hb' & Hp' & Hl' & Hha' & Hxa' & Hxb' & Htc');
    [simpl; unfold TICK_MS in *; lia|simpl; unfold TICK_MS in *; lia|].
  assert (nv_loop_process_timers (core_call o) (S (S n)) (at_time t2 (hw s')) = nt ← min_expire (S (S n)) w2' (timers_head (lp w2')) 0;
    Ret (on_loop (with_timers (timers_head (lp w2')) nt) w2')) as E2 by (apply (pass_fires _ n (at_time t2 (hw s')) eb ea w2' Hb); [simpl; unfold TICK_MS in *; lia|done]).
  destruct (min_expire_both n w2' eb' ea' 0 Hb') as [nt Em]. rewrite Em in E2. cbn [mbind outcome_bind] in E2. set (w2 := on_loop _ w2') in E2.
  assert (both (at_time t3 w2) eb' ea') as Hb2 by done.
  destruct (fire_dead_tick (core_call o) (at_time t3 w2) eb' ea' Hb2 Hp' Hl' Hha') as (w3' & Ef3 & Hh3 & Hev3).
  pose proof (pass_fires _ n _ _ _ _ Hb2 ltac:(simpl in *; unfold TICK_MS in *; lia) Ef3) as E3. rewrite Hh3 in E3. cbn -[nv_loop_process_timers] in E3.
  exists s', w2. eexists. split_and!; [done|done|exact E3|done|simpl; rewrite Hev3; simpl; congruence|]. intros t4. eexists. done.
Qed.

Definition opts0 : opts_t := mkOpts NV_CORE_SYSTEMD_AUTO true (Some (str "/dev/watchdog")) None 60 true (Some (str "sys/metrics")) 1024.
Definition env0 : env := mkEnv (Some (str "@notify")) 1000 8 true 9 true true 0 0 0 0.
Definition loop0 : world := mkWorld ∅ (snd (nv_loop_init None 5 true true)) 1000.
Definition ticking : world := match nv_mod_event_loop_init loop0 with Ret (_, w) => w | _ => loop0 end.
Definition health_at (w : world) : health := mkHealth w 0 false true false false false (-1) {[0; 1; 2]} [] [] [] [].
Lemma nv_core_heartbeat_never_witness :
  exists s' w2 w3, nv_core_health_init opts0 env0 (health_at (at_time 1100 ticking)) = Ret (NV_OK, s') /\
    nv_loop_process_timers (core_call opts0) 2 (at_time 6000 (hw s')) = Ret w2 /\
    nv_loop_process_timers (core_call opts0) 2 (at_time 11000 w2) = Ret w3 /\
    timers_head (lp w3) = NULL /\ trigger_count <$> evs w3 !! HEARTBEAT_EV = Some 0 /\
    forall t4, exists w4, nv_loop_process_timers (core_call opts0) 2 (at_time t4 w3) = Ret w4 /\ timers_head (lp w4) = NULL /\ evs w4 = evs w3.
Proof. apply (nv_core_heartbeat_never opts0 env0 (health_at (at_time 1100 ticking)) loop0 ticking 1100 6000 11000 0); try reflexivity; vm_compute; split; congruence. Defined.

(** ** Counters *)

Definition u64_ok (x : Z) : Prop := 0 <= x < 10 ^ 20.
Definition stats_ok (st : nv_core_runtime_stats_t) : Prop := u64_ok (uptime_sec st) /\ u64_ok (loop_events st) /\ u64_ok (loop_timers st).
(** What the published text shows of the counters. *)
Definition shown (st : nv_core_runtime_stats_t) (pending dropped : Z) := (uptime_sec st, loop_events st, loop_timers st, pending, dropped, quitting st).

Lemma field_inj n m c1 c2 s1 s2 : u64_ok n -> u64_ok m -> ~ (48 <= c1 <= 57) -> ~ (48 <= c2 <= 57) ->
  print_dec n ++ c1 :: s1 = print_dec m ++ c2 :: s2 -> n = m /\ s1 = s2.
Proof.
  intros Hn Hm H1 H2 E. unfold u64_ok in *. apply digits_app_inj in E as [E [= _ ->]]; [|apply dec_loop_digits; lia|apply dec_loop_digits; lia|done|done].
  by apply print_dec_inj in E as ->.
Qed.
Lemma metrics_text_inj st p d st' p' d' : stats_ok st -> stats_ok st' -> u64_ok p -> u64_ok p' -> u64_ok d -> u64_ok d' ->
  metrics_text st p d = metrics_text st' p' d' -> shown st p d = shown st' p' d'.
Proof.
  intros (H1 & H2 & H3) (H1' & H2' & H3') Hp Hp' Hd Hd' E. unfold metrics_text in E. unfold shown.
  assert (forall (a : cstr) x y, a ++ x = a ++ y -> x = y) as Hinj by (intros a x y; apply (inj (a ++.))).
  apply Hinj, Hinj in E. apply field_inj in E as [-> E]; [|done|done|lia|lia].
  apply Hinj in E. apply field_inj in E as [-> E]; [|done|done|lia|lia].
  apply Hinj in E. apply field_inj in E as [-> E]; [|done|done|lia|lia].
  apply Hinj in E. apply field_inj in E as [-> E]; [|done|done|lia|lia].
  apply Hinj in E. apply field_inj in E as [-> E]; [|done|done|lia|lia].
  apply Hinj in E. apply field_inj in E as [E _]; [|destruct (quitting st); split; lia|destruct (quitting st'); split; lia|lia|lia].
  f_equal. destruct (quitting st), (quitting st'); done.
Qed.
Lemma metrics_text_length st p d : 0 < strlen (metrics_text st p d) < 512.
Proof.
  assert (forall n, (length (print_dec n) <= 20)%nat) as H by (intros n; apply dec_loop_length).
  unfold metrics_text, strlen, key. rewrite !length_app.
  pose proof (H (uptime_sec st)). pose proof (H (loop_events st)). pose proof (H (loop_timers st)). pose proof (H p). pose proof (H d).
  pose proof (H (if quitting st then 1 else 0)). clear H.
  repeat match goal with |- context [length (print_dec ?x)] => generalize dependent (length (print_dec x)) end. intros. simpl. lia.
Qed.

(** When publishing is configured the counters are always published (the text never
    fills its buffer, nor the 512 bytes of a message between processes), and the text
    determines them. *)
Theorem nv_core_metrics_published fuel o e s topic st : metrics_publish o = true -> pubsub_inited s = true -> metrics_topic o = Some topic -> topic <> [] ->
  nv_core_get_runtime_stats fuel e s = Ret st -> stats_ok st -> u64_ok (log_pending e) -> u64_ok (log_dropped e) ->
  exists text, nv_core_publish_metrics fuel o e s = Ret (pub_rc e, on_published (published s ++ [(topic, text)]) s) /\ 0 < strlen text < 512 /\
    forall st' p' d', stats_ok st' -> u64_ok p' -> u64_ok d' -> metrics_text st' p' d' = text -> shown st' p' d' = shown st (log_pending e) (log_dropped e).
Proof.
  intros H1 H2 H3 H4 Est Hst Hp Hd. exists (metrics_text st (log_pending e) (log_dropped e)). pose proof (metrics_text_length st (log_pending e) (log_dropped e)) as Hl.
  split_and!; [|lia|lia|intros; by apply metrics_text_inj]. unfold nv_core_publish_metrics. rewrite H1, H2, H3. cbn [negb orb]. destruct topic as [|c topic]; [done|].
  rewrite Est. cbn [mbind outcome_bind]. destruct (Z.leb_spec (strlen (metrics_text st (log_pending e) (log_dropped e))) 0); [lia|].
  destruct (Z.leb_spec METRICS_BUF (strlen (metrics_text st (log_pending e) (log_dropped e)))); [unfold METRICS_BUF in *; lia|done].
Qed.
Lemma nv_core_metrics_published_witness :
  exists text, nv_core_publish_metrics 4 opts0 env0 (health_at loop0) = Ret (pub_rc env0, on_published ([] ++ [(str "sys/metrics", text)]) (health_at loop0)) /\
    0 < strlen text < 512 /\ forall st' p' d', stats_ok st' -> u64_ok p' -> u64_ok d' -> metrics_text st' p' d' = text ->
      shown st' p' d' = shown (mkStats 0 0 false false 0 0 0) 0 0.
Proof.
  apply (nv_core_metrics_published 4 opts0 env0 (health_at loop0) (str "sys/metrics") (mkStats 0 0 false false 0 0 0)); try done;
    vm_compute; repeat split; congruence.
Defined.

(** ** Messages to the service manager *)

(** A message goes to the socket the environment names when that is a path of at most 107
    characters or an abstract name ("@" and the name) of at most 106; a longer path is cut,
    an abstract name of 107 characters, which would fit, reaches a different name that ends
    in a NUL, and a longer one is refused. *)
Theorem nv_core_notify_name sock : sock <> [] ->
  let name := tail sock in
  if decide (head sock = Some 64) then
    ((length name <= 106)%nat -> kernel_name (notify_address sock) = Some (0 :: name)) /\
    (length name = 107%nat -> kernel_name (notify_address sock) = Some (0 :: take 106 name ++ [0])) /\
    ((107 < length name)%nat -> kernel_name (notify_address sock) = None)
  else kernel_name (notify_address sock) = Some (take 107 sock).
Proof.
  intros Hs name. unfold kernel_name, notify_address, strlen. destruct sock as [|c sock]; [done|]. subst name. cbn [tail head]. change (default 0 (Some c)) with c.
  destruct (decide (Some c = Some 64)) as [[= ->]|Hc].
  - change (64 =? 64) with true. cbv iota. cbn [fst snd]. change (SUN_PATH - 2)%nat with 106%nat. unfold SUN_PATH.
    replace (Z.to_nat (2 + 1 + Z.of_nat (length sock) - 2)) with (S (length sock)) by lia. unfold zeroed. cbn [length].
    split_and!; intros Hl.
    + destruct (Z.ltb_spec (2 + Z.of_nat 108) (2 + 1 + Z.of_nat (length sock))); [lia|]. rewrite (take_ge sock 106) by lia. cbn [app take]. by rewrite take_app_le, take_ge by lia.
    + destruct (Z.ltb_spec (2 + Z.of_nat 108) (2 + 1 + Z.of_nat (length sock))); [lia|]. cbn [app take]. rewrite take_app_ge by (rewrite length_take; lia).
      rewrite length_take, Hl. done.
    + destruct (Z.ltb_spec (2 + Z.of_nat 108) (2 + 1 + Z.of_nat (length sock))); [done|lia].
  - destruct (Z.eqb_spec c 64) as [->|]; [done|]. cbn [fst snd]. change (SUN_PATH - 1)%nat with 107%nat. set (t := take 107 (c :: sock)).
    assert (length t <= 107)%nat by (unfold t; rewrite length_take; lia). unfold SUN_PATH.
    destruct (Z.ltb_spec (2 + Z.of_nat 108) (2 + Z.of_nat (length t))); [lia|].
    replace (Z.to_nat (2 + Z.of_nat (length t) - 2)) with (length t) by lia. unfold zeroed. by rewrite take_app_length.
Qed.
Lemma nv_core_notify_name_witness :
  let name := str "org.nv" in
  if decide (head (64 :: name) = Some 64) then
    ((length name <= 106)%nat -> kernel_name (notify_address (64 :: name)) = Some (0 :: name)) /\
    (length name = 107%nat -> kernel_name (notify_address (64 :: name)) = Some (0 :: take 106 name ++ [0])) /\
    ((107 < length name)%nat -> kernel_name (notify_address (64 :: name)) = None)
  else kernel_name (notify_address (64 :: name)) = Some (take 107 (64 :: name)).
Proof. apply (nv_core_notify_name (64 :: str "org.nv")). done. Defined.

(** ** What is opened is closed *)

(** What feeding the watchdog leaves alone. *)
Definition frame (s : health) := (hw s, g_wdt_fd s, fds s, health_inited s, g_systemd_notify s).
Lemma feed_frame o e s : frame (snd (nv_core_feed_watchdog o e s)) = frame s.
Proof. unfold nv_core_feed_watchdog, nv_watchdog_feed, nv_watchdog_feed_cmd, wdt_write, frame. by repeat case_match. Qed.
Lemma feeds_frame o es s : frame (foldl (fun s e => snd (nv_core_feed_watchdog o e s)) s es) = frame s.
Proof. revert s. induction es as [|e es IH]; intros s; [done|]. cbn [foldl]. by rewrite IH, feed_frame. Qed.

Lemma notify_frame e t s : let s' := snd (nv_core_systemd_notify e t s) in
  g_wdt_fd s' = g_wdt_fd s /\ fds s' = fds s /\ wdt_writes s' = wdt_writes s.
Proof. unfold nv_core_systemd_notify. by repeat case_match. Qed.

(** The state after the initialisation: the watchdog is open at most. *)
Lemma health_init_ok o e s : timers_head (lp (hw s)) = NULL -> g_wdt_fd s = -1 -> (wdt_open e ∉ fds s) ->
  exists s1, nv_core_health_init o e s = Ret (NV_OK, s1) /\ health_inited s1 = true /\
    (g_wdt_fd s1 < 0 /\ fds s1 = fds s \/ 0 <= g_wdt_fd s1 /\ fds s1 = fds s ∪ {[g_wdt_fd s1]} /\ (g_wdt_fd s1 ∉ fds s)) /\
    (if 0 <? heartbeat_interval_sec o
     then timers_head (lp (hw s1)) = HEARTBEAT_EV /\ exists ev, evs (hw s1) !! HEARTBEAT_EV = Some ev /\ e_prev ev = NULL /\ e_next ev = NULL
     else timers_head (lp (hw s1)) = NULL).
Proof.
  intros Hh Hw Hn. unfold nv_core_health_init.
  match goal with |- context [put_event _ _ (hw ?x)] => set (s1 := x) end.
  assert (hw s1 = hw s /\ (g_wdt_fd s1 < 0 /\ fds s1 = fds s \/ 0 <= g_wdt_fd s1 /\ fds s1 = fds s ∪ {[g_wdt_fd s1]} /\ (g_wdt_fd s1 ∉ fds s))) as [H1 H2].
  { unfold s1. clear s1. match goal with |- context [on_inited _ ?n _] => generalize n; intros b end.
    match goal with |- context [if b then snd (nv_core_systemd_notify e ?t ?x) else ?y] => set (s2 := if b then snd (nv_core_systemd_notify e t x) else y);
      pose proof (notify_frame e t x) as Hf; pose proof (notify_world e t x) as Hww end.
    assert (hw s2 = hw s /\ g_wdt_fd s2 = -1 /\ fds s2 = fds s) as (? & E2 & E3) by (unfold s2; destruct b; [destruct Hf as (-> & -> & _); by rewrite Hww|done]).
    clearbody s2. destruct (watchdog_enable o); [destruct (watchdog_device o) as [[|]|]|]; rewrite ?open_world; (split; [done|]); try (left; rewrite E2, E3; split; [lia|done]).
    unfold nv_watchdog_open. rewrite E2. change (0 <=? -1) with false. cbv iota.
    destruct (Z.ltb_spec (wdt_open e) 0); simpl; rewrite E3; [by left|by right]. }
  clearbody s1. destruct (0 <? heartbeat_interval_sec o).
  - rewrite H1. unfold nv_loop_add_timer, upd, nv_loop_add_event_to_list, push. heap. rewrite Hh. heap.
    eexists. split; [reflexivity|]. heap. split_and!; [done|done|done|]. eexists. split; [reflexivity|]. done.
  - cbn [mbind outcome_bind]. eexists. split; [reflexivity|]. simpl. by rewrite H1.
Qed.

(** After the initialisation of the health checks, any number of feedings of the watchdog
    and the cleanup, the descriptors of the process are those from before, no timer is left,
    and when the watchdog had been opened the last byte written to it is the one that
    disarms it. *)
Theorem nv_core_health_gives_back o e es e' s : timers_head (lp (hw s)) = NULL -> g_wdt_fd s = -1 -> (wdt_open e ∉ fds s) -> write_ok e' = true ->
  exists s1 s3, nv_core_health_init o e s = Ret (NV_OK, s1) /\
    nv_core_health_cleanup o e' (foldl (fun s e => snd (nv_core_feed_watchdog o e s)) s1 es) = Ret s3 /\
    fds s3 = fds s /\ g_wdt_fd s3 < 0 /\ timers_head (lp (hw s3)) = NULL /\ health_inited s3 = false /\
    (0 <= g_wdt_fd s1 -> last (wdt_writes s3) = Some (g_wdt_fd s1, str "V")).
Proof.
  intros Hh Hw Hn Hwr. destruct (health_init_ok o e s Hh Hw Hn) as (s1 & E1 & Hi & Hfd & Ht).
  exists s1. set (s2 := foldl _ s1 es). assert (frame s2 = frame s1) as Hf by apply feeds_frame. unfold frame in Hf. injection Hf as F1 F2 F3 F4 F5. clearbody s2.
  unfold nv_core_health_cleanup. rewrite F4, Hi. cbn [negb].
  match goal with |- context [if g_systemd_notify s2 then snd (nv_core_systemd_notify e' ?t s2) else s2] =>
    set (s2' := if g_systemd_notify s2 then snd (nv_core_systemd_notify e' t s2) else s2);
    pose proof (notify_frame e' t s2) as Hnf; pose proof (notify_world e' t s2) as Hnw end.
  assert (hw s2' = hw s1 /\ g_wdt_fd s2' = g_wdt_fd s1 /\ fds s2' = fds s1) as (G1 & G2 & G3).
  { unfold s2'. destruct (g_systemd_notify s2); [destruct Hnf as (-> & -> & _); by rewrite Hnw|done]. }
  clearbody s2'. assert (exists w, (if 0 <? heartbeat_interval_sec o then '(_, w) ← nv_loop_del_timer (hw s2') HEARTBEAT_EV; Ret (on_world w s2') else Ret s2') =
    Ret (on_world w s2') /\ timers_head (lp w) = NULL) as (w & -> & Hw').
  { rewrite G1. revert Ht. destruct (0 <? heartbeat_interval_sec o); intros Ht; [|exists (hw s1); split; [rewrite <- G1; by destruct s2'|done]].
    destruct Ht as (_ & ev & Hev & Hp & Hx). unfold nv_loop_del_timer, nv_loop_remove_event_from_list, unlink, upd. heap. rewrite Hev. heap.
    rewrite Hp, Hx. heap. rewrite Hev. heap. eexists. split; reflexivity. }
  cbn [mbind outcome_bind]. eexists. split; [done|]. split; [reflexivity|]. unfold nv_watchdog_close. cbn [g_wdt_fd on_world]. rewrite G2.
  destruct Hfd as [[Hneg Ef]|(Hpos & Ef & Hnin)].
  - destruct (Z.leb_spec 0 (g_wdt_fd s1)); [lia|]. simpl. rewrite G2, G3. split_and!; [done|lia|done|done|lia].
  - destruct (Z.leb_spec 0 (g_wdt_fd s1)); [|lia]. unfold wdt_write. rewrite Hwr. simpl. rewrite G2, G3, Ef.
    split_and!; [set_solver|done|done|done|]. intros _. apply last_snoc.
Qed.
Lemma nv_core_health_gives_back_witness :
  exists s1 s3, nv_core_health_init opts0 env0 (health_at loop0) = Ret (NV_OK, s1) /\
    nv_core_health_cleanup opts0 env0 (foldl (fun s e => snd (nv_core_feed_watchdog opts0 e s)) s1 [env0]) = Ret s3 /\
    fds s3 = fds (health_at loop0) /\ g_wdt_fd s3 < 0 /\ timers_head (lp (hw s3)) = NULL /\ health_inited s3 = false /\
    (0 <= g_wdt_fd s1 -> last (wdt_writes s3) = Some (g_wdt_fd s1, str "V")).
Proof. apply (nv_core_health_gives_back opts0 env0 [env0] env0 (health_at loop0)); try done; set_solver. Defined.

End Health.
