(* ===== verification/Business.v ===== *)
(** * Business modules of the process (core/runtime/nv_core.c)

    [nv_core_business_init] and [nv_core_business_cleanup] over the components they call, each
    with its own model: the event loop ([EventLoop]), the signals ([Signals]), the thread pool
    ([ThreadPool]), the message queue ([Ipc]), the event and network modules ([Health]), the
    commands ([Cli]) and the control socket and telnet console ([Console]).  The loop's world is
    shared by all of them.  What the system answers is one record.  Theorem: wherever the
    initialisation stops, the cleanup that follows is defined and gives back what the components
    took, except that blocked signals stay blocked. *)
From S2P Require Import Prelude DLinks EventLoop NetBuf Runtime Signals ThreadPool Ipc Health Cli Console.
Import EventLoop.

Module Business.

Definition NV_OK : Z := 0.
Definition NV_ERROR : Z := -1.

Record biz := mkBiz {
  bw : world; health : Health.health; console : Console.con; sg : Signals.sig_state; thread_pool : option ThreadPool.threadpool_t;
  msg_queue : option Z; mqs : MsgQueue.mqsys; tcp_pool : NetBuf.pool_t; udp_pool : NetBuf.pool_t
}.
Definition on_bw (w : world) (b : biz) := mkBiz w (health b) (console b) (sg b) (thread_pool b) (msg_queue b) (mqs b) (tcp_pool b) (udp_pool b).
Definition on_health (h : Health.health) (b : biz) := mkBiz (Health.hw h) h (console b) (sg b) (thread_pool b) (msg_queue b) (mqs b) (tcp_pool b) (udp_pool b).
Definition on_console (c : Console.con) (b : biz) := mkBiz (Console.cw c) (health b) c (sg b) (thread_pool b) (msg_queue b) (mqs b) (tcp_pool b) (udp_pool b).
Definition on_sg (s : Signals.sig_state) (b : biz) := mkBiz (bw b) (health b) (console b) s (thread_pool b) (msg_queue b) (mqs b) (tcp_pool b) (udp_pool b).
Definition on_pool (p : option ThreadPool.threadpool_t) (b : biz) := mkBiz (bw b) (health b) (console b) (sg b) p (msg_queue b) (mqs b) (tcp_pool b) (udp_pool b).
Definition on_mq (q : option Z) (s : MsgQueue.mqsys) (b : biz) := mkBiz (bw b) (health b) (console b) (sg b) (thread_pool b) q s (tcp_pool b) (udp_pool b).
Definition on_pools (t u : NetBuf.pool_t) (b : biz) := mkBiz (bw b) (health b) (console b) (sg b) (thread_pool b) (msg_queue b) (mqs b) t u.
(** The parts that hold the loop, with the world as it is now. *)
Definition health_of (b : biz) : Health.health := Health.on_world (bw b) (health b).
Definition console_of (b : biz) : Console.con := Console.on_cw (bw b) (console b).
Definition with_cli (r : Cli.cli) (b : biz) : biz := on_console (Console.on_reg r (Console.replies (console b)) (console_of b)) b.

Record bopts := mkBopts {
  hopts : Health.opts_t; worker_processes : Z; worker_threads : Z; worker_id : Z; is_master : bool; mq_name : cstr;
  ctl_socket : option cstr; telnet_enable : bool; telnet_bind : option cstr
}.
(** The system's answers: for the loop, the signals, the thread pool, the message queue, the
    pools, the control socket and the telnet console. *)
Record answers := mkAnswers {
  ep : Z; arr : bool; pip : bool;
  nfd0 : Z; nfd : Z -> Z; sig_new : Z; sig_ctl : Z;
  tp_mem : list ThreadPool.task; tp_alloc : bool;
  mq_handle : option Z; mq_answer : option (Z * Z);
  r1 : bool; r2 : bool; r3 : bool; r4 : bool;
  c_sfd : Z; c_bind : bool; c_listen : bool; c_ctl : Z;
  t_sfd : Z; t_addr : bool; t_bind : bool; t_listen : bool; t_fl : bool; t_ctl : Z
}.

Definition nv_core_business_init (o : bopts) (a : answers) (b : biz) : outcome (Z * biz) :=
  let '(rc, l) := nv_loop_init (Some (mkConfig (Health.worker_connections (hopts o)) true true)) (ep a) (arr a) (pip a) in
  let b := on_bw (on_loop (fun _ => l) (bw b)) b in
  if negb (rc =? 0) then Ret (NV_ERROR, b) else
  '(rc, w, s) ← Signals.nv_core_signals_register_loop (worker_processes o) (nfd0 a) (nfd a) (sig_new a) (sig_ctl a) (bw b) (sg b);
  let b := on_sg s (on_bw w b) in
  if negb (rc =? NV_OK) then Ret (NV_ERROR, b) else
  let b := on_pool (ThreadPool.nv_threadpool_create (worker_threads o) 256 (tp_mem a) (tp_alloc a)) b in
  match thread_pool b with
  | None => Ret (NV_ERROR, b)
  | Some _ =>
      let '(q, m) := MsgQueue.nv_init_message_queue (mq_handle a) (mq_answer a) (Some (mq_name o)) 10 MsgQueue.MAX_MSG_SIZE 0 (mqs b) in
      let b := on_mq q m b in
      '(rc, w, t, u) ← Health.nv_core_modules_init (r1 a) (r2 a) (r3 a) (r4 a) (hopts o) (bw b) (tcp_pool b) (udp_pool b);
      let b := on_pools t u (on_bw w b) in
      if negb (rc =? NV_OK) then Ret (NV_ERROR, b) else
      let b := with_cli (Cli.nv_core_cli_init (Console.reg (console b))) b in
      if negb (is_master o) && ((worker_processes o <=? 1) || (worker_id o =? 1)) then
        '(_, c) ← Console.nv_core_ctl_init (c_sfd a) (c_bind a) (c_listen a) (c_ctl a) (ctl_socket o) (console_of b);
        '(_, c) ← Console.nv_core_telnet_init (t_sfd a) (t_addr a) (t_bind a) (t_listen a) (t_fl a) (t_ctl a) (telnet_enable o) (telnet_bind o) c;
        Ret (NV_OK, on_console c b)
      else Ret (NV_OK, b)
  end.

(** [f] bounds the walks along the loop's lists.  The thread pool is destroyed once its threads
    have ended, which [ThreadPool] shows they do. *)
Definition nv_core_business_cleanup (f : nat) (wr : write_result) (o : bopts) (e : Health.env) (b : biz) : outcome biz :=
  h ← Health.nv_core_health_cleanup (hopts o) e (health_of b);
  let b := on_health h b in
  c ← Console.nv_core_telnet_cleanup (console_of b);
  c ← Console.nv_core_ctl_cleanup (ctl_socket o) c;
  let b := on_console c b in
  let b := with_cli (Cli.nv_core_cli_cleanup (Console.reg (console b))) b in
  '(w, t, u) ← Health.nv_core_modules_cleanup (bw b) (tcp_pool b) (udp_pool b);
  let b := on_sg (Signals.nv_signal_shutdown (sg b)) (on_pools t u (on_bw w b)) in
  b ← (match msg_queue b with
       | Some q => m ← MsgQueue.nv_destroy_message_queue (Some q) (mqs b); Ret (on_mq None m b)
       | None => Ret b
       end);
  let b := on_pool None b in
  '(_, w) ← nv_loop_cleanup f (bw b) wr;
  Ret (on_bw w b).

(** ** Signals *)

(** The signal descriptor apart, the watched descriptors are [W]. *)
Definition sig_inv (W : gmap Z (gset Z)) (s : Signals.sig_state) : Prop :=
  if 0 <=? Signals.g_signalfd s
  then W !! Signals.g_signalfd s = None /\ exists m, Signals.watched s = <[Signals.g_signalfd s := m]> W
  else Signals.watched s = W.

Lemma update_fd_inv W nfd s : nfd < 0 \/ W !! nfd = None -> sig_inv W s -> sig_inv W (Signals.nv_signal_update_fd nfd s).2.
Proof.
  intros Hn Hi. unfold Signals.nv_signal_update_fd. destruct (Z.ltb_spec nfd 0); [done|]. destruct Hn as [?|Hn]; [lia|].
  unfold sig_inv in *. cbn [snd Signals.set_fd_watch Signals.g_signalfd Signals.watched]. destruct (Z.leb_spec 0 nfd); [|lia]. split; [done|].
  destruct (Z.leb_spec 0 (Signals.g_signalfd s)); cbn [andb]; [|rewrite Hi; by eexists].
  destruct Hi as (Hg & m & ->). destruct (Z.eqb_spec nfd (Signals.g_signalfd s)) as [->|Hne]; cbn [negb].
  - rewrite insert_insert_eq. by eexists.
  - exists (Signals.g_mask s). rewrite insert_insert_ne by done. by rewrite delete_insert_id by (by rewrite lookup_insert_ne).
Qed.
Lemma signal_init_inv W nfd s : nfd < 0 \/ W !! nfd = None -> sig_inv W s -> sig_inv W (Signals.nv_signal_init nfd s).2.
Proof.
  intros Hn Hi. unfold Signals.nv_signal_init. destruct (Signals.g_inited s); [done|].
  match goal with |- context [Signals.nv_signal_update_fd nfd ?s0] => pose proof (update_fd_inv W nfd s0 Hn Hi) as H end.
  destruct (Signals.nv_signal_update_fd _ _) as [rc s1]. by destruct (rc =? 0).
Qed.
Lemma signal_register_inv W nfd sg h s : nfd < 0 \/ W !! nfd = None -> sig_inv W s -> sig_inv W (Signals.nv_signal_register nfd nfd sg h s).2.
Proof.
  intros Hn Hi. unfold Signals.nv_signal_register. destruct (_ || _); [done|].
  set (r := if Signals.g_inited s then (0, s) else _). assert (sig_inv W r.2) as Hr by (unfold r; destruct (Signals.g_inited s); [done|by apply signal_init_inv]).
  destruct r as [rc s1]. destruct (rc =? 0); cbn [negb]; [|done]. destruct (Signals.replace_handler _ _ _); [done|].
  destruct (Signals.take_slot _ _ _); [|done]. by apply update_fd_inv.
Qed.
Lemma register_all_inv W l : forall s, Forall (fun x => x.2 < 0 \/ W !! x.2 = None) l -> sig_inv W s -> sig_inv W (Signals.register_all l s).2.
Proof.
  induction l as [|[sg nfd] l IH]; intros s Hl Hi; [done|]. apply Forall_cons in Hl as [Hn Hl]. cbn [Signals.register_all].
  pose proof (signal_register_inv W nfd sg Signals.CORE_ON_SIGNAL s Hn Hi) as H. destruct (Signals.nv_signal_register _ _ _ _ _) as [rc s1].
  destruct (rc =? 0); cbn [negb]; [by apply IH|done].
Qed.
Lemma shutdown_watched W s : sig_inv W s -> Signals.watched (Signals.nv_signal_shutdown s) = W.
Proof.
  unfold sig_inv, Signals.nv_signal_shutdown. destruct (0 <=? Signals.g_signalfd s); [|done]. intros (Hg & m & Hw).
  cbn. rewrite Hw. by apply delete_insert_id.
Qed.

(** ** The loop before it runs *)

Abbreviation TICK_EV := Health.TICK_EV.
(** No event is in the lists but the tick, when [tick]; the event of the signal descriptor is
    not one of those the context or a static variable holds. *)
Record quiet (tick : bool) (w : world) : Prop := {
  q_state : state (lp w) = LOOP_INIT;
  q_idle : idle_head (lp w) = NULL;
  q_sigs : sigs (lp w) = [];
  q_timers : timers_head (lp w) = if tick then TICK_EV else NULL;
  q_tick : exists e, evs w !! TICK_EV = Some e /\ e_next e = NULL /\ e_prev e = NULL;
  q_sfd : signalfd_ev (lp w) = NULL \/ (8 <= signalfd_ev (lp w) /\ is_Some (evs w !! signalfd_ev (lp w)));
}.

(** Changing the console's events, or the active fields of any event, keeps it. *)
Lemma quiet_insert tick w a e : 0 < a < 7 -> quiet tick w -> quiet tick (on_evs (<[a := e]> (evs w)) w).
Proof.
  intros Ha [? ? ? ? (t & Ht & ?) Hs]. unfold TICK_EV in *. split; cbn [lp evs on_evs]; try done.
  - exists t. unfold Health.TICK_EV in *. rewrite lookup_insert_ne by lia. done.
  - destruct Hs as [|[H8 Hs]]; [by left|right]. rewrite lookup_insert_ne by lia. done.
Qed.

Lemma modules_init_quiet x1 x2 x3 x4 o w t u : quiet false w ->
  exists w' t' u', Health.nv_core_modules_init x1 x2 x3 x4 o w t u = Ret (0, w', t', u') /\ quiet true w'.
Proof.
  intros [H1 H2 H3 H4 (e & He & _) H6]. unfold Health.nv_core_modules_init, Health.nv_mod_event_loop_init, nv_loop_add_timer, Health.put_event, upd,
    nv_loop_add_event_to_list, push, store_if, store. change (TICK_EV =? NULL) with false. cbn [evs on_evs lp on_loop].
  rewrite lookup_insert_eq. cbn [deref mbind outcome_bind evs on_evs lp]. rewrite lookup_insert_eq. cbn [deref mbind outcome_bind]. rewrite H4.
  change (NULL =? NULL) with true. cbn [mbind outcome_bind Z.eqb negb]. eexists _, _, _. split; [done|].
  split; cbn [lp evs on_loop on_evs with_timers state idle_head sigs timers_head signalfd_ev]; try done.
  - eexists. split; [apply lookup_insert_eq|]. done.
  - destruct H6 as [|[H8 H6]]; [by left|right]. unfold Health.TICK_EV. by rewrite !lookup_insert_ne by lia.
Qed.

Lemma modules_cleanup_quiet tick w t u : quiet tick w -> exists w' t' u', Health.nv_core_modules_cleanup w t u = Ret (w', t', u') /\ quiet false w'.
Proof.
  intros [H1 H2 H3 H4 (e & He & Hn & Hp) H6]. unfold Health.nv_core_modules_cleanup, Health.nv_mod_event_loop_cleanup, nv_loop_del_timer, upd,
    nv_loop_remove_event_from_list, unlink, store_if, store. change (TICK_EV =? NULL) with false. cbn [Health.nv_mod_network_loop_cleanup].
  rewrite He. cbn [deref mbind outcome_bind prev next event_Linked]. rewrite Hn, Hp. change (NULL =? NULL) with true.
  cbn [mbind outcome_bind]. rewrite He. cbn [deref mbind outcome_bind evs lp on_evs on_loop]. rewrite lookup_insert_eq.
  cbn [deref mbind outcome_bind evs lp on_evs on_loop]. eexists _, _, _. split; [done|].
  split; cbn [lp evs on_loop on_evs with_timers state idle_head sigs timers_head signalfd_ev]; try done.
  - eexists. split; [apply lookup_insert_eq|]. done.
  - destruct H6 as [|[H8 H6]]; [by left|right]. unfold Health.TICK_EV. by rewrite !lookup_insert_ne by lia.
Qed.

Lemma loop_cleanup_quiet f w wr : quiet false w ->
  exists w', nv_loop_cleanup f w wr = Ret (0, w') /\ epoll_fd (lp w') = -1 /\ state (lp w') = LOOP_STOPPED /\ timers_head (lp w') = NULL.
Proof.
  intros [H1 H2 H3 H4 _ H6]. unfold nv_loop_cleanup, nv_loop_stop. rewrite H1. cbn [snd]. rewrite H4.
  assert (forall w0, cleanup_list f w0 NULL = Ret w0) as Hc by (by destruct f). rewrite Hc. cbn [mbind outcome_bind]. rewrite H2, Hc. cbn [mbind outcome_bind].
  assert (exists w1, nv_loop_detach_signalfd w = Ret w1 /\ sigs (lp w1) = [] /\ timers_head (lp w1) = NULL) as (w1 & -> & E1 & E2).
  { unfold nv_loop_detach_signalfd. destruct (Z.eqb_spec (signalfd_ev (lp w)) NULL); [by exists w|]. destruct H6 as [?|[H8 [e He]]]; [done|].
    unfold nv_loop_del_event. destruct (_ || _); cbn [mbind outcome_bind]; [by eexists|]. unfold upd, store. rewrite He. cbn [deref mbind outcome_bind]. by eexists. }
  cbn [mbind outcome_bind]. cbn [lp on_loop with_wakeup sigs]. rewrite E1. cbn [fold_left mbind outcome_bind]. eexists. split; [done|]. by split_and!.
Qed.

Lemma attach_quiet w sfd new ctl : quiet false w -> signalfd_ev (lp w) = NULL -> new = NULL \/ 8 <= new ->
  exists rc w', nv_loop_attach_signalfd w sfd new ctl = Ret (rc, w') /\ quiet false w'.
Proof.
  intros Hq Hn Hnew. destruct Hq as [H1 H2 H3 H4 (e & He & Hl) H6] eqn:Eq. clear Eq. unfold nv_loop_attach_signalfd.
  destruct (_ || _); [by eexists _, _|]. rewrite Hn. change (NULL =? NULL) with true. cbn [mbind outcome_bind].
  destruct (Z.eqb_spec new NULL) as [E|E].
  { eexists _, _. split; [done|]. split; cbn [lp evs on_loop with_signalfd state idle_head sigs timers_head signalfd_ev]; eauto. }
  destruct Hnew as [?|H8]; [done|]. assert (Health.TICK_EV <> new) as Hne by (unfold Health.TICK_EV; lia). unfold nv_loop_add_event.
  assert ((new =? NULL) = false) as En by (by apply Z.eqb_neq).
  cbn [lp evs on_loop on_evs with_signalfd epoll_fd]. rewrite En. cbn [orb]. destruct (epoll_fd (lp w) =? -1); cbn [mbind outcome_bind].
  - change (-1 =? 0) with false. cbv iota. eexists _, _. split; [done|].
    split; cbn [lp evs on_loop on_evs with_signalfd state idle_head sigs timers_head signalfd_ev]; try done; [|by left].
    exists e. by rewrite lookup_delete_ne, lookup_insert_ne.
  - unfold upd, store. cbn [evs on_evs on_loop]. rewrite lookup_insert_eq. cbn [deref mbind outcome_bind].
    destruct (ctl =? -1); [change (-1 =? 0) with false|change (0 =? 0) with true]; cbv iota; (eexists _, _; split; [done|]);
      (split; cbn [lp evs on_loop on_evs with_signalfd state idle_head sigs timers_head signalfd_ev]; try done).
    + exists e. by rewrite lookup_delete_ne, !lookup_insert_ne.
    + by left.
    + exists e. by rewrite !lookup_insert_ne.
    + right. split; [done|]. rewrite lookup_insert_eq. by eexists.
Qed.

Lemma register_loop_quiet W wp nfd0 nfd new ctl w s : quiet false w -> signalfd_ev (lp w) = NULL -> new = NULL \/ 8 <= new ->
  nfd0 < 0 \/ W !! nfd0 = None -> (forall g, nfd g < 0 \/ W !! nfd g = None) -> sig_inv W s ->
  exists rc w' s', Signals.nv_core_signals_register_loop wp nfd0 nfd new ctl w s = Ret (rc, w', s') /\ quiet false w' /\ sig_inv W s'.
Proof.
  intros Hq Hn Hnew H0 Hf Hs. unfold Signals.nv_core_signals_register_loop.
  pose proof (signal_init_inv W nfd0 s H0 Hs) as Hi. destruct (Signals.nv_signal_init nfd0 s) as [rc s1]. destruct (rc =? 0); cbn [negb]; [|by eexists _, _, _].
  set (l := map _ _). assert (Forall (fun x => x.2 < 0 \/ W !! x.2 = None) l) as Hl.
  { apply Forall_forall. intros x (g & <- & _)%list_elem_of_In%in_map_iff. apply Hf. }
  pose proof (register_all_inv W l s1 Hl Hi) as Ha. destruct (Signals.register_all l s1) as [rc2 s2]. destruct (rc2 =? 0); cbn [negb]; [|by eexists _, _, _].
  set (s3 := if 1 <? wp then _ else _). assert (sig_inv W s3) as H3 by (unfold s3; destruct (1 <? wp); [by apply signal_register_inv|done]).
  destruct (attach_quiet w (Signals.nv_signal_fd (Signals.set_ignored (Signals.ignored s3 ∪ {[Signals.SIGPIPE]}) s3)) new ctl Hq Hn Hnew) as (rc3 & w' & -> & Hq').
  cbn [mbind outcome_bind]. destruct (rc3 =? 0); by eexists _, _, _.
Qed.

(** ** The console *)

(** Without sessions; the descriptors are [F] and those of the open listeners. *)
Record con_inv (tick : bool) (F : gset Z) (B : list Z) (c : Console.con) : Prop := {
  ci_quiet : quiet tick (Console.cw c);
  ci_sess : Console.g_telnet_sessions c = [];
  ci_ebadf : Console.ebadf c = B;
  ci_fds : Console.fds c = F ∪ (if Console.ctl_inited c then {[Console.ctl_listen_fd c]} else ∅)
                             ∪ (if Console.telnet_inited c then {[Console.telnet_listen_fd c]} else ∅);
  ci_ctl : Console.ctl_inited c = true -> 0 <= Console.ctl_listen_fd c /\ (Console.ctl_listen_fd c ∉ F) /\
    is_Some (evs (Console.cw c) !! Console.CTL_LISTEN_EV);
  ci_tel : Console.telnet_inited c = true -> 0 <= Console.telnet_listen_fd c /\ (Console.telnet_listen_fd c ∉ F) /\
    (Console.ctl_inited c = true -> Console.telnet_listen_fd c <> Console.ctl_listen_fd c) /\
    is_Some (evs (Console.cw c) !! Console.TELNET_LISTEN_EV);
}.

Lemma quiet_upd tick w a g : 0 < a < 7 -> quiet tick w -> is_Some (evs w !! a) ->
  exists w' e, upd a g w = Ret w' /\ quiet tick w' /\ w' = on_evs (<[a := g e]> (evs w)) w.
Proof.
  intros Ha Hq [e He]. unfold upd, store. rewrite He. cbn [deref mbind outcome_bind]. eexists _, e. split; [done|]. split; [|done].
  by apply quiet_insert.
Qed.

(** Registering a listener's event, and removing it. *)
Lemma add_ev_quiet tick a ctl c : 0 < a < 7 -> quiet tick (Console.cw c) -> is_Some (evs (Console.cw c) !! a) ->
  exists rc w', Console.add_ev a ctl c = Ret (rc, Console.on_cw w' c) /\ quiet tick w' /\ (forall x, is_Some (evs (Console.cw c) !! x) -> is_Some (evs w' !! x)).
Proof.
  intros Ha Hq He. unfold Console.add_ev, nv_loop_add_event. destruct (_ || _); cbn [mbind outcome_bind].
  { eexists _, _. split; [done|]. by split. }
  destruct (quiet_upd tick (Console.cw c) a (fun e => set_active true (set_events EPOLLIN (set_loop LOOP e))) Ha Hq He) as (w' & e & -> & Hq' & Ew).
  cbn [mbind outcome_bind]. eexists _, _. split; [done|]. split; [done|]. rewrite Ew. cbn [evs on_evs].
  intros x Hx. rewrite lookup_insert_is_Some. destruct (decide (a = x)); [by left|by right].
Qed.
Lemma del_ev_quiet tick a c : 0 < a < 7 -> quiet tick (Console.cw c) -> is_Some (evs (Console.cw c) !! a) ->
  exists w', Console.del_ev a c = Ret (Console.on_cw w' c) /\ quiet tick w' /\ (forall x, is_Some (evs (Console.cw c) !! x) -> is_Some (evs w' !! x)).
Proof.
  intros Ha Hq He. unfold Console.del_ev, nv_loop_del_event. destruct (_ || _); cbn [mbind outcome_bind].
  { eexists. split; [done|]. by split. }
  destruct (quiet_upd tick (Console.cw c) a (fun e => set_loop NULL (set_active false e)) Ha Hq He) as (w' & e & -> & Hq' & Ew).
  cbn [mbind outcome_bind]. eexists. split; [done|]. split; [done|]. rewrite Ew. cbn [evs on_evs].
  intros x Hx. rewrite lookup_insert_is_Some. destruct (decide (a = x)); [by left|by right].
Qed.

Lemma telnet_cleanup_inv tick F B c : con_inv tick F B c ->
  exists c', Console.nv_core_telnet_cleanup c = Ret c' /\ con_inv tick F B c' /\ Console.telnet_inited c' = false /\ Console.reg c' = Console.reg c.
Proof.
  intros [Hq Hs Hb Hf Hc Ht]. unfold Console.nv_core_telnet_cleanup. rewrite Hs. cbn [length Console.remove_sessions]. rewrite Hs. cbn [mbind outcome_bind].
  destruct (Console.telnet_inited c) eqn:Ei; cbn [andb mbind outcome_bind].
  - destruct (Ht eq_refl) as (H0 & HF & Hne & He). destruct (Z.leb_spec 0 (Console.telnet_listen_fd c)); [|lia].
    destruct (del_ev_quiet tick Console.TELNET_LISTEN_EV c) as (w' & -> & Hq' & Hk); [unfold Console.TELNET_LISTEN_EV; lia|done..|]. cbn [mbind outcome_bind].
    eexists. split; [done|]. unfold Console.close. cbn [Console.on_cw Console.fds Console.telnet_listen_fd].
    rewrite decide_True by (rewrite Hf; set_solver). split; [|done].
    split; cbn; try done.
    + rewrite Hf. destruct (Console.ctl_inited c); set_solver.
    + intros E. destruct (Hc E) as (A1 & A2 & A3). split_and!; try done. by apply Hk.
  - eexists. split; [done|]. split; [|done]. split; cbn; try done.
Qed.

Lemma ctl_cleanup_inv tick F B path c : con_inv tick F B c -> Console.telnet_inited c = false ->
  exists c', Console.nv_core_ctl_cleanup path c = Ret c' /\ con_inv tick F B c' /\ Console.fds c' = F /\ Console.reg c' = Console.reg c.
Proof.
  intros [Hq Hs Hb Hf Hc Ht] Et. unfold Console.nv_core_ctl_cleanup. rewrite Et in *. destruct (Console.ctl_inited c) eqn:Ei; cbn [negb].
  - destruct (Hc eq_refl) as (H0 & HF & He). destruct (Z.leb_spec 0 (Console.ctl_listen_fd c)); [|lia].
    destruct (del_ev_quiet tick Console.CTL_LISTEN_EV c) as (w' & -> & Hq' & Hk); [unfold Console.CTL_LISTEN_EV; lia|done..|]. cbn [mbind outcome_bind].
    unfold Console.close. cbn [Console.on_cw Console.fds Console.ctl_listen_fd]. rewrite decide_True by (rewrite Hf; set_solver).
    eexists. split; [done|]. assert (Console.fds c ∖ {[Console.ctl_listen_fd c]} = F) as EF by (rewrite Hf; set_solver).
    destruct path; (split; [|by cbn; split]); split; cbn; try done; rewrite ?EF, ?Et; try done; set_solver.
  - eexists. split; [done|]. split; [by split; rewrite ?Ei, ?Et|]. split; [|done]. rewrite Hf. set_solver.
Qed.

(** A descriptor opened and closed again. *)
Lemma close_open fd ty c : fd ∉ Console.fds c ->
  Console.fds (Console.close fd (Console.open_fd fd ty c)) = Console.fds c /\ Console.ebadf (Console.close fd (Console.open_fd fd ty c)) = Console.ebadf c.
Proof.
  intros Hn. unfold Console.close, Console.open_fd. cbn [Console.fds Console.on_fds]. rewrite decide_True by set_solver.
  cbn [Console.fds Console.ebadf Console.on_fds]. split; [set_solver|done].
Qed.
(** The invariant looks at some fields only. *)
Lemma con_inv_ext tick F B c c' : con_inv tick F B c ->
  quiet tick (Console.cw c') -> Console.g_telnet_sessions c' = Console.g_telnet_sessions c -> Console.ebadf c' = Console.ebadf c ->
  Console.fds c' = Console.fds c -> Console.ctl_inited c' = Console.ctl_inited c -> Console.telnet_inited c' = Console.telnet_inited c ->
  (Console.ctl_inited c = true -> Console.ctl_listen_fd c' = Console.ctl_listen_fd c) ->
  (Console.telnet_inited c = true -> Console.telnet_listen_fd c' = Console.telnet_listen_fd c) ->
  (forall x, is_Some (evs (Console.cw c) !! x) -> is_Some (evs (Console.cw c') !! x)) -> con_inv tick F B c'.
Proof.
  intros [Hq Hs Hb Hf Hc Ht] Eq E1 E2 E3 E4 E5 E6 E7 E8. split; rewrite ?E1, ?E2, ?E3, ?E4, ?E5; try done.
  - rewrite Hf. f_equal; [f_equal|]; [destruct (Console.ctl_inited c)|destruct (Console.telnet_inited c)]; [by rewrite E6|done|by rewrite E7|done].
  - intros E. rewrite E6 by done. destruct (Hc E) as (A1 & A2 & A3). split_and!; auto.
  - intros E. rewrite E7 by done. destruct (Ht E) as (A1 & A2 & A3 & A4). split_and!; auto. intros E'. rewrite E6 by done. auto.
Qed.

Lemma ctl_init_inv tick F B sfd bind_ok listen_ok ctl path c :
  con_inv tick F B c -> Console.ctl_inited c = false -> Console.telnet_inited c = false -> sfd < 0 \/ sfd ∉ F ->
  exists rc c', Console.nv_core_ctl_init sfd bind_ok listen_ok ctl path c = Ret (rc, c') /\ con_inv tick F B c' /\
    Console.telnet_inited c' = false /\ (Console.ctl_inited c' = true -> Console.ctl_listen_fd c' = sfd).
Proof.
  intros Hi Ec Et Hsfd. pose proof (ci_quiet _ _ _ _ Hi) as Hq. unfold Console.nv_core_ctl_init.
  assert (Console.fds c = F) as EF by (rewrite (ci_fds _ _ _ _ Hi), Ec, Et; set_solver).
  destruct path as [[|x path]|]; [eexists _, _; split_and!; [done..|by rewrite Ec]| |eexists _, _; split_and!; [done..|by rewrite Ec]].
  rewrite Ec. set (c1 := Console.on_paths _ c). assert (con_inv tick F B c1) as Hi1 by (by apply (con_inv_ext tick F B c)).
  destruct (Z.ltb_spec sfd 0); [eexists _, _; split_and!; [done..|cbn; by rewrite Ec]|]. destruct Hsfd as [?|Hn]; [lia|].
  set (ty := Z.lor _ _). destruct (close_open sfd ty c1) as [Ef1 Ee1]; [cbn; by rewrite EF|].
  assert (forall c2, Console.cw c2 = Console.cw c1 -> Console.fds c2 = Console.fds c1 -> Console.ebadf c2 = Console.ebadf c1 ->
    Console.g_telnet_sessions c2 = [] -> Console.ctl_inited c2 = false -> Console.telnet_inited c2 = false -> con_inv tick F B c2) as Hback.
  { intros c2 A1 A2 A3 A4 A5 A6. apply (con_inv_ext tick F B c1); try done; [by rewrite A1|by rewrite A4, (ci_sess _ _ _ _ Hi1)|by rewrite A5|by rewrite A6| | |by rewrite A1];
      cbn; congruence. }
  pose proof (ci_sess _ _ _ _ Hi) as Hse.
  assert (forall c2, c2 = Console.close sfd (Console.open_fd sfd ty c1) -> con_inv tick F B c2) as Hb1.
  { intros c2 ->. apply Hback; try done; unfold Console.close; case_decide; cbn; done. }
  destruct (negb bind_ok || _).
  { eexists _, _. split; [done|]. split; [by apply Hb1|]. unfold Console.close. case_decide; cbn; rewrite ?Ec, ?Et; done. }
  destruct listen_ok; cbn [negb]; last first.
  { eexists _, _. split; [done|]. split; [|unfold Console.close; case_decide; cbn; rewrite ?Ec, ?Et; done].
    apply Hback; unfold Console.close; cbn; (rewrite decide_True by set_solver); cbn; try done. set_solver. }
  set (c3 := Console.on_ctl _ _ _).
  destruct (add_ev_quiet tick Console.CTL_LISTEN_EV ctl c3) as (rc & w' & -> & Hq' & Hk); [unfold Console.CTL_LISTEN_EV; lia| |cbn; rewrite lookup_insert_eq; by eexists|].
  { apply quiet_insert; [unfold Console.CTL_LISTEN_EV; lia|done]. }
  cbn [mbind outcome_bind]. destruct (rc =? 0); cbn [negb].
  - eexists _, _. split; [done|]. split; [|done]. split; cbn; try done; [by rewrite (ci_ebadf _ _ _ _ Hi)|rewrite Et, EF; set_solver| |by rewrite Et].
    intros _. split_and!; [done|done|]. apply Hk. cbn. rewrite lookup_insert_eq. by eexists.
  - eexists _, _. split; [done|]. split; [|unfold Console.close; case_decide; cbn; rewrite ?Ec, ?Et; done].
    assert (sfd ∈ Console.fds (Console.on_cw w' c3)) as Hin by (cbn; set_solver). unfold Console.close. rewrite decide_True by done.
    split; cbn; rewrite ?Ec, ?Et; try done; [by rewrite (ci_ebadf _ _ _ _ Hi)|]. rewrite EF. set_solver.
Qed.

Lemma telnet_init_inv tick F B sfd addr_ok bind_ok listen_ok fl ctl enable bind c :
  con_inv tick F B c -> Console.telnet_inited c = false -> sfd < 0 \/ (sfd ∉ F) /\ (Console.ctl_inited c = true -> Console.ctl_listen_fd c <> sfd) ->
  exists rc c', Console.nv_core_telnet_init sfd addr_ok bind_ok listen_ok fl ctl enable bind c = Ret (rc, c') /\ con_inv tick F B c'.
Proof.
  intros Hi Et Hsfd. pose proof (ci_quiet _ _ _ _ Hi) as Hq. pose proof (ci_sess _ _ _ _ Hi) as Hse. unfold Console.nv_core_telnet_init.
  destruct enable; cbn [negb]; [|by eexists _, _]. rewrite Et. destruct (Z.ltb_spec sfd 0); [by eexists _, _|]. destruct Hsfd as [?|[Hn Hne]]; [lia|].
  assert (sfd ∉ Console.fds c) as Hnf.
  { rewrite (ci_fds _ _ _ _ Hi), Et. destruct (Console.ctl_inited c) eqn:Ec; [|set_solver]. specialize (Hne eq_refl). set_solver. }
  set (ty := Z.lor _ _). destruct (close_open sfd ty c Hnf) as [Ef1 Ee1].
  assert (con_inv tick F B (Console.close sfd (Console.open_fd sfd ty c))) as Hb1.
  { apply (con_inv_ext tick F B c); try done; unfold Console.close; case_decide; cbn; done. }
  destruct (negb (match bind with None | Some [] => true | Some b => strcmp_eq b (str "0.0.0.0") end) && negb addr_ok); [by eexists _, _|].
  destruct bind_ok; cbn [negb]; [|by eexists _, _]. destruct listen_ok; cbn [negb]; [|by eexists _, _].
  set (c2 := if fl then _ else _). assert (c2 = Console.on_fds (Console.fds c ∪ {[sfd]}) (Console.nonblock c2) (Console.ebadf c) c) as E2 by (unfold c2; by destruct fl).
  clearbody c2. set (c3 := Console.on_telnet _ _ _).
  destruct (add_ev_quiet tick Console.TELNET_LISTEN_EV ctl c3) as (rc & w' & -> & Hq' & Hk); [unfold Console.TELNET_LISTEN_EV; lia| |cbn; rewrite lookup_insert_eq; by eexists|].
  { unfold c3. rewrite E2. cbn. apply quiet_insert; [unfold Console.TELNET_LISTEN_EV; lia|done]. }
  assert (forall x, is_Some (evs (Console.cw c) !! x) -> is_Some (evs w' !! x)) as Hk2.
  { intros x Hx. apply Hk. unfold c3. rewrite E2. cbn. rewrite lookup_insert_is_Some. destruct (decide (Console.TELNET_LISTEN_EV = x)); [by left|by right]. }
  cbn [mbind outcome_bind]. destruct (rc =? 0); cbn [negb]; eexists _, _; (split; [done|]).
  - unfold c3. rewrite E2. cbn. destruct Hi as [_ _ Hb Hf Hc _]. split; cbn; try done.
    + rewrite Hf, Et. set_solver.
    + intros E. destruct (Hc E) as (A1 & A2 & A3). split_and!; auto.
    + intros _. split_and!; [done|done|intros E; specialize (Hne E); congruence|]. apply Hk. cbn. rewrite lookup_insert_eq. by eexists.
  - assert (sfd ∈ Console.fds (Console.on_cw w' c3)) as Hin by (unfold c3; rewrite E2; cbn; set_solver). unfold Console.close. rewrite decide_True by done.
    unfold c3. rewrite E2. apply (con_inv_ext tick F B c); cbn; try done; [set_solver|by rewrite Et].
Qed.

(** ** Wherever the initialisation stops *)

(** The message queue apart, the handles are [H] and the descriptors [D]. *)
Definition mq_inv (H : gmap Z MsgQueue.message_queue_t) (D : gmap Z (Z * bool)) (b : biz) : Prop :=
  match msg_queue b with
  | None => MsgQueue.handles (mqs b) = H /\ MsgQueue.mqds (mqs b) = D
  | Some a => H !! a = None /\ exists h v, MsgQueue.handles (mqs b) = <[a := h]> H /\ D !! MsgQueue.mq h = None /\
      MsgQueue.mqds (mqs b) = <[MsgQueue.mq h := v]> D
  end.
Record biz_inv (tick : bool) (F : gset Z) (B : list Z) (W : gmap Z (gset Z)) (H : gmap Z MsgQueue.message_queue_t) (D : gmap Z (Z * bool)) (b : biz) : Prop := {
  bi_con : con_inv tick F B (console_of b);
  bi_sig : sig_inv W (sg b);
  bi_mq : mq_inv H D b;
  bi_health : Health.health_inited (health b) = false;
}.

Lemma destroy_inv H D b : mq_inv H D b ->
  exists m, match msg_queue b with
            | Some q => m ← MsgQueue.nv_destroy_message_queue (Some q) (mqs b); Ret (on_mq None m b)
            | None => Ret b
            end = Ret (on_mq None m b) /\ MsgQueue.handles m = H /\ MsgQueue.mqds m = D.
Proof.
  unfold mq_inv. destruct (msg_queue b) as [a|] eqn:E.
  - intros (Ha & h & v & Eh & Hd & Ed). unfold MsgQueue.nv_destroy_message_queue. rewrite Eh, lookup_insert_eq. cbn [deref mbind outcome_bind].
    eexists. split; [done|]. cbn [MsgQueue.handles MsgQueue.mqds]. rewrite Ed. split; by apply delete_insert_id.
  - intros [E1 E2]. exists (mqs b). split; [|done]. destruct b; cbn in *. by subst.
Qed.

Lemma cleanup_gives_back f wr o e tick F B W H D b : biz_inv tick F B W H D b ->
  exists b2, nv_core_business_cleanup f wr o e b = Ret b2 /\
    Console.fds (console b2) = F /\ Console.ebadf (console b2) = B /\
    (Signals.watched (sg b2) = W /\ Signals.blocked (sg b2) = Signals.blocked (sg b)) /\
    MsgQueue.handles (mqs b2) = H /\ MsgQueue.mqds (mqs b2) = D /\ thread_pool b2 = None /\ msg_queue b2 = None /\
    Cli.g_cli_cmds (Console.reg (console b2)) = [] /\ epoll_fd (lp (bw b2)) = -1 /\ state (lp (bw b2)) = LOOP_STOPPED /\ timers_head (lp (bw b2)) = NULL.
Proof.
  intros [Hc Hs Hm Hh]. unfold nv_core_business_cleanup, Health.nv_core_health_cleanup.
  change (Health.health_inited (health_of b)) with (Health.health_inited (health b)). rewrite Hh. cbn [negb mbind outcome_bind].
  change (console_of (on_health (health_of b) b)) with (console_of b).
  destruct (telnet_cleanup_inv tick F B (console_of b) Hc) as (c1 & -> & Hc1 & Et & Er). cbn [mbind outcome_bind].
  destruct (ctl_cleanup_inv tick F B (ctl_socket o) c1 Hc1 Et) as (c2 & -> & Hc2 & Ef & Er2). cbn [mbind outcome_bind].
  set (b1 := with_cli _ _). assert (bw b1 = Console.cw c2) as Ew by done. rewrite Ew.
  destruct (modules_cleanup_quiet tick (Console.cw c2) (tcp_pool b1) (udp_pool b1) (ci_quiet _ _ _ _ Hc2)) as (w & t & u & -> & Hq). cbn [mbind outcome_bind].
  set (b2 := on_sg _ _). destruct (destroy_inv H D b2 Hm) as (m & -> & E1 & E2). cbn [mbind outcome_bind].
  change (bw (on_pool None (on_mq None m b2))) with w.
  destruct (loop_cleanup_quiet f w wr Hq) as (w' & -> & A1 & A2 & A3). cbn [mbind outcome_bind]. eexists. split; [done|].
  cbn. split_and!; try done; [by apply (ci_ebadf _ _ _ _ Hc2)|by apply (shutdown_watched W (sg b))|].
  unfold Signals.nv_signal_shutdown. by destruct (0 <=? _); cbn; rewrite difference_empty_L.
Qed.

(** The process before: the static event of the tick is zeroed, nothing is initialised. *)
Record fresh (b : biz) : Prop := {
  fr_tick : exists e, evs (bw b) !! TICK_EV = Some e /\ e_next e = NULL /\ e_prev e = NULL;
  fr_health : Health.health_inited (health b) = false;
  fr_sess : Console.g_telnet_sessions (console b) = [];
  fr_ctl : Console.ctl_inited (console b) = false;
  fr_tel : Console.telnet_inited (console b) = false;
  fr_sig : Signals.g_signalfd (sg b) < 0;
  fr_mq : msg_queue b = None;
}.
(** The system answers with what is not in use. *)
Record unused (a : answers) (b : biz) : Prop := {
  un_new : sig_new a = NULL \/ 8 <= sig_new a;
  un_nfd0 : nfd0 a < 0 \/ Signals.watched (sg b) !! nfd0 a = None;
  un_nfd : forall g, nfd a g < 0 \/ Signals.watched (sg b) !! nfd a g = None;
  un_handle : forall h, mq_handle a = Some h -> MsgQueue.handles (mqs b) !! h = None;
  un_mqd : forall d q, mq_answer a = Some (d, q) -> MsgQueue.mqds (mqs b) !! d = None;
  un_ctl : c_sfd a < 0 \/ c_sfd a ∉ Console.fds (console b);
  un_tel : t_sfd a < 0 \/ (t_sfd a ∉ Console.fds (console b)) /\ c_sfd a <> t_sfd a;
}.

Lemma mq_init_inv a ans name (b : biz) : msg_queue b = None ->
  (forall h, a = Some h -> MsgQueue.handles (mqs b) !! h = None) -> (forall d q, ans = Some (d, q) -> MsgQueue.mqds (mqs b) !! d = None) ->
  let '(q, m) := MsgQueue.nv_init_message_queue a ans (Some name) 10 MsgQueue.MAX_MSG_SIZE 0 (mqs b) in
  mq_inv (MsgQueue.handles (mqs b)) (MsgQueue.mqds (mqs b)) (on_mq q m b).
Proof.
  intros Hb Ha Hd. unfold MsgQueue.nv_init_message_queue. destruct a as [h|]; [|done]. destruct ans as [[d q]|]; [|done].
  unfold mq_inv. cbn [msg_queue on_mq mqs MsgQueue.handles MsgQueue.mqds]. split; [by apply Ha|].
  unfold MsgQueue.mq_open. destruct (MsgQueue.mq_names (mqs b) !! _); cbn [MsgQueue.handles MsgQueue.mqds]; eexists _, _; (split; [done|]);
    cbn [MsgQueue.mq]; (split; [by apply (Hd d q)|done]).
Qed.

Lemma init_inv o a b : fresh b -> unused a b ->
  exists rc b1 tick, nv_core_business_init o a b = Ret (rc, b1) /\ (rc = NV_OK \/ rc = NV_ERROR) /\
    biz_inv tick (Console.fds (console b)) (Console.ebadf (console b)) (Signals.watched (sg b)) (MsgQueue.handles (mqs b)) (MsgQueue.mqds (mqs b)) b1.
Proof.
  intros [Hti Hhe Hse Hct Hte Hsi Hmq] [Un U0 Uf Uh Ud Uc Ut]. unfold nv_core_business_init.
  set (cfg := Some _). set (l := (nv_loop_init cfg (ep a) (arr a) (pip a)).2).
  assert (quiet false (on_loop (fun _ => l) (bw b)) /\ signalfd_ev l = NULL) as [Hq0 Hl].
  { unfold l, nv_loop_init. destruct (ep a =? -1); [|destruct (arr a)]; (split; [|done]); (split; cbn; try done); by left. }
  assert (sig_inv (Signals.watched (sg b)) (sg b)) as Hs0 by (unfold sig_inv; by destruct (Z.leb_spec 0 (Signals.g_signalfd (sg b))); [lia|]).
  assert (nv_loop_init cfg (ep a) (arr a) (pip a) = ((nv_loop_init cfg (ep a) (arr a) (pip a)).1, l)) as -> by (unfold l; by destruct (nv_loop_init _ _ _ _)).
  assert (mq_inv (MsgQueue.handles (mqs b)) (MsgQueue.mqds (mqs b)) b) as Hm0 by (unfold mq_inv; by rewrite Hmq).
  (* a state that differs from [b] in the loop, the signals and the pools only *)
  assert (forall tick b', quiet tick (bw b') -> console b' = console b -> health b' = health b -> sig_inv (Signals.watched (sg b)) (sg b') ->
    mq_inv (MsgQueue.handles (mqs b)) (MsgQueue.mqds (mqs b)) b' ->
    biz_inv tick (Console.fds (console b)) (Console.ebadf (console b)) (Signals.watched (sg b)) (MsgQueue.handles (mqs b)) (MsgQueue.mqds (mqs b)) b') as Hinv.
  { intros tick b' A1 A2 A3 A4 A5. split; [|done|done|by rewrite A3]. split; unfold console_of; cbn; rewrite ?A2, ?Hct, ?Hte; try done. set_solver. }
  destruct ((nv_loop_init cfg (ep a) (arr a) (pip a)).1 =? 0); cbn [negb]; last first.
  { eexists _, _, false. split; [done|]. split; [by right|]. by apply Hinv. }
  destruct (register_loop_quiet (Signals.watched (sg b)) (worker_processes o) (nfd0 a) (nfd a) (sig_new a) (sig_ctl a) (on_loop (fun _ => l) (bw b)) (sg b))
    as (rc & w & s1 & E & Hq1 & Hs1); [done..|]. cbn [bw on_bw sg]. rewrite E. cbn [mbind outcome_bind]. clear E.
  destruct (rc =? NV_OK); cbn [negb]; [|eexists _, _, false; split; [done|]; split; [by right|]; by apply Hinv].
  cbn [thread_pool on_pool]. destruct (ThreadPool.nv_threadpool_create _ _ _ _) as [tp|]; [|eexists _, _, false; split; [done|]; split; [by right|]; by apply Hinv].
  pose proof (mq_init_inv (mq_handle a) (mq_answer a) (mq_name o) b Hmq Uh Ud) as Hm. cbn [mqs on_pool on_sg on_bw].
  destruct (MsgQueue.nv_init_message_queue _ _ _ _ _ _ _) as [q m]. cbn [bw on_mq tcp_pool udp_pool on_pool on_sg on_bw].
  destruct (modules_init_quiet (r1 a) (r2 a) (r3 a) (r4 a) (hopts o) w (tcp_pool b) (udp_pool b) Hq1) as (w2 & t & u & -> & Hq2). cbn [mbind outcome_bind].
  change (0 =? NV_OK) with true. cbn [negb]. set (b2 := with_cli _ _).
  assert (biz_inv true (Console.fds (console b)) (Console.ebadf (console b)) (Signals.watched (sg b)) (MsgQueue.handles (mqs b)) (MsgQueue.mqds (mqs b)) b2) as Hb2.
  { split; [|done|done|done]. split; cbn; rewrite ?Hct, ?Hte; try done. set_solver. }
  destruct (negb (is_master o) && _); [|eexists _, _, true; split; [done|]; split; [by left|done]].
  destruct (ctl_init_inv true (Console.fds (console b)) (Console.ebadf (console b)) (c_sfd a) (c_bind a) (c_listen a) (c_ctl a) (ctl_socket o) (console_of b2)
    (bi_con _ _ _ _ _ _ _ Hb2) Hct Hte Uc) as (rc1 & c1 & -> & Hc1 & Et1 & El1). cbn [mbind outcome_bind].
  destruct (telnet_init_inv true (Console.fds (console b)) (Console.ebadf (console b)) (t_sfd a) (t_addr a) (t_bind a) (t_listen a) (t_fl a) (t_ctl a)
    (telnet_enable o) (telnet_bind o) c1 Hc1 Et1) as (rc2 & c2 & -> & Hc2).
  { destruct Ut as [|[Ut1 Ut2]]; [by left|right]. split; [done|]. intros E. by rewrite El1. }
  cbn [mbind outcome_bind]. eexists _, _, true. split; [done|]. split; [by left|]. destruct Hb2 as [_ B2 B3 B4].
  split; [|done|done|done]. unfold console_of. cbn [console on_console bw]. by destruct c2.
Qed.

(** C35: whatever the system answers, the initialisation of the business modules returns success
    or failure, wherever it stops, and the cleanup that nv_core_run calls in either case is
    defined and gives back the sockets of the consoles, the signal descriptor, the message
    queue, the thread pool, the commands and the timers; no socket of the consoles is closed
    that was not open.  Not given back: the signals that the initialisation blocked stay
    blocked.  (The loop's own descriptors are in [nv_loop_epoll_closed_twice].) *)
Theorem nv_core_business_gives_back f wr o a e b : fresh b -> unused a b ->
  exists rc b1 b2, nv_core_business_init o a b = Ret (rc, b1) /\ (rc = NV_OK \/ rc = NV_ERROR) /\
    nv_core_business_cleanup f wr o e b1 = Ret b2 /\
    Console.fds (console b2) = Console.fds (console b) /\ Console.ebadf (console b2) = Console.ebadf (console b) /\
    (Signals.watched (sg b2) = Signals.watched (sg b) /\ Signals.blocked (sg b2) = Signals.blocked (sg b1)) /\
    MsgQueue.handles (mqs b2) = MsgQueue.handles (mqs b) /\
    MsgQueue.mqds (mqs b2) = MsgQueue.mqds (mqs b) /\ thread_pool b2 = None /\ msg_queue b2 = None /\
    Cli.g_cli_cmds (Console.reg (console b2)) = [] /\
    epoll_fd (lp (bw b2)) = -1 /\ state (lp (bw b2)) = LOOP_STOPPED /\ timers_head (lp (bw b2)) = NULL.
Proof.
  intros Hf Hu. destruct (init_inv o a b Hf Hu) as (rc & b1 & tick & Ei & Hrc & Hb).
  destruct (cleanup_gives_back f wr o e _ _ _ _ _ _ b1 Hb) as (b2 & Ec & Hg). by exists rc, b1, b2.
Qed.

Definition start_world : world := mkWorld {[ TICK_EV := zero_ev ]} empty_loop 0.
Definition start_biz : biz :=
  mkBiz start_world (Health.mkHealth start_world 0 false false false false false (-1) ∅ [] [] [] [])
    (Console.mkCon ∅ ∅ ∅ [] start_world (Cli.mkCli [] false false) [] false (-1) false (-1) [] ∅)
    (Signals.mkSig ∅ (-1) Signals.no_slots false ∅ ∅ ∅) None None MsgQueue.no_queues (NetBuf.mkPool None 0 0 0) (NetBuf.mkPool None 0 0 0).
Definition sample_opts : bopts :=
  mkBopts (Health.mkOpts 0 false None None 60 false None 128) 0 1 0 false (str "/nv_core_mq") (Some (str "/tmp/nv.ctl")) true None.
(** The telnet port is taken. *)
Definition sample_answers : answers :=
  mkAnswers 5 true true 6 (fun _ => 6) 64 0 [] true (Some 96) (Some (7, 1)) true true true true 8 true true 0 9 true false true true 0.
Definition sample_env : Health.env := Health.mkEnv None 0 0 true (-1) true true 0 0 0 0.

Lemma nv_core_business_gives_back_witness :
  exists rc b1 b2, nv_core_business_init sample_opts sample_answers start_biz = Ret (rc, b1) /\ (rc = NV_OK \/ rc = NV_ERROR) /\
    nv_core_business_cleanup 10 Written sample_opts sample_env b1 = Ret b2 /\
    Console.fds (console b2) = ∅ /\ Console.ebadf (console b2) = [] /\ epoll_fd (lp (bw b2)) = -1.
Proof.
  destruct (nv_core_business_gives_back 10 Written sample_opts sample_answers sample_env start_biz) as (rc & b1 & b2 & H1 & H2 & H3 & H4 & H5 & H).
  - split; try done. exists zero_ev. split; [reflexivity|done].
  - split; cbn; try done; [by right|by right|by right|by right|]. right. split; [done|lia].
  - exists rc, b1, b2. repeat (split; [done|]). by destruct H as (_ & _ & _ & _ & _ & _ & H & _).
Defined.
(** In that run everything but the telnet console started. *)
Example business_sample :
  match nv_core_business_init sample_opts sample_answers start_biz with
  | Ret (rc, b) => rc = NV_OK /\ Console.ctl_inited (console b) = true /\ Console.telnet_inited (console b) = false /\ timers_head (lp (bw b)) = TICK_EV
  | _ => False
  end.
Proof. vm_compute. by split_and!. Qed.

End Business.
