(* ===== verification/Json.v ===== *)
(** * JSON documents (base/data/nv_json.c)

    The wrappers over cJSON, which is a class here: a heap of nodes with the calls the file
    makes and what their documentation says of them.  [JHeap] is an instance.  A double is a
    parameter with its conversion to an [int].  Theorems: adding a member adds exactly it or
    changes nothing, so that no node is left behind; what was added is read back unless an
    earlier member has the name; reading a number that does not fit an [int] is undefined. *)
From S2P Require Import Prelude.

Module Json.

Definition NV_OK : Z := 0.
Definition NV_ERROR : Z := -1.

(** A node; arrays and objects hold the addresses of their items, in order. *)
Inductive jvalue (D : Type) :=
  | JNull | JBool (b : bool) | JNumber (d : D) | JString (s : cstr) | JArray (l : list Z) | JObject (l : list (cstr * Z)).
Arguments JNull {D}.
Arguments JBool {D} _.
Arguments JNumber {D} _.
Arguments JString {D} _.
Arguments JArray {D} _.
Arguments JObject {D} _.

(** A node without items. *)
Definition leaf {D} (v : jvalue D) : bool := match v with JArray (_ :: _) | JObject (_ :: _) => false | _ => true end.

(** cJSON: [jnode h a] is the live node at [a].  A creation gives a new node or nothing, adding
    appends the item or, without memory, changes nothing, deletion frees a node. *)
Class CJson (H D : Type) := {
  jnode : H -> Z -> option (jvalue D);
  jcreate : jvalue D -> H -> option Z * H;
  jadd_array : Z -> Z -> H -> bool * H;
  jadd_object : Z -> cstr -> Z -> H -> bool * H;
  jdelete : Z -> H -> H;
  jparse : cstr -> H -> option Z * H;
  jparse_len : cstr -> Z -> H -> option Z * H;
  jprint : bool -> Z -> H -> option cstr;
  jcreate_some v h a h' : jcreate v h = (Some a, h') ->
    jnode h a = None /\ forall b, jnode h' b = if decide (b = a) then Some v else jnode h b;
  jcreate_none v h h' : jcreate v h = (None, h') -> forall b, jnode h' b = jnode h b;
  jadd_array_true o i h h' l : jadd_array o i h = (true, h') -> jnode h o = Some (JArray l) ->
    forall b, jnode h' b = if decide (b = o) then Some (JArray (l ++ [i])) else jnode h b;
  jadd_array_false o i h h' : jadd_array o i h = (false, h') -> forall b, jnode h' b = jnode h b;
  jadd_object_true o nm i h h' l : jadd_object o nm i h = (true, h') -> jnode h o = Some (JObject l) ->
    forall b, jnode h' b = if decide (b = o) then Some (JObject (l ++ [(nm, i)])) else jnode h b;
  jadd_object_false o nm i h h' : jadd_object o nm i h = (false, h') -> forall b, jnode h' b = jnode h b;
  jdelete_leaf a h v : jnode h a = Some v -> leaf v = true ->
    forall b, jnode (jdelete a h) b = if decide (b = a) then None else jnode h b;
}.

Section wrappers.
Context {H D : Type} `{CJson H D}.
(** The conversion of a double to [int]: [None] when the value does not fit. *)
Context (int_of : D -> option Z).

Definition nv_json_parse (text : option cstr) (h : H) : option Z * H :=
  match text with None => (None, h) | Some t => jparse t h end.
Definition nv_json_parse_len (text : option cstr) (len : Z) (h : H) : option Z * H :=
  match text with
  | None => (None, h)
  | Some t => if len =? 0 then (None, h) else jparse_len t len h
  end.
Definition nv_json_free (root : option Z) (h : H) : H := match root with Some a => jdelete a h | None => h end.
Definition nv_json_print (root : option Z) (h : H) : option cstr := match root with Some a => jprint true a h | None => None end.
Definition nv_json_print_unformatted (root : option Z) (h : H) : option cstr := match root with Some a => jprint false a h | None => None end.

Definition nv_json_create_null : H -> option Z * H := jcreate JNull.
Definition nv_json_create_bool (boolean : Z) : H -> option Z * H := jcreate (JBool (negb (boolean =? 0))).
Definition nv_json_create_number (d : D) : H -> option Z * H := jcreate (JNumber d).
Definition nv_json_create_string (s : option cstr) (h : H) : option Z * H :=
  match s with None => (None, h) | Some s => jcreate (JString s) h end.
Definition nv_json_create_array : H -> option Z * H := jcreate (JArray []).
Definition nv_json_create_object : H -> option Z * H := jcreate (JObject []).

Definition nv_json_array_add (array item : option Z) (h : H) : outcome (Z * H) :=
  match array, item with
  | Some a, Some i =>
      v ← deref (jnode h a);
      match v with
      | JArray _ => let '(ok, h) := jadd_array a i h in Ret (if ok then NV_OK else NV_ERROR, h)
      | _ => Ret (NV_ERROR, h)
      end
  | _, _ => Ret (NV_ERROR, h)
  end.
Definition nv_json_object_add (object : option Z) (name : option cstr) (item : option Z) (h : H) : outcome (Z * H) :=
  match object, name, item with
  | Some o, Some nm, Some i =>
      v ← deref (jnode h o);
      match v with
      | JObject _ => let '(ok, h) := jadd_object o nm i h in Ret (if ok then NV_OK else NV_ERROR, h)
      | _ => Ret (NV_ERROR, h)
      end
  | _, _, _ => Ret (NV_ERROR, h)
  end.

(** The body the functions [nv_json_add_...] share: [create] is their first call. *)
Definition add_member (create : H -> option Z * H) (object : option Z) (name : option cstr) (h : H) : outcome (Z * H) :=
  let '(item, h) := create h in
  match item with
  | None => Ret (NV_ERROR, h)
  | Some i =>
      '(rc, h) ← nv_json_object_add object name (Some i) h;
      if negb (rc =? NV_OK) then Ret (NV_ERROR, nv_json_free (Some i) h) else Ret (NV_OK, h)
  end.
Definition nv_json_add_null := add_member nv_json_create_null.
Definition nv_json_add_bool (object : option Z) (name : option cstr) (boolean : Z) := add_member (nv_json_create_bool boolean) object name.
Definition nv_json_add_number (object : option Z) (name : option cstr) (d : D) := add_member (nv_json_create_number d) object name.
Definition nv_json_add_string (object : option Z) (name : option cstr) (s : option cstr) := add_member (nv_json_create_string s) object name.
Definition nv_json_add_object := add_member nv_json_create_object.
Definition nv_json_add_array := add_member nv_json_create_array.

(** The first member with exactly the name. *)
Definition find_member (l : list (cstr * Z)) (nm : cstr) : option Z := snd <$> head (filter (fun x => x.1 = nm) l).
Definition nv_json_object_get (object : option Z) (name : option cstr) (h : H) : outcome (option Z) :=
  match object, name with
  | Some o, Some nm => v ← deref (jnode h o); Ret (match v with JObject l => find_member l nm | _ => None end)
  | _, _ => Ret None
  end.
Definition nv_json_array_size (array : option Z) (h : H) : outcome Z :=
  match array with
  | Some a => v ← deref (jnode h a); Ret (match v with JArray l => Z.of_nat (length l) | _ => -1 end)
  | None => Ret (-1)
  end.
Definition nv_json_array_get (array : option Z) (index : Z) (h : H) : outcome (option Z) :=
  match array with
  | Some a => v ← deref (jnode h a); Ret (match v with JArray l => if index <? 0 then None else l !! Z.to_nat index | _ => None end)
  | None => Ret None
  end.

(** The value of the member, if there is one. *)
Definition member (object : option Z) (name : option cstr) (h : H) : outcome (option (jvalue D)) :=
  i ← nv_json_object_get object name h;
  match i with Some i => v ← deref (jnode h i); Ret (Some v) | None => Ret None end.
(** [out]: the pointer is not null; the second result is what is stored, if anything is.  A
    string pointer is cleared first, so that [None] is a null pointer there. *)
Definition nv_json_get_string (object : option Z) (name : option cstr) (out : bool) (h : H) : outcome (Z * option cstr) :=
  if negb out then Ret (NV_ERROR, None) else
  v ← member object name h; Ret (match v with Some (JString s) => (NV_OK, Some s) | _ => (NV_ERROR, None) end).
Definition nv_json_get_int (object : option Z) (name : option cstr) (out : bool) (h : H) : outcome (Z * option Z) :=
  if negb out then Ret (NV_ERROR, None) else
  v ← member object name h;
  match v with Some (JNumber d) => n ← deref (int_of d); Ret (NV_OK, Some n) | _ => Ret (NV_ERROR, None) end.
Definition nv_json_get_double (object : option Z) (name : option cstr) (out : bool) (h : H) : outcome (Z * option D) :=
  if negb out then Ret (NV_ERROR, None) else
  v ← member object name h; Ret (match v with Some (JNumber d) => (NV_OK, Some d) | _ => (NV_ERROR, None) end).
Definition nv_json_get_bool (object : option Z) (name : option cstr) (out : bool) (h : H) : outcome (Z * option Z) :=
  if negb out then Ret (NV_ERROR, None) else
  v ← member object name h; Ret (match v with Some (JBool b) => (NV_OK, Some (if b then 1 else 0)) | _ => (NV_ERROR, None) end).

Definition test (f : jvalue D -> bool) (item : option Z) (h : H) : outcome Z :=
  match item with Some i => v ← deref (jnode h i); Ret (if f v then 1 else 0) | None => Ret 0 end.
Definition nv_json_is_null := test (fun v => match v with JNull => true | _ => false end).
Definition nv_json_is_bool := test (fun v => match v with JBool _ => true | _ => false end).
Definition nv_json_is_number := test (fun v => match v with JNumber _ => true | _ => false end).
Definition nv_json_is_string := test (fun v => match v with JString _ => true | _ => false end).
Definition nv_json_is_array := test (fun v => match v with JArray _ => true | _ => false end).
Definition nv_json_is_object := test (fun v => match v with JObject _ => true | _ => false end).
Definition nv_json_string_value (item : option Z) (h : H) : outcome (option cstr) :=
  match item with Some i => v ← deref (jnode h i); Ret (match v with JString s => Some s | _ => None end) | None => Ret None end.

(** ** Adding a member *)

(** The same nodes. *)
Definition same (h h' : H) : Prop := forall b, jnode h' b = jnode h b.
(** The node [i] is new and the last member of [o]. *)
Definition added (o : Z) (nm : cstr) (i : Z) (v : jvalue D) (h h' : H) : Prop :=
  exists l, jnode h o = Some (JObject l) /\ jnode h i = None /\
    forall b, jnode h' b = if decide (b = o) then Some (JObject (l ++ [(nm, i)])) else if decide (b = i) then Some v else jnode h b.

Lemma add_member_spec create v object name h :
  leaf v = true ->
  (forall a h', create h = (Some a, h') -> jnode h a = None /\ forall b, jnode h' b = if decide (b = a) then Some v else jnode h b) ->
  (forall h', create h = (None, h') -> same h h') ->
  (forall o, object = Some o -> is_Some (jnode h o)) ->
  exists rc h', add_member create object name h = Ret (rc, h') /\
    (rc = NV_OK /\ (exists o nm i, object = Some o /\ name = Some nm /\ added o nm i v h h') \/ rc = NV_ERROR /\ same h h').
Proof.
  intros Hv Hs Hn Ho. unfold add_member. destruct (create h) as [[i|] h1] eqn:E; [|eexists _, _; split; [done|]; right; split; [done|by apply Hn]].
  destruct (Hs i h1 eq_refl) as [Hi H1].
  assert (same h (jdelete i h1)) as Hdel.
  { intros b. rewrite (jdelete_leaf i h1 v) by (done || by rewrite H1, decide_True). case_decide; [by subst|]. by rewrite H1, decide_False. }
  unfold nv_json_object_add. destruct object as [o|]; [|by eexists _, _; split; [done|]; right]. destruct name as [nm|]; [|by eexists _, _; split; [done|]; right].
  destruct (Ho o eq_refl) as [w Ew]. assert (o <> i) as Hoi by (intros ->; congruence).
  assert (jnode h1 o = Some w) as Ew1 by (by rewrite H1, decide_False). rewrite Ew1. cbn [deref mbind outcome_bind].
  destruct w as [| | | | |l]; try (by eexists _, _; split; [done|]; right).
  destruct (jadd_object o nm i h1) as [[|] h2] eqn:Ea; cbn [mbind outcome_bind].
  - change (NV_OK =? NV_OK) with true. eexists _, _. split; [done|]. left. split; [done|]. exists o, nm, i. split; [done|]. split; [done|]. exists l.
    split; [done|]. split; [done|]. intros b. rewrite (jadd_object_true o nm i h1 h2 l Ea Ew1). case_decide; [done|]. by rewrite H1.
  - change (NV_ERROR =? NV_OK) with false. eexists _, _. split; [done|]. right. split; [done|]. intros b. cbn [nv_json_free].
    pose proof (jadd_object_false o nm i h1 h2 Ea) as H2.
    rewrite (jdelete_leaf i h2 v) by (done || by rewrite H2, H1, decide_True). case_decide; [by subst|]. by rewrite H2, H1, decide_False.
Qed.

(** The items the functions create. *)
Inductive item := INull | IBool (b : Z) | INumber (d : D) | IString (s : option cstr) | IArray | IObject.
Definition add (x : item) (object : option Z) (name : option cstr) (h : H) : outcome (Z * H) :=
  match x with
  | INull => nv_json_add_null object name h
  | IBool b => nv_json_add_bool object name b h
  | INumber d => nv_json_add_number object name d h
  | IString s => nv_json_add_string object name s h
  | IArray => nv_json_add_array object name h
  | IObject => nv_json_add_object object name h
  end.
Definition value_of (x : item) : jvalue D :=
  match x with
  | INull => JNull | IBool b => JBool (negb (b =? 0)) | INumber d => JNumber d | IString s => JString (default [] s)
  | IArray => JArray [] | IObject => JObject []
  end.

Lemma add_spec x object name h : (forall o, object = Some o -> is_Some (jnode h o)) ->
  exists rc h', add x object name h = Ret (rc, h') /\
    (rc = NV_OK /\ (exists o nm i, object = Some o /\ name = Some nm /\ added o nm i (value_of x) h h') \/ rc = NV_ERROR /\ same h h').
Proof.
  intros Ho. destruct x as [|b|d|s| |]; cbn [add]; apply add_member_spec; try done;
    try (intros; by apply jcreate_some); try (intros h' E b0; by apply (jcreate_none _ _ _ E)).
  - intros a h' E. destruct s as [s|]; [by apply jcreate_some in E|done].
  - intros h' E. destruct s as [s|]; [intros b0; by apply (jcreate_none _ _ _ E)|]. injection E as <-. done.
Qed.

(** What is read afterwards under the added name. *)
Lemma find_member_snoc l nm i nm' : find_member (l ++ [(nm, i)]) nm' =
  match find_member l nm' with Some j => Some j | None => if decide (nm = nm') then Some i else None end.
Proof.
  unfold find_member. rewrite filter_app. destruct (filter (fun x => x.1 = nm') l) as [|y r] eqn:E; [|done]. cbn [app head fmap option_fmap option_map].
  rewrite filter_cons. cbn [fst]. by destruct (decide (nm = nm')).
Qed.
End wrappers.

(** Adding a member of any type to an object succeeds, and then the object has exactly
    one member more, last and with the value, or fails and changes nothing: no node is left
    behind on any path. *)
Theorem nv_json_add_all_or_nothing {H D} `{CJson H D} (x : item (D := D)) object name (h : H) :
  (forall o, object = Some o -> is_Some (jnode h o)) ->
  exists rc h', add x object name h = Ret (rc, h') /\
    (rc = NV_OK /\ (exists o nm i, object = Some o /\ name = Some nm /\ added o nm i (value_of x) h h') \/ rc = NV_ERROR /\ same h h').
Proof. apply add_spec. Qed.

(** A string, number or truth value added under a name that is new in the object is read
    back by the function for its type; under a name the object has, what was there first is
    still what is read.  A number is read as an [int] only if it fits; otherwise the conversion
    is undefined. *)
Theorem nv_json_add_get {H D} `{CJson H D} (int_of : D -> option Z) (x : item (D := D)) o nm (h h' : H) l :
  jnode h o = Some (JObject l) -> (forall i, i ∈ l -> is_Some (jnode h i.2) /\ i.2 <> o) ->
  add x (Some o) (Some nm) h = Ret (NV_OK, h') ->
  if decide (nm ∈ l.*1) then
    nv_json_get_string (Some o) (Some nm) true h' = nv_json_get_string (Some o) (Some nm) true h /\
    nv_json_get_int int_of (Some o) (Some nm) true h' = nv_json_get_int int_of (Some o) (Some nm) true h /\
    nv_json_get_double (Some o) (Some nm) true h' = nv_json_get_double (Some o) (Some nm) true h /\
    nv_json_get_bool (Some o) (Some nm) true h' = nv_json_get_bool (Some o) (Some nm) true h
  else
    match x with
    | IString s => nv_json_get_string (Some o) (Some nm) true h' = Ret (NV_OK, Some (default [] s))
    | IBool b => nv_json_get_bool (Some o) (Some nm) true h' = Ret (NV_OK, Some (if b =? 0 then 0 else 1))
    | INumber d => nv_json_get_double (Some o) (Some nm) true h' = Ret (NV_OK, Some d) /\
        nv_json_get_int int_of (Some o) (Some nm) true h' = match int_of d with Some n => Ret (NV_OK, Some n) | None => UB end
    | _ => nv_json_get_string (Some o) (Some nm) true h' = Ret (NV_ERROR, None)
    end.
Proof.
  intros Ho Hl E. destruct (add_spec x (Some o) (Some nm) h) as (rc & h2 & E2 & Hc); [intros ? [= <-]; by eexists|].
  rewrite E in E2. injection E2 as <- <-. destruct Hc as [[_ (o' & nm' & i & [= <-] & [= <-] & Ha)]|[? _]]; [|done].
  destruct Ha as (l' & El & Hi & Hn). rewrite Ho in El. injection El as <-.
  assert (jnode h' o = Some (JObject (l ++ [(nm, i)]))) as Ho' by (by rewrite Hn, decide_True).
  assert (o <> i) as Hoi by (intros ->; congruence). assert (jnode h' i = Some (value_of x)) as Hi' by (by rewrite Hn, decide_False, decide_True).
  assert (member (Some o) (Some nm) h' = if decide (nm ∈ l.*1) then member (Some o) (Some nm) h else Ret (Some (value_of x))) as Hm.
  { unfold member, nv_json_object_get. rewrite Ho, Ho'. cbn [deref mbind outcome_bind]. rewrite find_member_snoc.
    destruct (find_member l nm) as [j|] eqn:Ej.
    - unfold find_member in Ej. apply fmap_Some in Ej as ([nm0 j0] & Eh & ->). apply head_Some_elem_of, list_elem_of_filter in Eh as [Enm Hin]. cbn in Enm. subst nm0.
      rewrite decide_True by (apply list_elem_of_fmap; by exists (nm, j0)). destruct (Hl _ Hin) as [_ Hne]. cbn [snd] in *.
      rewrite Hn, decide_False by done. case_decide; [subst|done]. destruct (Hl _ Hin) as [[v Hv] _]. cbn in Hv. congruence.
    - rewrite decide_True by done. rewrite decide_False; [by rewrite Hi'|]. intros ([nm0 j0] & E0 & Hin)%list_elem_of_fmap. cbn in E0. subst nm0.
      unfold find_member in Ej. destruct (filter _ l) as [|y r] eqn:Ef; [|done].
      assert ((nm, j0) ∈ filter (fun x : cstr * Z => x.1 = nm) l) as Hf by (by apply list_elem_of_filter). rewrite Ef in Hf. by apply not_elem_of_nil in Hf. }
  destruct (decide (nm ∈ l.*1)).
  - unfold nv_json_get_string, nv_json_get_bool, nv_json_get_double, nv_json_get_int. by rewrite Hm.
  - destruct x as [|b|d|s| |]; unfold nv_json_get_string, nv_json_get_bool, nv_json_get_double, nv_json_get_int; rewrite Hm; cbn [negb mbind outcome_bind value_of];
      [done|by destruct (b =? 0)|split; [done|by destruct (int_of d)]|done..].
Qed.

(** ** A heap of nodes *)

(** Nodes by address; [room] is the number of allocations that still succeed.  Numbers are
    integers, and the two functions on texts are the constant document. *)
Record JHeap := mkJHeap { nodes : list (Z * jvalue Z); next : Z; room : nat }.
Definition jlook (h : JHeap) (a : Z) : option (jvalue Z) := snd <$> head (filter (fun x => x.1 = a) (nodes h)).
Definition jset (a : Z) (v : jvalue Z) (h : JHeap) : JHeap := mkJHeap ((a, v) :: nodes h) (next h) (room h).
Definition jnew (v : jvalue Z) (h : JHeap) : option Z * JHeap :=
  let a := 1 + foldr Z.max (next h) (nodes h).*1 in
  match room h with O => (None, h) | S r => (Some a, mkJHeap ((a, v) :: nodes h) a r) end.
Definition jput_array (o i : Z) (h : JHeap) : bool * JHeap :=
  match jlook h o with Some (JArray l) => (true, jset o (JArray (l ++ [i])) h) | _ => (false, h) end.
Definition jput_object (o : Z) (nm : cstr) (i : Z) (h : JHeap) : bool * JHeap :=
  match room h, jlook h o with
  | S r, Some (JObject l) => (true, mkJHeap ((o, JObject (l ++ [(nm, i)])) :: nodes h) (next h) r)
  | _, _ => (false, h)
  end.
Definition jdrop (a : Z) (h : JHeap) : JHeap := mkJHeap (filter (fun x => x.1 <> a) (nodes h)) (next h) (room h).

Lemma look_cons a b v l n r : jlook (mkJHeap ((a, v) :: l) n r) b = if decide (b = a) then Some v else jlook (mkJHeap l n r) b.
Proof. unfold jlook. cbn [nodes]. rewrite filter_cons. cbn [fst]. destruct (decide (a = b)), (decide (b = a)); by subst. Qed.
Lemma look_fresh l n r b : foldr Z.max n l.*1 < b -> jlook (mkJHeap l n r) b = None.
Proof.
  induction l as [|[a v] l IH]; [done|]. rewrite look_cons. cbn [fmap list_fmap foldr fst]. intros Hb.
  rewrite decide_False by lia. apply IH. lia.
Qed.
Lemma look_drop a h b : jlook (jdrop a h) b = if decide (b = a) then None else jlook h b.
Proof.
  destruct h as [l n r]. unfold jdrop. cbn [nodes next room]. induction l as [|[c v] l IH]; [by destruct (decide (b = a))|].
  rewrite filter_cons. cbn [fst]. rewrite look_cons. destruct (decide (c <> a)) as [Hc|Hc].
  - rewrite look_cons, IH. destruct (decide (b = c)), (decide (b = a)); by subst.
  - rewrite IH. destruct (decide (b = c)), (decide (b = a)); subst; done || by destruct Hc.
Qed.

#[export] Program Instance JHeap_cjson : CJson JHeap Z := {|
  jnode := jlook; jcreate := jnew; jadd_array := jput_array; jadd_object := jput_object; jdelete := jdrop;
  jparse _ h := jnew JNull h; jparse_len _ _ h := jnew JNull h; jprint _ _ _ := None |}.
Next Obligation.
  unfold jnew. intros v [l n r] a h' E. cbn [room nodes next] in E. destruct r as [|r]; [done|]. injection E as <- <-. split; [apply look_fresh; lia|].
  intros b. by rewrite look_cons.
Qed.
Next Obligation. unfold jnew. intros v h h' E. destruct (room h); by simplify_eq. Qed.
Next Obligation.
  unfold jput_array. intros o i h h' l E Ho b. rewrite Ho in E. injection E as <-. unfold jset. destruct h as [ns n r]. by rewrite look_cons.
Qed.
Next Obligation. unfold jput_array. intros o i h h' E b. by destruct (jlook h o) as [[]|]; simplify_eq. Qed.
Next Obligation.
  unfold jput_object. intros o nm i [ns n r] h' l E Ho b. rewrite Ho in E. cbn [room nodes next] in E. destruct r; [done|]. injection E as <-. by rewrite look_cons.
Qed.
Next Obligation. unfold jput_object. intros o nm i h h' E b. by destruct (room h), (jlook h o) as [[]|]; simplify_eq. Qed.
Next Obligation. intros a h v _ _ b. apply look_drop. Qed.

(** An object with the member [n] that is 7, and room for two allocations. *)
Definition jdoc : JHeap := mkJHeap [(1, JObject [([110], 2)]); (2, JNumber 7)] 2 2.

Lemma nv_json_add_all_or_nothing_witness : exists rc h', add (IString (Some [120])) (Some 1) (Some [115]) jdoc = Ret (rc, h') /\
    (rc = NV_OK /\ (exists o nm i, Some 1 = Some o /\ Some [115] = Some nm /\ added o nm i (value_of (IString (Some [120]))) jdoc h') \/ rc = NV_ERROR /\ same jdoc h').
Proof. apply (nv_json_add_all_or_nothing (IString (Some [120])) (Some 1) (Some [115]) jdoc). intros o [= <-]. by eexists. Defined.

Lemma nv_json_add_get_witness : exists h', add (INumber 9) (Some 1) (Some [109]) jdoc = Ret (NV_OK, h') /\
    nv_json_get_double (Some 1) (Some [109]) true h' = Ret (NV_OK, Some 9) /\ nv_json_get_int (fun d => Some d) (Some 1) (Some [109]) true h' = Ret (NV_OK, Some 9).
Proof.
  eexists. split; [reflexivity|].
  apply (nv_json_add_get (fun d => Some d) (INumber 9) 1 [109] jdoc _ [([110], 2)]); [done| |done].
  intros i ->%list_elem_of_singleton. split; [by eexists|done].
Defined.

End Json.
