(* ===== verification/Mxml.v ===== *)
(** * The node tree of Mini-XML (third_party/mxml)

    The part of the vendored library [base/data/nv_xml.c] works with, from its source: nodes
    in a heap with pointers to the parent, the first and last child and the two siblings;
    creation, attributes, removal and the walk in document order.  Results of [calloc] are
    arguments (NULL when it fails) and so is whether a string could be copied.

    [kids] says that the children of a node are a doubly linked list between its first and last
    child, [forest] that a node's descendants in document order are a list of addresses.
    Creating appends a child, removing unlinks one, the loop of [mxmlDelete] frees exactly the
    descendants, and the search finds the first match in document order.  The loops have as fuel
    bounds on their steps: one per node, two for [mxmlDelete], which meets a parent twice. *)
From S2P Require Import Prelude DLinks.

Module Mxml.

(** [mxml_type_t] with the value of the node; [None] is a null string.  The other types of value
    node are never made by the wrappers. *)
Inductive mxml_value :=
  | XElement (name : option cstr) (attrs : list (cstr * option cstr))
  | XText (whitespace : bool) (s : option cstr)
  | XInteger (i : Z)
  | XDirective (s : option cstr)
  | XOther (type : Z).

Record mxml_node_t := mkXNode {
  value : mxml_value; n_next : Z; n_prev : Z; parent : Z; child : Z; last_child : Z }.

#[export, refine] Instance mxml_Linked : Linked mxml_node_t := {|
  prev := n_prev;
  next := n_next;
  set_prev p n := mkXNode (value n) (n_next n) p (parent n) (child n) (last_child n);
  set_next p n := mkXNode (value n) p (n_prev n) (parent n) (child n) (last_child n);
|}.
Proof. all: done. Defined.

Definition set_value v n := mkXNode v (n_next n) (n_prev n) (parent n) (child n) (last_child n).
Definition set_parent p n := mkXNode (value n) (n_next n) (n_prev n) p (child n) (last_child n).
Definition set_child c n := mkXNode (value n) (n_next n) (n_prev n) (parent n) c (last_child n).
Definition set_last c n := mkXNode (value n) (n_next n) (n_prev n) (parent n) (child n) c.

Abbreviation heap := (gmap Z mxml_node_t).

(** ** The tree *)

Definition mxmlRemove (node : Z) (hp : heap) : outcome heap :=
  if node =? NULL then Ret hp else
  n ← deref (hp !! node);
  if parent n =? NULL then Ret hp else
  hp ← (if negb (prev n =? NULL) then store (set_next (next n)) (prev n) hp
        else store (set_child (next n)) (parent n) hp);
  n ← deref (hp !! node);
  hp ← (if negb (next n =? NULL) then store (set_prev (prev n)) (next n) hp
        else store (set_last (prev n)) (parent n) hp);
  store (fun n => set_next NULL (set_prev NULL (set_parent NULL n))) node hp.

(** [MXML_ADD_AFTER] with no child to add it after, the only way the creating functions call it. *)
Definition mxmlAdd_after (par node : Z) (hp : heap) : outcome heap :=
  if (par =? NULL) || (node =? NULL) then Ret hp else
  n ← deref (hp !! node);
  hp ← (if negb (parent n =? NULL) then mxmlRemove node hp else Ret hp);
  hp ← store (set_parent par) node hp;
  p ← deref (hp !! par);
  hp ← store (set_prev (last_child p)) node hp;
  hp ← (if negb (last_child p =? NULL) then store (set_next node) (last_child p) hp
        else store (set_child node) par hp);
  store (set_last node) par hp.

(** [new] is what [calloc] gives; [v] the type with a value of zeros. *)
Definition mxml_new (new par : Z) (v : mxml_value) (hp : heap) : outcome (Z * heap) :=
  if new =? NULL then Ret (NULL, hp) else
  let hp := <[new := mkXNode v NULL NULL NULL NULL NULL]> hp in
  hp ← (if negb (par =? NULL) then mxmlAdd_after par new hp else Ret hp);
  Ret (new, hp).

(** [_mxml_strcopy]; [ok] when there is memory. *)
Definition strcopy (ok : bool) (s : cstr) : option cstr := if ok then Some s else None.

(** The node and then its value, where the string is copied. *)
Definition new_node (new par : Z) (v0 v : mxml_value) (hp : heap) : outcome (Z * heap) :=
  '(node, hp) ← mxml_new new par v0 hp;
  if node =? NULL then Ret (NULL, hp) else
  hp ← store (set_value v) node hp; Ret (node, hp).
Definition mxmlNewElement (new : Z) (ok : bool) (par : Z) (name : cstr) : heap -> outcome (Z * heap) :=
  new_node new par (XElement None []) (XElement (strcopy ok name) []).
Definition mxmlNewText (new : Z) (ok : bool) (par : Z) (whitespace : bool) (s : cstr) : heap -> outcome (Z * heap) :=
  new_node new par (XText false None) (XText whitespace (strcopy ok s)).
Definition mxmlNewInteger (new par integer : Z) : heap -> outcome (Z * heap) :=
  new_node new par (XInteger 0) (XInteger integer).

(** The loop of [mxmlDelete] from [current] to [node]. *)
Fixpoint delete_loop (fuel : nat) (node current : Z) (hp : heap) : outcome heap :=
  if current =? NULL then Ret hp else
  match fuel with
  | O => UB
  | S fuel =>
      n ← deref (hp !! current);
      if negb (child n =? NULL) then delete_loop fuel node (child n) (<[current := set_child NULL n]> hp) else
      let nx := if next n =? NULL then (if parent n =? node then NULL else parent n) else next n in
      delete_loop fuel node nx (delete current hp)
  end.
Definition mxmlDelete (node : Z) (hp : heap) : outcome heap :=
  if node =? NULL then Ret hp else
  hp ← mxmlRemove node hp;
  n ← deref (hp !! node);
  hp ← delete_loop (2 * size hp) node (child n) hp;
  _ ← deref (hp !! node);
  Ret (delete node hp).

Definition mxmlNewDirective (new : Z) (ok : bool) (par : Z) (directive : cstr) (hp : heap) : outcome (Z * heap) :=
  '(node, hp) ← mxml_new new par (XDirective None) hp;
  if node =? NULL then Ret (NULL, hp) else
  hp ← store (set_value (XDirective (strcopy ok directive))) node hp;
  if ok then Ret (node, hp) else hp ← mxmlDelete node hp; Ret (NULL, hp).

(** ** Values *)

(** The position of the attribute. *)
Fixpoint find_attr (attrs : list (cstr * option cstr)) (name : cstr) : option (option cstr) :=
  match attrs with
  | [] => None
  | (nm, v) :: attrs => if decide (nm = name) then Some v else find_attr attrs name
  end.
Definition mxmlElementGetAttr (node : Z) (name : cstr) (hp : heap) : outcome (option cstr) :=
  n ← deref (hp !! node);
  Ret (match value n with XElement _ attrs => default None (find_attr attrs name) | _ => None end).

(** The first attribute with the name is overwritten; without one, a new one needs memory for
    the array and for the name ([room]). *)
Fixpoint mxml_set_attr (attrs : list (cstr * option cstr)) (name : cstr) (v : option cstr) (room : bool) : list (cstr * option cstr) :=
  match attrs with
  | [] => if room then [(name, v)] else []
  | (nm, v0) :: attrs => if decide (nm = name) then (nm, v) :: attrs else (nm, v0) :: mxml_set_attr attrs name v room
  end.
Definition mxmlElementSetAttr (ok room : bool) (node : Z) (name v : cstr) (hp : heap) : outcome heap :=
  n ← deref (hp !! node);
  match value n with
  | XElement nm attrs =>
      if ok then Ret (<[node := set_value (XElement nm (mxml_set_attr attrs name (Some v) room)) n]> hp) else Ret hp
  | _ => Ret hp
  end.

(** A text that is the node's own string keeps it; a copy of it would be equal. *)
Definition mxmlSetText (ok : bool) (node : Z) (whitespace : bool) (s : cstr) (hp : heap) : outcome (bool * heap) :=
  n ← deref (hp !! node);
  c ← (match value n with
       | XElement _ _ => if child n =? NULL then Ret None else c ← deref (hp !! child n); Ret (Some c)
       | _ => Ret None
       end);
  let node := match c with Some c => match value c with XText _ _ => child n | _ => node end | None => node end in
  n ← deref (hp !! node);
  match value n with
  | XText _ _ => if ok then Ret (true, <[node := set_value (XText whitespace (Some s)) n]> hp) else Ret (false, hp)
  | _ => Ret (false, hp)
  end.
Definition mxmlSetElement (ok : bool) (node : Z) (name : cstr) (hp : heap) : outcome (bool * heap) :=
  n ← deref (hp !! node);
  match value n with
  | XElement _ attrs => if ok then Ret (true, <[node := set_value (XElement (Some name) attrs) n]> hp) else Ret (false, hp)
  | _ => Ret (false, hp)
  end.

(** ** The walk *)

Inductive mxml_descend_t := MXML_DESCEND_FIRST | MXML_DESCEND_ALL | MXML_DESCEND_NONE.

(** The loop that climbs until a node has a sibling. *)
Fixpoint climb (fuel : nat) (top node : Z) (hp : heap) : outcome Z :=
  match fuel with
  | O => UB
  | S fuel =>
      n ← deref (hp !! node);
      if negb (next n =? NULL) then Ret (next n) else
      if (parent n =? top) || (parent n =? NULL) then Ret NULL else climb fuel top (parent n) hp
  end.
Definition mxmlWalkNext (node top : Z) (descend : mxml_descend_t) (hp : heap) : outcome Z :=
  if node =? NULL then Ret NULL else
  n ← deref (hp !! node);
  if negb (child n =? NULL) && (match descend with MXML_DESCEND_NONE => false | _ => true end) then Ret (child n) else
  if node =? top then Ret NULL else
  if negb (next n =? NULL) then Ret (next n) else
  if negb (parent n =? NULL) && negb (parent n =? top) then climb (size hp) top (parent n) hp else Ret NULL.

(** The test of the loop of [mxmlFindElement]. *)
Definition element_matches (element attr v : option cstr) (x : mxml_value) : bool :=
  match x with
  | XElement (Some name) attrs =>
      match element with Some e => bool_decide (name = e) | None => true end &&
      match attr with
      | None => true
      | Some a =>
          match default None (find_attr attrs a) with
          | Some temp => match v with Some v => bool_decide (v = temp) | None => true end
          | None => false
          end
      end
  | _ => false
  end.
Fixpoint find_loop (fuel : nat) (m : mxml_value -> bool) (descend : mxml_descend_t) (top node : Z) (hp : heap) : outcome Z :=
  if node =? NULL then Ret NULL else
  match fuel with
  | O => UB
  | S fuel =>
      n ← deref (hp !! node);
      if m (value n) then Ret node else
      nx ← (match descend with MXML_DESCEND_ALL => mxmlWalkNext node top MXML_DESCEND_ALL hp | _ => Ret (next n) end);
      find_loop fuel m descend top nx hp
  end.
Definition mxmlFindElement (node top : Z) (element attr v : option cstr) (descend : mxml_descend_t) (hp : heap) : outcome Z :=
  if (node =? NULL) || (top =? NULL) || (bool_decide (attr = None) && bool_decide (is_Some v)) then Ret NULL else
  node ← mxmlWalkNext node top descend hp;
  find_loop (size hp) (element_matches element attr v) descend top node hp.

(** [strchr(path, '/')]: what comes before the first slash and the rest from it on. *)
Fixpoint to_slash (path : cstr) : cstr * cstr :=
  match path with
  | [] => ([], [])
  | c :: path' => if c =? 47 then ([], path) else let '(e, r) := to_slash path' in (c :: e, r)
  end.
(** The loop of [mxmlFindPath] (fuel: the length of the path, one element a turn) and the
    choice of its result. *)
Fixpoint find_path_loop (fuel : nat) (node : Z) (path : cstr) (hp : heap) : outcome Z :=
  match path, fuel with
  | [], _ => Ret node
  | _, O => UB
  | _, S fuel =>
      let '(path, descend) := match path with 42 :: 47 :: p => (p, MXML_DESCEND_ALL) | _ => (path, MXML_DESCEND_FIRST) end in
      let '(element, pathsep) := to_slash path in
      if (length element =? 0)%nat || (256 <=? length element)%nat then Ret NULL else
      let path := match pathsep with _ :: p => p | [] => [] end in
      node ← mxmlFindElement node node (Some element) None None descend hp;
      if node =? NULL then Ret NULL else find_path_loop fuel node path hp
  end.
Definition path_result (node : Z) (hp : heap) : outcome Z :=
  n ← deref (hp !! node);
  if child n =? NULL then Ret node else
  c ← deref (hp !! child n);
  Ret (match value c with XElement _ _ => node | _ => child n end).
Definition mxmlFindPath (top : Z) (path : cstr) (hp : heap) : outcome Z :=
  if top =? NULL then Ret NULL else
  match path with
  | [] => Ret NULL
  | _ => node ← find_path_loop (length path) top path hp; if node =? NULL then Ret NULL else path_result node hp
  end.

(** ** Children *)

(** The children of [p], in order. *)
Definition kids (hp : heap) (p : Z) (addrs : list Z) : Prop :=
  exists n, hp !! p = Some n /\ NoDup (p :: addrs) /\ dseg hp NULL (child n) addrs NULL (last_child n) /\
    forall a m, a ∈ addrs -> hp !! a = Some m -> parent m = p.

(** What a change of links keeps. *)
Definition contents (n : mxml_node_t) : mxml_value * Z := (value n, parent n).

Lemma store_contents f a (hp hp' : heap) : (forall n, contents (f n) = contents n) -> store f a hp = Ret hp' ->
  forall x, contents <$> hp' !! x = contents <$> hp !! x.
Proof. apply store_payload. Qed.

Lemma contents_value (o o' : option mxml_node_t) : contents <$> o = contents <$> o' -> value <$> o = value <$> o'.
Proof. destruct o, o'; cbn; intros E; try done. by injection E as -> _. Qed.

Lemma negb_null_ne a : a <> NULL -> negb (a =? NULL) = true.
Proof. intros. apply negb_true_iff. by apply Z.eqb_neq. Qed.

(** Joining what comes before a node with what follows it. *)
Lemma remove_before hp p pn n (l1 : list Z) a :
  hp !! p = Some pn -> NoDup l1 -> ~ (p ∈ l1) -> dseg hp NULL (child pn) l1 a (prev n) ->
  exists hp1 pn1, (if negb (prev n =? NULL) then store (set_next (next n)) (prev n) hp else store (set_child (next n)) p hp) = Ret hp1 /\
    hp1 !! p = Some pn1 /\ last_child pn1 = last_child pn /\ dseg hp1 NULL (child pn1) l1 (next n) (prev n) /\
    (forall x, ~ (x ∈ p :: l1) -> hp1 !! x = hp !! x) /\ (forall x, contents <$> hp1 !! x = contents <$> hp !! x).
Proof.
  intros Ep Hnd Hp Hd. destruct (decide (l1 = [])) as [->|Hne].
  - destruct Hd as [_ Hpr]. rewrite <- Hpr. cbn [Z.eqb negb NULL]. rewrite (store_eq _ _ _ pn) by done.
    exists (<[p := set_child (next n) pn]> hp), (set_child (next n) pn). rewrite lookup_insert_eq. split_and!; [done..| |].
    + intros x Hx. rewrite lookup_insert_ne; [done|set_solver].
    + eapply store_contents; [|by apply store_eq]. done.
  - pose proof (dseg_last_in _ _ _ _ _ _ Hd Hne) as Hin. destruct (dseg_nonnull _ _ _ _ _ _ _ Hd Hin) as [H0 _].
    destruct (dseg_set_end _ _ _ _ _ _ (next n) Hd Hnd Hne) as (np & Enp & _ & Hs).
    rewrite negb_null_ne by done. rewrite (store_eq _ _ _ np) by done.
    eexists _, pn. split; [done|]. rewrite lookup_insert_ne by (intros E; rewrite E in Hin; done). split_and!; [done..| |].
    + intros x Hx. rewrite lookup_insert_ne; [done|set_solver].
    + eapply store_contents; [|by apply store_eq]. done.
Qed.
Lemma remove_after hp p pn n (l2 : list Z) a :
  hp !! p = Some pn -> NoDup l2 -> ~ (p ∈ l2) -> dseg hp a (next n) l2 NULL (last_child pn) -> last_child pn = default a (last l2) ->
  exists hp1 pn1, (if negb (next n =? NULL) then store (set_prev (prev n)) (next n) hp else store (set_last (prev n)) p hp) = Ret hp1 /\
    hp1 !! p = Some pn1 /\ child pn1 = child pn /\ dseg hp1 (prev n) (next n) l2 NULL (last_child pn1) /\
    (forall x, ~ (x ∈ p :: l2) -> hp1 !! x = hp !! x) /\ (forall x, contents <$> hp1 !! x = contents <$> hp !! x).
Proof.
  intros Ep Hnd Hp Hd Hl. destruct (decide (l2 = [])) as [->|Hne].
  - assert (next n = NULL) as Hnx by (by destruct Hd). rewrite Hnx. cbn [Z.eqb negb NULL]. rewrite (store_eq _ _ _ pn) by done.
    exists (<[p := set_last (prev n) pn]> hp), (set_last (prev n) pn). rewrite lookup_insert_eq. split_and!; [done..| |].
    + intros x Hx. rewrite lookup_insert_ne; [done|set_solver].
    + eapply store_contents; [|by apply store_eq]. done.
  - destruct (dseg_set_begin _ _ _ _ _ _ (prev n) Hd Hnd Hne) as (nn & En & Hin & Hs).
    destruct (dseg_nonnull _ _ _ _ _ _ _ Hd Hin) as [H0 _].
    rewrite negb_null_ne by done. rewrite (store_eq _ _ _ nn) by done.
    eexists _, pn. split; [done|]. rewrite lookup_insert_ne by (intros E; rewrite E in Hin; done). split_and!; [done..| |].
    + intros x Hx. rewrite lookup_insert_ne; [done|]. intros E. apply Hx. rewrite <- E. by right.
    + eapply store_contents; [|by apply store_eq]. done.
Qed.

Lemma mxmlRemove_spec hp p l1 a l2 n : p <> NULL -> kids hp p (l1 ++ a :: l2) -> hp !! a = Some n ->
  exists hp', mxmlRemove a hp = Ret hp' /\ kids hp' p (l1 ++ l2) /\
    hp' !! a = Some (set_next NULL (set_prev NULL (set_parent NULL n))) /\
    (forall x, ~ (x ∈ p :: l1 ++ a :: l2) -> hp' !! x = hp !! x) /\ (forall x, value <$> hp' !! x = value <$> hp !! x).
Proof.
  intros Hp0 (pn & Ep & Hnd & Hd & Hpar) Ea. pose proof (Hpar a n ltac:(set_solver) Ea) as Epar.
  apply dseg_app in Hd as (m & la & Hd1 & (-> & Ha0 & n' & E' & Hpr & Hd2)). rewrite Ea in E'. injection E' as <-. subst la.
  apply NoDup_cons in Hnd as [Hpl Hnd]. apply NoDup_app in Hnd as (Hnd1 & Hdis & [Hna2 Hnd2]%NoDup_cons).
  assert (~ (a ∈ l1)) as Hna1 by set_solver. assert (a <> p) as Hap by set_solver.
  unfold mxmlRemove. destruct (Z.eqb_spec a NULL) as [|_]; [done|]. rewrite Ea. cbn [deref mbind outcome_bind].
  rewrite Epar. destruct (Z.eqb_spec p NULL) as [|_]; [done|].
  destruct (remove_before hp p pn n l1 a Ep Hnd1 ltac:(set_solver) Hd1) as (hp1 & pn1 & -> & Ep1 & El1 & Hs1 & Hf1 & Hc1).
  cbn [mbind outcome_bind]. rewrite Hf1, Ea by set_solver. cbn [deref mbind outcome_bind]. rewrite Epar.
  assert (dseg hp1 a (next n) l2 NULL (last_child pn1)) as Hd2'.
  { rewrite El1. eapply dseg_frame; [exact Hd2|]. intros b Hb. apply Hf1. set_solver. }
  destruct (remove_after hp1 p pn1 n l2 a Ep1 Hnd2 ltac:(set_solver) Hd2' ltac:(by apply dseg_last in Hd2')) as (hp2 & pn2 & -> & Ep2 & Ec2 & Hs2 & Hf2 & Hc2).
  cbn [mbind outcome_bind]. rewrite (store_eq _ _ _ n) by (by rewrite Hf2, Hf1 by set_solver).
  eexists. split; [done|]. split_and!.
  - exists pn2. rewrite lookup_insert_ne by done. split; [done|]. split; [apply NoDup_cons; split; [set_solver|apply NoDup_app; set_solver]|]. split.
    + apply dseg_app. exists (next n), (prev n). rewrite Ec2. split; (eapply dseg_frame; [eassumption|]); intros b Hb.
      * rewrite lookup_insert_ne by set_solver. apply Hf2. set_solver.
      * by rewrite lookup_insert_ne by set_solver.
    + intros b mb Hb. rewrite lookup_insert_ne by set_solver. intros Eb. pose proof (Hc2 b) as H2. rewrite Hc1, Eb in H2.
      symmetry in H2. apply fmap_Some in H2 as (b0 & Eb0 & [= _ ->]). apply (Hpar b); [set_solver|done].
  - by rewrite lookup_insert_eq.
  - intros x Hx. rewrite lookup_insert_ne by set_solver. rewrite Hf2, Hf1 by set_solver. done.
  - intros x. destruct (decide (x = a)) as [->|]; [by rewrite lookup_insert_eq, Ea|]. rewrite lookup_insert_ne by done.
    apply contents_value. by rewrite Hc2.
Qed.

(** A new node becomes the last child. *)
Lemma new_node_spec hp p l new v0 v : p <> NULL -> kids hp p l -> new <> NULL -> hp !! new = None ->
  exists hp' n', new_node new p v0 v hp = Ret (new, hp') /\ kids hp' p (l ++ [new]) /\
    hp' !! new = Some n' /\ value n' = v /\ child n' = NULL /\
    (forall x, ~ (x ∈ new :: p :: l) -> hp' !! x = hp !! x) /\ (forall x, x <> new -> value <$> hp' !! x = value <$> hp !! x).
Proof.
  intros Hp0 (pn & Ep & Hnd & Hd & Hpar) Hn0 En. apply NoDup_cons in Hnd as [Hpl Hnd].
  assert (~ (new ∈ l)) as Hnl by (intros Hin; destruct (dseg_nonnull _ _ _ _ _ _ _ Hd Hin) as [_ [? ?]]; congruence).
  assert (new <> p) as Hnp by congruence.
  unfold new_node, mxml_new, mxmlAdd_after. rewrite (proj2 (Z.eqb_neq new NULL)) by done. rewrite (proj2 (Z.eqb_neq p NULL)) by done.
  cbn [orb negb]. rewrite lookup_insert_eq. cbn [deref mbind outcome_bind parent]. change (negb (NULL =? NULL)) with false. cbn [mbind outcome_bind].
  rewrite (store_eq _ _ _ _ (lookup_insert_eq _ _ _)). cbn [mbind outcome_bind]. rewrite insert_insert_eq, lookup_insert_ne, Ep by done. cbn [deref mbind outcome_bind].
  rewrite (store_eq _ _ _ _ (lookup_insert_eq _ _ _)). cbn [mbind outcome_bind]. rewrite insert_insert_eq.
  set (nn := set_prev (last_child pn) _). set (hp1 := <[new := nn]> hp).
  assert (dseg hp1 NULL (child pn) l NULL (last_child pn)) as Hd1.
  { eapply dseg_frame; [exact Hd|]. intros b Hb. unfold hp1. rewrite lookup_insert_ne; [done|set_solver]. }
  assert (hp1 !! p = Some pn) as Ep1 by (unfold hp1; by rewrite lookup_insert_ne).
  assert (hp1 !! new = Some nn) as En1 by (unfold hp1; by rewrite lookup_insert_eq).
  assert (exists hp2 pn2, (if negb (last_child pn =? NULL) then store (set_next new) (last_child pn) hp1 else store (set_child new) p hp1) = Ret hp2 /\
    hp2 !! p = Some pn2 /\ hp2 !! new = Some nn /\ dseg hp2 NULL (child pn2) l new (last_child pn) /\
    (forall x, ~ (x ∈ p :: l) -> hp2 !! x = hp1 !! x) /\ (forall x, contents <$> hp2 !! x = contents <$> hp1 !! x)) as (hp2 & pn2 & -> & Ep2 & En2 & Hd2 & Hf2 & Hc2).
  { destruct (decide (l = [])) as [->|Hne].
    - destruct Hd1 as [_ Hl]. rewrite <- Hl. change (negb (NULL =? NULL)) with false. cbv iota. rewrite (store_eq _ _ _ pn) by done.
      eexists _, (set_child new pn). split; [done|]. rewrite lookup_insert_eq, lookup_insert_ne by done.
      split_and!; [done..| |]; [intros x Hx; rewrite lookup_insert_ne; [done|set_solver]|]. eapply store_contents; [|by apply store_eq]. done.
    - pose proof (dseg_last_in _ _ _ _ _ _ Hd1 Hne) as Hin. destruct (dseg_nonnull _ _ _ _ _ _ _ Hd1 Hin) as [H0 _].
      destruct (dseg_set_end _ _ _ _ _ _ new Hd1 Hnd Hne) as (np & Enp & _ & Hs). rewrite negb_null_ne by done. rewrite (store_eq _ _ _ np) by done.
      eexists _, pn. split; [done|]. rewrite !lookup_insert_ne by set_solver.
      split_and!; [done..| |]; [intros x Hx; rewrite lookup_insert_ne; [done|set_solver]|]. eapply store_contents; [|by apply store_eq]. done. }
  cbn [mbind outcome_bind]. rewrite (store_eq _ _ _ pn2) by done. cbn [mbind outcome_bind]. rewrite (proj2 (Z.eqb_neq new NULL)) by done.
  rewrite (store_eq _ _ _ nn) by (by rewrite lookup_insert_ne). cbn [mbind outcome_bind].
  eexists _, (set_value v nn). split; [done|]. split_and!; [|by rewrite lookup_insert_eq|done|done| |].
  - exists (set_last new pn2). rewrite lookup_insert_ne, lookup_insert_eq by done. split; [done|]. split; [rewrite NoDup_cons, NoDup_app; set_solver by apply NoDup_singleton|].
    split.
    + apply dseg_app. exists new, (last_child pn). split.
      * eapply dseg_frame; [exact Hd2|]. intros b Hb. rewrite !lookup_insert_ne; [done|set_solver..].
      * split; [done|]. split; [done|]. exists (set_value v nn). by rewrite lookup_insert_eq.
    + intros b m Hb. destruct (decide (b = new)) as [->|]; [rewrite lookup_insert_eq; by intros [= <-]|].
      rewrite lookup_insert_ne, lookup_insert_ne by set_solver. intros Eb. pose proof (Hc2 b) as H2. unfold hp1 in H2. rewrite lookup_insert_ne, Eb in H2 by done.
      symmetry in H2. apply fmap_Some in H2 as (b0 & Eb0 & [= _ ->]). apply (Hpar b); [set_solver|done].
  - intros x Hx. rewrite !lookup_insert_ne, Hf2 by set_solver. unfold hp1. by rewrite lookup_insert_ne by set_solver.
  - intros x Hx. rewrite lookup_insert_ne by done. transitivity (value <$> hp2 !! x).
    + destruct (decide (x = p)) as [->|]; [by rewrite lookup_insert_eq, Ep2|by rewrite lookup_insert_ne].
    + apply contents_value. rewrite Hc2. unfold hp1. by rewrite lookup_insert_ne.
Qed.

(** ** Descendants *)

(** The nodes from [c] on, children of [p], with all their descendants: [l] are their
    addresses in document order. *)
Inductive forest (hp : heap) : Z -> Z -> list Z -> Prop :=
  | forest_nil p : forest hp p NULL []
  | forest_cons p a n cs ns : a <> NULL -> hp !! a = Some n -> parent n = p ->
      forest hp a (child n) cs -> forest hp p (next n) ns -> forest hp p a (a :: cs ++ ns).

Lemma forest_frame hp hp' p c l : forest hp p c l -> (forall a, a ∈ l -> hp' !! a = hp !! a) -> forest hp' p c l.
Proof.
  induction 1 as [|p a n cs ns Ha E Hp _ IH1 _ IH2]; intros Hf; [constructor|].
  apply (forest_cons _ _ _ n); [done|rewrite Hf; [done|set_solver]|done|apply IH1; set_solver|apply IH2; set_solver].
Qed.
Lemma forest_nil_inv hp p c l : forest hp p c l -> l = [] <-> c = NULL.
Proof. by destruct 1. Qed.
Lemma forest_dom hp p c l a : forest hp p c l -> a ∈ l -> is_Some (hp !! a).
Proof. induction 1; set_solver. Qed.
Lemma forest_length hp p c l : forest hp p c l -> NoDup l -> (length l <= size hp)%nat.
Proof.
  intros Hf Hnd. rewrite <- size_dom. replace (length l) with (size (list_to_set l : gset Z)) by (by apply size_list_to_set).
  apply subseteq_size. intros x. rewrite elem_of_list_to_set. intros Hx. apply elem_of_dom. by eapply forest_dom.
Qed.

(** The heap without the nodes of [l]. *)
Definition freed (l : list Z) (hp : heap) : heap := foldr delete hp l.
Lemma lookup_freed l hp x : freed l hp !! x = if decide (x ∈ l) then None else hp !! x.
Proof.
  induction l as [|a l IH]; [done|]. cbn [freed foldr]. destruct (decide (x = a)) as [->|].
  - rewrite lookup_delete_eq, decide_True by set_solver. done.
  - rewrite lookup_delete_ne by done. unfold freed in IH. rewrite IH. destruct (decide (x ∈ l)), (decide (x ∈ a :: l)); set_solver.
Qed.

Lemma delete_loop_mono node fuel fuel' c hp r : (fuel <= fuel')%nat -> delete_loop fuel node c hp = Ret r -> delete_loop fuel' node c hp = Ret r.
Proof.
  revert fuel' c hp. induction fuel as [|fuel IH]; intros [|fuel'] c hp Hle; cbn [delete_loop]; try done; try lia; case_match; try done.
  destruct (hp !! c) as [n|]; cbn [deref mbind outcome_bind]; [|done]. case_match; apply IH; lia.
Qed.

(** The loop frees a whole row of siblings with their descendants and goes on at their
    parent: first for the row after a node without children. *)
Definition up (node p : Z) : Z := if p =? node then NULL else p.
Definition frees_row (node : Z) (l : list Z) : Prop := forall hp p c, forest hp p c l -> ~ (p ∈ l) -> l <> [] ->
  forall k r, delete_loop k node (up node p) (freed l hp) = Ret r -> delete_loop (2 * length l + k) node c hp = Ret r.

Lemma delete_loop_leaf node hp p a m ns k r : frees_row node ns -> ~ (a ∈ ns) -> ~ (p ∈ ns) -> a <> NULL ->
  hp !! a = Some m -> child m = NULL -> parent m = p -> forest hp p (next m) ns ->
  delete_loop k node (up node p) (freed (a :: ns) hp) = Ret r -> delete_loop (S (2 * length ns + k)) node a hp = Ret r.
Proof.
  intros Hrow Ha Hp Ha0 E Hc Hpar Hf Hk. cbn [delete_loop]. rewrite (proj2 (Z.eqb_neq a NULL)) by done. rewrite E. cbn [deref mbind outcome_bind].
  rewrite Hc. change (negb (NULL =? NULL)) with false. cbv iota.
  assert (freed (a :: ns) hp = freed ns (delete a hp)) as Efr.
  { apply map_eq. intros x. rewrite !lookup_freed. destruct (decide (x = a)) as [->|]; [rewrite lookup_delete_eq|rewrite lookup_delete_ne by done];
      repeat case_decide; set_solver. }
  destruct (decide (ns = [])) as [->|Hne].
  - rewrite (proj1 (forest_nil_inv _ _ _ _ Hf) eq_refl). change (NULL =? NULL) with true. rewrite Hpar. done.
  - destruct (Z.eqb_spec (next m) NULL) as [Hn|_]; [by apply (forest_nil_inv _ _ _ _ Hf) in Hn|].
    apply (Hrow (delete a hp) p); [|done..|by rewrite <- Efr].
    eapply forest_frame; [done|]. intros b Hb. rewrite lookup_delete_ne; [done|set_solver].
Qed.

Lemma delete_loop_forest node l : NoDup l -> ~ (node ∈ l) -> frees_row node l.
Proof.
  induction l as [l IH] using (induction_ltof1 _ length). intros Hnd Hno hp p c Hf Hp Hne k r Hk.
  destruct Hf as [|p a n cs ns Ha E Hpar Hcs Hns]; [done|].
  apply NoDup_cons in Hnd as [Hna (Hndc & Hdis & Hndn)%NoDup_app].
  assert (frees_row node cs /\ frees_row node ns) as [IHc IHn] by (split; apply IH; unfold ltof; cbn; rewrite ?length_app; done || lia || set_solver).
  cbn [length]. rewrite length_app. destruct (decide (cs = [])) as [->|Hcne].
  - apply (delete_loop_mono _ (S (2 * length ns + k))); [cbn; lia|].
    apply (delete_loop_leaf node hp p a n ns); [done|set_solver|set_solver|done|done| |done|done|done]. by apply (forest_nil_inv _ _ _ _ Hcs).
  - replace (2 * S (length cs + length ns) + k)%nat with (S (2 * length cs + S (2 * length ns + k)))%nat by lia.
    cbn [delete_loop]. rewrite (proj2 (Z.eqb_neq a NULL)) by done. rewrite E. cbn [deref mbind outcome_bind].
    rewrite negb_null_ne by (intros Hn; by apply (forest_nil_inv _ _ _ _ Hcs) in Hn).
    apply (IHc (<[a := set_child NULL n]> hp) a); [|set_solver|done|].
    + eapply forest_frame; [done|]. intros b Hb. rewrite lookup_insert_ne; [done|set_solver].
    + unfold up at 1. rewrite (proj2 (Z.eqb_neq a node)) by set_solver.
      apply (delete_loop_leaf node _ p a (set_child NULL n) ns); [done|set_solver|set_solver|done| |done|done| |].
      * rewrite lookup_freed, decide_False by set_solver. by rewrite lookup_insert_eq.
      * eapply forest_frame; [done|]. intros b Hb. rewrite lookup_freed, decide_False by set_solver. rewrite lookup_insert_ne; [done|set_solver].
      * match goal with |- delete_loop _ _ _ ?h = _ => replace h with (freed (a :: cs ++ ns) hp); [done|] end.
        apply map_eq. intros x. rewrite !lookup_freed. destruct (decide (x = a)) as [->|]; [rewrite lookup_insert_eq|rewrite lookup_insert_ne by done];
          repeat case_decide; set_solver.
Qed.

(** Deleting a node without parent frees it and its descendants, and nothing else. *)
Lemma delete_root hp a n l : a <> NULL -> hp !! a = Some n -> parent n = NULL -> forest hp a (child n) l -> NoDup (a :: l) ->
  mxmlDelete a hp = Ret (freed (a :: l) hp).
Proof.
  intros Ha E Hpar Hf [Hal Hnd]%NoDup_cons. unfold mxmlDelete, mxmlRemove. rewrite (proj2 (Z.eqb_neq a NULL)) by done. rewrite E. cbn [deref mbind outcome_bind].
  rewrite Hpar. change (NULL =? NULL) with true. cbn [mbind outcome_bind]. rewrite E. cbn [deref mbind outcome_bind].
  assert (delete_loop (2 * size hp) a (child n) hp = Ret (freed l hp)) as ->.
  { destruct (decide (l = [])) as [->|Hne].
    - rewrite (proj1 (forest_nil_inv _ _ _ _ Hf) eq_refl). by destruct (2 * size hp)%nat.
    - pose proof (forest_length _ _ _ _ Hf Hnd). apply (delete_loop_mono _ (2 * length l + 0)); [lia|].
      apply (delete_loop_forest a l Hnd Hal hp a); [done..|]. unfold up. by rewrite Z.eqb_refl. }
  cbn [mbind outcome_bind]. rewrite lookup_freed, decide_False, E by done. done.
Qed.
(** ** The search *)

(** The first node of [l] that matches. *)
Fixpoint first_match (hp : heap) (m : mxml_value -> bool) (l : list Z) : option Z :=
  match l with
  | [] => None
  | a :: l => if match hp !! a with Some n => m (value n) | None => false end then Some a else first_match hp m l
  end.
Lemma first_match_app hp m l1 l2 : first_match hp m (l1 ++ l2) = match first_match hp m l1 with Some a => Some a | None => first_match hp m l2 end.
Proof. induction l1 as [|a l1 IH]; [done|]. cbn [app first_match]. by repeat case_match. Qed.

Lemma first_match_in hp m l a : first_match hp m l = Some a -> a ∈ l.
Proof.
  induction l as [|b l IH]; [done|]. cbn [first_match]. destruct (match hp !! b with Some n => m (value n) | None => false end); [|intros; right; by apply IH].
  intros [= ->]. by left.
Qed.

(** Where the walk goes when the children of [p] are done, [d] levels up at most. *)
Inductive after (hp : heap) (top : Z) : nat -> Z -> Z -> Prop :=
  | after_top d : after hp top d top NULL
  | after_next d p n : p <> top -> hp !! p = Some n -> next n <> NULL -> after hp top (S d) p (next n)
  | after_up d p n z : p <> top -> hp !! p = Some n -> next n = NULL -> parent n <> NULL -> after hp top d (parent n) z -> after hp top (S d) p z.

Lemma climb_after hp top d p z fuel : after hp top d p z -> p <> top -> (d <= fuel)%nat -> climb fuel top p hp = Ret z.
Proof.
  intros Ha. revert fuel. induction Ha as [|d p n Hp E Hn|d p n z Hp E Hn Hpar Ha IH]; intros fuel Ht Hd; [done|..];
    (destruct fuel as [|fuel]; [lia|]); cbn [climb]; rewrite E; cbn [deref mbind outcome_bind].
  - by rewrite negb_null_ne.
  - rewrite Hn. change (negb (NULL =? NULL)) with false. cbv iota. rewrite (proj2 (Z.eqb_neq (parent n) NULL)) by done. rewrite orb_false_r.
    destruct (Z.eqb_spec (parent n) top) as [Et|Et]; [|by apply IH; [|lia]]. rewrite Et in Ha. by inversion Ha.
Qed.

Lemma walk_leaf hp top d p a n z : a <> NULL -> a <> top -> p <> NULL -> hp !! a = Some n -> parent n = p -> child n = NULL -> next n = NULL ->
  after hp top d p z -> (d <= size hp)%nat -> mxmlWalkNext a top MXML_DESCEND_ALL hp = Ret z.
Proof.
  intros Ha Hat Hp E Hpar Hc Hn Haf Hd. unfold mxmlWalkNext. rewrite (proj2 (Z.eqb_neq a NULL)), (proj2 (Z.eqb_neq a top)) by done.
  rewrite E. cbn [deref mbind outcome_bind]. rewrite Hc, Hn, Hpar, (negb_null_ne p) by done. change (negb (NULL =? NULL)) with false. cbn [andb].
  destruct (Z.eqb_spec p top) as [->|Hpt]; [by inversion Haf|]. by eapply climb_after.
Qed.
Lemma walk_child hp top a n : a <> NULL -> hp !! a = Some n -> child n <> NULL -> mxmlWalkNext a top MXML_DESCEND_ALL hp = Ret (child n).
Proof. intros Ha E Hc. unfold mxmlWalkNext. rewrite (proj2 (Z.eqb_neq a NULL)) by done. rewrite E. cbn [deref mbind outcome_bind]. by rewrite negb_null_ne. Qed.
Lemma walk_next hp top a n : a <> NULL -> a <> top -> hp !! a = Some n -> child n = NULL -> next n <> NULL -> mxmlWalkNext a top MXML_DESCEND_ALL hp = Ret (next n).
Proof.
  intros Ha Ht E Hc Hn. unfold mxmlWalkNext. rewrite (proj2 (Z.eqb_neq a NULL)), (proj2 (Z.eqb_neq a top)) by done. rewrite E. cbn [deref mbind outcome_bind].
  rewrite Hc. by rewrite (negb_null_ne (next n)).
Qed.

Lemma find_loop_null k m d top hp : find_loop k m d top NULL hp = Ret NULL.
Proof. by destruct k. Qed.

Lemma find_loop_forest hp m top p c l : forest hp p c l -> ~ (top ∈ l) -> p <> NULL -> l <> [] -> forall d z k,
  after hp top d p z -> (d + length l <= size hp)%nat ->
  find_loop (length l + k) m MXML_DESCEND_ALL top c hp = match first_match hp m l with Some a => Ret a | None => find_loop k m MXML_DESCEND_ALL top z hp end.
Proof.
  induction 1 as [|p a n cs ns Ha E Hpar Hcs IHc Hns IHn]; intros Ht Hp Hne d z k Haf Hd; [done|]. clear Hne.
  cbn [length app] in *. rewrite length_app in *. cbn [Nat.add find_loop first_match]. rewrite (proj2 (Z.eqb_neq a NULL)) by done.
  rewrite E. cbn [deref mbind outcome_bind]. destruct (m (value n)); [done|]. rewrite first_match_app, <- Nat.add_assoc.
  (* after the children of [a] *)
  assert (exists z', after hp top (S d) a z' /\ find_loop (length ns + k) m MXML_DESCEND_ALL top z' hp =
    match first_match hp m ns with Some a => Ret a | None => find_loop k m MXML_DESCEND_ALL top z hp end /\
    (child n = NULL -> mxmlWalkNext a top MXML_DESCEND_ALL hp = Ret z')) as (z' & Haf' & Hz' & Hw').
  { destruct (decide (next n = NULL)) as [Hn|Hn].
    - exists z. split; [apply (after_up _ _ _ _ n); [set_solver|done|done|by rewrite Hpar|by rewrite Hpar]|].
      apply (forest_nil_inv _ _ _ _ Hns) in Hn as Hnil. rewrite Hnil. split; [done|]. intros Hc. eapply (walk_leaf hp top d p); try done; [set_solver|lia].
    - exists (next n). split; [by apply after_next; [set_solver|..]|]. split; [|intros Hc; apply walk_next; [done|set_solver|done..]].
      apply IHn with (d := d); [set_solver|done| |done|lia]. intros Hnil. apply Hn. by apply (forest_nil_inv _ _ _ _ Hns). }
  destruct (decide (child n = NULL)) as [Hc|Hc].
  - rewrite (Hw' Hc). cbn [mbind outcome_bind]. apply (forest_nil_inv _ _ _ _ Hcs) in Hc. rewrite Hc. exact Hz'.
  - rewrite (walk_child hp top a n) by done. cbn [mbind outcome_bind].
    rewrite (IHc ltac:(set_solver) Ha ltac:(intros Hnil; apply Hc; by apply (forest_nil_inv _ _ _ _ Hcs)) (S d) z') by (done || lia).
    by destruct (first_match hp m cs).
Qed.

(** Among siblings. *)
Lemma find_loop_kids hp m top d pr c l lst k : dseg hp pr c l NULL lst -> d <> MXML_DESCEND_ALL ->
  find_loop (length l + k) m d top c hp = match first_match hp m l with Some a => Ret a | None => Ret NULL end.
Proof.
  intros Hd Hnd. revert pr c Hd. induction l as [|a l IH]; intros pr c; cbn [dseg].
  - intros [-> _]. apply find_loop_null.
  - intros (-> & Ha & n & E & _ & Hd). cbn [length Nat.add find_loop first_match]. rewrite (proj2 (Z.eqb_neq a NULL)) by done.
    rewrite E. cbn [deref mbind outcome_bind]. destruct (m (value n)); [done|]. destruct d; [|done|]; cbn [mbind outcome_bind]; by eapply IH.
Qed.
Lemma kids_length hp p l : kids hp p l -> (length l <= size hp)%nat.
Proof.
  intros (n & _ & [_ Hnd]%NoDup_cons & Hd & _). rewrite <- size_dom. replace (length l) with (size (list_to_set l : gset Z)) by (by apply size_list_to_set).
  apply subseteq_size. intros x. rewrite elem_of_list_to_set. intros Hx. apply elem_of_dom. by apply (dseg_nonnull _ _ _ _ _ _ _ Hd).
Qed.

(** The search below a node: its descendants in document order, or its children. *)
Lemma mxmlFindElement_all hp top n l element attr v : top <> NULL -> hp !! top = Some n -> forest hp top (child n) l -> NoDup l -> ~ (top ∈ l) ->
  (attr = None -> v = None) ->
  mxmlFindElement top top element attr v MXML_DESCEND_ALL hp = Ret (default NULL (first_match hp (element_matches element attr v) l)).
Proof.
  intros Ht E Hf Hnd Htl Hav. unfold mxmlFindElement. rewrite (proj2 (Z.eqb_neq top NULL)) by done.
  assert (bool_decide (attr = None) && bool_decide (is_Some v) = false) as ->.
  { destruct attr; [done|]. rewrite Hav by done. done. }
  cbn [orb]. destruct (decide (child n = NULL)) as [Hc|Hc].
  - unfold mxmlWalkNext. rewrite (proj2 (Z.eqb_neq top NULL)), Z.eqb_refl by done. rewrite E. cbn [deref mbind outcome_bind]. rewrite Hc.
    change (negb (NULL =? NULL)) with false. cbn [andb mbind outcome_bind]. rewrite find_loop_null. apply (forest_nil_inv _ _ _ _ Hf) in Hc. by rewrite Hc.
  - rewrite (walk_child hp top top n) by done. cbn [mbind outcome_bind]. pose proof (forest_length _ _ _ _ Hf Hnd).
    replace (size hp) with (length l + (size hp - length l))%nat by lia.
    rewrite (find_loop_forest _ _ _ _ _ _ Hf Htl Ht) with (d := 0%nat) (z := NULL); [|intros Hnil; apply Hc; by apply (forest_nil_inv _ _ _ _ Hf)|constructor|lia].
    case_match; [done|]. apply find_loop_null.
Qed.
Lemma mxmlFindElement_first hp top l element attr v : top <> NULL -> kids hp top l -> (attr = None -> v = None) ->
  mxmlFindElement top top element attr v MXML_DESCEND_FIRST hp = Ret (default NULL (first_match hp (element_matches element attr v) l)).
Proof.
  intros Ht Hk Hav. pose proof (kids_length _ _ _ Hk). destruct Hk as (n & E & _ & Hd & _). unfold mxmlFindElement. rewrite (proj2 (Z.eqb_neq top NULL)) by done.
  assert (bool_decide (attr = None) && bool_decide (is_Some v) = false) as ->.
  { destruct attr; [done|]. rewrite Hav by done. done. }
  cbn [orb]. assert (mxmlWalkNext top top MXML_DESCEND_FIRST hp = Ret (child n)) as ->.
  { unfold mxmlWalkNext. rewrite (proj2 (Z.eqb_neq top NULL)), Z.eqb_refl by done. rewrite E. cbn [deref mbind outcome_bind].
    destruct (Z.eqb_spec (child n) NULL) as [->|]; done. }
  cbn [mbind outcome_bind]. replace (size hp) with (length l + (size hp - length l))%nat by lia.
  rewrite (find_loop_kids _ _ _ _ _ _ _ _ _ Hd) by done. by case_match.
Qed.

(** ** Paths *)

(** Names joined by slashes. *)
Fixpoint join (names : list cstr) : cstr :=
  match names with [] => [] | [e] => e | e :: names => e ++ 47 :: join names end.
(** A name that stands for itself in a path. *)
Definition plain (e : cstr) : Prop := e <> [] /\ (length e < 256)%nat /\ ~ (47 ∈ e) /\ e <> [42].
(** Each name is the name of the first child that has it. *)
Inductive path_to (hp : heap) : Z -> list cstr -> Z -> Prop :=
  | path_here a : path_to hp a [] a
  | path_child a l e b names c : a <> NULL -> kids hp a l -> first_match hp (element_matches (Some e) None None) l = Some b ->
      path_to hp b names c -> path_to hp a (e :: names) c.

Lemma to_slash_plain e r : ~ (47 ∈ e) -> to_slash (e ++ 47 :: r) = (e, 47 :: r) /\ to_slash e = (e, []).
Proof.
  induction e as [|c e IH]; [done|]. intros Hc. cbn [app to_slash]. rewrite (proj2 (Z.eqb_neq c 47)) by set_solver.
  destruct IH as [-> ->]; [set_solver|done].
Qed.
(** A plain first name is no wildcard. *)
Lemma no_wildcard {A} e r (f : cstr -> A) x : plain e -> match e ++ 47 :: r with 42 :: 47 :: p => f p | _ => x end = x /\ match e with 42 :: 47 :: p => f p | _ => x end = x.
Proof.
  intros (Hne & _ & Hs & Hstar). destruct e as [|c e]; [done|]. cbn [app].
  destruct (decide (c = 42)) as [->|]; [|by split; repeat case_match]. destruct e as [|c' e]; [done|]. cbn [app].
  assert (c' <> 47) by set_solver. by split; repeat case_match.
Qed.
Lemma find_path_step fuel a path hp : path <> [] -> find_path_loop (S fuel) a path hp =
  let '(path, descend) := match path with 42 :: 47 :: p => (p, MXML_DESCEND_ALL) | _ => (path, MXML_DESCEND_FIRST) end in
  let '(element, pathsep) := to_slash path in
  if (length element =? 0)%nat || (256 <=? length element)%nat then Ret NULL else
  let path := match pathsep with _ :: p => p | [] => [] end in
  node ← mxmlFindElement a a (Some element) None None descend hp;
  if node =? NULL then Ret NULL else find_path_loop fuel node path hp.
Proof. by destruct path. Qed.

Lemma find_path_loop_names hp a names c : path_to hp a names c -> Forall plain names -> forall fuel, (length names <= fuel)%nat ->
  find_path_loop fuel a (join names) hp = Ret c.
Proof.
  induction 1 as [a|a l e b names c Ha Hk Hf Hc IH]; intros Hpl fuel Hfuel; [by destruct fuel|].
  apply Forall_cons in Hpl as [He Hpl]. destruct fuel as [|fuel]; cbn [length] in Hfuel; [lia|].
  pose proof He as (Hne & Hlen & Hs & _).
  assert (b <> NULL) as Hb0 by (destruct Hk as (n & _ & _ & Hd & _); by apply (dseg_nonnull _ _ _ _ _ _ b Hd), (first_match_in _ _ _ _ Hf)).
  assert (find_path_loop (S fuel) a (join (e :: names)) hp = find_path_loop fuel b (join names) hp) as ->; [|by apply IH; [|lia]].
  assert (mxmlFindElement a a (Some e) None None MXML_DESCEND_FIRST hp = Ret b) as Hfind by (by rewrite (mxmlFindElement_first hp a l), Hf by done).
  assert ((length e =? 0)%nat || (256 <=? length e)%nat = false) as Hlen'.
  { apply orb_false_iff. split; [apply Nat.eqb_neq; destruct e; [done|discriminate]|apply Nat.leb_gt; lia]. }
  destruct names as [|e' names].
  - cbn [join]. rewrite find_path_step, (proj2 (no_wildcard e [] _ _ He)) by done. rewrite (proj2 (to_slash_plain e [] Hs)), Hlen', Hfind. cbn [mbind outcome_bind].
    by rewrite (proj2 (Z.eqb_neq b NULL)) by done.
  - change (join (e :: e' :: names)) with (e ++ 47 :: join (e' :: names)). rewrite find_path_step by (by destruct e).
    rewrite (proj1 (no_wildcard e _ _ _ He)), (proj1 (to_slash_plain e _ Hs)), Hlen', Hfind. cbn [mbind outcome_bind]. by rewrite (proj2 (Z.eqb_neq b NULL)) by done.
Qed.

End Mxml.
