(* ===== verification/Xml.v ===== *)
(** * XML documents (base/data/nv_xml.c)

    The wrappers over the tree of [Mxml].  Reading and writing text is the library's parser and
    printer, which are parameters here, with the messages they give to the callback; the last
    error and the options made at the first use are the state of the file.  Theorems: a removed
    node takes exactly its descendants along, a search gives the first match in document
    order, what is set as text or attribute is read back, and what a failed copy or a number
    out of range does. *)
From S2P Require Import Prelude DLinks Mxml.

Module Xml.
Import Mxml.

Definition NV_OK : Z := 0.
Definition NV_ERROR : Z := -1.

(** ** The last error and the options *)

Record xml_state := mkXml { g_nv_xml_error : cstr; opts : bool }.

Definition nv_xml_error_cb (st : xml_state) (message : option cstr) : xml_state :=
  match message with
  | None => mkXml [] (opts st)
  | Some m => mkXml (take 511 m) (opts st)
  end.
(** [mem]: the options can be allocated, if they are not there yet. *)
Definition nv_xml_options (mem : bool) (st : xml_state) : bool * xml_state :=
  if opts st then (true, st) else (mem, mkXml (g_nv_xml_error st) mem).
Definition nv_xml_error_ptr (st : xml_state) : option cstr :=
  match g_nv_xml_error st with [] => None | e => Some e end.
Definition clear_error (st : xml_state) : xml_state := mkXml [] (opts st).

Section io.
(** The library's [mxmlLoadString] and [mxmlLoadFilename], [mxmlSaveFilename] and
    [mxmlSaveAllocString], each with the messages it reports. *)
Context (mxmlLoadString mxmlLoadFilename : cstr -> heap -> Z * heap * list (option cstr)).
Context (mxmlSaveFilename : Z -> cstr -> heap -> bool * list (option cstr)).
Context (mxmlSaveAllocString : Z -> heap -> option cstr * list (option cstr)).

Definition load (f : cstr -> heap -> Z * heap * list (option cstr)) (mem : bool) (text : option cstr) (st : xml_state) (hp : heap) : Z * xml_state * heap :=
  let st := clear_error st in
  match text with
  | None => (NULL, st, hp)
  | Some text =>
      let '(o, st) := nv_xml_options mem st in
      if negb o then (NULL, st, hp) else
      let '(root, hp, msgs) := f text hp in (root, foldl nv_xml_error_cb st msgs, hp)
  end.
Definition nv_xml_parse := load mxmlLoadString.
Definition nv_xml_load_file := load mxmlLoadFilename.

Definition nv_xml_save_file (mem : bool) (root : Z) (path : option cstr) (st : xml_state) (hp : heap) : Z * xml_state :=
  if root =? NULL then (NV_ERROR, st) else
  match path with
  | None => (NV_ERROR, st)
  | Some path =>
      let '(o, st) := nv_xml_options mem st in
      if negb o then (NV_ERROR, st) else
      let st := clear_error st in
      let '(ok, msgs) := mxmlSaveFilename root path hp in
      (if ok then NV_OK else NV_ERROR, foldl nv_xml_error_cb st msgs)
  end.
Definition nv_xml_print (mem : bool) (root : Z) (st : xml_state) (hp : heap) : option cstr * xml_state :=
  if root =? NULL then (None, st) else
  let '(o, st) := nv_xml_options mem st in
  if negb o then (None, st) else
  let '(text, msgs) := mxmlSaveAllocString root hp in (text, foldl nv_xml_error_cb st msgs).

(** The last of the messages, cut to the buffer. *)
Lemma error_after st msgs : g_nv_xml_error (foldl nv_xml_error_cb st msgs) =
  match last msgs with Some m => take 511 (default [] m) | None => g_nv_xml_error st end.
Proof.
  revert st. induction msgs as [|m msgs IH]; intros st; [done|]. cbn [foldl]. rewrite IH, last_cons.
  destruct (last msgs); [done|]. by destruct m.
Qed.
End io.

(** ** The tree *)

Definition nv_xml_free (root : Z) (hp : heap) : outcome heap := if negb (root =? NULL) then mxmlDelete root hp else Ret hp.

(** The directive with the version and the encoding utf-8 ([mxmlNewXML]), cut to its buffer. *)
Definition xml_directive (version : cstr) : cstr :=
  take 1023 ([120;109;108;32;118;101;114;115;105;111;110;61;34] ++ version ++ [34;32;101;110;99;111;100;105;110;103;61;34;117;116;102;45;56;34]).
Definition nv_xml_new_document (new : Z) (ok : bool) (version : option cstr) : heap -> outcome (Z * heap) :=
  mxmlNewDirective new ok NULL (xml_directive (default [49; 46; 48] version)).
Definition nv_xml_add_element (new : Z) (ok : bool) (par : Z) (name : option cstr) (hp : heap) : outcome (Z * heap) :=
  if par =? NULL then Ret (NULL, hp) else match name with None => Ret (NULL, hp) | Some nm => mxmlNewElement new ok par nm hp end.
Definition nv_xml_add_text (new : Z) (ok : bool) (par : Z) (text : option cstr) (hp : heap) : outcome (Z * heap) :=
  if par =? NULL then Ret (NULL, hp) else match text with None => Ret (NULL, hp) | Some s => mxmlNewText new ok par false s hp end.
Definition nv_xml_add_integer (new par v : Z) (hp : heap) : outcome (Z * heap) :=
  if par =? NULL then Ret (NULL, hp) else mxmlNewInteger new par v hp.

Definition nv_xml_find_element (node top : Z) (name attr v : option cstr) (descend_all : Z) (hp : heap) : outcome Z :=
  let descend := if negb (descend_all =? 0) then MXML_DESCEND_ALL else MXML_DESCEND_FIRST in
  if node =? NULL then Ret NULL else mxmlFindElement node top name attr v descend hp.
Definition nv_xml_find_path (node : Z) (path : option cstr) (hp : heap) : outcome Z :=
  if node =? NULL then Ret NULL else match path with None => Ret NULL | Some path => mxmlFindPath node path hp end.
Definition nv_xml_first_child (node : Z) (hp : heap) : outcome Z :=
  if node =? NULL then Ret NULL else n ← deref (hp !! node); Ret (child n).
Definition nv_xml_next_sibling (node : Z) (hp : heap) : outcome Z :=
  if node =? NULL then Ret NULL else n ← deref (hp !! node); Ret (next n).
Definition nv_xml_element_name (node : Z) (hp : heap) : outcome (option cstr) :=
  if node =? NULL then Ret None else n ← deref (hp !! node); Ret (match value n with XElement name _ => name | _ => None end).

Definition nv_xml_attr_get (elem : Z) (name : option cstr) (hp : heap) : outcome (option cstr) :=
  if elem =? NULL then Ret None else
  match name with
  | None => Ret None
  | Some nm => n ← deref (hp !! elem); match value n with XElement _ _ => mxmlElementGetAttr elem nm hp | _ => Ret None end
  end.
(** [ok], [room]: the library can copy the value and make a new attribute. *)
Definition nv_xml_attr_set (ok room : bool) (elem : Z) (name v : option cstr) (hp : heap) : outcome (Z * heap) :=
  if elem =? NULL then Ret (NV_ERROR, hp) else
  match name with
  | None => Ret (NV_ERROR, hp)
  | Some nm =>
      n ← deref (hp !! elem);
      match value n with
      | XElement _ _ => hp ← mxmlElementSetAttr ok room elem nm (default [] v) hp; Ret (NV_OK, hp)
      | _ => Ret (NV_ERROR, hp)
      end
  end.

(** The loop over the children; [None] when none is a text. *)
Fixpoint set_text_loop (fuel : nat) (ok : bool) (child : Z) (text : cstr) (hp : heap) : outcome (option (Z * heap)) :=
  if child =? NULL then Ret None else
  match fuel with
  | O => UB
  | S fuel =>
      n ← deref (hp !! child);
      match value n with
      | XText _ _ => '(b, hp) ← mxmlSetText ok child false text hp; Ret (Some (if b : bool then NV_OK else NV_ERROR, hp))
      | _ => set_text_loop fuel ok (next n) text hp
      end
  end.
Definition nv_xml_set_text (new : Z) (ok : bool) (node : Z) (text : option cstr) (hp : heap) : outcome (Z * heap) :=
  if node =? NULL then Ret (NV_ERROR, hp) else
  match text with
  | None => Ret (NV_ERROR, hp)
  | Some s =>
      n ← deref (hp !! node);
      match value n with
      | XText _ _ => '(b, hp) ← mxmlSetText ok node false s hp; Ret (if b : bool then NV_OK else NV_ERROR, hp)
      | XElement _ _ =>
          r ← set_text_loop (size hp) ok (child n) s hp;
          match r with
          | Some r => Ret r
          | None => '(t, hp) ← nv_xml_add_text new ok node (Some s) hp; Ret (if negb (t =? NULL) then NV_OK else NV_ERROR, hp)
          end
      | _ => Ret (NV_ERROR, hp)
      end
  end.
Definition nv_xml_set_element_name (ok : bool) (elem : Z) (name : option cstr) (hp : heap) : outcome (Z * heap) :=
  if elem =? NULL then Ret (NV_ERROR, hp) else
  match name with
  | None => Ret (NV_ERROR, hp)
  | Some nm =>
      n ← deref (hp !! elem);
      match value n with
      | XElement _ _ => '(b, hp) ← mxmlSetElement ok elem nm hp; Ret (if b : bool then NV_OK else NV_ERROR, hp)
      | _ => Ret (NV_ERROR, hp)
      end
  end.
Definition nv_xml_remove (node : Z) (hp : heap) : outcome (Z * heap) :=
  if node =? NULL then Ret (NV_ERROR, hp) else
  hp ← mxmlRemove node hp;
  hp ← mxmlDelete node hp;
  Ret (NV_OK, hp).

Fixpoint get_text_loop (fuel : nat) (child : Z) (hp : heap) : outcome (option cstr) :=
  if child =? NULL then Ret None else
  match fuel with
  | O => UB
  | S fuel =>
      n ← deref (hp !! child);
      match value n with XText _ (Some s) => Ret (Some s) | _ => get_text_loop fuel (next n) hp end
  end.
(** [out]: the pointer is not null; then it is cleared first and [None] is a null pointer. *)
Definition nv_xml_get_text (node : Z) (out : bool) (hp : heap) : outcome (Z * option cstr) :=
  if negb out || (node =? NULL) then Ret (NV_ERROR, None) else
  n ← deref (hp !! node);
  match value n with
  | XText _ s => Ret (match s with Some s => (NV_OK, Some s) | None => (NV_ERROR, None) end)
  | XElement _ _ => s ← get_text_loop (size hp) (child n) hp; Ret (match s with Some s => (NV_OK, Some s) | None => (NV_ERROR, None) end)
  | _ => Ret (NV_ERROR, None)
  end.
(** A [long] that is converted to [int]. *)
Definition nv_xml_get_int (node : Z) (out : bool) (hp : heap) : outcome (Z * option Z) :=
  if negb out || (node =? NULL) then Ret (NV_ERROR, None) else
  n ← deref (hp !! node);
  match value n with XInteger i => Ret (NV_OK, Some (i32 i)) | _ => Ret (NV_ERROR, None) end.
Definition nv_xml_is_element (node : Z) (hp : heap) : outcome Z :=
  if node =? NULL then Ret 0 else n ← deref (hp !! node); Ret (match value n with XElement _ _ => 1 | _ => 0 end).
Definition nv_xml_is_text (node : Z) (hp : heap) : outcome Z :=
  if node =? NULL then Ret 0 else n ← deref (hp !! node); Ret (match value n with XText _ _ => 1 | _ => 0 end).

(** ** Text *)

Definition is_text (v : mxml_value) : bool := match v with XText _ _ => true | _ => false end.
Definition has_text (v : mxml_value) : bool := match v with XText _ (Some _) => true | _ => false end.
Definition is_element (v : mxml_value) : Prop := exists nm attrs, v = XElement nm attrs.
(** The string of the text node at [a]. *)
Definition text_at (hp : heap) (a : Z) : option cstr := match value <$> hp !! a with Some (XText _ s) => s | _ => None end.

Lemma first_match_Some hp m l a : first_match hp m l = Some a <->
  exists l1 l2 n, l = l1 ++ a :: l2 /\ hp !! a = Some n /\ m (value n) = true /\ first_match hp m l1 = None.
Proof.
  split.
  - induction l as [|b l IH]; [done|]. cbn [first_match]. destruct (hp !! b) as [n|] eqn:E.
    + destruct (m (value n)) eqn:Em.
      * intros [= ->]. by exists [], l, n.
      * intros (l1 & l2 & n' & -> & En & Hm & Hf)%IH. exists (b :: l1), l2, n'. cbn [first_match]. by rewrite E, Em.
    + intros (l1 & l2 & n' & -> & En & Hm & Hf)%IH. exists (b :: l1), l2, n'. cbn [first_match]. by rewrite E.
  - intros (l1 & l2 & n & -> & En & Hm & Hf). rewrite first_match_app, Hf. cbn [first_match]. by rewrite En, Hm.
Qed.
(** Only the values count, and a stronger test finds nothing where a weaker one does not. *)
Lemma first_match_None hp hp' (m m' : mxml_value -> bool) l : (forall v, m' v = true -> m v = true) ->
  (forall a, a ∈ l -> value <$> hp' !! a = value <$> hp !! a) -> first_match hp m l = None -> first_match hp' m' l = None.
Proof.
  intros Hm Hv. induction l as [|a l IH]; [done|]. cbn [first_match]. pose proof (Hv a ltac:(set_solver)) as Ha. specialize (IH ltac:(set_solver)).
  destruct (hp !! a) as [n|], (hp' !! a) as [n'|]; try done. injection Ha as ->.
  destruct (m (value n)) eqn:E; [done|]. destruct (m' (value n)) eqn:E'; [|done]. apply Hm in E'. congruence.
Qed.

Lemma set_text_loop_spec ok s hp pr c l lst k : dseg hp pr c l NULL lst ->
  set_text_loop (length l + k) ok c s hp =
  match first_match hp is_text l with
  | None => Ret None
  | Some a => '(b, hp) ← mxmlSetText ok a false s hp; Ret (Some (if b : bool then NV_OK else NV_ERROR, hp))
  end.
Proof.
  revert pr c. induction l as [|a l IH]; intros pr c; cbn [dseg]; [intros [-> _]; by destruct k|].
  intros (-> & Ha & n & E & _ & Hd). cbn [length Nat.add set_text_loop first_match]. rewrite (proj2 (Z.eqb_neq a NULL)) by done. rewrite E.
  cbn [deref mbind outcome_bind]. destruct (value n); cbn [is_text]; [by eapply IH|done|by eapply IH..].
Qed.
Lemma get_text_loop_spec hp pr c l lst k : dseg hp pr c l NULL lst ->
  get_text_loop (length l + k) c hp = Ret (a ← first_match hp has_text l; text_at hp a).
Proof.
  revert pr c. induction l as [|a l IH]; intros pr c; cbn [dseg]; [intros [-> _]; by destruct k|].
  intros (-> & Ha & n & E & _ & Hd). cbn [length Nat.add get_text_loop first_match]. rewrite (proj2 (Z.eqb_neq a NULL)) by done. rewrite E.
  cbn [deref mbind outcome_bind]. destruct (value n) as [|w [t|]| | |] eqn:Ev; cbn [has_text]; try (by eapply IH).
  cbn [mbind option_bind]. unfold text_at. rewrite E. cbn. by rewrite Ev.
Qed.
Lemma get_text_kids hp p n l : p <> NULL -> hp !! p = Some n -> is_element (value n) -> kids hp p l ->
  nv_xml_get_text p true hp = Ret (match (a ← first_match hp has_text l; text_at hp a) with Some s => (NV_OK, Some s) | None => (NV_ERROR, None) end).
Proof.
  intros Hp E (nm & attrs & Ev) Hk. pose proof (kids_length _ _ _ Hk). destruct Hk as (n' & E' & _ & Hd & _). rewrite E in E'. injection E' as <-.
  unfold nv_xml_get_text. rewrite (proj2 (Z.eqb_neq p NULL)) by done. cbn [negb orb]. rewrite E. cbn [deref mbind outcome_bind]. rewrite Ev.
  replace (size hp) with (length l + (size hp - length l))%nat by lia. by rewrite (get_text_loop_spec _ _ _ _ _ _ Hd).
Qed.
Lemma kids_payload hp p l a m v : kids hp p l -> hp !! a = Some m -> kids (<[a := set_value v m]> hp) p l.
Proof.
  intros (n & E & Hnd & Hd & Hpar) Ea. assert (dseg (<[a := set_value v m]> hp) NULL (child n) l NULL (last_child n)) as Hd' by (by apply dseg_payload).
  assert (exists n', <[a := set_value v m]> hp !! p = Some n' /\ child n' = child n /\ last_child n' = last_child n) as (n' & E' & Ec & El).
  { destruct (decide (a = p)) as [->|]; [|rewrite lookup_insert_ne by done; by exists n]. rewrite lookup_insert_eq. eexists. split; [done|]. rewrite E in Ea. by injection Ea as <-. }
  exists n'. rewrite Ec, El. split_and!; [done..|]. intros b mb Hb. destruct (decide (a = b)) as [->|]; [rewrite lookup_insert_eq|rewrite lookup_insert_ne by done; by apply Hpar].
  intros [= <-]. exact (Hpar b m Hb Ea).
Qed.
Lemma set_text_of_text ok a s (hp : heap) m : hp !! a = Some m -> is_text (value m) = true ->
  mxmlSetText ok a false s hp = Ret (if ok then (true, <[a := set_value (XText false (Some s)) m]> hp) else (false, hp)).
Proof.
  intros E Hm. unfold mxmlSetText. rewrite E. cbn [deref mbind outcome_bind]. destruct (value m) eqn:Ev; try done.
  cbn [mbind outcome_bind]. rewrite E. cbn [deref mbind outcome_bind]. rewrite Ev. by destruct ok.
Qed.

(** Setting the text of an element ends on every path.  If a child is a text, the first
    such child, and nothing else, gets the new string, or nothing changes without memory;
    otherwise a text becomes the last child.  Then the text is what is read, unless the string
    of the new node could not be copied: that is reported as a success with no text. *)
Theorem nv_xml_set_text_get new ok p s hp l n :
  p <> NULL -> hp !! p = Some n -> is_element (value n) -> kids hp p l -> (new <> NULL -> hp !! new = None) ->
  exists rc hp', nv_xml_set_text new ok p (Some s) hp = Ret (rc, hp') /\
    match first_match hp is_text l with
    | Some a =>
        if ok then rc = NV_OK /\ (exists m, hp !! a = Some m /\ hp' = <[a := set_value (XText false (Some s)) m]> hp) /\
                   nv_xml_get_text p true hp' = Ret (NV_OK, Some s)
        else rc = NV_ERROR /\ hp' = hp
    | None =>
        if new =? NULL then rc = NV_ERROR /\ hp' = hp
        else rc = NV_OK /\ kids hp' p (l ++ [new]) /\ nv_xml_get_text p true hp' = Ret (if ok then (NV_OK, Some s) else (NV_ERROR, None))
    end.
Proof.
  intros Hp E Hel Hk Hnew. pose proof (kids_length _ _ _ Hk) as Hlen. pose proof Hk as (n' & E' & Hnd & Hd & _). rewrite E in E'. injection E' as <-.
  pose proof Hel as (nm & attrs & Ev). unfold nv_xml_set_text. rewrite (proj2 (Z.eqb_neq p NULL)) by done. rewrite E. cbn [deref mbind outcome_bind]. rewrite Ev.
  replace (size hp) with (length l + (size hp - length l))%nat by lia. rewrite (set_text_loop_spec _ _ _ _ _ _ _ _ Hd).
  apply NoDup_cons in Hnd as [Hpl Hnd]. destruct (first_match hp is_text l) as [a|] eqn:Ef.
  - apply first_match_Some in Ef as (l1 & l2 & m & -> & Ea & Hm & Hf). rewrite (set_text_of_text _ _ _ _ m) by done.
    destruct ok; cbn [mbind outcome_bind]; [|eexists _, _; by split_and!].
    eexists _, _. split; [done|]. split; [done|]. split; [by exists m|].
    rewrite (get_text_kids _ p n (l1 ++ a :: l2)); [|done|rewrite lookup_insert_ne; [done|set_solver]|done|by apply kids_payload].
    rewrite first_match_app, (first_match_None hp _ is_text); [|by intros []| |done].
    2: { intros b Hb. rewrite lookup_insert_ne; [done|]. apply NoDup_app in Hnd as (_ & Hdis & _). intros ->. by apply (Hdis b Hb), elem_of_cons; left. }
    cbn [first_match]. rewrite lookup_insert_eq. cbn [set_value value has_text mbind option_bind]. unfold text_at. by rewrite lookup_insert_eq.
  - cbn [mbind outcome_bind]. unfold nv_xml_add_text. rewrite (proj2 (Z.eqb_neq p NULL)) by done. unfold mxmlNewText.
    destruct (Z.eqb_spec new NULL) as [->|Hn0]; [by eexists _, _; split|].
    destruct (new_node_spec hp p l new (XText false None) (XText false (strcopy ok s)) Hp Hk Hn0 (Hnew Hn0)) as (hp' & nn & -> & Hk' & En & Evn & _ & _ & Hv).
    cbn [mbind outcome_bind]. rewrite negb_null_ne by done. eexists _, _. split; [done|]. split; [done|]. split; [done|].
    assert (hp !! p <> None) as Hpne by congruence. assert (p <> new) as Hpn by (intros ->; by rewrite (Hnew Hn0) in Hpne).
    pose proof (Hv p Hpn) as Hvp. rewrite E in Hvp. apply fmap_Some in Hvp as (n1 & E1 & Ev1).
    rewrite (get_text_kids _ p n1 (l ++ [new])); [|done|done|by rewrite <- Ev1|done].
    rewrite first_match_app, (first_match_None hp _ is_text); [|by intros []| |done].
    + cbn [first_match]. rewrite En, Evn. destruct ok; cbn [strcopy has_text mbind option_bind]; [|done]. unfold text_at. rewrite En. cbn. by rewrite Evn.
    + intros b Hb. apply Hv. intros ->. destruct (dseg_nonnull _ _ _ _ _ _ _ Hd Hb) as [_ [? ?]]. rewrite (Hnew Hn0) in *. done.
Qed.

(** ** Search and removal *)

(** A search below an element ends and gives the first element in document order, or the
    first child, whose name, attribute and value are as asked; a value without an attribute
    finds nothing. *)
Theorem nv_xml_find_element_first top n l lk name attr v descend_all hp :
  top <> NULL -> hp !! top = Some n -> forest hp top (child n) l -> NoDup (top :: l) -> kids hp top lk ->
  nv_xml_find_element top top name attr v descend_all hp =
  Ret (if bool_decide (attr = None) && bool_decide (is_Some v) then NULL
       else default NULL (first_match hp (element_matches name attr v) (if descend_all =? 0 then lk else l))).
Proof.
  intros Ht E Hf [Htl Hnd]%NoDup_cons Hk. unfold nv_xml_find_element. rewrite (proj2 (Z.eqb_neq top NULL)) by done.
  destruct (bool_decide (attr = None) && bool_decide (is_Some v)) eqn:Eav.
  - unfold mxmlFindElement. rewrite Eav, orb_true_r. done.
  - assert (attr = None -> v = None) as Hav by (intros ->; by destruct v). destruct (descend_all =? 0); cbn [negb].
    + by apply mxmlFindElement_first.
    + by eapply mxmlFindElement_all.
Qed.

(** A path of plain names is followed from first child to first child with the name, and
    the result is the node at its end, or that node's first child when this is not an
    element. *)
Theorem nv_xml_find_path_names a names c n hp : names <> [] -> Forall plain names -> path_to hp a names c -> c <> NULL -> hp !! c = Some n ->
  (child n = NULL -> nv_xml_find_path a (Some (join names)) hp = Ret c) /\
  (forall m, child n <> NULL -> hp !! child n = Some m ->
    nv_xml_find_path a (Some (join names)) hp = Ret (match value m with XElement _ _ => c | _ => child n end)).
Proof.
  intros Hne Hpl Hpath Hc E.
  assert (a <> NULL) as Ha by (by destruct Hpath).
  assert (length names <= length (join names))%nat as Hlen.
  { clear -Hpl. induction names as [|e [|e' names] IH]; [done|apply Forall_cons in Hpl as [(He & _) _]; destruct e; [done|cbn; lia]|].
    apply Forall_cons in Hpl as [_ Hpl]. specialize (IH Hpl). change (join (e :: e' :: names)) with (e ++ 47 :: join (e' :: names)). rewrite length_app. cbn [length] in *. lia. }
  assert (nv_xml_find_path a (Some (join names)) hp = path_result c hp) as ->.
  { unfold nv_xml_find_path, mxmlFindPath. rewrite (proj2 (Z.eqb_neq a NULL)) by done.
    rewrite (find_path_loop_names hp a names c) by (done || lia). cbn [mbind outcome_bind]. rewrite (proj2 (Z.eqb_neq c NULL)) by done.
    destruct (join names) eqn:Ej; [|done]. destruct names; [done|]. cbn [length] in Hlen. lia. }
  unfold path_result. rewrite E. cbn [deref mbind outcome_bind]. split.
  - by intros ->.
  - intros m Hcn Em. rewrite (proj2 (Z.eqb_neq (child n) NULL)) by done. by rewrite Em.
Qed.

Lemma kids_freed hp p l f : kids hp p l -> (forall x, x ∈ f -> ~ (x ∈ p :: l)) -> kids (freed f hp) p l.
Proof.
  intros (n & E & Hnd & Hd & Hpar) Hdis.
  assert (forall x, x ∈ p :: l -> freed f hp !! x = hp !! x) as Hsame by (intros x Hx; rewrite lookup_freed, decide_False; [done|intros Hf; by apply (Hdis x)]).
  exists n. rewrite Hsame by set_solver. split_and!; [done|done| |].
  - eapply dseg_frame; [done|]. intros a Ha. apply Hsame. set_solver.
  - intros a m Ha. rewrite Hsame by set_solver. by apply Hpar.
Qed.

(** C40: removing a node takes it out of its parent's children, which keep their order, frees
    it with exactly its descendants, and leaves every other value as it was. *)
Theorem nv_xml_remove_subtree hp p l1 a l2 n l :
  p <> NULL -> kids hp p (l1 ++ a :: l2) -> hp !! a = Some n -> forest hp a (child n) l -> NoDup l ->
  (forall x, x ∈ l -> ~ (x ∈ p :: l1 ++ a :: l2)) ->
  exists hp', nv_xml_remove a hp = Ret (NV_OK, hp') /\ kids hp' p (l1 ++ l2) /\
    (forall x, x ∈ a :: l -> hp' !! x = None) /\
    (forall x, ~ (x ∈ a :: l) -> value <$> hp' !! x = value <$> hp !! x).
Proof.
  intros Hp Hk E Hf Hnd Hdis. destruct (mxmlRemove_spec hp p l1 a l2 n Hp Hk E) as (hp1 & Hr & Hk1 & E1 & Hsame & Hv).
  assert (a <> NULL) as Ha0. { destruct Hk as (pn & _ & _ & Hd & _). apply (dseg_nonnull _ _ _ _ _ _ a Hd). set_solver. }
  assert (~ (a ∈ p :: l1 ++ l2)) as Hal. { destruct Hk as (_ & _ & Hnd' & _). apply NoDup_cons in Hnd' as [? (? & ? & [? ?]%NoDup_cons)%NoDup_app]. set_solver. }
  assert (~ (a ∈ l)) as Hal' by (intros Hin; apply (Hdis a Hin); set_solver).
  unfold nv_xml_remove. rewrite (proj2 (Z.eqb_neq a NULL)) by done. rewrite Hr. cbn [mbind outcome_bind].
  rewrite (delete_root hp1 a _ l Ha0 E1); [|done| |by apply NoDup_cons].
  2: { cbn. eapply forest_frame; [exact Hf|]. intros x Hx. by apply Hsame, Hdis. }
  cbn [mbind outcome_bind]. eexists. split; [done|]. split_and!.
  - apply kids_freed; [done|]. intros x [->|Hx]%elem_of_cons; [done|]. intros Hin. apply (Hdis x Hx). set_solver.
  - intros x Hx. by rewrite lookup_freed, decide_True.
  - intros x Hx. rewrite lookup_freed, decide_False by done. apply Hv.
Qed.

(** ** Attributes and numbers *)

Lemma find_attr_set attrs nm v room nm' : find_attr (mxml_set_attr attrs nm v room) nm' =
  if decide (nm' = nm) then match find_attr attrs nm with Some _ => Some v | None => if room then Some v else None end
  else find_attr attrs nm'.
Proof.
  induction attrs as [|[b w] attrs IH]; cbn [mxml_set_attr find_attr].
  - destruct room; cbn [find_attr]; repeat case_decide; congruence.
  - destruct (decide (b = nm)) as [->|]; cbn [find_attr]; [repeat case_decide; congruence|]. rewrite IH. repeat case_decide; congruence.
Qed.

(** After an attribute is set, reading it gives the new value and every other attribute is
    as before; without memory the old value stays, although success is reported. *)
Theorem nv_xml_attr_set_get ok room e nm v hp n name attrs :
  e <> NULL -> hp !! e = Some n -> value n = XElement name attrs ->
  exists hp', nv_xml_attr_set ok room e (Some nm) v hp = Ret (NV_OK, hp') /\ forall nm',
    nv_xml_attr_get e (Some nm') hp' =
      if bool_decide (nm' = nm) && ok && (room || bool_decide (is_Some (find_attr attrs nm))) then Ret (Some (default [] v))
      else nv_xml_attr_get e (Some nm') hp.
Proof.
  intros He E Ev. unfold nv_xml_attr_set, nv_xml_attr_get, mxmlElementSetAttr, mxmlElementGetAttr. rewrite (proj2 (Z.eqb_neq e NULL)) by done.
  rewrite E. cbn [deref mbind outcome_bind]. rewrite Ev. cbn [mbind outcome_bind].
  destruct ok; cbn [mbind outcome_bind]; (eexists; split; [done|]); intros nm'; [|by rewrite andb_false_r, E; cbn [deref mbind outcome_bind]; rewrite Ev].
  rewrite lookup_insert_eq. cbn [deref mbind outcome_bind set_value value]. rewrite find_attr_set, andb_true_r.
  destruct (decide (nm' = nm)) as [->|]; [rewrite bool_decide_true by done|by rewrite bool_decide_false by done].
  destruct (find_attr attrs nm) as [w|]; [by rewrite bool_decide_true, orb_true_r by (by eexists)|].
  rewrite bool_decide_false, orb_false_r by (by intros [? ?]). by destruct room.
Qed.

(** A number added to a node becomes its last child and is read back modulo 2^32, so
    exactly when it fits an [int]; a text never reads as a number. *)
Theorem nv_xml_integer_get new p i hp l : p <> NULL -> kids hp p l -> new <> NULL -> hp !! new = None ->
  exists hp', nv_xml_add_integer new p i hp = Ret (new, hp') /\ kids hp' p (l ++ [new]) /\
    nv_xml_get_int new true hp' = Ret (NV_OK, Some (i32 i)) /\
    (INT_MIN <= i <= INT_MAX -> i32 i = i) /\
    forall a m, hp !! a = Some m -> is_text (value m) = true -> nv_xml_get_int a true hp' = Ret (NV_ERROR, None).
Proof.
  intros Hp Hk Hn En. unfold nv_xml_add_integer. rewrite (proj2 (Z.eqb_neq p NULL)) by done.
  destruct (new_node_spec hp p l new (XInteger 0) (XInteger i) Hp Hk Hn En) as (hp' & nn & Hnew & Hk' & En' & Evn & _ & _ & Hv).
  exists hp'. split; [done|]. split; [done|]. split; [|split].
  - unfold nv_xml_get_int. rewrite (proj2 (Z.eqb_neq new NULL)) by done. cbn [negb orb]. rewrite En'. cbn [deref mbind outcome_bind]. by rewrite Evn.
  - intros Hi. apply swrap_small; [lia|]. unfold INT_MIN, INT_MAX in Hi. lia.
  - intros a m Ea Hm. assert (a <> new) as Han by congruence. pose proof (Hv a Han) as Hva. rewrite Ea in Hva. apply fmap_Some in Hva as (m' & Em' & Ev').
    unfold nv_xml_get_int. cbn [negb orb]. destruct (a =? NULL); [done|]. rewrite Em'. cbn [deref mbind outcome_bind]. rewrite <- Ev'. by destruct (value m).
Qed.

(** ** The error text *)

(** After a document is read, the error is the last message of the library, cut to 511
    bytes, or there is none; printing a document reports no error of its own and leaves an
    older one in place. *)
Theorem nv_xml_error_spec f print mem text root st hp :
  opts st = true ->
  nv_xml_error_ptr (load f mem (Some text) st hp).1.2 =
    match last (f text hp).2 with Some (Some (c :: m)) => Some (take 511 (c :: m)) | _ => None end /\
  (root <> NULL -> (print root hp).2 = [] -> nv_xml_error_ptr (nv_xml_print print mem root st hp).2 = nv_xml_error_ptr st).
Proof.
  intros Ho. split.
  - unfold load, nv_xml_options. cbn [clear_error opts]. rewrite Ho. cbn [negb]. destruct (f text hp) as [[r hp'] msgs]. cbn [fst snd].
    unfold nv_xml_error_ptr. rewrite error_after. destruct (last msgs) as [[[|c m]|]|]; done.
  - intros Hr Hm. unfold nv_xml_print, nv_xml_options. rewrite (proj2 (Z.eqb_neq root NULL)), Ho by done. cbn [negb].
    destruct (print root hp) as [t msgs]. cbn [snd] in Hm. by rewrite Hm.
Qed.

(** A new document is one node, and freeing it gives back the heap as it was; when its
    text cannot be copied nothing is left behind either. *)
Theorem nv_xml_document_freed new ok version hp : new <> NULL -> hp !! new = None ->
  if ok : bool then exists hp', nv_xml_new_document new ok version hp = Ret (new, hp') /\ is_Some (hp' !! new) /\ nv_xml_free new hp' = Ret hp
  else nv_xml_new_document new ok version hp = Ret (NULL, hp).
Proof.
  intros Hn En. unfold nv_xml_new_document, mxmlNewDirective, mxml_new, nv_xml_free. rewrite (proj2 (Z.eqb_neq new NULL)) by done. change (NULL =? NULL) with true.
  cbn [negb mbind outcome_bind]. rewrite (proj2 (Z.eqb_neq new NULL)) by done. rewrite (store_eq _ _ _ _ (lookup_insert_eq _ _ _)), insert_insert_eq. cbn [mbind outcome_bind].
  match goal with |- context [<[new := ?m]> hp] => assert (mxmlDelete new (<[new := m]> hp) = Ret hp) as Hdel end.
  { rewrite (delete_root _ new _ [] Hn (lookup_insert_eq _ _ _)); [|done|constructor|apply NoDup_singleton]. cbn [freed foldr].
    by rewrite delete_insert_eq, delete_id. }
  destruct ok; [|by rewrite Hdel]. eexists. split; [done|]. rewrite lookup_insert_eq. split; [by eexists|done].
Qed.

(** ** A document: an element [a] with the children [b], which holds two words, and [c], which
    has an attribute. *)
Definition doc : heap := list_to_map [
  (1, mkXNode (XElement (Some [97]) []) 0 0 0 2 5);
  (2, mkXNode (XElement (Some [98]) []) 5 0 1 3 4);
  (3, mkXNode (XText false (Some [104])) 4 0 2 0 0);
  (4, mkXNode (XText true (Some [119])) 0 3 2 0 0);
  (5, mkXNode (XElement (Some [99]) [([107], Some [118])]) 0 2 1 0 0)].

Lemma doc_kids : kids doc 1 [2; 5] /\ kids doc 2 [3; 4].
Proof.
  split; (eexists; split; [reflexivity|]; split; [by apply (bool_decide_eq_true_1 (NoDup _))|]; split;
    [repeat (split; [done|]; split; [done|]; eexists; split; [reflexivity|]; split; [done|]); done|]);
    intros a m [->|[->|Ha%not_elem_of_nil]%elem_of_cons]%elem_of_cons; try done; intros [= <-]; done.
Qed.
Lemma doc_forest : forest doc 1 2 [2; 3; 4; 5] /\ forest doc 2 3 [3; 4].
Proof.
  assert (forest doc 2 3 [3; 4]) as H2.
  { apply (forest_cons doc 2 3 (mkXNode (XText false (Some [104])) 4 0 2 0 0) [] [4]); [done|done|done|constructor|].
    apply (forest_cons doc 2 4 (mkXNode (XText true (Some [119])) 0 3 2 0 0) [] []); [done|done|done|constructor..]. }
  split; [|done]. apply (forest_cons doc 1 2 (mkXNode (XElement (Some [98]) []) 5 0 1 3 4) [3; 4] [5]); [done|done|done|done|].
  apply (forest_cons doc 1 5 (mkXNode (XElement (Some [99]) [([107], Some [118])]) 0 2 1 0 0) [] []); [done|done|done|constructor..].
Qed.

(** Two words: only the first is replaced. *)
Lemma nv_xml_set_text_get_witness : exists rc hp', nv_xml_set_text 6 true 2 (Some [120; 121]) doc = Ret (rc, hp') /\
  rc = NV_OK /\ text_at hp' 3 = Some [120; 121] /\ text_at hp' 4 = Some [119] /\ nv_xml_get_text 2 true hp' = Ret (NV_OK, Some [120; 121]).
Proof.
  destruct (nv_xml_set_text_get 6 true 2 [120; 121] doc [3; 4] (mkXNode (XElement (Some [98]) []) 5 0 1 3 4)) as (rc & hp' & E & Hr & (m & Em & Hhp) & Ht);
    [done|done|by eexists _, _|apply doc_kids|done|].
  exists rc, hp'. split; [done|]. split; [done|]. rewrite Hhp. split; [done|]. split; [done|]. by rewrite <- Hhp.
Defined.
Lemma nv_xml_find_element_first_witness : nv_xml_find_element 1 1 None (Some [107]) None 1 doc = Ret 5.
Proof.
  apply (nv_xml_find_element_first 1 (mkXNode (XElement (Some [97]) []) 0 0 0 2 5) [2; 3; 4; 5] [2; 5] None (Some [107]) None 1 doc);
    [done|done|apply doc_forest|by apply (bool_decide_eq_true_1 (NoDup _))|apply doc_kids].
Defined.
Lemma nv_xml_find_path_names_witness : nv_xml_find_path 1 (Some [98]) doc = Ret 3.
Proof.
  apply (nv_xml_find_path_names 1 [[98]] 2 (mkXNode (XElement (Some [98]) []) 5 0 1 3 4) doc) with (m := mkXNode (XText false (Some [104])) 4 0 2 0 0);
    [done| | |done|done|done|done].
  - apply Forall_singleton. split; [done|]. split; [cbn; lia|]. split; [|done]. intros Hin. set_solver by lia.
  - apply (path_child doc 1 [2; 5] [98] 2 [] 2); [done|apply doc_kids|done|constructor].
Defined.
Lemma nv_xml_remove_subtree_witness : exists hp', nv_xml_remove 2 doc = Ret (NV_OK, hp') /\ kids hp' 1 [5] /\ hp' !! 3 = None.
Proof.
  destruct (nv_xml_remove_subtree doc 1 [] 2 [5] (mkXNode (XElement (Some [98]) []) 5 0 1 3 4) [3; 4]) as (hp' & E & Hk & Hfree & _);
    [done|apply doc_kids|done|apply doc_forest|by apply (bool_decide_eq_true_1 (NoDup _))|set_solver by lia|].
  exists hp'. split; [done|]. split; [done|]. apply Hfree. set_solver.
Defined.
Lemma nv_xml_attr_set_get_witness : exists hp', nv_xml_attr_set true true 5 (Some [106]) (Some [122]) doc = Ret (NV_OK, hp') /\
  nv_xml_attr_get 5 (Some [106]) hp' = Ret (Some [122]) /\ nv_xml_attr_get 5 (Some [107]) hp' = Ret (Some [118]).
Proof.
  destruct (nv_xml_attr_set_get true true 5 [106] (Some [122]) doc (mkXNode (XElement (Some [99]) [([107], Some [118])]) 0 2 1 0 0) (Some [99]) [([107], Some [118])])
    as (hp' & E & Hg); [done..|]. exists hp'. split; [done|]. by rewrite !Hg.
Defined.
Lemma nv_xml_integer_get_witness : exists hp', nv_xml_add_integer 6 1 4294967301 doc = Ret (6, hp') /\ nv_xml_get_int 6 true hp' = Ret (NV_OK, Some 5).
Proof. destruct (nv_xml_integer_get 6 1 4294967301 doc [2; 5]) as (hp' & E & _ & Hg & _); [done|apply doc_kids|done|done|]. by exists hp'. Defined.
Lemma nv_xml_error_spec_witness :
  nv_xml_error_ptr (load (fun _ hp => (NULL, hp, [Some [120]])) true (Some []) (mkXml [] true) doc).1.2 = Some [120].
Proof. apply (nv_xml_error_spec (fun _ hp => (NULL, hp, [Some [120]])) (fun _ _ => (None, [])) true [] 1 (mkXml [] true) doc); done. Defined.
Lemma nv_xml_document_freed_witness : exists hp', nv_xml_new_document 6 true None doc = Ret (6, hp') /\ is_Some (hp' !! 6) /\ nv_xml_free 6 hp' = Ret doc.
Proof. apply (nv_xml_document_freed 6 true None doc); done. Defined.

End Xml.
