(* ===== verification/Helpers.v ===== *)
(** * Small helpers (base/sys/nv_string.c, nv_time.c, base/misc/nv_convert.c, base/core/nv_base.c)

    Case conversion, comparison without case, month names, BCD and the table of modules.
    Theorems: the comparison agrees with the C library's, month names round trip, BCD of two
    digits, the order in which modules are initialised and cleaned up, and the inputs for
    which the helpers go wrong. *)
From S2P Require Import Prelude.

Module Helpers.

(** ** base/sys/nv_string.c *)

(** [toupper] and [tolower] are defined on the values of [unsigned char]; the code passes a
    plain [char], which is negative from 128 on. *)
Definition ctype (f : Z -> Z) (c : Z) : outcome Z := if schar c <? 0 then UB else Ret (f c).
Fixpoint map_chars (f : Z -> Z) (s : cstr) : outcome cstr :=
  match s with [] => Ret [] | c :: s' => c ← ctype f c; s' ← map_chars f s'; Ret (c :: s') end.
Definition nv_str_toupper (s : cstr) : outcome cstr := map_chars toupper s.
Definition nv_str_tolower (s : cstr) : outcome cstr := map_chars tolower s.

Definition first (s : cstr) : Z := default 0 (head s).
(** One turn of the loop; [n] is the counter before its decrement. *)
Fixpoint strnicmp_loop (n : nat) (s1 s2 : cstr) : Z :=
  match n with
  | O => tolower (first s1) - tolower (first s2)
  | S n' =>
      if tolower (first s1) =? tolower (first s2) then
        if (n' =? 0)%nat || (first s1 =? 0) || (first s2 =? 0) then tolower (first s1) - tolower (first s2)
        else strnicmp_loop n' (tail s1) (tail s2)
      else tolower (first s1) - tolower (first s2)
  end.
Definition strnicmp (s1 s2 : cstr) (n : nat) : Z := if (n =? 0)%nat then 0 else strnicmp_loop n s1 s2.

(** ** base/sys/nv_time.c *)

Definition s_months : list cstr := map str
  ["January"; "February"; "March"; "April"; "May"; "June"; "July"; "August"; "September"; "October"; "November"; "December"]%string.
Fixpoint month_loop (i : Z) (l : list cstr) (month : cstr) : Z :=
  match l with
  | [] => 0
  | m :: l' => if strnicmp month m (length month) =? 0 then i + 1 else month_loop (i + 1) l' month
  end.
Definition month_atoi (month : cstr) : Z := month_loop 0 s_months month.
(** A failed [assert] ends the process. *)
Definition month_itoa (month : Z) : outcome cstr :=
  if (1 <=? month) && (month <=? 12) then deref (s_months !! Z.to_nat (month - 1)) else Exit 134.

(** ** base/misc/nv_convert.c *)

(** [x << k] of an [int]: undefined when the result does not fit or the count is too large. *)
Definition int_shl (x k : Z) : outcome Z := if 32 <=? k then UB else int_chk (Z.shiftl x k).
Fixpoint bcd_loop (fuel : nat) (value shift bcd : Z) : outcome Z :=
  match fuel with
  | O => UB
  | S fuel' =>
      if 0 <? value then
        d ← int_shl (value mod 10) (shift * 4);
        bcd_loop fuel' (value / 10) (shift + 1) (u8 (Z.lor bcd d))
      else Ret bcd
  end.
(** An [int] has at most ten digits. *)
Definition int_to_bcd (value : Z) : outcome Z := bcd_loop 11 value 0 0.

(** ** base/core/nv_base.c *)

Definition NV_OK : Z := 0.
Definition NV_ERROR : Z := -1.
Definition NV_MODULE_MAX : nat := 6.
(** A module: its name, and whether it has an [init] and a [cleanup]. *)
Record nv_module_t := mkModule { mname : Z; has_init : bool; has_cleanup : bool }.
Definition nv_base_register_module (g_modules : list nv_module_t) (m : option nv_module_t) : Z * list nv_module_t :=
  match m with
  | Some m => if (NV_MODULE_MAX <=? length g_modules)%nat then (NV_ERROR, g_modules) else (NV_OK, g_modules ++ [m])
  | None => (NV_ERROR, g_modules)
  end.
Inductive mod_call := Init (m : Z) | Cleanup (m : Z).
(** [init m] is what the module's function returns; the calls made so far are kept. *)
Fixpoint nv_base_init (init : Z -> Z) (g_modules : list nv_module_t) : Z * list mod_call :=
  match g_modules with
  | [] => (NV_OK, [])
  | m :: l =>
      if has_init m then
        if init (mname m) =? NV_OK then let '(rc, t) := nv_base_init init l in (rc, Init (mname m) :: t)
        else (NV_ERROR, [Init (mname m)])
      else nv_base_init init l
  end.
Definition nv_base_cleanup (g_modules : list nv_module_t) : Z * list mod_call * list nv_module_t :=
  (NV_OK, map (fun m => Cleanup (mname m)) (filter (fun m => has_cleanup m = true) (rev g_modules)), []).

(** The loop object: a copy of the table taken when it is made. *)
Record nv_cycle_t := mkCycle { cmodules : list nv_module_t; crunning : bool }.
Definition nv_base_create_cycle (mem_ok : bool) (g_modules : list nv_module_t) : option nv_cycle_t :=
  if mem_ok then Some (mkCycle g_modules false) else None.
Definition nv_base_run_cycle (c : option nv_cycle_t) : Z * option nv_cycle_t :=
  match c with Some c => (NV_OK, Some (mkCycle (cmodules c) true)) | None => (NV_ERROR, None) end.

(** ** Properties *)

Lemma tolower_idem_zero c : 0 <= c -> tolower c = 0 -> c = 0.
Proof. unfold tolower. intros. destruct (Z.leb_spec 65 c), (Z.leb_spec c 90); simpl in *; lia. Qed.

Lemma take_one s : take 1 (map tolower s ++ [0]) = [tolower (first s)].
Proof. by destruct s. Qed.
Lemma strnicmp_loop_eq n s1 s2 : cstr_ok s1 -> cstr_ok s2 ->
  strnicmp_loop (S n) s1 s2 = 0 <-> take (S n) (map tolower s1 ++ [0]) = take (S n) (map tolower s2 ++ [0]).
Proof.
  revert s1 s2. induction n as [|n IH]; intros s1 s2 H1 H2; cbn [strnicmp_loop].
  - assert ((if tolower (first s1) =? tolower (first s2) then if (0 =? 0)%nat || (first s1 =? 0) || (first s2 =? 0)
      then tolower (first s1) - tolower (first s2) else tolower (first (tail s1)) - tolower (first (tail s2)) else tolower (first s1) - tolower (first s2)) =
      tolower (first s1) - tolower (first s2)) as -> by (by destruct (_ =? _)).
    rewrite !take_one. split; [intros; f_equal; lia|]. intros H. injection H as H. lia.
  - assert (forall c, char_ok c -> tolower c <> 0) as Hlow
      by (intros c Hc E; unfold char_ok in Hc; apply tolower_idem_zero in E; lia).
    change (S n =? 0)%nat with false. cbn [orb].
    destruct s1 as [|c1 s1], s2 as [|c2 s2]; [done|..]; cbn [map app take tail];
      repeat match goal with H : cstr_ok (_ :: _) |- _ => apply Forall_cons in H as [? ?] end;
      change (first []) with 0; change (tolower 0) with 0.
    + change (first (c2 :: s2)) with c2. destruct (Z.eqb_spec 0 (tolower c2)) as [E|E]; [by apply eq_sym, Hlow in E|]. split; [intros; exfalso; lia|]. by intros [= ? _].
    + change (first (c1 :: s1)) with c1. destruct (Z.eqb_spec (tolower c1) 0) as [E|E]; [by apply Hlow in E|]. split; [intros; exfalso; lia|]. by intros [= ? _].
    + change (first (c1 :: s1)) with c1. change (first (c2 :: s2)) with c2. unfold char_ok in *.
      destruct (Z.eqb_spec (tolower c1) (tolower c2)) as [E|E].
      * destruct (Z.eqb_spec c1 0); [lia|]. destruct (Z.eqb_spec c2 0); [lia|]. cbn [orb].
        rewrite (IH s1 s2) by done. rewrite E. split; [by intros <-|]. by intros [= ?].
      * split; [intros; exfalso; lia|]. by intros [= ? _].
Qed.

(** Strnicmp is zero exactly when the first [n] characters of the two strings, with their
    NULs, are the same up to the case of letters, as the C library's strncasecmp. *)
Theorem strnicmp_spec s1 s2 n : cstr_ok s1 -> cstr_ok s2 -> strnicmp s1 s2 n = 0 <-> strncasecmp_eq s1 s2 n = true.
Proof.
  intros H1 H2. unfold strnicmp, strncasecmp_eq. rewrite bool_decide_eq_true. destruct n as [|n]; [done|].
  change (S n =? 0)%nat with false. cbv iota. by apply strnicmp_loop_eq.
Qed.
Lemma strnicmp_spec_witness : strnicmp (str "Juni") (str "JUNE") 3 = 0 <-> strncasecmp_eq (str "Juni") (str "JUNE") 3 = true.
Proof. apply (strnicmp_spec (str "Juni") (str "JUNE") 3); by apply cstr_ok_check. Defined.

(** The name of every month is read back as its number, as are its first three letters
    in any case; numbers that name no month end the process, and the empty string counts as
    January. *)
Theorem month_roundtrip :
  (forall m, 1 <= m <= 12 -> exists s, month_itoa m = Ret s /\ month_atoi s = m /\ month_atoi (take 3 s) = m /\
     month_atoi (map toupper (take 3 s)) = m) /\
  (forall m, m < 1 \/ 12 < m -> month_itoa m = Exit 134) /\ month_atoi [] = 1.
Proof.
  split_and!; [|intros m Hm|reflexivity].
  - intros m Hm. assert (m = 1 \/ m = 2 \/ m = 3 \/ m = 4 \/ m = 5 \/ m = 6 \/ m = 7 \/ m = 8 \/ m = 9 \/ m = 10 \/ m = 11 \/ m = 12) as H by lia.
    repeat (destruct H as [->|H]; [eexists; split; [reflexivity|]; split_and!; vm_compute; reflexivity|]).
    subst. eexists. split; [reflexivity|]. split_and!; vm_compute; reflexivity.
  - unfold month_itoa. destruct (Z.leb_spec 1 m), (Z.leb_spec m 12); simpl; try done; lia.
Qed.

(** The case conversions change the letters of an ASCII string and nothing else; a byte
    from 128 on is passed to the C library as a negative number, which is undefined. *)
Theorem nv_str_case_spec s : cstr_ok s ->
  if decide (Forall (fun c => c < 128) s) then nv_str_toupper s = Ret (map toupper s) /\ nv_str_tolower s = Ret (map tolower s)
  else nv_str_toupper s = UB /\ nv_str_tolower s = UB.
Proof.
  intros Hs. assert (forall f, map_chars f s = if decide (Forall (fun c => c < 128) s) then Ret (map f s) else UB) as H.
  { intros f. induction Hs as [|c s Hc Hs IH]; cbn [map_chars map]; [by rewrite decide_True by constructor|]. unfold ctype, schar, char_ok in *.
    destruct (decide (c < 128)) as [Hlt|Hge].
    - rewrite swrap_small by (change (2 ^ (8 - 1)) with 128; lia). destruct (Z.ltb_spec c 0); [lia|]. cbn [mbind outcome_bind]. rewrite IH.
      destruct (decide (Forall (fun c => c < 128) s)) as [Hf|Hf]; cbn [mbind outcome_bind].
      + by rewrite decide_True by (by constructor).
      + rewrite decide_False; [done|]. by intros [_ ?]%Forall_cons.
    - assert (i8 c < 0) as Hn.
      { unfold swrap. change (2 ^ 8) with 256. change (2 ^ (8 - 1)) with 128. rewrite Z.mod_small by lia. destruct (Z.ltb_spec c 128); lia. }
      destruct (Z.ltb_spec (i8 c) 0); [|lia]. cbn [mbind outcome_bind]. rewrite decide_False; [done|]. by intros [? _]%Forall_cons. }
  unfold nv_str_toupper, nv_str_tolower. rewrite !H. by destruct (decide _).
Qed.
Lemma nv_str_case_spec_witness : if decide (Forall (fun c => c < 128) (str "aB")) then nv_str_toupper (str "aB") = Ret (str "AB") /\ nv_str_tolower (str "aB") = Ret (str "ab")
  else nv_str_toupper (str "aB") = UB /\ nv_str_tolower (str "aB") = UB.
Proof. apply (nv_str_case_spec (str "aB")). by apply cstr_ok_check. Defined.

(** *** BCD *)
Lemma u8_lor_high b d k : 0 <= b < 256 -> 8 <= k -> u8 (Z.lor b (Z.shiftl d k)) = b.
Proof.
  intros Hb Hk. unfold wrap. rewrite <- Z.land_ones by lia. rewrite Z.land_lor_distr_l.
  assert (Z.land (Z.shiftl d k) (Z.ones 8) = 0) as ->.
  { apply Z.bits_inj'. intros n Hn. rewrite Z.land_spec, Z.bits_0. destruct (Z.ltb_spec n 8).
    - rewrite Z.shiftl_spec_low by lia. done.
    - rewrite Z.ones_spec_high by lia. apply andb_false_r. }
  rewrite Z.lor_0_r, Z.land_ones by lia. by apply Z.mod_small.
Qed.
(** A digit in its place is no overflow below the eighth. *)
Lemma int_shl_digit d k : 0 <= d < 10 -> 0 <= k <= 24 -> int_shl d k = Ret (Z.shiftl d k).
Proof.
  intros Hd Hk. unfold int_shl, int_chk. destruct (Z.leb_spec 32 k); [lia|].
  assert (0 <= Z.shiftl d k <= 9 * 2 ^ 24) as Hsh.
  { rewrite Z.shiftl_mul_pow2 by lia. assert (0 < 2 ^ k <= 2 ^ 24) by (split; [lia|]; apply Z.pow_le_mono_r; lia). nia. }
  change (9 * 2 ^ 24) with 150994944 in Hsh. unfold INT_MIN, INT_MAX.
  destruct (Z.leb_spec (-2147483648) (Z.shiftl d k)); [|lia]. destruct (Z.leb_spec (Z.shiftl d k) 2147483647); [done|lia].
Qed.
Lemma bcd_step fuel v shift b : 0 < v -> 0 <= shift * 4 <= 24 ->
  bcd_loop (S fuel) v shift b = bcd_loop fuel (v / 10) (shift + 1) (u8 (Z.lor b (Z.shiftl (v mod 10) (shift * 4)))).
Proof.
  intros Hv Hs. pose proof (Z.mod_pos_bound v 10 ltac:(lia)). cbn [bcd_loop]. destruct (Z.ltb_spec 0 v); [|lia].
  by rewrite int_shl_digit by lia.
Qed.
Lemma bcd_end fuel shift b : bcd_loop (S fuel) 0 shift b = Ret b.
Proof. done. Qed.
Lemma bcd_tail n fuel v shift b : 0 <= b < 256 -> 2 <= shift -> shift + Z.of_nat n <= 7 -> (n < fuel)%nat -> 0 <= v < 10 ^ Z.of_nat n ->
  bcd_loop fuel v shift b = Ret b.
Proof.
  revert fuel v shift. induction n as [|n IH]; intros fuel v shift Hb Hs Hf Hl Hv; (destruct fuel as [|fuel]; [lia|]).
  - assert (v = 0) as -> by (simpl in Hv; lia). done.
  - destruct (Z.eq_dec v 0) as [->|]; [done|]. rewrite bcd_step by lia. rewrite u8_lor_high by lia.
    apply IH; [done|lia|lia|lia|]. rewrite Nat2Z.inj_succ, Z.pow_succ_r in Hv by lia.
    split; [apply Z.div_pos; lia|]. apply Z.div_lt_upper_bound; lia.
Qed.
Lemma bcd_overflow n fuel v b : (n < fuel)%nat -> 10 ^ Z.of_nat n <= v -> bcd_loop fuel v (8 - Z.of_nat n) b = UB.
Proof.
  revert fuel v b. induction n as [|n IH]; intros fuel v b Hl Hv; (destruct fuel as [|fuel]; [lia|]); cbn [bcd_loop].
  - simpl in Hv. destruct (Z.ltb_spec 0 v); [|lia]. done.
  - assert (0 < 10 ^ Z.of_nat n) by (apply Z.pow_pos_nonneg; lia). rewrite Nat2Z.inj_succ, Z.pow_succ_r in Hv by lia.
    destruct (Z.ltb_spec 0 v); [|lia]. destruct (int_shl _ _) as [d| |c] eqn:E; cbn [mbind outcome_bind].
    + replace (8 - Z.of_nat (S n) + 1) with (8 - Z.of_nat n) by lia. apply IH; [lia|]. apply Z.div_le_lower_bound; lia.
    + done.
    + unfold int_shl, int_chk in E. by repeat case_match.
Qed.
Lemma bcd_two_digits d0 d1 : 0 <= d0 < 10 -> 0 <= d1 < 10 ->
  u8 (Z.lor 0 (Z.shiftl d0 0)) = d0 /\ u8 (Z.lor d0 (Z.shiftl d1 4)) = 16 * d1 + d0.
Proof.
  intros Hd0 Hd1. rewrite Z.shiftl_0_r, Z.lor_0_l. split; [apply wrap_small; width_lia|].
  assert (Z.lor d0 (Z.shiftl d1 4) = 16 * d1 + d0) as ->; [|apply wrap_small; width_lia].
  rewrite Z.shiftl_mul_pow2 by lia. assert (Z.land d0 (d1 * 2 ^ 4) = 0) as Hl.
  { apply Z.bits_inj'. intros n Hn. rewrite Z.land_spec, Z.bits_0, <- Z.shiftl_mul_pow2 by lia. destruct (Z.ltb_spec n 4).
    - rewrite Z.shiftl_spec_low by lia. apply andb_false_r.
    - destruct (Z.eq_dec d0 0) as [->|]; [by rewrite Z.bits_0|]. rewrite (Z.bits_above_log2 d0); [done|lia|].
      assert (Z.log2 d0 < 4) by (apply Z.log2_lt_pow2; lia). lia. }
  pose proof (Z.add_lor_land d0 (d1 * 2 ^ 4)) as Ha. rewrite Hl in Ha. lia.
Qed.

(** Int_to_bcd gives the last two decimal digits of a number below ten million, one in
    each half of the byte; from a hundred million on (nine digits) its shift is undefined. *)
Theorem int_to_bcd_spec v :
  (0 <= v < 10 ^ 7 -> int_to_bcd v = Ret (16 * ((v / 10) mod 10) + v mod 10)) /\ (10 ^ 8 <= v -> int_to_bcd v = UB).
Proof.
  split; intros Hv; unfold int_to_bcd; [|apply (bcd_overflow 8 11); [lia|done]].
  pose proof (Z.mod_pos_bound v 10 ltac:(lia)) as H0. pose proof (Z.mod_pos_bound (v / 10) 10 ltac:(lia)) as H1.
  destruct (Z.eq_dec v 0) as [->|Hv0]; [done|]. destruct (bcd_two_digits _ _ H0 H1) as [E1 E2].
  rewrite bcd_step by lia. change (0 * 4) with 0. rewrite E1. pose proof (Z.div_pos v 10 ltac:(lia) ltac:(lia)) as Hp.
  destruct (Z.eq_dec (v / 10) 0) as [E|]; [rewrite E; apply bcd_end|].
  rewrite bcd_step by lia. change ((0 + 1) * 4) with 4. rewrite E2.
  apply (bcd_tail 5); [lia|lia|lia|lia|]. split; [apply Z.div_pos; lia|].
  apply Z.div_lt_upper_bound; [lia|]. apply Z.div_lt_upper_bound; [lia|]. simpl. lia.
Qed.

(** *** Modules *)
(** The calls of [init] go to the modules in the order of registration, up to the first that
    fails. *)
Definition init_calls (l : list nv_module_t) : list mod_call := map (fun m => Init (mname m)) (filter (fun m => has_init m = true) l).

(** Initialisation calls the modules in the order they were registered and stops at the
    first that fails; cleanup calls every module in the reverse order, also those that were
    never initialised, and empties the table. *)
Theorem nv_base_order init l : let '(rc, t) := nv_base_init init l in
  (rc = NV_OK /\ t = init_calls l \/
   rc = NV_ERROR /\ exists l1 m l2, l = l1 ++ m :: l2 /\ t = init_calls (l1 ++ [m]) /\ has_init m = true /\ init (mname m) <> NV_OK) /\
  nv_base_cleanup l = (NV_OK, rev (map (fun m => Cleanup (mname m)) (filter (fun m => has_cleanup m = true) l)), []).
Proof.
  assert (forall l, filter (fun m => has_cleanup m = true) (rev l) = rev (filter (fun m => has_cleanup m = true) l)) as Hrev.
  { induction l0 as [|m l0 IH]; [done|]. simpl. rewrite filter_app, IH, !filter_cons, filter_nil. destruct (decide _); [done|by rewrite app_nil_r]. }
  assert (nv_base_cleanup l = (NV_OK, rev (map (fun m => Cleanup (mname m)) (filter (fun m => has_cleanup m = true) l)), [])) as ->
    by (unfold nv_base_cleanup; by rewrite Hrev, map_rev).
  induction l as [|m l IH]; [simpl; eauto|]. cbn [nv_base_init]. unfold init_calls. rewrite filter_cons. destruct (has_init m) eqn:Em.
  - rewrite decide_True by done. destruct (Z.eqb_spec (init (mname m)) NV_OK) as [E|E].
    + destruct (nv_base_init init l) as [rc t]. split; [|done]. destruct IH as [[(-> & ->)|(-> & l1 & x & l2 & -> & -> & Hx)] _]; [by left|].
      right. split; [done|]. exists (m :: l1), x, l2. split_and!; try done; try apply Hx. unfold init_calls. simpl. rewrite filter_cons. by rewrite decide_True.
    + split; [|done]. right. split; [done|]. exists [], m, l. split_and!; try done. simpl. rewrite filter_cons. by rewrite decide_True.
  - rewrite decide_False by congruence. destruct (nv_base_init init l) as [rc t]. split; [|done].
    destruct IH as [[(-> & ->)|(-> & l1 & x & l2 & -> & -> & Hx)] _]; [by left|].
    right. split; [done|]. exists (m :: l1), x, l2. split_and!; try done; try apply Hx. unfold init_calls. simpl. rewrite filter_cons.
    rewrite decide_False by congruence. done.
Qed.

(** Whatever is registered, the table never outgrows its array of six: the first six
    modules are kept in order and every later one is refused; the loop object holds that table. *)
Theorem nv_base_table_bounded l :
  let g := foldl (fun g m => snd (nv_base_register_module g (Some m))) [] l in
  g = take NV_MODULE_MAX l /\ (length g <= NV_MODULE_MAX)%nat /\
  forall m, fst (nv_base_register_module g (Some m)) = (if (length l <? NV_MODULE_MAX)%nat then NV_OK else NV_ERROR) /\
    (cmodules <$> nv_base_create_cycle true g) = Some g.
Proof.
  assert (forall g l, (length g <= NV_MODULE_MAX)%nat ->
    foldl (fun g m => snd (nv_base_register_module g (Some m))) g l = take NV_MODULE_MAX (g ++ l)) as H.
  { intros g l0. revert g. induction l0 as [|m l0 IH]; intros g Hg; cbn [foldl]; [by rewrite app_nil_r, take_ge|].
    unfold nv_base_register_module at 2. destruct (Nat.leb_spec NV_MODULE_MAX (length g)) as [Hf|Hf]; cbn [snd].
    - rewrite IH by done. by rewrite !take_app_le by done.
    - rewrite IH by (rewrite length_app; simpl; lia). by rewrite <- app_assoc. }
  cbv zeta. rewrite H by (simpl; lia). split_and!; [done|rewrite length_take; lia|]. intros m. split; [|done].
  unfold nv_base_register_module. rewrite length_take. simpl app.
  destruct (Nat.ltb_spec (length l) NV_MODULE_MAX), (Nat.leb_spec NV_MODULE_MAX (NV_MODULE_MAX `min` length l)); simpl; try done; lia.
Qed.

End Helpers.
