(* ===== verification/SysTime.v ===== *)
(** * Dates and times (base/sys/nv_time.c)

    The functions over the C library's calendar: [localtime] and [mktime] depend on the time
    zone and are parameters, [sscanf] and [strftime] with the formats of the file are written
    out.  Theorems: what is printed is read back as the same calendar time, so that the round
    trip and the difference of two times are those of [mktime]; sleeping times are normalised;
    [get_current_time] fails always. *)
From S2P Require Import Prelude.

Module SysTime.

(** [struct tm]; the other fields are 0. *)
Record tm := mkTm { tm_year : Z; tm_mon : Z; tm_mday : Z; tm_hour : Z; tm_min : Z; tm_sec : Z }.

(** ** [sscanf] *)

Inductive directive := Dec | Lit (c : Z) | Blank.
Definition isdigit (c : Z) : bool := (48 <=? c) && (c <=? 57).
(** [%d]: the number and the rest; a number that does not fit an [int] is undefined. *)
Definition scan_d (s : cstr) : outcome (option (Z * cstr)) :=
  let s := drop_while isspace s in
  let '(neg, s) := match s with c :: s' => if c =? 45 then (true, s') else if c =? 43 then (false, s') else (false, s) | [] => (false, s) end in
  match take_while isdigit s with
  | [] => Ret None
  | ds => let v := digits 10 ds 0 in v ← int_chk (if neg : bool then - v else v); Ret (Some (v, drop_while isdigit s))
  end.
(** The numbers converted until a directive fails. *)
Fixpoint scan (fmt : list directive) (s : cstr) : outcome (list Z) :=
  match fmt with
  | [] => Ret []
  | Dec :: fmt => r ← scan_d s; match r with None => Ret [] | Some (v, s) => vs ← scan fmt s; Ret (v :: vs) end
  | Lit c :: fmt => match s with x :: s => if x =? c then scan fmt s else Ret [] | [] => Ret [] end
  | Blank :: fmt => scan fmt (drop_while isspace s)
  end.
(** ["%d-%d-%d %d:%d:%d"] *)
Definition dt_format : list directive := [Dec; Lit 45; Dec; Lit 45; Dec; Blank; Dec; Lit 58; Dec; Lit 58; Dec].
(** The fields in the order of the format, 0 for those that are missing, with the year and month
    as [struct tm] counts them. *)
Definition tm_of (l : list Z) : outcome tm :=
  let f i := default 0 (l !! i) in
  y ← int_chk (f 0%nat - 1900); m ← int_chk (f 1%nat - 1);
  Ret (mkTm y m (f 2%nat) (f 3%nat) (f 4%nat) (f 5%nat)).

(** ** [strftime] *)

Definition two (n : Z) : cstr := [48 + n / 10; 48 + n mod 10].
Definition print_int (n : Z) : cstr := if n <? 0 then 45 :: print_dec (- n) else print_dec n.
(** ["%Y-%m-%d %H:%M:%S"] *)
Definition dt_text (t : tm) : cstr :=
  print_int (tm_year t + 1900) ++ 45 :: two (tm_mon t + 1) ++ 45 :: two (tm_mday t) ++ 32 :: two (tm_hour t) ++ 58 :: two (tm_min t) ++ 58 :: two (tm_sec t).
(** [None]: it returns 0 and the array is indeterminate. *)
Definition strftime (max : Z) (text : cstr) : option cstr := if Z.of_nat (length text) + 1 <=? max then Some text else None.

Section calendar.
Context (localtime : Z -> option tm) (mktime : tm -> Z).

(** [difftime] divided by 60 as a double and cut to [int]; below 2^53 seconds the double
    division does not reach the next integer. *)
Definition time_diff (s1 s2 : cstr) : outcome Z :=
  v1 ← scan dt_format s1;
  if negb (length v1 =? 6)%nat then Ret 1 else
  v2 ← scan dt_format s2;
  if negb (length v2 =? 6)%nat then Ret 1 else
  t1 ← tm_of v1; t2 ← tm_of v2;
  int_chk (Z.quot (mktime t2 - mktime t1) 60).

(** [sizeof(cur_time)] is the size of a pointer. *)
Definition get_current_time (cur_time : bool) (now : Z) : outcome (Z * option cstr) :=
  if negb cur_time then Ret (1, None) else
  if now =? -1 then Ret (1, None) else
  t ← deref (localtime now);
  match strftime 8 (dt_text t) with
  | None => Ret (1, None)
  | Some text => Ret (0, Some text)
  end.

Definition atol (s : cstr) : Z :=
  match drop_while isspace s with
  | c :: s' => if c =? 45 then clamp 64 (- digits 10 s' 0) else if c =? 43 then clamp 64 (digits 10 s' 0) else clamp 64 (digits 10 (c :: s') 0)
  | [] => 0
  end.
(** A negative size is a huge [size_t]. *)
Definition convert_timestamp_to_datetime (timestamp_str : cstr) (timeBufSize : Z) : outcome (option cstr) :=
  t ← deref (localtime (atol timestamp_str)); Ret (strftime (u64 timeBufSize) (dt_text t)).
Definition datetime_to_timestamp (datetime_str : cstr) : outcome Z :=
  l ← scan dt_format datetime_str; t ← tm_of l; Ret (mktime t).
Definition nv_time_format (timestamp len : Z) (format : tm -> cstr) : outcome (option cstr) :=
  t ← deref (localtime timestamp); Ret (strftime (u64 len) (format t)).
End calendar.

(** ** Clocks and sleeping *)

Record timespec := mkTs { tv_sec : Z; tv_nsec : Z }.
Definition nv_time_now_ms (ts : timespec) : Z := tv_sec ts * 1000 + Z.quot (tv_nsec ts) 1000000.
(** What [nanosleep] is given. *)
Definition nv_sleep_ms (milliseconds : Z) : timespec := mkTs (Z.quot milliseconds 1000) (Z.rem milliseconds 1000 * 1000000).
Definition ns (ts : timespec) : Z := tv_sec ts * 1000000000 + tv_nsec ts.

(** [snprintf] of the command with the text between quotes, and the shell's answer. *)
Definition date_command (time_str : cstr) : cstr := take 255 ([100;97;116;101;32;45;115;32;32;34] ++ time_str ++ [34]).
Definition nv_set_system_time (nv_system : cstr -> Z) (time_str : cstr) : Z := if negb (nv_system (date_command time_str) =? 0) then 1 else 0.

(** ** Properties *)

Definition dig (d : Z) : Prop := 48 <= d <= 57.
Lemma isdigit_dig d : dig d -> isdigit d = true.
Proof. unfold dig, isdigit. lia. Qed.
Lemma take_while_digits ds r : Forall dig ds -> (forall c r', r = c :: r' -> isdigit c = false) ->
  take_while isdigit (ds ++ r) = ds /\ drop_while isdigit (ds ++ r) = r.
Proof.
  intros Hd Hr. induction Hd as [|d ds Hd _ IH]; cbn [app].
  - destruct r as [|c r]; [done|]. cbn [take_while drop_while]. by rewrite (Hr c r).
  - cbn [take_while drop_while]. rewrite isdigit_dig by done. destruct IH as [-> ->]. done.
Qed.

Lemma int_chk_ok x : INT_MIN <= x <= INT_MAX -> int_chk x = Ret x.
Proof. intros Hx. unfold int_chk. by destruct (Z.leb_spec INT_MIN x), (Z.leb_spec x INT_MAX); try lia. Qed.

(** A run of digits up to a character that is none is converted to its value. *)
Lemma scan_d_digits ds r v : Forall dig ds -> ds <> [] -> (forall c r', r = c :: r' -> isdigit c = false) -> digits 10 ds 0 = v -> INT_MIN <= v <= INT_MAX ->
  scan_d (ds ++ r) = Ret (Some (v, r)).
Proof.
  intros Hd Hne Hr Hv Hi. unfold scan_d. assert (drop_while isspace (ds ++ r) = ds ++ r /\ match ds ++ r with c :: s' => if c =? 45 then (true, s') else if c =? 43 then (false, s') else (false, ds ++ r) | [] => (false, ds ++ r) end = (false, ds ++ r)) as [-> ->].
  { destruct Hd as [|d ds Hd _]; [done|]. cbn [app drop_while]. unfold dig in Hd.
    assert (isspace d = false) as -> by (unfold isspace; lia). rewrite (proj2 (Z.eqb_neq d 45)), (proj2 (Z.eqb_neq d 43)) by lia. done. }
  destruct (take_while_digits ds r Hd Hr) as [-> ->]. destruct ds as [|d ds]; [done|]. rewrite Hv.
  rewrite int_chk_ok by done. done.
Qed.

(** A calendar time as [localtime] gives it, with a year that is printed with digits only. *)
Definition tm_ok (t : tm) : Prop :=
  0 <= tm_year t + 1900 <= INT_MAX /\ 0 <= tm_mon t < 12 /\ 0 <= tm_mday t < 32 /\ 0 <= tm_hour t < 24 /\ 0 <= tm_min t < 60 /\ 0 <= tm_sec t < 61.

Lemma two_digits n : 0 <= n < 100 -> Forall dig (two n) /\ digits 10 (two n) 0 = n.
Proof.
  intros Hn. assert (Forall dig (two n)) as Hd by (unfold two, dig; repeat (apply Forall_cons; split); [| |by apply Forall_nil]; Z.div_mod_to_equations; lia).
  split; [done|]. unfold two in *. apply Forall_cons in Hd as [H1 [H2 _]%Forall_cons].
  change [48 + n / 10; 48 + n mod 10] with ([48 + n / 10] ++ [48 + n mod 10]). rewrite digits_snoc by (done || by apply Forall_singleton).
  change [48 + n / 10] with ([] ++ [48 + n / 10]). rewrite digits_snoc by done. cbn [digits]. pose proof (Z.div_mod n 10). lia.
Qed.
Lemma scan_two n r : 0 <= n < 100 -> (forall c r', r = c :: r' -> isdigit c = false) -> scan_d (two n ++ r) = Ret (Some (n, r)).
Proof. intros Hn Hr. destruct (two_digits n Hn) as [Hd Hv]. apply scan_d_digits; [done|done|done|done|unfold INT_MIN, INT_MAX; lia]. Qed.
Lemma scan_year n r : 0 <= n <= INT_MAX -> (forall c r', r = c :: r' -> isdigit c = false) -> scan_d (print_int n ++ r) = Ret (Some (n, r)).
Proof.
  intros Hn Hr. unfold print_int. rewrite (proj2 (Z.ltb_ge n 0)) by lia. unfold print_dec. apply scan_d_digits; [apply dec_loop_digits; lia| |done| |unfold INT_MIN; lia].
  - cbn [dec_loop]. by intros [_ ?]%app_nil.
  - apply dec_loop_value. unfold INT_MAX in Hn. lia.
Qed.

Lemma scan_lit c fmt r : scan (Lit c :: fmt) (c :: r) = scan fmt r.
Proof. cbn [scan]. by rewrite Z.eqb_refl. Qed.
Lemma scan_dec fmt s v r : scan_d s = Ret (Some (v, r)) -> scan (Dec :: fmt) s = (vs ← scan fmt r; Ret (v :: vs)).
Proof. intros E. cbn [scan]. by rewrite E. Qed.

Lemma scan_blank fmt n r : 0 <= n < 100 -> scan (Blank :: fmt) (32 :: two n ++ r) = scan fmt (two n ++ r).
Proof.
  intros Hn. destruct (two_digits n Hn) as [Hd _]. unfold two in *. apply Forall_cons in Hd as [H1 _]. unfold dig in H1. cbn [scan drop_while app].
  change (isspace 32) with true. cbv iota. by assert (isspace (48 + n / 10) = false) as -> by (unfold isspace; lia).
Qed.

(** What [strftime] prints is what [sscanf] reads. *)
Lemma scan_dt_text t : tm_ok t -> scan dt_format (dt_text t) = Ret [tm_year t + 1900; tm_mon t + 1; tm_mday t; tm_hour t; tm_min t; tm_sec t].
Proof.
  intros (Hy & Hm & Hd & Hh & Hn & Hs). unfold dt_format, dt_text.
  erewrite scan_dec by (apply scan_year; [done|by intros c r' [= <- _]]). rewrite scan_lit.
  erewrite scan_dec by (apply scan_two; [lia|by intros c r' [= <- _]]). rewrite scan_lit.
  erewrite scan_dec by (apply scan_two; [lia|by intros c r' [= <- _]]).
  rewrite scan_blank by lia.
  erewrite scan_dec by (apply scan_two; [lia|by intros c r' [= <- _]]). rewrite scan_lit.
  erewrite scan_dec by (apply scan_two; [lia|by intros c r' [= <- _]]). rewrite scan_lit.
  rewrite <- (app_nil_r (two (tm_sec t))). erewrite scan_dec by (apply scan_two; [lia|done]). done.
Qed.
Lemma tm_of_text t : tm_ok t -> tm_of [tm_year t + 1900; tm_mon t + 1; tm_mday t; tm_hour t; tm_min t; tm_sec t] = Ret t.
Proof.
  intros (Hy & Hm & _). unfold tm_of. cbn [lookup list_lookup default from_option id]. unfold INT_MAX in Hy.
  replace (tm_year t + 1900 - 1900) with (tm_year t) by lia. replace (tm_mon t + 1 - 1) with (tm_mon t) by lia.
  rewrite !int_chk_ok by (unfold INT_MIN, INT_MAX; lia). cbn [mbind outcome_bind]. by destruct t.
Qed.
Lemma dt_text_length t : (15 < length (dt_text t))%nat.
Proof.
  unfold dt_text, print_int. rewrite length_app. cbn [length two app].
  assert (forall n, 0 < length (print_dec n))%nat as Hp by (intros n; unfold print_dec; cbn [dec_loop]; rewrite length_app; cbn [length]; lia).
  destruct (tm_year t + 1900 <? 0); cbn [length]; [pose proof (Hp (- (tm_year t + 1900)))|pose proof (Hp (tm_year t + 1900))]; lia.
Qed.

(** A time printed into an array that is large enough and read again gives the timestamp that
    [mktime] has for the calendar time, and two printed times differ by the minutes between
    them, rounded to zero. *)
Theorem datetime_roundtrip localtime mktime s t size :
  localtime (atol s) = Some t -> tm_ok t -> Z.of_nat (length (dt_text t)) < size < 2 ^ 31 ->
  exists text, convert_timestamp_to_datetime localtime s size = Ret (Some text) /\ datetime_to_timestamp mktime text = Ret (mktime t) /\
    forall t', tm_ok t' -> INT_MIN <= Z.quot (mktime t' - mktime t) 60 <= INT_MAX ->
      time_diff mktime text (dt_text t') = Ret (Z.quot (mktime t' - mktime t) 60).
Proof.
  intros El Ht Hs. exists (dt_text t). unfold convert_timestamp_to_datetime, datetime_to_timestamp, time_diff. rewrite El, scan_dt_text by done. cbn [deref mbind outcome_bind].
  rewrite tm_of_text by done. cbn [mbind outcome_bind]. split; [|split; [done|]].
  - rewrite wrap_small by (unfold in_range; lia). unfold strftime. by destruct (Z.leb_spec (Z.of_nat (length (dt_text t)) + 1) size); [|lia].
  - intros t' Ht' Hi. cbn [length Nat.eqb negb]. rewrite scan_dt_text by done. cbn [mbind outcome_bind length Nat.eqb negb]. rewrite (tm_of_text t') by done. cbn [mbind outcome_bind].
    by apply int_chk_ok.
Qed.

(** [get_current_time] never succeeds: the size it passes is that of a pointer, and no date
    fits. *)
Theorem get_current_time_fails localtime cur_time now t : localtime now = Some t -> get_current_time localtime cur_time now = Ret (1, None).
Proof.
  intros E. unfold get_current_time. destruct cur_time; cbn [negb]; [|done]. destruct (now =? -1); [done|]. rewrite E. cbn [deref mbind outcome_bind].
  unfold strftime. pose proof (dt_text_length t). by destruct (Z.leb_spec (Z.of_nat (length (dt_text t)) + 1) 8); [lia|].
Qed.

(** A sleep is passed on as seconds and nanoseconds in range whose sum is the time asked for;
    a negative time is passed on as negative parts. *)
Theorem nv_sleep_ms_spec ms : ns (nv_sleep_ms ms) = ms * 1000000 /\ (0 <= ms -> 0 <= tv_sec (nv_sleep_ms ms) /\ 0 <= tv_nsec (nv_sleep_ms ms) < 1000000000) /\
  (ms < 0 -> tv_sec (nv_sleep_ms ms) < 0 \/ tv_nsec (nv_sleep_ms ms) < 0).
Proof.
  unfold ns, nv_sleep_ms. cbn [tv_sec tv_nsec]. pose proof (Z.quot_rem ms 1000 ltac:(lia)) as Hq. split; [lia|]. split; intros Hm.
  - pose proof (Z.rem_bound_pos ms 1000 Hm ltac:(lia)). pose proof (Z.quot_pos ms 1000 Hm ltac:(lia)). lia.
  - pose proof (Z.rem_bound_pos (- ms) 1000 ltac:(lia) ltac:(lia)). pose proof (Z.rem_opp_l ms 1000 ltac:(lia)). pose proof (Z.quot_opp_l ms 1000 ltac:(lia)). pose proof (Z.quot_pos (- ms) 1000 ltac:(lia) ltac:(lia)). lia.
Qed.

(** ** A time zone with one moment *)
Definition noon : tm := mkTm 124 10 13 11 33 0.
Lemma noon_ok : tm_ok noon.
Proof. unfold tm_ok, noon, INT_MAX. cbn [tm_year tm_mon tm_mday tm_hour tm_min tm_sec]. lia. Qed.
Lemma datetime_roundtrip_witness : exists text, convert_timestamp_to_datetime (fun _ => Some noon) (str "1731497580") 20 = Ret (Some text) /\
  datetime_to_timestamp (fun t => tm_hour t * 3600) text = Ret 39600 /\ time_diff (fun t => tm_hour t * 3600) text (dt_text (mkTm 124 10 13 20 33 0)) = Ret 540.
Proof.
  destruct (datetime_roundtrip (fun _ => Some noon) (fun t => tm_hour t * 3600) (str "1731497580") noon 20) as (text & E & Ed & Et); [done|apply noon_ok|vm_compute; done|].
  exists text. split; [done|]. split; [done|]. apply (Et (mkTm 124 10 13 20 33 0)); [unfold tm_ok, INT_MAX; cbn [tm_year tm_mon tm_mday tm_hour tm_min tm_sec]; lia|vm_compute; done].
Defined.
Lemma get_current_time_fails_witness : get_current_time (fun _ => Some noon) true 0 = Ret (1, None).
Proof. by apply (get_current_time_fails _ true 0 noon). Defined.
Lemma nv_sleep_ms_spec_witness : ns (nv_sleep_ms 1500) = 1500000000 /\ tv_nsec (nv_sleep_ms 1500) < 1000000000.
Proof. destruct (nv_sleep_ms_spec 1500) as (H1 & H2 & _). split; [done|]. by apply H2. Defined.

End SysTime.
