(* ===== verification/Threads.v ===== *)
(** * Threads, daemons and streams (base/sys/nv_thread.c, nv_fork.c, nv_file.c)

    Wrappers of system calls that keep some state of their own or put several calls together.
    Which calls succeed is an argument.  Theorems: thread attributes are destroyed exactly when
    the initialisation fails; the deadline of a timed join is normalised; a daemon has exactly
    three descriptors; asking for a file's size keeps the position. *)
From S2P Require Import Prelude.

Module Thread.

Definition SCHED_OTHER : Z := 0.
Definition SCHED_FIFO : Z := 1.
Definition SCHED_RR : Z := 2.
Definition EINVAL : Z := 22.

(** [pthread_attr_t] once initialised; 0 and [None] are the defaults. *)
Record attr_t := mkAttr { detach : Z; stack : Z; sched_policy : option Z; sched_priority : Z; explicit : bool }.
(** The memory of the attribute object: never initialised or destroyed ([None]), and how often
    it was destroyed. *)
Record attr_mem := mkMem { contents : option attr_t; destroyed : nat }.
Definition destroy (m : attr_mem) : attr_mem := mkMem None (S (destroyed m)).
Definition update (f : attr_t -> attr_t) (m : attr_mem) : attr_mem := mkMem (f <$> contents m) (destroyed m).

(** [ok i]: the [i]-th call succeeds. *)
Definition nv_init_thread_attr (ok : nat -> bool) (m : attr_mem) (detach_state stack_size : Z) : Z * attr_mem :=
  if negb (ok 0%nat) then (-1, m) else
  let m := mkMem (Some (mkAttr 0 0 None 0 false)) (destroyed m) in
  if negb (ok 1%nat) then (-1, destroy m) else
  let m := update (fun a => mkAttr detach_state (stack a) (sched_policy a) (sched_priority a) (explicit a)) m in
  if (0 <? stack_size) && negb (ok 2%nat) then (-1, destroy m) else
  (0, if 0 <? stack_size then update (fun a => mkAttr (detach a) stack_size (sched_policy a) (sched_priority a) (explicit a)) m else m).

Definition nv_init_thread_attr_ex (ok : nat -> bool) (m : attr_mem) (detach_state stack_size policy priority : Z) : Z * attr_mem :=
  let '(rc, m) := nv_init_thread_attr ok m detach_state stack_size in
  if negb (rc =? 0) then (-1, m) else
  if (policy =? SCHED_OTHER) || (policy =? SCHED_FIFO) || (policy =? SCHED_RR) then
    if negb (ok 3%nat) then (-1, destroy m) else
    let m := update (fun a => mkAttr (detach a) (stack a) (Some policy) (sched_priority a) (explicit a)) m in
    if negb (ok 4%nat) then (-1, destroy m) else
    let m := update (fun a => mkAttr (detach a) (stack a) (sched_policy a) priority (explicit a)) m in
    if negb (ok 5%nat) then (-1, destroy m) else
    (0, update (fun a => mkAttr (detach a) (stack a) (sched_policy a) (sched_priority a) true) m)
  else (0, m).

(** The deadline given to [pthread_timedjoin_np], or [EINVAL]; [sec] and [nsec] are the clock. *)
Definition nv_try_join_thread (sec nsec timeout_ms : Z) : Z + Z * Z :=
  if timeout_ms <? 0 then inl EINVAL else
  let sec := sec + Z.quot timeout_ms 1000 in
  let nsec := nsec + Z.rem timeout_ms 1000 * 1000000 in
  if 1000000000 <=? nsec then inr (sec + 1, nsec - 1000000000) else inr (sec, nsec).
(** The argument of [usleep], an unsigned 32-bit integer. *)
Definition nv_thread_sleep_ms (ms : Z) : Z := u32 (u64 (ms * 1000)).

(** The extended initialisation either succeeds, and the attributes are exactly those asked
    for, a policy of another number being left out, or it fails and what was initialised has
    been destroyed once. *)
Theorem nv_init_thread_attr_spec ok d st pol pri :
  let '(rc, m) := nv_init_thread_attr_ex ok (mkMem None 0) d st pol pri in
  (rc = 0 /\ destroyed m = 0%nat /\ contents m = Some (if (0 <=? pol) && (pol <=? 2) then mkAttr d (Z.max 0 st) (Some pol) pri true else mkAttr d (Z.max 0 st) None 0 false)) \/
  (rc = -1 /\ contents m = None /\ destroyed m = if ok 0%nat then 1%nat else 0%nat).
Proof.
  unfold nv_init_thread_attr_ex, nv_init_thread_attr, SCHED_OTHER, SCHED_FIFO, SCHED_RR.
  assert ((pol =? 0) || (pol =? 1) || (pol =? 2) = (0 <=? pol) && (pol <=? 2)) as -> by lia.
  destruct (ok 0%nat); [|by right]. cbn [negb]. destruct (ok 1%nat); [|by right]. cbn [negb].
  destruct (Z.ltb_spec 0 st); cbn [andb]; [destruct (ok 2%nat); [|by right]|]; cbn [negb]; change (negb (0 =? 0)) with false; cbv iota;
    [rewrite Z.max_r by lia|rewrite Z.max_l by lia]; destruct ((0 <=? pol) && (pol <=? 2)); try (by left); (destruct (ok 3%nat); [|by right]);
    (destruct (ok 4%nat); [|by right]); (destruct (ok 5%nat); [|by right]); by left.
Qed.

(** The deadline of a timed join is the clock plus the timeout, with nanoseconds in range;
    a sleep of 4294968 milliseconds or more is cut to 32 bits of microseconds. *)
Theorem nv_thread_times sec nsec ms : 0 <= nsec < 1000000000 -> 0 <= ms < 2 ^ 31 ->
  (exists s n, nv_try_join_thread sec nsec ms = inr (s, n) /\ 0 <= n < 1000000000 /\ s * 1000000000 + n = sec * 1000000000 + nsec + ms * 1000000) /\
  (nv_thread_sleep_ms ms = ms * 1000 <-> ms < 4294968).
Proof.
  intros Hn Hm. split.
  - unfold nv_try_join_thread. rewrite (proj2 (Z.ltb_ge ms 0)) by lia. pose proof (Z.quot_rem ms 1000 ltac:(lia)). pose proof (Z.rem_bound_pos ms 1000 ltac:(lia) ltac:(lia)).
    destruct (Z.leb_spec 1000000000 (nsec + Z.rem ms 1000 * 1000000)); eexists _, _; (split; [done|]); lia.
  - unfold nv_thread_sleep_ms. rewrite (wrap_small 64) by (unfold in_range; lia). unfold wrap. split; intros Hs.
    + pose proof (Z.mod_pos_bound (ms * 1000) (2 ^ 32) ltac:(lia)). lia.
    + apply Z.mod_small. lia.
Qed.
Lemma nv_thread_times_witness : exists s n, nv_try_join_thread 10 999000000 1500 = inr (s, n) /\ n < 1000000000.
Proof. destruct (nv_thread_times 10 999000000 1500) as [(s & n & E & Hn & _) _]; [lia|lia|]. exists s, n. split; [done|lia]. Defined.

End Thread.

Module Process.

(** Descriptors and what they are open on: [true] is /dev/null. *)
Abbreviation fdtable := (gmap Z bool).

(** [for (fd = max; fd >= 0; --fd) close(fd)] *)
Fixpoint close_all (max : nat) (t : fdtable) : fdtable :=
  let t := delete (Z.of_nat max) t in match max with O => t | S m => close_all m t end.
(** [open] takes the lowest free number. *)
Fixpoint lowest (n : nat) (fd : Z) (t : fdtable) : Z :=
  match n with O => fd | S n => if bool_decide (t !! fd = None) then fd else lowest n (fd + 1) t end.
Definition open_null (t : fdtable) : fdtable := <[lowest (size t) 0 t := true]> t.

(** What the calls did: the parent leaves, the child goes on or fails. *)
Inductive daemon_result := Parent_exits | Fork_failed | Child (rc : Z) (t : fdtable) (umask : option Z).
(** [fork] is its result; [setsid_ok], [chdir_ok] the results of the next calls, [max] the limit
    of [sysconf]. *)
Definition nv_create_daemon (fork : Z) (setsid_ok chdir_ok : bool) (max : nat) (t : fdtable) : daemon_result :=
  if fork <? 0 then Fork_failed else
  if 0 <? fork then Parent_exits else
  if negb setsid_ok then Child (-1) t None else
  if negb chdir_ok then Child (-1) t None else
  Child 0 (open_null (open_null (open_null (close_all max t)))) (Some 0).

Definition nv_create_process (fork : Z) : option Z := if fork <? 0 then Some (-1) else if fork =? 0 then None else Some fork.
(** [status]: [None] when waiting fails; [Some None] when the child was killed. *)
Definition nv_wait_process (status : option (option Z)) : Z := match status with Some (Some c) => c | _ => -1 end.

Lemma lookup_close_all max t fd : close_all max t !! fd = if (0 <=? fd) && (fd <=? Z.of_nat max) then None else t !! fd.
Proof.
  revert t. induction max as [|m IH]; intros t; cbn [close_all].
  - change (Z.of_nat 0) with 0. destruct (decide (fd = 0)) as [->|]; [by rewrite lookup_delete_eq|]. rewrite lookup_delete_ne by done.
    by destruct (Z.leb_spec 0 fd), (Z.leb_spec fd 0); try lia.
  - rewrite IH. assert ((0 <=? fd) && (fd <=? Z.of_nat (S m)) = (0 <=? fd) && (fd <=? Z.of_nat m) || (fd =? Z.of_nat (S m))) as -> by (apply eq_true_iff_eq; rewrite orb_true_iff, !andb_true_iff, !Z.leb_le, Z.eqb_eq; lia).
    destruct ((0 <=? fd) && (fd <=? Z.of_nat m)); [done|]. cbn [orb]. destruct (Z.eqb_spec fd (Z.of_nat (S m))) as [->|]; [by rewrite lookup_delete_eq|by rewrite lookup_delete_ne].
Qed.

(** A daemon that starts has exactly the descriptors 0, 1 and 2, all on the null device,
    whatever it inherited below the limit; descriptors above the limit stay. *)
Theorem nv_create_daemon_descriptors max t : (2 <= max)%nat -> (forall fd, is_Some (t !! fd) -> 0 <= fd <= Z.of_nat max) ->
  nv_create_daemon 0 true true max t = Child 0 (<[2 := true]> (<[1 := true]> (<[0 := true]> ∅))) (Some 0).
Proof.
  intros Hmax Ht. unfold nv_create_daemon. cbn [Z.ltb Z.compare negb]. do 2 f_equal.
  assert (close_all max t = ∅) as ->; [|done].
  apply map_eq. intros fd. rewrite lookup_close_all, lookup_empty. destruct ((0 <=? fd) && (fd <=? Z.of_nat max)) eqn:E; [done|].
  destruct (t !! fd) eqn:El; [|done]. specialize (Ht fd ltac:(by eexists)). lia.
Qed.
Lemma nv_create_daemon_descriptors_witness : nv_create_daemon 0 true true 1023 {[0 := false; 7 := false]} = Child 0 {[2 := true; 1 := true; 0 := true]} (Some 0).
Proof.
  apply (nv_create_daemon_descriptors 1023 {[0 := false; 7 := false]}); [lia|].
  intros fd [b [[<- _]|[_ [<- _]%lookup_singleton_Some]]%lookup_insert_Some]; lia.
Defined.

End Process.

Module File.

(** A stream: the length of the file and the position. *)
Record stream := mkStream { len : Z; pos : Z }.

(** [t1], [s1], [t2], [s2]: the calls of [ftell] and [fseek] succeed. *)
Definition nv_get_file_size (t1 s1 t2 s2 : bool) (f : stream) : Z * stream :=
  if negb t1 then (-1, f) else
  let current_pos := pos f in
  if negb s1 then (-1, f) else
  let f := mkStream (len f) (len f) in
  if negb t2 then (-1, f) else
  let size := pos f in
  if negb s2 then (-1, f) else (size, mkStream (len f) current_pos).

(** A size is the length of the file and leaves the position as it was; a failure after the
    first move leaves the position at the end. *)
Theorem nv_get_file_size_spec t1 s1 t2 s2 f : 0 <= len f ->
  let '(n, f') := nv_get_file_size t1 s1 t2 s2 f in
  len f' = len f /\ (0 <= n -> n = len f /\ pos f' = pos f) /\ (n < 0 -> pos f' = if t1 && s1 then len f else pos f).
Proof. intros Hl. unfold nv_get_file_size. destruct t1, s1, t2, s2; cbn; split_and!; done || lia. Qed.
Lemma nv_get_file_size_spec_witness : (nv_get_file_size true true true true (mkStream 10 3)).1 = 10.
Proof. destruct (nv_get_file_size_spec true true true true (mkStream 10 3)) as (_ & H & _); [done|]. by apply H. Defined.

End File.
