(* ===== verification/RbTree.v ===== *)
(** * The red-black tree (base/data/nv_rb_tree.c)

    Nodes with parent pointers in a heap; 0 is NULL, and reading through an address that
    is not allocated is undefined behaviour.  The operations, trees and their contexts as
    what the heap holds, and the rotations; insertion is in [RbInsert]. *)
From S2P Require Import Prelude.

Module RbTree.

Definition NULL : Z := 0.
Definition RED : Z := 0.
Definition BLACK : Z := 1.

Record nv_rb_Node := mkNode { data : Z; color : Z; left : Z; right : Z; parent : Z }.
Abbreviation heap := (gmap Z nv_rb_Node).

(** The code treats the two sides in mirror image: [true] is left. *)
Definition child (d : bool) (n : nv_rb_Node) : Z := if d then left n else right n.
Definition set_child (d : bool) (v : Z) (n : nv_rb_Node) : nv_rb_Node :=
  if d then mkNode (data n) (color n) v (right n) (parent n) else mkNode (data n) (color n) (left n) v (parent n).
Definition set_parent (v : Z) (n : nv_rb_Node) : nv_rb_Node := mkNode (data n) (color n) (left n) (right n) v.
Definition set_color (v : Z) (n : nv_rb_Node) : nv_rb_Node := mkNode (data n) v (left n) (right n) (parent n).

(** A store through a pointer. *)
Definition store (h : heap) (a : Z) (f : nv_rb_Node -> nv_rb_Node) : outcome heap :=
  if h !! a is Some _ then Ret (alter f a h) else UB.

(** [mem]: the result of [malloc], which is not checked. *)
Definition nv_rb_newNode (h : heap) (mem : option Z) (d : Z) : outcome (heap * Z) :=
  match mem with
  | None => UB
  | Some a => Ret (<[a := mkNode d RED NULL NULL NULL]> h, a)
  end.

(** [nv_rb_leftRotate] and [nv_rb_rightRotate]: the child on the other side of [d] takes
    the place of [pt], which becomes its child on the side [d]. *)
Definition rotate (d : bool) (h : heap) (root pt : Z) : outcome (heap * Z) :=
  n ← deref (h !! pt);
  let q := child (negb d) n in
  nq ← deref (h !! q);
  let m := child d nq in
  h ← store h pt (set_child (negb d) m);
  h ← (if m =? NULL then Ret h else store h m (set_parent pt));
  let p := parent n in
  h ← store h q (set_parent p);
  '(h, root) ← (if p =? NULL then Ret (h, q)
                else np ← deref (h !! p);
                     h ← store h p (set_child (pt =? left np) q);
                     Ret (h, root));
  h ← store h q (set_child d pt);
  h ← store h pt (set_parent q);
  Ret (h, root).
Definition nv_rb_leftRotate : heap -> Z -> Z -> outcome (heap * Z) := rotate true.
Definition nv_rb_rightRotate : heap -> Z -> Z -> outcome (heap * Z) := rotate false.

(** One turn of the loop of [nv_rb_insertFix] with a red parent: case A when the parent is
    a left child ([d]), case B otherwise. *)
Definition fix_step (h : heap) (root pt : Z) : outcome (heap * Z * Z) :=
  n ← deref (h !! pt);
  let p := parent n in
  np ← deref (h !! p);
  let g := parent np in
  ng ← deref (h !! g);
  let d := p =? left ng in
  let u := child (negb d) ng in
  red_uncle ← (if u =? NULL then Ret false else nu ← deref (h !! u); Ret (color nu =? RED));
  if red_uncle : bool then
    h ← store h g (set_color RED);
    h ← store h p (set_color BLACK);
    h ← store h u (set_color BLACK);
    Ret (h, root, g)
  else
    '(h, root, p) ← (if pt =? child (negb d) np then
                       '(h, root) ← rotate d h root p;
                       np ← deref (h !! p);
                       Ret (h, root, parent np)
                     else Ret (h, root, p));
    '(h, root) ← rotate (negb d) h root g;
    np ← deref (h !! p);
    ng ← deref (h !! g);
    h ← store h p (set_color (color ng));
    h ← store h g (set_color (color np));
    Ret (h, root, p).

Fixpoint fix_loop (fuel : nat) (h : heap) (root pt : Z) : outcome (heap * Z) :=
  match fuel with
  | O => UB
  | S fuel' =>
      if pt =? root then Ret (h, root)
      else
        n ← deref (h !! pt);
        if color n =? BLACK then Ret (h, root)
        else
          np ← deref (h !! parent n);
          if color np =? RED then '(h, root, pt) ← fix_step h root pt; fix_loop fuel' h root pt
          else Ret (h, root)
  end.

(** The number of nodes is enough turns and calls (proved below). *)
Definition nv_rb_insertFix (h : heap) (root pt : Z) : outcome (heap * Z) :=
  '(h, root) ← fix_loop (S (size h)) h root pt;
  h ← store h root (set_color BLACK);
  Ret (h, root).

Fixpoint nv_rb_insertBST (fuel : nat) (h : heap) (root pt : Z) : outcome (heap * Z) :=
  match fuel with
  | O => UB
  | S fuel' =>
      if root =? NULL then Ret (h, pt)
      else
        npt ← deref (h !! pt);
        n ← deref (h !! root);
        if data npt <? data n then
          '(h, c) ← nv_rb_insertBST fuel' h (left n) pt;
          h ← store h root (set_child true c);
          h ← store h c (set_parent root);
          Ret (h, root)
        else if data n <? data npt then
          '(h, c) ← nv_rb_insertBST fuel' h (right n) pt;
          h ← store h root (set_child false c);
          h ← store h c (set_parent root);
          Ret (h, root)
        else Ret (h, root)
  end.

Definition nv_rb_insert (h : heap) (root : Z) (mem : option Z) (d : Z) : outcome (heap * Z) :=
  '(h, pt) ← nv_rb_newNode h mem d;
  '(h, root) ← nv_rb_insertBST (S (size h)) h root pt;
  nv_rb_insertFix h root pt.

Fixpoint nv_rb_search (fuel : nat) (h : heap) (root d : Z) : outcome Z :=
  match fuel with
  | O => UB
  | S fuel' =>
      if root =? NULL then Ret root
      else
        n ← deref (h !! root);
        if data n =? d then Ret root
        else if data n <? d then nv_rb_search fuel' h (right n) d
        else nv_rb_search fuel' h (left n) d
  end.

(** The numbers printed. *)
Fixpoint nv_rb_inorder (fuel : nat) (h : heap) (root : Z) : outcome (list Z) :=
  match fuel with
  | O => UB
  | S fuel' =>
      if root =? NULL then Ret []
      else
        n ← deref (h !! root);
        l ← nv_rb_inorder fuel' h (left n);
        r ← nv_rb_inorder fuel' h (right n);
        Ret (l ++ data n :: r)
  end.

(** ** Trees and contexts *)

(** A tree with the addresses of its nodes. *)
Inductive tree := Leaf | Node (a c : Z) (l : tree) (x : Z) (r : tree).
Definition addr (t : tree) : Z := match t with Leaf => NULL | Node a _ _ _ _ => a end.
(** A node with [t] on the side [d] and [u] on the other. *)
Definition mk (d : bool) (a c x : Z) (t u : tree) : tree := if d then Node a c t x u else Node a c u x t.

Fixpoint addrs (t : tree) : list Z := match t with Leaf => [] | Node a _ l _ r => [a] ++ addrs l ++ addrs r end.
Fixpoint keys (t : tree) : list Z := match t with Leaf => [] | Node _ _ l x r => keys l ++ [x] ++ keys r end.

(** A node on the way to the root: the hole is its child on the side [d]. *)
Record frame := mkFrame { fd : bool; fa : Z; fc : Z; fx : Z; fsib : tree }.
Definition fill (t : tree) (f : frame) : tree := mk (fd f) (fa f) (fc f) (fx f) t (fsib f).
Definition plug (t : tree) (fs : list frame) : tree := foldl fill t fs.
Definition above (fs : list frame) : Z := match fs with [] => NULL | f :: _ => fa f end.
Definition frame_addrs (fs : list frame) : list Z := concat (map (fun f => [fa f] ++ addrs (fsib f)) fs).

(** The heap holds the tree whose root has the parent [p]; the heap holds the context whose
    hole is filled by the node at [a]. *)
Definition cell (d : bool) (x c t u p : Z) : nv_rb_Node := if d then mkNode x c t u p else mkNode x c u t p.
Fixpoint rep (h : heap) (p : Z) (t : tree) : Prop :=
  match t with
  | Leaf => True
  | Node a c l x r => a <> NULL /\ h !! a = Some (mkNode x c (addr l) (addr r) p) /\ rep h a l /\ rep h a r
  end.
Fixpoint rep_ctx (h : heap) (a : Z) (fs : list frame) : Prop :=
  match fs with
  | [] => True
  | f :: fs' =>
      fa f <> NULL /\ h !! fa f = Some (cell (fd f) (fx f) (fc f) a (addr (fsib f)) (above fs')) /\
      rep h (fa f) (fsib f) /\ rep_ctx h (fa f) fs'
  end.

Lemma rep_mk h p d a c x t u : rep h p (mk d a c x t u) <->
  a <> NULL /\ h !! a = Some (cell d x c (addr t) (addr u) p) /\ rep h a t /\ rep h a u.
Proof. destruct d; simpl; tauto. Qed.
Lemma addr_mk d a c x t u : addr (mk d a c x t u) = a.
Proof. by destruct d. Qed.
Lemma mk_negb d a c x t u : mk (negb d) a c x t u = mk d a c x u t.
Proof. by destruct d. Qed.
Lemma node_mk d a c l x r : Node a c l x r = mk d a c x (if d then l else r) (if d then r else l).
Proof. by destruct d. Qed.

(** Permutations by counting. *)
Ltac perm :=
  repeat match goal with H : Permutation _ _ |- _ => rewrite (Permutation_count_occ Z.eq_dec) in H end;
  apply (Permutation_count_occ Z.eq_dec); let z := fresh "z" in intros z;
  repeat match goal with H : forall z, count_occ _ _ z = _ |- _ => specialize (H z) end;
  repeat (progress simpl in * || rewrite !count_occ_app in * ||
          match goal with |- context [Z.eq_dec ?a ?b] => destruct (Z.eq_dec a b) end); lia.

Lemma addrs_mk d a c x t u : addrs (mk d a c x t u) ≡ₚ [a] ++ addrs t ++ addrs u.
Proof. destruct d; simpl; [done|]. by rewrite (Permutation_app_comm (addrs u)). Qed.

(** *** Frame rules *)
Lemma rep_alter h p t a f : rep h p t -> a ∉ addrs t -> rep (alter f a h) p t.
Proof.
  revert p. induction t as [|b c l IHl x r IHr]; intros p; [done|]. simpl. intros (H1 & H2 & H3 & H4) Ha.
  split_and!; [done| |apply IHl; [done|set_solver]|apply IHr; [done|set_solver]]. rewrite lookup_alter_ne; [done|set_solver].
Qed.
Lemma rep_insert h p t a n : rep h p t -> a ∉ addrs t -> rep (<[a := n]> h) p t.
Proof.
  revert p. induction t as [|b c l IHl x r IHr]; intros p; [done|]. simpl. intros (H1 & H2 & H3 & H4) Ha.
  split_and!; [done| |apply IHl; [done|set_solver]|apply IHr; [done|set_solver]]. rewrite lookup_insert_ne; [done|set_solver].
Qed.
Lemma ctx_alter h b fs a f : rep_ctx h b fs -> a ∉ frame_addrs fs -> rep_ctx (alter f a h) b fs.
Proof.
  revert b. induction fs as [|[d fa0 c x s] fs IH]; intros b; [done|]. unfold frame_addrs. simpl. fold (frame_addrs fs).
  intros (H1 & H2 & H3 & H4) Ha. split_and!; [done| |apply rep_alter; [done|set_solver]|apply IH; [done|set_solver]].
  rewrite lookup_alter_ne; [done|set_solver].
Qed.
(** Giving a subtree a new parent. *)
Lemma rep_reparent h p q t : rep h p t -> NoDup (addrs t) -> rep (alter (set_parent q) (addr t) h) q t.
Proof.
  destruct t as [|a c l x r]; [done|]. simpl. intros (H1 & H2 & H3 & H4) Hn.
  apply NoDup_cons in Hn as [Ha _]. split_and!; [done| |apply rep_alter; [done|set_solver]|apply rep_alter; [done|set_solver]].
  by rewrite lookup_alter_eq, H2.
Qed.
Lemma rep_addr h p t : rep h p t -> t <> Leaf -> addr t <> NULL /\ is_Some (h !! addr t).
Proof. destruct t; [done|]. simpl. intros (? & ? & _) _. split; [done|by eexists]. Qed.
Lemma rep_null h p t : rep h p t -> addr t = NULL -> t = Leaf.
Proof. destruct t; [done|]. simpl. by intros (? & _). Qed.

(** The whole tree is a focus in its context. *)
Lemma rep_plug h t fs : rep h NULL (plug t fs) <-> rep h (above fs) t /\ rep_ctx h (addr t) fs.
Proof.
  revert t. induction fs as [|[d a c x s] fs IH]; intros t; [simpl; tauto|].
  change (plug t (mkFrame d a c x s :: fs)) with (plug (mk d a c x t s) fs). rewrite IH, rep_mk, addr_mk. simpl. tauto.
Qed.
Lemma addrs_plug t fs : addrs (plug t fs) ≡ₚ addrs t ++ frame_addrs fs.
Proof.
  revert t. induction fs as [|[d a c x s] fs IH]; intros t; [by rewrite app_nil_r|].
  change (plug t (mkFrame d a c x s :: fs)) with (plug (mk d a c x t s) fs). rewrite IH, addrs_mk.
  unfold frame_addrs. simpl. fold (frame_addrs fs). perm.
Qed.
Lemma addr_plug t t' fs : addr t = addr t' -> addr (plug t fs) = addr (plug t' fs).
Proof.
  revert t t'. induction fs as [|[d a c x s] fs IH]; intros t t' E; [done|]. simpl. apply IH. unfold fill. by rewrite !addr_mk.
Qed.

(** *** Cells *)
Lemma child_cell d x c t u p : child d (cell d x c t u p) = t.
Proof. by destruct d. Qed.
Lemma child_cell_negb d x c t u p : child (negb d) (cell d x c t u p) = u.
Proof. by destruct d. Qed.
Lemma cell_negb d x c t u p : cell (negb d) x c t u p = cell d x c u t p.
Proof. by destruct d. Qed.
Lemma set_child_cell d v x c t u p : set_child d v (cell d x c t u p) = cell d x c v u p.
Proof. by destruct d. Qed.
Lemma set_parent_cell d v x c t u p : set_parent v (cell d x c t u p) = cell d x c t u v.
Proof. by destruct d. Qed.
Lemma set_color_cell d v x c t u p : set_color v (cell d x c t u p) = cell d x v t u p.
Proof. by destruct d. Qed.
Lemma parent_cell d x c t u p : parent (cell d x c t u p) = p.
Proof. by destruct d. Qed.
Lemma color_cell d x c t u p : color (cell d x c t u p) = c.
Proof. by destruct d. Qed.
Lemma data_cell d x c t u p : data (cell d x c t u p) = x.
Proof. by destruct d. Qed.
(** Which child the hole is. *)
Lemma left_cell d x c t u p : t <> u -> (t =? left (cell d x c t u p)) = d.
Proof. intros. destruct d; simpl; [apply Z.eqb_refl|by apply Z.eqb_neq]. Qed.

Lemma store_Ret h a f n : h !! a = Some n -> store h a f = Ret (alter f a h).
Proof. unfold store. by intros ->. Qed.

(** The addresses of two disjoint lists differ. *)
Lemma addr_fresh h p t a : rep h p t -> a ∉ addrs t -> a <> NULL -> addr t <> a.
Proof. destruct t; simpl; [naive_solver|]. intros _ Ha _ ->. apply Ha. set_solver. Qed.

(** The heap outside [l] is unchanged. *)
Definition same_outside (l : list Z) (h h' : heap) : Prop := forall a, a ∉ l -> h' !! a = h !! a.
Lemma rep_agree h h' p t : rep h p t -> (forall a, a ∈ addrs t -> h' !! a = h !! a) -> rep h' p t.
Proof.
  revert p. induction t as [|a c l IHl x r IHr]; intros p; [done|]. simpl. intros (H1 & H2 & H3 & H4) Ha.
  split_and!; [done|rewrite Ha; [done|set_solver]|apply IHl; [done|set_solver]|apply IHr; [done|set_solver]].
Qed.
Lemma ctx_agree h h' b fs : rep_ctx h b fs -> (forall a, a ∈ frame_addrs fs -> h' !! a = h !! a) -> rep_ctx h' b fs.
Proof.
  revert b. induction fs as [|[d fa0 c x s] fs IH]; intros b; [done|]. unfold frame_addrs. simpl. fold (frame_addrs fs).
  intros (H1 & H2 & H3 & H4) Ha.
  split_and!; [done|rewrite Ha; [done|set_solver]|apply (rep_agree h); [done|set_solver]|apply IH; [done|set_solver]].
Qed.
Lemma rep_outside l h h' p t : same_outside l h h' -> rep h p t -> (forall a, a ∈ addrs t -> a ∉ l) -> rep h' p t.
Proof. intros Hs Ht Hd. apply (rep_agree h); [done|]. intros a Ha. by apply Hs, Hd. Qed.
Lemma ctx_outside l h h' b fs : same_outside l h h' -> rep_ctx h b fs -> (forall a, a ∈ frame_addrs fs -> a ∉ l) -> rep_ctx h' b fs.
Proof. intros Hs Ht Hd. apply (ctx_agree h); [done|]. intros a Ha. by apply Hs, Hd. Qed.
Lemma addr_in t : t <> Leaf -> addr t ∈ addrs t.
Proof. destruct t; [done|]. simpl. set_solver. Qed.

(** The moved subtree gets its new parent. *)
Lemma adopt_spec h q pt m : rep h q m -> NoDup (addrs m) ->
  exists h', (if addr m =? NULL then Ret h else store h (addr m) (set_parent pt)) = Ret h' /\ rep h' pt m /\ same_outside (addrs m) h h'.
Proof.
  intros Hm Hn. destruct (Z.eqb_spec (addr m) NULL) as [E|E].
  - exists h. rewrite (rep_null _ _ _ Hm E). done.
  - assert (m <> Leaf) as Hl by (by intros ->). destruct (rep_addr _ _ _ Hm Hl) as [_ [n En]].
    eexists. split; [by eapply store_Ret|]. split; [by apply (rep_reparent _ q)|].
    intros a Ha. rewrite lookup_alter_ne; [done|]. intros <-. by apply Ha, addr_in.
Qed.

(** The node above the rotation gets its new child. *)
Lemma hang_spec h pt q fs t0 t1 : rep_ctx h pt fs -> NoDup (frame_addrs fs) -> pt ∉ frame_addrs fs -> pt <> NULL ->
  addr t0 = pt -> addr t1 = q ->
  exists h', (if above fs =? NULL then Ret (h, q) else np ← deref (h !! above fs);
      h ← store h (above fs) (set_child (pt =? left np) q); Ret (h, addr (plug t0 fs))) = Ret (h', addr (plug t1 fs)) /\
    rep_ctx h' q fs /\ same_outside (frame_addrs fs) h h'.
Proof.
  intros Hc Hn Hpt Hp0 <- <-. destruct fs as [|[d f c x s] fs]; [by exists h|]. unfold frame_addrs in *. simpl in *. fold (frame_addrs fs) in *.
  destruct Hc as (Hf & Ef & Hs & Hc). destruct (Z.eqb_spec f NULL); [done|]. rewrite Ef. cbn [deref mbind outcome_bind].
  rewrite left_cell, (store_Ret _ _ _ _ Ef) by (apply not_eq_sym; eapply addr_fresh; [done|set_solver|done]). cbn [mbind outcome_bind].
  apply NoDup_cons in Hn as [Nf Hn]. eexists. split; [do 2 f_equal; apply addr_plug; unfold fill; by rewrite !addr_mk|]. split_and!; [done| | | |].
  - rewrite lookup_alter_eq, Ef. simpl. by rewrite set_child_cell.
  - apply rep_alter; [done|set_solver].
  - apply ctx_alter; [done|set_solver].
  - intros a Ha. rewrite lookup_alter_ne; [done|set_solver].
Qed.

(** A rotation moves the nodes as its picture says, in any context. *)
Lemma rotate_spec d h pt c x m w q c' y o fs :
  let t0 := mk (negb d) pt c x (mk d q c' y m o) w in
  let t1 := mk d q c' y (mk (negb d) pt c x m w) o in
  rep h NULL (plug t0 fs) -> NoDup (addrs (plug t0 fs)) ->
  exists h', rotate d h (addr (plug t0 fs)) pt = Ret (h', addr (plug t1 fs)) /\ rep h' NULL (plug t1 fs).
Proof.
  intros t0 t1 [Hrep Hctx]%rep_plug Hnd. unfold t0 in Hrep. rewrite rep_mk, rep_mk, addr_mk in Hrep.
  unfold t0 in Hctx. rewrite addr_mk in Hctx. destruct Hrep as (Hpt & Ept & (Hq & Eq & Hm & Ho) & Hw).
  assert (addrs (plug t0 fs) ≡ₚ pt :: q :: addrs m ++ addrs o ++ addrs w ++ frame_addrs fs) as Hp
    by (rewrite addrs_plug; unfold t0; rewrite addrs_mk, addrs_mk; perm).
  rewrite Hp in Hnd. apply NoDup_cons in Hnd as [Npt [Nq (Nm & Dm & (_ & Do & (_ & Dw & Nf)%NoDup_app)%NoDup_app)%NoDup_app]%NoDup_cons].
  unfold rotate. rewrite Ept. cbn [deref mbind outcome_bind]. rewrite child_cell, Eq, parent_cell. cbn [deref mbind outcome_bind].
  rewrite child_cell, (store_Ret _ _ _ _ Ept). cbn [mbind outcome_bind]. set (h1 := alter _ pt h).
  destruct (adopt_spec h1 q pt m) as (h2 & -> & Hm2 & S2); [apply rep_alter; [done|set_solver]|done|]. cbn [mbind outcome_bind].
  assert (same_outside (pt :: addrs m) h h2) as S02.
  { intros a Ha. rewrite S2 by set_solver. unfold h1. rewrite lookup_alter_ne; [done|set_solver]. }
  assert (h2 !! q = Some (cell d y c' (addr m) (addr o) pt)) as Eq2 by (rewrite S02; [done|set_solver]).
  rewrite (store_Ret _ _ _ _ Eq2). cbn [mbind outcome_bind]. set (h3 := alter _ q h2).
  destruct (hang_spec h3 pt q fs t0 t1) as (h4 & -> & Hc4 & S4); [|done|set_solver|done|apply addr_mk|apply addr_mk|].
  { apply ctx_alter; [|set_solver]. eapply ctx_outside; [exact S02|done|set_solver]. }
  cbn [mbind outcome_bind].
  assert (same_outside (q :: frame_addrs fs) h2 h4) as S24.
  { intros a Ha. rewrite S4 by set_solver. unfold h3. rewrite lookup_alter_ne; [done|set_solver]. }
  assert (h4 !! q = Some (cell d y c' (addr m) (addr o) (above fs))) as Eq4
    by (rewrite S4 by set_solver; unfold h3; by rewrite lookup_alter_eq, Eq2; simpl; rewrite set_parent_cell).
  assert (h4 !! pt = Some (cell (negb d) x c (addr m) (addr w) (above fs))) as Ept4.
  { rewrite S24, S2 by set_solver. unfold h1. rewrite lookup_alter_eq, Ept. simpl. by rewrite set_child_cell. }
  rewrite (store_Ret _ _ _ _ Eq4). cbn [mbind outcome_bind].
  rewrite (store_Ret _ pt _ (cell (negb d) x c (addr m) (addr w) (above fs))) by (rewrite lookup_alter_ne; [done|set_solver]). cbn [mbind outcome_bind].
  eexists. split; [done|]. apply rep_plug. unfold t1. rewrite rep_mk, rep_mk, !addr_mk.
  assert (q <> pt) as Hqp by set_solver. split_and!; try done.
  - rewrite lookup_alter_ne, lookup_alter_eq, Eq4 by done. simpl. by rewrite set_child_cell.
  - rewrite lookup_alter_eq, lookup_alter_ne, Ept4 by done. simpl. by rewrite set_parent_cell.
  - do 2 (apply rep_alter; [|set_solver]). eapply rep_outside; [exact S24|done|set_solver].
  - do 2 (apply rep_alter; [|set_solver]). eapply rep_outside; [exact S24| |set_solver]. eapply rep_outside; [exact S02|done|set_solver].
  - do 2 (apply rep_alter; [|set_solver]). eapply rep_outside; [exact S24| |set_solver]. eapply rep_outside; [exact S02|done|set_solver].
  - do 2 (apply ctx_alter; [|set_solver]). done.
Qed.

End RbTree.
