(* ===== verification/RbInsert.v ===== *)
(** * Insertion into the red-black tree (base/data/nv_rb_tree.c)

    The balance invariant, one turn of the repair loop, and the insertion and search of
    [RbTree] against sorted lists: an insertion of a new key keeps the tree ordered and
    balanced and adds the key, a search finds exactly the keys inserted and descends at most
    twice the logarithm of their number, and inserting a key that is present dereferences
    NULL. *)
From S2P Require Import Prelude RbTree.
From Stdlib Require Import Sorted.
Import RbTree.

Module RbInsert.

(** ** Balance *)

Definition black_root (t : tree) : Prop := match t with Leaf => True | Node _ c _ _ _ => c = BLACK end.
(** [rb t n]: no red node has a red child, and every path has [n] black nodes. *)
Inductive rb : tree -> nat -> Prop :=
  | rb_leaf : rb Leaf 0
  | rb_black a l x r n : rb l n -> rb r n -> rb (Node a BLACK l x r) (S n)
  | rb_red a l x r n : rb l n -> rb r n -> black_root l -> black_root r -> rb (Node a RED l x r) n.

(** A context for a tree of black height [n] that may have a red root only when the
    nearest node of the context is black; the root of the whole is black. *)
Inductive ctx : list frame -> nat -> Prop :=
  | ctx_nil n : ctx [] n
  | ctx_black f fs n : fc f = BLACK -> rb (fsib f) n -> ctx fs (S n) -> ctx (f :: fs) n
  | ctx_red f g fs n : fc f = RED -> rb (fsib f) n -> black_root (fsib f) -> fc g = BLACK -> ctx (g :: fs) n -> ctx (f :: g :: fs) n.

Lemma ctx_inv f fs n : ctx (f :: fs) n ->
  fc f = BLACK /\ rb (fsib f) n /\ ctx fs (S n) \/
  exists g fs', fs = g :: fs' /\ fc f = RED /\ rb (fsib f) n /\ black_root (fsib f) /\ fc g = BLACK /\ rb (fsib g) n /\ ctx fs' (S n).
Proof.
  intros H. inversion H as [|? ? ? Hb Hs Hc|? g fs' ? Hr Hs Hb Hg Hc]; subst; [by left|right]. exists g, fs'.
  inversion Hc as [|? ? ? _ Hs' Hc'|? ? ? ? Hx]; subst; [done|by rewrite Hg in Hx].
Qed.

Lemma rb_black_mk d a x t u n : rb t n -> rb u n -> rb (mk d a BLACK x t u) (S n).
Proof. destruct d; simpl; by constructor. Qed.
Lemma rb_red_mk d a x t u n : rb t n -> rb u n -> black_root t -> black_root u -> rb (mk d a RED x t u) n.
Proof. destruct d; simpl; by constructor. Qed.
Lemma black_root_mk d a x t u : black_root (mk d a BLACK x t u).
Proof. by destruct d. Qed.

Definition near_black (fs : list frame) : Prop := match fs with [] => True | f :: _ => fc f = BLACK end.
Lemma rb_plug t fs n : rb t n -> ctx fs n -> black_root t \/ near_black fs /\ fs <> [] -> exists m, rb (plug t fs) m /\ black_root (plug t fs).
Proof.
  intros Ht Hc. revert t Ht. induction Hc as [n|f fs n Hf Hs Hc IH|f g fs n Hf Hs Hb Hg Hc IH]; intros t Ht Hcol.
  - exists n. split; [done|]. destruct Hcol as [?|[_ ?]]; done.
  - simpl. apply IH; unfold fill; rewrite Hf; [by apply rb_black_mk|left; apply black_root_mk].
  - simpl plug. destruct Hcol as [Hcol|[Hn _]]; [|unfold near_black in Hn; by rewrite Hn in Hf]. apply (IH (fill t f)).
    + unfold fill. rewrite Hf. by apply rb_red_mk.
    + right. done.
Qed.

(** A red focus with black children: what the loop of [nv_rb_insertFix] works on. *)
Record focus (t : tree) (n : nat) : Prop := {
  fo_red : exists a l x r, t = Node a RED l x r /\ rb l n /\ rb r n /\ black_root l /\ black_root r;
}.
Lemma focus_mk d a x t u n : rb t n -> rb u n -> black_root t -> black_root u -> focus (mk d a RED x t u) n.
Proof. split. destruct d; simpl; eauto 10. Qed.
Lemma focus_rb t n : focus t n -> rb t n.
Proof. intros [(a & l & x & r & -> & ? & ? & ? & ?)]. by constructor. Qed.

(** The tree [t] in the context [fs], in the heap. *)
Definition held (h : heap) (root : Z) (t : tree) (fs : list frame) : Prop :=
  rep h NULL (plug t fs) /\ NoDup (addrs (plug t fs)) /\ root = addr (plug t fs).

Lemma keys_plug t t' fs : keys t = keys t' -> keys (plug t fs) = keys (plug t' fs).
Proof.
  revert t t'. induction fs as [|[d a c x s] fs IH]; intros t t' E; [done|]. simpl. apply IH. unfold fill. simpl.
  destruct d; simpl; by rewrite E.
Qed.
Lemma addrs_plug_perm t t' fs : addrs t ≡ₚ addrs t' -> addrs (plug t fs) ≡ₚ addrs (plug t' fs).
Proof. intros E. by rewrite !addrs_plug, E. Qed.

Lemma plug_app t fs fs' : plug t (fs ++ fs') = plug (plug t fs) fs'.
Proof. unfold plug. by rewrite foldl_app. Qed.

(** Recolouring a node on the spot. *)
Lemma recolor_spec h root d a c c' x t u fs : held h root (mk d a c x t u) fs ->
  exists h', store h a (set_color c') = Ret h' /\ held h' root (mk d a c' x t u) fs.
Proof.
  intros (Hrep & Hnd & ->). apply rep_plug in Hrep as [Hrep Hctx]. apply rep_mk in Hrep as (Ha & Ea & Ht & Hu).
  rewrite addr_mk in Hctx. eexists. split; [by eapply store_Ret|].
  assert (addrs (plug (mk d a c x t u) fs) ≡ₚ a :: addrs t ++ addrs u ++ frame_addrs fs) as Hp by (rewrite addrs_plug, addrs_mk; perm).
  assert (NoDup (a :: addrs t ++ addrs u ++ frame_addrs fs)) as Hnd' by (by rewrite <- Hp). apply NoDup_cons in Hnd' as [Na _].
  split_and!.
  - apply rep_plug. rewrite rep_mk, addr_mk. split_and!; try done.
    + rewrite lookup_alter_eq, Ea. simpl. by rewrite set_color_cell.
    + apply rep_alter; [done|set_solver].
    + apply rep_alter; [done|set_solver].
    + apply ctx_alter; [done|set_solver].
  - rewrite (addrs_plug_perm _ (mk d a c x t u)); [done|]. by rewrite !addrs_mk.
  - apply addr_plug. by rewrite !addr_mk.
Qed.

Lemma held_eq h root t fs t' fs' : plug t fs = plug t' fs' -> held h root t fs -> held h root t' fs'.
Proof. unfold held. by intros ->. Qed.
Lemma held_cell h root d a c x t u fs : held h root (mk d a c x t u) fs -> h !! a = Some (cell d x c (addr t) (addr u) (above fs)).
Proof. intros (H & _ & _). apply rep_plug in H as [H _]. by apply rep_mk in H as (_ & ? & _). Qed.
Lemma held_rotate h root d pt c x m w q c' y o fs :
  held h root (mk (negb d) pt c x (mk d q c' y m o) w) fs ->
  exists h' root', rotate d h root pt = Ret (h', root') /\ held h' root' (mk d q c' y (mk (negb d) pt c x m w) o) fs.
Proof.
  intros (Hr & Hn & ->). destruct (rotate_spec d h pt c x m w q c' y o fs Hr Hn) as (h' & E & Hr').
  eexists _, _. split; [exact E|]. split_and!; [done| |done].
  rewrite (addrs_plug_perm _ (mk (negb d) pt c x (mk d q c' y m o) w)); [done|]. rewrite !addrs_mk. perm.
Qed.

(** The second rotation and the exchange of the colours. *)
Lemma outer_spec h root d p xp g xg t s u fs :
  held h root (mk d g BLACK xg (mk d p RED xp t s) u) fs ->
  exists h' root', ('(h, root) ← rotate (negb d) h root g;
      np ← deref (h !! p); ng ← deref (h !! g);
      h ← store h p (set_color (color ng)); h ← store h g (set_color (color np)); Ret (h, root, p)) = Ret (h', root', p) /\
    held h' root' (mk (negb d) p BLACK xp (mk d g RED xg s u) t) fs.
Proof.
  intros H. assert (held h root (mk (negb (negb d)) g BLACK xg (mk (negb d) p RED xp s t) u) fs) as H'
    by (by rewrite negb_involutive, mk_negb). clear H. rename H' into H.
  apply (held_rotate h root (negb d) g BLACK xg s u p RED xp t fs) in H as (h1 & root1 & -> & H). cbn [mbind outcome_bind].
  rewrite negb_involutive in H. rewrite (held_cell _ _ _ _ _ _ _ _ _ H). cbn [deref mbind outcome_bind]. rewrite color_cell.
  assert (held h1 root1 (mk d g BLACK xg s u) (mkFrame (negb d) p RED xp t :: fs)) as Hg by exact H.
  rewrite (held_cell _ _ _ _ _ _ _ _ _ Hg). cbn [deref mbind outcome_bind]. rewrite color_cell.
  destruct (recolor_spec _ _ _ _ _ BLACK _ _ _ _ H) as (h2 & -> & H2). cbn [mbind outcome_bind].
  assert (held h2 root1 (mk d g BLACK xg s u) (mkFrame (negb d) p BLACK xp t :: fs)) as Hg2 by exact H2.
  destruct (recolor_spec _ _ _ _ _ RED _ _ _ _ Hg2) as (h3 & -> & H3). cbn [mbind outcome_bind].
  exists h3, root1. split; [done|exact H3].
Qed.

(** Sequences of keys are equal up to association. *)
Ltac keys_eq := simpl; repeat progress (rewrite <- ?app_assoc; cbn [app]); done.

(** Case 1: the uncle is red; the grandparent becomes the focus. *)
Lemma red_uncle_spec h root dg g xg dp p xp t s ua ul ux ur fs :
  held h root (mk dg g BLACK xg (mk dp p RED xp t s) (Node ua RED ul ux ur)) fs ->
  exists h', (h ← store h g (set_color RED); h ← store h p (set_color BLACK); h ← store h ua (set_color BLACK); Ret (h, root, g)) = Ret (h', root, g) /\
    held h' root (mk dg g RED xg (mk dp p BLACK xp t s) (Node ua BLACK ul ux ur)) fs.
Proof.
  intros H0. destruct (recolor_spec _ _ _ _ _ RED _ _ _ _ H0) as (h1 & -> & H1). cbn [mbind outcome_bind].
  assert (held h1 root (mk dp p RED xp t s) (mkFrame dg g RED xg (Node ua RED ul ux ur) :: fs)) as H1' by exact H1.
  destruct (recolor_spec _ _ _ _ _ BLACK _ _ _ _ H1') as (h2 & -> & H2). cbn [mbind outcome_bind].
  assert (held h2 root (mk true ua RED ux ul ur) (mkFrame (negb dg) g RED xg (mk dp p BLACK xp t s) :: fs)) as H2'.
  { eapply held_eq; [|exact H2]. simpl. unfold fill. simpl. by rewrite mk_negb. }
  destruct (recolor_spec _ _ _ _ _ BLACK _ _ _ _ H2') as (h3 & -> & H3). cbn [mbind outcome_bind].
  exists h3. split; [done|]. eapply held_eq; [|exact H3]. simpl. unfold fill. simpl. by rewrite mk_negb.
Qed.

(** Case 2: the uncle is black; an inner focus [pt] becomes the parent first. *)
Lemma black_uncle_spec h root dg g xg dp p xp pt x m w s u fs :
  let t := mk dg pt RED x m w in
  held h root (mk dg g BLACK xg (mk dp p RED xp t s) u) fs -> pt <> addr s ->
  exists h' root' t', ('(h, root, p) ← (if pt =? child (negb dg) (cell dp xp RED pt (addr s) g) then
                       '(h, root) ← rotate dg h root p; np ← deref (h !! p); Ret (h, root, parent np)
                     else Ret (h, root, p));
    '(h, root) ← rotate (negb dg) h root g; np ← deref (h !! p); ng ← deref (h !! g);
    h ← store h p (set_color (color ng)); h ← store h g (set_color (color np)); Ret (h, root, p)) = Ret (h', root', addr t') /\
    held h' root' t' fs /\
    t' = if bool_decide (dp = dg) then mk (negb dg) p BLACK xp (mk dg g RED xg s u) t
         else mk (negb dg) pt BLACK x (mk dg g RED xg w u) (mk (negb dg) p RED xp m s).
Proof.
  intros t Hh Hs. case_bool_decide as Hd.
  - subst dp. rewrite child_cell_negb. destruct (Z.eqb_spec pt (addr s)); [done|]. cbn [mbind outcome_bind].
    destruct (outer_spec h root dg p xp g xg t s u fs Hh) as (h' & root' & -> & H').
    exists h', root'. eexists. rewrite addr_mk. done.
  - assert (dp = negb dg) as -> by (destruct dp, dg; done || by destruct Hd).
    rewrite child_cell, Z.eqb_refl.
    assert (held h root (mk (negb dg) p RED xp (mk dg pt RED x m w) s) (mkFrame dg g BLACK xg u :: fs)) as H0 by exact Hh.
    apply held_rotate in H0 as (h1 & root1 & -> & H1). cbn [mbind outcome_bind].
    assert (held h1 root1 (mk (negb dg) p RED xp m s) (mkFrame dg pt RED x w :: mkFrame dg g BLACK xg u :: fs)) as Hp1 by exact H1.
    rewrite (held_cell _ _ _ _ _ _ _ _ _ Hp1). cbn [deref mbind outcome_bind]. rewrite parent_cell. cbn [above fa].
    destruct (outer_spec h1 root1 dg pt x g xg (mk (negb dg) p RED xp m s) w u fs H1) as (h' & root' & -> & H').
    exists h', root'. eexists. rewrite addr_mk. done.
Qed.

(** The uncle's colour as the code reads it. *)
Lemma uncle_spec h p u : rep h p u ->
  (if addr u =? NULL then Ret false else nu ← deref (h !! addr u); Ret (color nu =? RED)) =
    Ret (match u with Node _ c _ _ _ => c =? RED | Leaf => false end).
Proof.
  destruct u as [|ua cu ul ux ur]; [done|]. intros (Hua & Eua & _). simpl. destruct (Z.eqb_spec ua NULL); [done|]. by rewrite Eua.
Qed.

(** One turn: the parent [p] of the focus is red. *)
Lemma fix_step_spec h root t n p g fs :
  focus t n -> ctx (p :: g :: fs) n -> fc p = RED -> held h root t (p :: g :: fs) ->
  exists h' root' t', fix_step h root (addr t) = Ret (h', root', addr t') /\ held h' root' t' fs /\
    keys t' = keys (plug t [p; g]) /\ addrs t' ≡ₚ addrs (plug t [p; g]) /\
    (focus t' (S n) \/ rb t' (S n) /\ black_root t' /\ t' <> Leaf).
Proof.
  intros Hf Hc Hp Hh. destruct p as [dp p cp xp s], g as [dg g cg xg u]. simpl in Hp. subst cp.
  apply ctx_inv in Hc as [[Hx _]|(g' & fs' & [= <- <-] & _ & Hs & Hbs & Hg & Hu & Hc2)]; [done|]. simpl in Hs, Hbs, Hg, Hu. subst cg.
  destruct Hf as [(pt & l & x & r & -> & Hl & Hr & Hbl & Hbr)]. rewrite (node_mk dg) in *.
  set (m := if dg then l else r) in *. set (w := if dg then r else l) in *.
  assert (rb m n /\ rb w n /\ black_root m /\ black_root w) as (Hm & Hw & Hbm & Hbw) by (unfold m, w; by destruct dg).
  clearbody m w. clear l r Hl Hr Hbl Hbr. set (t := mk dg pt RED x m w) in *.
  assert (rb t n) as Ht by (by apply rb_red_mk).
  pose proof Hh as (Hrep & Hnd & _). apply rep_plug in Hrep as [Hrt (Hp0 & Ep & Hrs & Hg0 & Eg & Hru & _)]. simpl in Ep, Hrs, Eg, Hru, Hp0.
  unfold t in Hrt. apply rep_mk in Hrt as (Hpt & Ept & _). unfold t in Ep. rewrite addr_mk in Ep.
  assert (addrs (plug t [mkFrame dp p RED xp s; mkFrame dg g BLACK xg u]) ≡ₚ p :: g :: addrs t ++ addrs s ++ addrs u) as Hperm.
  { unfold plug, fill. simpl. rewrite addrs_mk, addrs_mk. perm. }
  assert (p <> addr u /\ pt <> addr s) as [Hpu Hps].
  { change (NoDup (addrs (plug (plug t [mkFrame dp p RED xp s; mkFrame dg g BLACK xg u]) fs))) in Hnd.
    rewrite addrs_plug, Hperm in Hnd. unfold t in Hnd. rewrite addrs_mk in Hnd.
    apply NoDup_cons in Hnd as [H1 [_ [H2 _]%NoDup_cons]%NoDup_cons]. split; apply not_eq_sym; eapply addr_fresh; eauto; set_solver. }
  unfold fix_step. rewrite (addr_mk dg pt RED x m w : addr t = pt), Ept. cbn [deref mbind outcome_bind]. rewrite parent_cell. cbn [above fa]. rewrite Ep.
  cbn [deref mbind outcome_bind]. rewrite parent_cell, Eg. cbn [deref mbind outcome_bind].
  rewrite left_cell, child_cell_negb, (uncle_spec _ _ _ Hru) by done. cbn [mbind outcome_bind].
  assert ((exists ua ul ux ur, u = Node ua RED ul ux ur /\ rb ul n /\ rb ur n) \/ black_root u) as [(ua & ul & ux & ur & -> & Hul & Hur)|Hbu]
    by (inversion Hu; subst; [by right|by right|left; eauto 10]).
  - destruct (red_uncle_spec h root dg g xg dp p xp t s ua ul ux ur fs Hh) as (h' & E & H'). change (RED =? RED) with true. cbn [addr]. rewrite E.
    exists h', root, (mk dg g RED xg (mk dp p BLACK xp t s) (Node ua BLACK ul ux ur)). rewrite addr_mk. split_and!; [done|exact H'|unfold plug, fill; by destruct dg, dp| |].
    + rewrite Hperm, !addrs_mk. simpl. perm.
    + left. apply focus_mk; [by apply rb_black_mk|by constructor|apply black_root_mk|done].
  - assert ((match u with Node _ c _ _ _ => c =? RED | Leaf => false end) = false) as -> by (destruct u; [done|]; simpl in Hbu; by subst).
    destruct (black_uncle_spec h root dg g xg dp p xp pt x m w s u fs Hh Hps) as (h' & root' & t' & -> & H' & Et').
    exists h', root', t'. split_and!; [done|done|..]; subst t'; case_bool_decide as Hd.
    + subst dp. unfold plug, fill. destruct dg; keys_eq.
    + unfold plug, fill. destruct dp, dg; (by destruct Hd) || keys_eq.
    + rewrite Hperm. unfold t. rewrite !addrs_mk. perm.
    + rewrite Hperm. unfold t. rewrite !addrs_mk. perm.
    + right. split_and!; [|apply black_root_mk|by destruct dg]. apply rb_black_mk; [by apply rb_red_mk|done].
    + right. split_and!; [|apply black_root_mk|by destruct dg]. apply rb_black_mk; by apply rb_red_mk.
Qed.

(** *** The loop *)

Lemma addr_plug_in t f fs : addr (plug t (f :: fs)) ∈ frame_addrs (f :: fs).
Proof.
  revert t f. induction fs as [|g fs IH]; intros t f.
  - unfold frame_addrs, plug, fill. simpl. rewrite addr_mk. set_solver.
  - specialize (IH (fill t f) g). unfold frame_addrs in *. simpl in *. set_solver.
Qed.
Lemma addr_not_root t f fs : t <> Leaf -> NoDup (addrs (plug t (f :: fs))) -> addr t <> addr (plug t (f :: fs)).
Proof.
  intros Ht Hn E. rewrite addrs_plug in Hn. apply NoDup_app in Hn as (_ & Hd & _). apply (Hd (addr t)).
  - destruct t; [done|]. simpl. set_solver.
  - rewrite E. apply addr_plug_in.
Qed.

Lemma plug_not_leaf t fs : t <> Leaf -> plug t fs <> Leaf.
Proof. revert t. induction fs as [|[[] a c x s] fs IH]; intros t Ht; [done|..]; by apply IH. Qed.

(** The whole tree after the loop, up to the colour of its root. *)
Definition repaired (t0 : tree) (h : heap) (root : Z) : Prop :=
  exists t m, held h root t [] /\ t <> Leaf /\ keys t = keys t0 /\ addrs t ≡ₚ addrs t0 /\ rb t m.

Lemma fix_loop_spec fuel h root t n fs :
  focus t n -> ctx fs n -> held h root t fs -> (length fs < fuel)%nat ->
  exists h' root', fix_loop fuel h root (addr t) = Ret (h', root') /\ repaired (plug t fs) h' root'.
Proof.
  revert h root t n fs. induction fuel as [|fuel IH]; intros h root t n fs Hf Hc Hh Hl; [lia|]. cbn [fix_loop].
  assert (t <> Leaf) as Hne by (destruct Hf as [(? & ? & ? & ? & -> & _)]; done).
  assert (forall m, rb (plug t fs) m -> repaired (plug t fs) h root) as Hdone.
  { intros m Hm. exists (plug t fs), m. split_and!; try done. by apply plug_not_leaf. }
  destruct fs as [|f fs].
  { pose proof Hh as (_ & _ & ->). simpl. rewrite Z.eqb_refl. exists h, (addr t). split; [done|]. apply (Hdone n). by apply focus_rb. }
  pose proof Hh as (Hrep & Hnd & Hroot). destruct (Z.eqb_spec (addr t) root) as [E|_].
  { rewrite Hroot in E. by apply addr_not_root in E. }
  apply rep_plug in Hrep as [Hrt (Hf0 & Ef & _)].
  pose proof Hf as [(pt & l & x & r & Et & _)]. rewrite Et in Hrt. destruct Hrt as (_ & Ept & _).
  assert (addr t = pt) as Ea by (by rewrite Et). rewrite Ea, Ept. cbn [deref mbind outcome_bind color parent above]. change (RED =? BLACK) with false. cbv iota.
  rewrite Ef. cbn [deref mbind outcome_bind]. rewrite color_cell.
  destruct (ctx_inv _ _ _ Hc) as [(Hb & _ & _)|(g & fs' & -> & Hr & _ & _ & Hg & _ & Hc2)].
  - rewrite Hb. change (BLACK =? RED) with false. cbv iota. exists h, root. split; [done|].
    destruct (rb_plug t (f :: fs) n) as (m & Hm & _); [by apply focus_rb|done|by right|]. by apply (Hdone m).
  - rewrite Hr. change (RED =? RED) with true. cbv iota.
    destruct (fix_step_spec h root t n f g fs' Hf Hc Hr Hh) as (h1 & root1 & t1 & E1 & H1 & Hk & Ha & Hcase).
    rewrite Ea in E1. rewrite E1. cbn [mbind outcome_bind].
    assert (keys (plug t1 fs') = keys (plug t (f :: g :: fs')) /\ addrs (plug t1 fs') ≡ₚ addrs (plug t (f :: g :: fs'))) as [Hk' Ha'].
    { change (f :: g :: fs') with ([f; g] ++ fs'). rewrite plug_app. split; [by apply keys_plug|by apply addrs_plug_perm]. }
    simpl in Hl.
    destruct Hcase as [Hf1|(Hrb & Hbl & Hne1)].
    + destruct (IH h1 root1 t1 (S n) fs' Hf1 Hc2 H1) as (h' & root' & E' & t' & m & Hh' & Hne' & Hk2 & Ha2 & Hm); [lia|].
      exists h', root'. split; [done|]. exists t', m. split_and!; try done; [by rewrite Hk2|by rewrite Ha2].
    + (* the next turn ends the loop *)
      destruct fuel as [|fuel]; [lia|]. cbn [fix_loop]. exists h1, root1. split.
      * destruct (addr t1 =? root1); [done|]. destruct t1 as [|a1 c1 l1 x1 r1]; [done|]. simpl in Hbl. subst c1.
        destruct H1 as (H1 & _). apply rep_plug in H1 as [(_ & E2 & _) _]. simpl addr. rewrite E2. done.
      * destruct (rb_plug t1 fs' (S n) Hrb Hc2) as (m & Hm & _); [by left|].
        exists (plug t1 fs'), m. split_and!; try done.
        by apply plug_not_leaf.
Qed.

(** ** The descent *)

Definition sorted (t : tree) : Prop := StronglySorted Z.lt (keys t).

Lemma sorted_node l y r : StronglySorted Z.lt (l ++ [y] ++ r) <->
  StronglySorted Z.lt l /\ StronglySorted Z.lt r /\ Forall (fun z => z < y) l /\ Forall (fun z => y < z) r.
Proof.
  induction l as [|z l IH]; cbn [app].
  - split; [intros H; apply StronglySorted_inv in H as [? ?]; split_and!; [constructor|done|constructor|done]|].
    intros (_ & ? & _ & ?). by constructor.
  - split.
    + intros H. apply StronglySorted_inv in H as [H1 H2]. apply IH in H1 as (? & ? & ? & ?). apply Forall_app in H2 as [Hl Hr].
      apply Forall_cons in Hr as [Hr _]. split_and!; [by constructor|done|by constructor|done].
    + intros (H1 & H2 & H3 & H4). apply StronglySorted_inv in H1 as [H1 H5]. apply Forall_cons in H3 as [H3 H6].
      constructor; [by apply IH|]. apply Forall_app. split; [done|]. constructor; [done|].
      eapply Forall_impl; [exact H4|]. intros; simpl in *; lia.
Qed.

Fixpoint ins (pt x : Z) (t : tree) : tree :=
  match t with
  | Leaf => Node pt RED Leaf x Leaf
  | Node a c l y r => if x <? y then Node a c (ins pt x l) y r else if y <? x then Node a c l y (ins pt x r) else t
  end.
Fixpoint height (t : tree) : nat := match t with Leaf => O | Node _ _ l _ r => S (max (height l) (height r)) end.

Lemma ins_not_leaf pt x t : ins pt x t <> Leaf.
Proof. destruct t; simpl; [done|]. by repeat case_match. Qed.
Lemma ins_dup pt x t : sorted t -> x ∈ keys t -> ins pt x t = t.
Proof.
  unfold sorted. induction t as [|a c l IHl y r IHr]; cbn [keys ins]; [set_solver|].
  intros (Hl & Hr & Hly & Hry)%sorted_node Hx. rewrite Forall_forall in Hly. rewrite Forall_forall in Hry.
  destruct (Z.ltb_spec x y).
  - f_equal. apply IHl; [done|]. apply elem_of_app in Hx as [?|[->|Hx]%elem_of_cons]; [done|lia|]. apply Hry in Hx. lia.
  - destruct (Z.ltb_spec y x); [|done]. f_equal. apply IHr; [done|].
    apply elem_of_app in Hx as [Hx|[->|Hx]%elem_of_cons]; [apply Hly in Hx; lia|lia|done].
Qed.
Lemma ins_plug pt x t : sorted t -> x ∉ keys t -> exists fs, t = plug Leaf fs /\ ins pt x t = plug (Node pt RED Leaf x Leaf) fs /\
  sorted (ins pt x t) /\ keys (ins pt x t) ≡ₚ x :: keys t.
Proof.
  unfold sorted. induction t as [|a c l IHl y r IHr]; cbn [keys ins].
  { intros _ _. exists []. split_and!; try done. by repeat constructor. }
  intros (Hl & Hr & Hly & Hry)%sorted_node Hx. destruct (Z.ltb_spec x y).
  - destruct (IHl Hl) as (fs & E1 & E2 & H1 & H2); [set_solver|]. exists (fs ++ [mkFrame true a c y r]).
    rewrite !plug_app, <- E1, <- E2. split_and!; try done.
    + cbn [keys]. apply sorted_node. split_and!; try done. rewrite H2. by constructor.
    + cbn [keys]. by rewrite H2.
  - destruct (Z.ltb_spec y x); [|assert (x = y) as -> by lia; set_solver].
    destruct (IHr Hr) as (fs & E1 & E2 & H1 & H2); [set_solver|]. exists (fs ++ [mkFrame false a c y l]).
    rewrite !plug_app, <- E1, <- E2. split_and!; try done.
    + cbn [keys]. apply sorted_node. split_and!; try done. rewrite H2. by constructor.
    + cbn [keys]. rewrite H2. perm.
Qed.

Lemma ins_addrs pt x t : addrs (ins pt x t) ≡ₚ pt :: addrs t \/ ins pt x t = t.
Proof.
  induction t as [|a c l IHl y r IHr]; [by left|]. cbn [ins]. destruct (x <? y).
  - destruct IHl as [H| ->]; [left|by right]. cbn [addrs]. rewrite H. perm.
  - destruct (y <? x); [|by right]. destruct IHr as [H| ->]; [left|by right]. cbn [addrs]. rewrite H. perm.
Qed.

(** Hanging the changed subtree [t1] back under its parent. *)
Lemma attach_spec d h h1 p q a c y l r t1 :
  rep h p (mk d a c y l r) -> rep h1 q t1 -> t1 <> Leaf -> NoDup (addrs t1) -> a ∉ addrs t1 ++ addrs r ->
  (forall b, b ∈ addrs t1 -> b ∉ addrs r) -> (forall b, b ∈ a :: addrs r -> h1 !! b = h !! b) ->
  exists h', (h2 ← store h1 a (set_child d (addr t1)); h2 ← store h2 (addr t1) (set_parent a); Ret (h2, a)) = Ret (h', a) /\
    rep h' p (mk d a c y t1 r) /\ forall b, b <> a -> b <> addr t1 -> h' !! b = h1 !! b.
Proof.
  intros (Ha & Ea & _ & Hr)%rep_mk Ht Hne Hnd Na Hdis Hag.
  assert (h1 !! a = Some (cell d y c (addr l) (addr r) p)) as Ea1 by (rewrite Hag; [done|set_solver]).
  destruct (rep_addr _ _ _ Ht Hne) as [Hn1 [n1 En1]].
  assert (addr t1 ∈ addrs t1) as Hin by (destruct t1; [done|simpl; set_solver]).
  assert (addr t1 <> a) as Hna by set_solver.
  rewrite (store_Ret _ _ _ _ Ea1). cbn [mbind outcome_bind].
  rewrite (store_Ret _ (addr t1) _ n1) by (by rewrite lookup_alter_ne). cbn [mbind outcome_bind]. eexists. split; [done|]. split.
  - apply rep_mk. split_and!; [done| | |].
    + rewrite lookup_alter_ne, lookup_alter_eq, Ea1 by done. simpl. by rewrite set_child_cell.
    + apply (rep_reparent _ q); [|done]. apply rep_alter; [done|set_solver].
    + apply rep_alter; [|by apply Hdis]. apply rep_alter; [|set_solver]. apply (rep_agree h); [done|]. intros b Hb. apply Hag. set_solver.
  - intros b H1 H2. by rewrite !lookup_alter_ne.
Qed.

(** What the descent into [t] does to the heap: it attaches the new node where [ins] does,
    or changes nothing. *)
Definition inserted (h h' : heap) (p pt x : Z) (t : tree) : Prop :=
  rep h' (match t with Leaf => NULL | _ => p end) (ins pt x t) /\
  (x ∈ keys t -> h' !! pt = h !! pt) /\ forall a, a ∉ pt :: addrs t -> h' !! a = h !! a.

Lemma ins_addrs_sub pt x t b : b ∈ addrs (ins pt x t) -> b = pt \/ b ∈ addrs t.
Proof. destruct (ins_addrs pt x t) as [H| ->]; [rewrite H; set_solver|by right]. Qed.
Lemma ins_addrs_nodup pt x t : NoDup (pt :: addrs t) -> NoDup (addrs (ins pt x t)).
Proof. intros H. destruct (ins_addrs pt x t) as [E| ->]; [by rewrite E|by apply NoDup_cons in H as [_ ?]]. Qed.
(** One level of the descent, on the side [d]. *)
Lemma descend_spec d h h1 p pt x a c y s r :
  rep h p (mk d a c y s r) -> NoDup (pt :: a :: addrs s ++ addrs r) -> sorted s -> inserted h h1 a pt x s ->
  (x ∈ keys (mk d a c y s r) -> x ∈ keys s) ->
  exists h', (h2 ← store h1 a (set_child d (addr (ins pt x s))); h2 ← store h2 (addr (ins pt x s)) (set_parent a); Ret (h2, a)) = Ret (h', a) /\
    rep h' p (mk d a c y (ins pt x s) r) /\ (x ∈ keys (mk d a c y s r) -> h' !! pt = h !! pt) /\
    forall b, b ∉ pt :: a :: addrs s ++ addrs r -> h' !! b = h !! b.
Proof.
  intros Hrep Hnd Hs (H1 & H2 & H3) Hk. apply NoDup_cons in Hnd as [Npt Hnd]. apply NoDup_cons in Hnd as [Na Hnd].
  apply NoDup_app in Hnd as (Ns & Dsr & Nr).
  assert (NoDup (pt :: addrs s)) as Hn by (constructor; [set_solver|done]).
  pose proof (ins_addrs_sub pt x s) as Hsub. pose proof (addr_in _ (ins_not_leaf pt x s)) as Hin.
  destruct (attach_spec d h h1 p _ a c y s r (ins pt x s) Hrep H1) as (h' & E' & H4 & H5);
    [apply ins_not_leaf|by apply ins_addrs_nodup| | | |].
  - intros [Hi|Hi]%elem_of_app; [apply Hsub in Hi as [->|Hi]|]; set_solver.
  - intros b [->|Hb]%Hsub; [set_solver|by apply Dsr].
  - intros b Hb. apply H3. set_solver.
  - exists h'. split; [exact E'|]. split; [exact H4|]. split.
    + intros Hx%Hk. rewrite H5; [by apply H2|set_solver|]. rewrite ins_dup by done.
      assert (s <> Leaf) as Hl by (intros ->; by apply elem_of_nil in Hx). apply addr_in in Hl. set_solver.
    + intros b Hb. rewrite H5; [apply H3; set_solver|set_solver|]. intros ->. apply Hsub in Hin. set_solver.
Qed.

Lemma insertBST_spec fuel h p t pt x :
  rep h p t -> NoDup (pt :: addrs t) -> h !! pt = Some (mkNode x RED NULL NULL NULL) -> (height t < fuel)%nat -> sorted t -> pt <> NULL ->
  exists h', nv_rb_insertBST fuel h (addr t) pt = Ret (h', addr (ins pt x t)) /\ inserted h h' p pt x t.
Proof.
  intros Hrep Hnd Ept Hfuel Hs Hpt. revert p Hrep Hnd fuel Hfuel Hs.
  induction t as [|a c l IHl y r IHr]; intros p Hrep Hnd fuel Hfuel Hs; (destruct fuel as [|fuel]; [lia|]).
  { exists h. split; [done|]. split_and!; done. }
  pose proof Hs as Hs'. unfold sorted in Hs'. cbn [keys] in Hs'. apply sorted_node in Hs' as (Hsl & Hsr & Hly & Hry).
  rewrite Forall_forall in Hly. rewrite Forall_forall in Hry.
  cbn [nv_rb_insertBST addr height ins addrs app] in *. pose proof Hrep as (Ha & Ea & Hl & Hr).
  destruct (Z.eqb_spec a NULL); [done|]. rewrite Ept, Ea. cbn [deref mbind outcome_bind data left right].
  unfold inserted. cbn [ins addrs app].
  assert (NoDup (pt :: addrs l) /\ NoDup (pt :: addrs r) /\ NoDup (pt :: a :: addrs r ++ addrs l)) as (Hnl & Hnr & Hnd').
  { rewrite (Permutation_app_comm (addrs r)). split_and!; [..|done]; apply NoDup_cons in Hnd as [? [_ (? & _ & ?)%NoDup_app]%NoDup_cons];
      (constructor; [set_solver|done]). }
  destruct (Z.ltb_spec x y) as [Hxy|Hxy]; [|destruct (Z.ltb_spec y x) as [Hyx|Hyx]].
  - destruct (IHl a Hl Hnl fuel) as (h1 & -> & H1); [lia|done|]. cbn [mbind outcome_bind].
    destruct (descend_spec true h h1 p pt x a c y l r Hrep Hnd Hsl H1) as (h' & E & H'); [|exists h'; split; [exact E|exact H']].
    cbn [keys mk]. intros [?|[->|Hx]%elem_of_cons]%elem_of_app; [done|lia|]. apply Hry in Hx. lia.
  - destruct (IHr a Hr Hnr fuel) as (h1 & -> & H1); [lia|done|]. cbn [mbind outcome_bind].
    destruct (descend_spec false h h1 p pt x a c y r l Hrep Hnd' Hsr H1) as (h' & E & H2 & H3 & H4).
    + cbn [keys mk]. intros [Hx|[->|?]%elem_of_cons]%elem_of_app; [apply Hly in Hx; lia|lia|done].
    + exists h'. split; [done|]. split_and!; [done|done|]. intros b Hb. apply H4. set_solver.
  - assert (x = y) as -> by lia. exists h. split; [done|]. split_and!; done.
Qed.

(** ** Bounds *)

Lemma rep_in h p t a : rep h p t -> a ∈ addrs t -> is_Some (h !! a).
Proof.
  revert p. induction t as [|b c l IHl x r IHr]; intros p; [set_solver|]. simpl. intros (_ & E & Hl & Hr).
  intros [->|[Ha|Ha]%elem_of_app]%elem_of_cons; [by eexists|by eapply IHl|by eapply IHr].
Qed.
Lemma addrs_size h p t : rep h p t -> NoDup (addrs t) -> (length (addrs t) <= size h)%nat.
Proof.
  intros Hr Hn. rewrite <- (size_list_to_set (C := gset Z)), <- (size_dom (D := gset Z)) by done.
  apply subseteq_size. intros a Ha%elem_of_list_to_set. apply elem_of_dom. by eapply rep_in.
Qed.
Lemma length_addrs t : length (addrs t) = length (keys t).
Proof. induction t; simpl; [done|]. rewrite !length_app. simpl. lia. Qed.
Lemma height_addrs t : (height t <= length (addrs t))%nat.
Proof. induction t; simpl; [lia|]. rewrite length_app. lia. Qed.
Lemma length_frames t fs : (length fs <= length (addrs (plug t fs)))%nat.
Proof.
  rewrite addrs_plug, length_app. enough (length fs <= length (frame_addrs fs))%nat by lia.
  unfold frame_addrs. induction fs as [|f fs IH]; cbn [map concat length]; [lia|]. rewrite !length_app. simpl length at 2. lia.
Qed.

(** A balanced tree of black height [n] has at least [2^n - 1] nodes and at most [2n + 1] levels. *)
Lemma rb_height t n : rb t n -> (height t <= 2 * n + 1)%nat /\ (black_root t -> height t <= 2 * n)%nat.
Proof.
  induction 1 as [|a l x r n Hl [IHl _] Hr [IHr _]|a l x r n Hl [_ IHl] Hr [_ IHr] Bl Br]; simpl height; [lia|split; [lia|intros _; lia]|].
  split; [|done]. specialize (IHl Bl). specialize (IHr Br). lia.
Qed.
Lemma rb_size t n : rb t n -> (2 ^ n <= length (keys t) + 1)%nat.
Proof. induction 1; cbn [keys]; rewrite ?Nat.pow_succ_r', ?length_app; cbn [length app]; simpl; lia. Qed.
Lemma rb_log t n : rb t n -> black_root t -> (height t <= 2 * Nat.log2 (length (keys t) + 1))%nat.
Proof.
  intros Ht Hb. pose proof (rb_height t n Ht) as [_ Hh]. specialize (Hh Hb).
  assert (n <= Nat.log2 (length (keys t) + 1))%nat by (apply Nat.log2_le_pow2; [lia|by apply rb_size]). lia.
Qed.

(** Every place of a balanced tree is a focus in a context. *)
Lemma rb_split t fs m : rb (plug t fs) m -> black_root (plug t fs) ->
  exists n, rb t n /\ ctx fs n /\ (black_root t \/ near_black fs /\ fs <> []).
Proof.
  intros Hm Hb. revert t Hm Hb. induction fs as [|[d a c x s] fs IH]; intros t Hm Hb.
  { exists m. split_and!; [done|constructor|by left]. }
  destruct (IH _ Hm Hb) as (n & Hn & Hc & Hcol). unfold fill in *. simpl in *.
  assert (c = BLACK /\ (exists k, n = S k /\ rb t k /\ rb s k) \/ c = RED /\ rb t n /\ rb s n /\ black_root t /\ black_root s)
    as [(-> & k & -> & Ht & Hs)|(-> & Ht & Hs & Hbt & Hbs)].
  { destruct d; simpl in Hn; inversion Hn; subst; eauto 10. }
  - exists k. split_and!; [done|by constructor|by right].
  - destruct Hcol as [Hx|[Hg Hne]]; [by destruct d|]. destruct fs as [|g fs]; [done|].
    exists n. split_and!; [done|by constructor|by left].
Qed.

(** ** The tree in memory *)

(** The tree at [root] holds the keys [ks]. *)
Definition holds (h : heap) (root : Z) (ks : list Z) : Prop :=
  exists t n, held h root t [] /\ sorted t /\ rb t n /\ black_root t /\ keys t = ks.

Lemma insertFix_spec h root t fs :
  focus t 0 -> ctx fs 0 -> held h root t fs -> sorted (plug t fs) ->
  exists h' root', nv_rb_insertFix h root (addr t) = Ret (h', root') /\ holds h' root' (keys (plug t fs)).
Proof.
  intros Hf Hc Hh Hs. unfold nv_rb_insertFix.
  destruct (fix_loop_spec (S (size h)) h root t 0 fs Hf Hc Hh) as (h1 & root1 & -> & t1 & m & Hh1 & Hne & Hk & _ & Hm).
  { destruct Hh as (Hr & Hn & _). pose proof (addrs_size _ _ _ Hr Hn). pose proof (length_frames t fs). lia. }
  cbn [mbind outcome_bind]. destruct t1 as [|a c l x r]; [done|].
  assert (root1 = a) as -> by (by destruct Hh1 as (_ & _ & ->)).
  destruct (recolor_spec h1 a true a c BLACK x l r [] Hh1) as (h2 & -> & Hh2). cbn [mbind outcome_bind].
  exists h2, a. split; [done|]. exists (Node a BLACK l x r). inversion Hm; subst.
  - eexists. split_and!; [exact Hh2|unfold sorted in *; by rewrite <- Hk in Hs|by constructor|done|done].
  - eexists. split_and!; [exact Hh2|unfold sorted in *; by rewrite <- Hk in Hs|by constructor|done|done].
Qed.

(** A fresh node is red and alone. *)
Lemma focus_new pt x : focus (Node pt RED Leaf x Leaf) 0.
Proof. apply (focus_mk true); constructor. Qed.

(** An insertion of a new key. *)
Lemma insert_new h root ks x pt :
  holds h root ks -> x ∉ ks -> pt <> NULL -> h !! pt = None ->
  exists h' root' ks', nv_rb_insert h root (Some pt) x = Ret (h', root') /\ holds h' root' ks' /\ ks' ≡ₚ x :: ks.
Proof.
  intros (t & m & (Hrep & Hnd & ->) & Hs & Hm & Hb & <-) Hx Hpt Hfresh. unfold nv_rb_insert. cbn [nv_rb_newNode mbind outcome_bind].
  set (h0 := <[pt := _]> h).
  assert (pt ∉ addrs t) as Npt by (intros Hi; destruct (rep_in _ _ _ _ Hrep Hi) as [? E]; congruence).
  assert (rep h0 NULL t) as Hrep0 by (by apply rep_insert). cbn [plug foldl].
  destruct (insertBST_spec (S (size h0)) h0 NULL t pt x Hrep0) as (h1 & -> & Hr1 & _);
    [by constructor|unfold h0; by rewrite lookup_insert_eq| |done|done|].
  { pose proof (addrs_size _ _ _ Hrep0 Hnd). pose proof (height_addrs t). lia. }
  cbn [mbind outcome_bind]. destruct (ins_plug pt x t Hs Hx) as (fs & Et & Ei & Hsi & Hk).
  rewrite Et in Hm, Hb. destruct (rb_split _ _ _ Hm Hb) as (n & Hn & Hc & _).
  assert (n = 0%nat) as -> by (by inversion Hn).
  destruct (insertFix_spec h1 (addr (ins pt x t)) (Node pt RED Leaf x Leaf) fs (focus_new pt x) Hc) as (h' & root' & E & Hh).
  - split_and!; [|rewrite <- Ei; apply ins_addrs_nodup; by constructor|by rewrite Ei]. rewrite <- Ei. by destruct t.
  - by rewrite <- Ei.
  - exists h', root', (keys (ins pt x t)). rewrite <- Ei in Hh. by split_and!.
Qed.

(** The key is there already: the new node stays without a parent, and the repair loop
    reads the colour of its parent. *)
Lemma insert_old h root ks x pt :
  holds h root ks -> x ∈ ks -> pt <> NULL -> h !! pt = None -> h !! NULL = None ->
  nv_rb_insert h root (Some pt) x = UB.
Proof.
  intros (t & m & (Hrep & Hnd & ->) & Hs & Hm & Hb & <-) Hx Hpt Hfresh Hnull. unfold nv_rb_insert. cbn [nv_rb_newNode mbind outcome_bind].
  set (h0 := <[pt := _]> h).
  assert (pt ∉ addrs t) as Npt by (intros Hi; destruct (rep_in _ _ _ _ Hrep Hi) as [? E]; congruence).
  assert (rep h0 NULL t) as Hrep0 by (by apply rep_insert). cbn [plug foldl].
  destruct (insertBST_spec (S (size h0)) h0 NULL t pt x Hrep0) as (h1 & -> & _ & Hsame & Hfr);
    [by constructor|unfold h0; by rewrite lookup_insert_eq| |done|done|].
  { pose proof (addrs_size _ _ _ Hrep0 Hnd). pose proof (height_addrs t). lia. }
  cbn [mbind outcome_bind]. rewrite (ins_dup pt x t Hs Hx). unfold nv_rb_insertFix. cbn [fix_loop].
  assert (t <> Leaf) as Hne by (intros ->; by apply elem_of_nil in Hx). pose proof (addr_in t Hne).
  destruct (Z.eqb_spec pt (addr t)) as [->|_]; [done|]. rewrite (Hsame Hx). unfold h0 at 1. rewrite lookup_insert_eq.
  cbn [deref mbind outcome_bind color parent]. change (RED =? BLACK) with false. cbv iota.
  rewrite Hfr; [unfold h0; by rewrite (lookup_insert_ne _ _ _ _ Hpt), Hnull|].
  intros [?|Hi]%elem_of_cons; [by subst|]. destruct (rep_in _ _ _ _ Hrep Hi) as [? E]. congruence.
Qed.

(** ** Search and traversal *)

Lemma search_spec fuel h p t x : rep h p t -> sorted t -> (height t < fuel)%nat ->
  exists a, nv_rb_search fuel h (addr t) x = Ret a /\ (a = NULL <-> x ∉ keys t) /\
    (a <> NULL -> exists n, h !! a = Some n /\ data n = x).
Proof.
  unfold sorted. revert p fuel. induction t as [|b c l IHl y r IHr]; intros p fuel Hrep Hs Hf; (destruct fuel as [|fuel]; [lia|]).
  { exists NULL. split; [done|]. split; [|done]. split; [intros _; apply not_elem_of_nil|done]. }
  cbn [keys height nv_rb_search addr] in *. apply sorted_node in Hs as (Hsl & Hsr & Hly & Hry).
  rewrite Forall_forall in Hly. rewrite Forall_forall in Hry. destruct Hrep as (Hb & Eb & Hl & Hr).
  destruct (Z.eqb_spec b NULL); [done|]. rewrite Eb. cbn [deref mbind outcome_bind data left right].
  destruct (Z.eqb_spec y x) as [->|Hne].
  { exists b. split; [done|]. split; [split; [done|]; intros []; set_solver|]. eauto. }
  destruct (Z.ltb_spec y x) as [Hlt|Hge].
  - destruct (IHr b fuel Hr Hsr) as (a & -> & Ha & Hd); [lia|]. exists a. split; [done|]. split; [|done]. rewrite Ha.
    split; intros Hx; [|set_solver]. intros [Hi|[->|Hi]%elem_of_cons]%elem_of_app; [apply Hly in Hi; lia|done|done].
  - destruct (IHl b fuel Hl Hsl) as (a & -> & Ha & Hd); [lia|]. exists a. split; [done|]. split; [|done]. rewrite Ha.
    split; intros Hx; [|set_solver]. intros [Hi|[->|Hi]%elem_of_cons]%elem_of_app; [done|done|apply Hry in Hi; lia].
Qed.
Lemma inorder_spec fuel h p t : rep h p t -> (height t < fuel)%nat -> nv_rb_inorder fuel h (addr t) = Ret (keys t).
Proof.
  revert p fuel. induction t as [|b c l IHl y r IHr]; intros p fuel Hrep Hf; (destruct fuel as [|fuel]; [lia|]); [done|].
  cbn [height nv_rb_inorder addr keys] in *. destruct Hrep as (Hb & Eb & Hl & Hr). destruct (Z.eqb_spec b NULL); [done|].
  rewrite Eb. cbn [deref mbind outcome_bind left right data].
  rewrite (IHl b), (IHr b) by (done || lia). done.
Qed.

(** ** Calls in a row *)

(** No object lives at NULL. *)
Definition null_free (h : heap) : Prop := h !! NULL = None.
Lemma store_null_free h a f h' : store h a f = Ret h' -> null_free h -> null_free h'.
Proof.
  unfold store, null_free. destruct (h !! a) eqn:E; [|done]. intros [= <-] Hn.
  destruct (decide (a = NULL)) as [->|]; [congruence|]. by rewrite lookup_alter_ne.
Qed.
(** Runs through the statements of a routine that returned. *)
Ltac returned :=
  repeat match goal with
    | H : Ret _ = Ret _ |- _ => progress simplify_eq
    | H : mbind _ _ = Ret _ |- _ => apply bind_inv in H as (? & ? & H)
    | H : store _ _ _ = Ret _ |- _ => apply store_null_free in H; [|by eauto]
    | x : _ * _ |- _ => destruct x
    | H : (if ?b then _ else _) = Ret _ |- _ => destruct b
    end; try done.

Lemma rotate_null_free d h root pt h' root' : rotate d h root pt = Ret (h', root') -> null_free h -> null_free h'.
Proof. unfold rotate. intros H Hn. returned. Qed.

Lemma fix_step_null_free h root pt h' root' pt' : fix_step h root pt = Ret (h', root', pt') -> null_free h -> null_free h'.
Proof. unfold fix_step. intros H Hn. pose proof rotate_null_free. returned; eauto. Qed.
Lemma fix_loop_null_free fuel h root pt h' root' : fix_loop fuel h root pt = Ret (h', root') -> null_free h -> null_free h'.
Proof.
  revert h root pt. induction fuel as [|fuel IH]; intros h root pt H Hn; [done|]. cbn [fix_loop] in H.
  pose proof fix_step_null_free. returned; eauto.
Qed.
Lemma insertBST_null_free fuel h root pt h' root' : nv_rb_insertBST fuel h root pt = Ret (h', root') -> null_free h -> null_free h'.
Proof.
  revert h root h' root'. induction fuel as [|fuel IH]; intros h root h' root' H Hn; [done|]. cbn [nv_rb_insertBST] in H.
  returned; match goal with E : nv_rb_insertBST _ _ _ _ = _ |- _ => apply IH in E; [|done] end; returned.
Qed.
Lemma insert_null_free h root pt x h' root' : nv_rb_insert h root (Some pt) x = Ret (h', root') -> pt <> NULL -> null_free h -> null_free h'.
Proof.
  unfold nv_rb_insert, nv_rb_insertFix. cbn [nv_rb_newNode mbind outcome_bind]. intros H Hpt Hn.
  assert (null_free (<[pt := mkNode x RED NULL NULL NULL]> h)) as H0 by (unfold null_free; by rewrite lookup_insert_ne).
  apply bind_inv in H as ([h1 r1] & E1 & H). apply insertBST_null_free in E1; [|done].
  apply bind_inv in H as ([h2 r2] & E2 & H). apply fix_loop_null_free in E2; [|done]. returned.
Qed.

(** Insertions of [xs] one after another into an empty tree; [malloc] gives each new node
    an address. *)
Fixpoint insert_all (malloc : heap -> Z) (h : heap) (root : Z) (xs : list Z) : outcome (heap * Z) :=
  match xs with
  | [] => Ret (h, root)
  | x :: xs' => '(h, root) ← nv_rb_insert h root (Some (malloc h)) x; insert_all malloc h root xs'
  end.

Section Calls.
Variable malloc : heap -> Z.
(** [malloc] gives memory that is not in use, never NULL. *)
Hypothesis malloc_fresh : forall h, malloc h <> NULL /\ h !! malloc h = None.

Lemma insert_all_spec h root ks xs : holds h root ks -> null_free h ->
  if decide (NoDup (xs ++ ks)) then
    exists h' root' ks', insert_all malloc h root xs = Ret (h', root') /\ holds h' root' ks' /\ ks' ≡ₚ xs ++ ks
  else (NoDup ks -> insert_all malloc h root xs = UB).
Proof using malloc_fresh.
  revert h root ks. induction xs as [|x xs IH]; intros h root ks Hh Hn; cbn [app insert_all].
  { destruct (decide (NoDup ks)); [|done]. by exists h, root, ks. }
  destruct (malloc_fresh h) as [Hm Hf]. destruct (decide (x ∈ ks)) as [Hx|Hx].
  - rewrite (insert_old h root ks x (malloc h)) by done. rewrite decide_False; [done|].
    intros [Hnx _]%NoDup_cons. set_solver.
  - destruct (insert_new h root ks x (malloc h) Hh Hx Hm Hf) as (h1 & root1 & ks1 & E & Hh1 & Hp).
    rewrite E. cbn [mbind outcome_bind]. apply insert_null_free in E; [|done|done].
    specialize (IH h1 root1 ks1 Hh1 E).
    assert (xs ++ ks1 ≡ₚ x :: xs ++ ks) as Hp' by (rewrite Hp; perm).
    destruct (decide (NoDup (xs ++ ks1))) as [Hd|Hd].
    + rewrite decide_True by (by rewrite <- Hp'). destruct IH as (h' & root' & ks' & E' & Hh' & Hk').
      exists h', root', ks'. split_and!; try done. by rewrite Hk'.
    + rewrite decide_False by (by rewrite <- Hp'). intros Hks. apply IH. rewrite Hp. by constructor.
Qed.
End Calls.

Lemma holds_empty : holds ∅ NULL [].
Proof. exists Leaf, 0%nat. split_and!; try done; [by split_and!; [|constructor|]|constructor|constructor]. Qed.
Lemma holds_sorted h root ks : holds h root ks -> StronglySorted Z.lt ks /\ (length ks <= size h)%nat.
Proof.
  intros (t & n & (Hr & Hn & _) & Hs & _ & _ & <-). split; [done|]. rewrite <- length_addrs. by eapply addrs_size.
Qed.

(** ** Properties *)

(** C18: an insertion of a key that the tree does not hold, with an address from [malloc]
    that is not in use, returns; the tree at the new root is a red-black tree again (ordered,
    no red node with a red child, as many black nodes on every path, parent pointers right)
    and holds exactly the old keys and the new one. *)
Theorem nv_rb_insert_spec h root ks x pt :
  holds h root ks -> x ∉ ks -> pt <> NULL -> h !! pt = None ->
  exists h' root' ks', nv_rb_insert h root (Some pt) x = Ret (h', root') /\ holds h' root' ks' /\
    ks' ≡ₚ x :: ks /\ StronglySorted Z.lt ks'.
Proof.
  intros Hh Hx Hpt Hf. destruct (insert_new h root ks x pt Hh Hx Hpt Hf) as (h' & root' & ks' & E & Hh' & Hp).
  exists h', root', ks'. split_and!; try done. by apply holds_sorted in Hh' as [? _].
Qed.
Lemma nv_rb_insert_spec_witness : exists h' root' ks', nv_rb_insert ∅ NULL (Some 64) 5 = Ret (h', root') /\ holds h' root' ks' /\
  ks' ≡ₚ [5] /\ StronglySorted Z.lt ks'.
Proof. apply (nv_rb_insert_spec ∅ NULL [] 5 64); [exact holds_empty|apply not_elem_of_nil|done|done]. Defined.

(** An insertion of a key that the tree holds already dereferences NULL: the descent does
    not attach the new node, and the repair loop reads the colour of its parent. *)
Theorem nv_rb_insert_duplicate h root ks x pt :
  holds h root ks -> x ∈ ks -> pt <> NULL -> h !! pt = None -> null_free h -> nv_rb_insert h root (Some pt) x = UB.
Proof. apply insert_old. Qed.
Lemma nv_rb_insert_duplicate_witness :
  let h := <[64 := mkNode 5 BLACK NULL NULL NULL]> ∅ in nv_rb_insert h 64 (Some 96) 5 = UB.
Proof.
  apply (nv_rb_insert_duplicate _ 64 [5] 5 96); [|by constructor|done|done|done].
  exists (Node 64 BLACK Leaf 5 Leaf), 1%nat. split_and!; [|by repeat constructor|by repeat constructor|done|done].
  split_and!; [by split_and!|apply NoDup_singleton|done].
Defined.

(** A search in a tree of [n] keys returns after at most [2 log2 (n + 1)] levels, gives
    NULL exactly when no node has the key, and a node with the key otherwise. *)
Theorem nv_rb_search_log h root ks x : holds h root ks ->
  exists a, nv_rb_search (S (2 * Nat.log2 (length ks + 1))) h root x = Ret a /\ (a = NULL <-> x ∉ ks) /\
    (a <> NULL -> exists n, h !! a = Some n /\ data n = x).
Proof.
  intros (t & n & (Hr & _ & ->) & Hs & Hm & Hb & <-). apply (search_spec _ _ NULL); [done|done|].
  pose proof (rb_log t n Hm Hb). lia.
Qed.
Lemma nv_rb_search_log_witness : exists a, nv_rb_search 1 ∅ NULL 5 = Ret a /\ (a = NULL <-> 5 ∉ ([] : list Z)) /\
  (a <> NULL -> exists n, (∅ : heap) !! a = Some n /\ data n = 5).
Proof. apply (nv_rb_search_log ∅ NULL [] 5). exact holds_empty. Defined.

(** C16: insertions of [xs] into an empty tree implement a sorted set: when the keys are
    different they all return, the traversal prints exactly [xs] in increasing order, and the
    search answers membership; when a key comes twice the behaviour is undefined. *)
Theorem nv_rb_refines_set malloc xs :
  (forall h, malloc h <> NULL /\ h !! malloc h = None) ->
  if decide (NoDup xs) then
    exists h root ks, insert_all malloc ∅ NULL xs = Ret (h, root) /\ holds h root ks /\
      nv_rb_inorder (S (size h)) h root = Ret ks /\ ks ≡ₚ xs /\ StronglySorted Z.lt ks
  else insert_all malloc ∅ NULL xs = UB.
Proof.
  intros Hm. pose proof (insert_all_spec malloc Hm ∅ NULL [] xs holds_empty eq_refl) as H. rewrite app_nil_r in H.
  destruct (decide (NoDup xs)) as [_|_]; [|by apply H; constructor]. destruct H as (h & root & ks & E & Hh & Hp).
  exists h, root, ks. pose proof (holds_sorted _ _ _ Hh) as [Hs Hz]. split_and!; try done.
  destruct Hh as (t & n & (Hr & Hn & ->) & _ & _ & _ & <-). apply (inorder_spec _ _ NULL); [done|].
  pose proof (height_addrs t). rewrite length_addrs in *. lia.
Qed.
Lemma nv_rb_refines_set_witness :
  let malloc h := fresh ({[NULL]} ∪ dom h : gset Z) in
  (exists h root ks, insert_all malloc ∅ NULL [3; 1; 2] = Ret (h, root) /\ holds h root ks /\
    nv_rb_inorder (S (size h)) h root = Ret ks /\ ks ≡ₚ [3; 1; 2] /\ StronglySorted Z.lt ks) /\
  insert_all malloc ∅ NULL [3; 3] = UB.
Proof.
  intros malloc. assert (forall h, malloc h <> NULL /\ h !! malloc h = None) as Hm.
  { intros h. pose proof (is_fresh ({[NULL]} ∪ dom h : gset Z)) as Hf. rewrite not_elem_of_union, not_elem_of_singleton, not_elem_of_dom in Hf.
    exact Hf. }
  split; [exact (nv_rb_refines_set malloc [3; 1; 2] Hm)|exact (nv_rb_refines_set malloc [3; 3] Hm)].
Defined.

End RbInsert.
